(* ===== verification/_CoqProject ===== *)
-Q . S2P
Prelude.v
Lru.v
LruSpec.v
LruProps.v
F64.v
OrdMap.v
RedBlack.v
ScoreTable.v
ScoreTableFacts.v
Model.v
ModelProps.v
Rounding.v
StakeModel.v
MinMax.v
Wire.v
Stats.v
Timer.v
Que.v
Core.v
CoreProps.v
Wireformat.v
Banking.v
BankingProps.v
Mpsc.v
Rng.v
Agent.v
AgentProps.v
TxPatch.v
Text.v
Display.v
Engine.v
EngineProps.v
Traffic.v
Analysis.v
Qos.v
QosProps.v
DemoProps.v
MockBanking.v
MockProps.v
System.v
EndToEnd.v
Monitor.v
Setup.v
Main.v
Screens.v
Tests.v
Examples.v
