(* ===== verification/Prelude.v ===== *)
(** * A verification of the Solana QoS service

    The service sits between the network and the signature verification of a Solana
    validator.  It reads packets from shared-memory channels, parses and filters them,
    scores each transaction by the history of its source address and of its signer and
    by the fee it offers, keeps the best ones in a bounded queue, and passes a batch of
    them on every 100 milliseconds.  What the validator reports back (failed signatures,
    execution times, confirmed signatures) updates the scores and the filters.

    ** Parts of the program and the files that model them

    The program under [src/]                              the files here
    - [lru/src/lib.rs], the cache of fixed capacity:
      doubly linked list in an array, free list, map      [Lru], [LruSpec], [LruProps]
    - [model/src], score tables by address and signer
      with inverse trees, trait [QoSModel],
      [models/ip_signer.rs]                               [F64], [OrdMap], [RedBlack], [ScoreTable],
                                                          [ScoreTableFacts], [Model], [ModelProps]
    - [models/ip_signer_stake.rs]                         [Rounding], [StakeModel]
    - [minmax/src/lib.rs], the bounded priority queue     [MinMax]
    - [common/src] and [internal-common/src], packets,
      hashes, signature keys, metadata                    [Wire]
    - [common/src/shared_stats.rs], counters and their
      shared copy behind a spin lock                      [Stats]
    - [timer/src/lib.rs]                                  [Timer]
    - [mpsc/src/lib.rs]                                   [Mpsc] (over the channels of [Que])
    - [qos-core/src/lib.rs], [error.rs], one packet       [Core], [CoreProps]
    - [qos-core/src/banking.rs], the queue to sigverify   [Banking], [BankingProps]
    - [qos/src/main.rs], [common/src/ipc_parameters.rs],
      the loop, stage by stage; the whole of [main];
      the [demo] feature                                  [Qos], [QosProps], [Main], [DemoProps]
    - [engine/src], generators of traffic: [rng.rs],
      [agent.rs], [lib.rs]                                [Rng], [Agent], [AgentProps], [Text],
                                                          [Engine], [EngineProps]
      the transactions they overwrite and what the
      service reads from them                             [Wireformat], [TxPatch], [Traffic]
    - [engine-ipc/src/main.rs], a mock of the validator   [MockBanking], [MockProps]
    - generators, funnels, service and mock together      [System], [EndToEnd]
    - [engine-ipc/src/tui.rs], [ipc-demo], [std-demo]:
      the numbers they show                               [Monitor] (modules [Tui], [IpcDemo], [StdDemo])
      decimals, the event loop                            [Display]
      the text they draw, set-up, display                 [Screens] (modules [TuiScreen], [IpcScreen], [StdScreen])
    - [packet-analysis/src/main.rs]                       [Analysis]
    - [cli/src/main.rs], [common/src/lib.rs]              [Setup]
    - unit tests in the sources                           [Tests] (a module per tested file)
    - the programs under [examples/]                      [Examples] (a module per crate)

    The engine and the mock stand at the two ends of the service: generators push packets
    into channels of their own, a funnel per engine moves them into a channel of the
    service, the service passes a selection on to the mock, and the mock sends back failed
    packets, execution times and signatures.  The theorems about the three programs meet
    at the channels: the mock is proved against what the service sends ([forwardable]).
    [System] puts the threads together: an action is one iteration of a generator, of a
    funnel or of the mock, or one stage of an iteration of the service, with channels that
    may lose, repeat and reorder messages but invent none.  The lemmas about each component
    take the source of its packets as a parameter ([src]), so that [System] can follow a
    packet from the agent that made it to the report of its failure.

    The agents do not build their transactions: they overwrite fixed ranges of a prepared
    one.  [Wireformat] writes down the documented format of a transaction, [TxPatch] shows
    that overwriting these ranges is changing a field, [Traffic] that the service reads the
    fields back, and [EndToEnd] what follows for the system of all threads.

    Definitions keep the names of the functions they translate, with a prefix where a
    name would be ambiguous ([mm_push] for [MinMaxHeap::push], [container_new] for
    [TransactionContainer::new], [timer_new] for [Timer::new]).  A [struct] is a record
    with the same fields; a method that takes [&mut self] returns the new value.

    ** Conventions

    - A computation is an [outcome]: a value, a panic, or undefined behaviour.  Every
      [unwrap], [unreachable!], checked index, integer division, unchecked access and
      transmutation of the modelled code is written out, including the [unwrap]s on
      creating, writing and flushing a log, so a theorem that a function returns [Ret] says
      that none of them goes wrong.
    - Files: which of them can be created, and which of the writes to each fail and after
      how many bytes, is part of the environment ([file_system], [File]).  A [BufWriter]
      has the buffer of the standard library; only what has left it is in the file.
    - Unsigned integers are [Z] with the wrap-around of the release profile; lengths and
      indices that are bounded by memory are [nat].  Floats are IEEE 754 binary64
      ([SpecFloat]).
    - Crates outside the repository are type classes: the operations the program calls,
      and the documented behaviour it relies on as laws ([OrderedFloatOps]/[Laws] for
      ordered-float, [SokobanOps]/[Laws] for the red-black tree of sokoban,
      [HeapOps]/[Laws] for min-max-heap, [QueOps]/[Laws] for que, [PacketOps]/[Laws] for
      solana_sdk's packet, [ViewOps]/[Laws] and [RawViewOps]/[Laws] for agave_transaction_view,
      [HashOps] and [ConstHashOps]/[HashLaws] for xxhash_rust, [KeyOps]/[Laws],
      [EntropyOps]/[Laws] and [TxOps]/[Laws] for solana_sdk's keys, hashes and
      transactions, [BincodeOps], [WireLaws] and [CompileLaws] for the bytes of a transaction,
      [UniqueLaws] and [DataLaws] for fresh keys and the data of a packet, [DistOps]/[Laws]
      and [ChooseOps]/[Laws] for rand and rand_distr, [NpzOps] for ndarray_npy, [SysOps]/[Laws]
      for the system calls of libc).  Each has a reference instance ([ref_...]) that satisfies the laws; the
      witnesses evaluate the program on these.
    - The processes at the other end of the channels are arbitrary: a consumer is an
      abstract state with a [pop]; [yields] and [drains] name the messages it delivers.

    ** Fuel

    Loops that run until a channel is empty, the calibration loops of the timer and the
    loops over the queue take fuel and yield [NoFuel] without it.  The loops over the
    queue take one unit more than the queue has elements, which is always enough
    ([filter_next_run], [send_loop_run]).  The loops of the service over its three feedback
    channels ([while let Some(..) = pop()]) have no bound in the source: other processes
    may fill a channel as fast as it is read.  They need one unit more than the messages
    they find, and the theorems about the service say both: with any fuel, it returns or
    one of these channels has yielded [fuel] messages in a row ([overrun], [floods]); and
    it returns when they are found empty after fewer ([served], [channels_ok]).  The
    calibration loops need as many units as the clock takes readings to advance by a second,
    which [clock_advances] provides; waiting for a consumer takes one unit per reading of its
    heartbeat.  [fill_bytes] takes one unit more than the destination has bytes.  The
    endless loops of the service, the engine and the mock take a number of iterations, and
    their theorems hold for every number.  The loop of a terminal program takes the list of
    its rounds, and its theorems say that it ends with the first round in which the key is
    pressed or the terminal fails.  Integers are printed with at most 310 digits, more than
    the greatest float has.  The theorems state [Ret ...], so they include termination, or
    name the case in which a loop does not end.

    ** What the theorems show

    - Cache: every sequence of operations refines an abstract list ordered by recency,
      with no undefined behaviour; documented results of [put]; retention; removal.
    - Model: tables and inverse trees agree in every reachable state; what scoring,
      feedback, batch updates and pruning do to each score.  The model with stakes
      simulates the one without, and its multiplier stays between one and two through all
      roundings when the stakes are sensible.
    - Priority queue: it keeps the greatest values, and drains in descending order.
    - Packets: identity of the hash preimage, collisions of signature keys, round trip of
      the scheduler's metadata.
    - Statistics: the shared copy is linearizable under any interleaving, resets are not
      lost; whoever holds the lock releases it within a bounded number of its own steps,
      under any schedule.
    - Timer: whole milliseconds on a calibrated machine; calibration terminates.
    - One packet: no panic for any bytes, each packet counted exactly once, the exact
      conditions and effects of acceptance, no packet accepted twice while remembered,
      the fee formula and its overflow, and the address that feedback really reaches.
    - Batches: content, order and conservation, pace and size limits.
    - Service: the loops do what they should with the messages they find, and the whole
      service keeps its invariant for any number of iterations: no panic, consistent
      tables, bounded queues, and every packet accounted for; an iteration ends unless a
      feedback channel never runs dry.  Everything it
      sends on is a packet the signature verification can handle.  With the [demo] feature
      the same holds while a monitor resets and reads the shared statistics.  After the
      command line tool has created the channels, [main] joins them, gives up root, and
      reaches that loop, or stops when it cannot give up root.
    - System: under any interleaving of all threads none ever fails, but for I/O errors of
      the logs and feedback channels that never run dry; every packet that reaches the mock was made by an agent, and every packet reported as failed had been
      sent by the service.  Every message on the way is a whole transaction or empty, and no
      empty one reaches the signature verification.
    - Engine: random bytes, the packets of the agents, what the generators push and log,
      and a funnel that loses, invents and reorders nothing.  Each update in place changes
      one field of the transaction and nothing else; the service finds in it the signature,
      the payer and the price of the agent, and computes its fee and score from them.
    - Mock validator: its verdict on each packet, and counters that account for every
      message; the monitor's differences of these counters, and when they wrap around; its
      screens are drawn until the key is pressed, with decimals rounded to the nearest.
    - Tools: the analysis reads back what was logged and flushed; the command line creates the channels
      the service joins; dropping privileges changes group and user or says what failed;
      the threads of the demo lose nothing.
    - Tests and examples: the unit tests pass in the model for every heap, allocation and
      padding and an SDK that keeps to the format, except one that reads beyond its buffer;
      what the examples print.

    ** Not modelled

    Logging, signals, the parsing of arguments, the naming, pinning and joining of threads;
    the libraries the programs call (terminal, hash, transaction parser, trees, heap,
    channels, npz files), which are parameters; memory orderings weaker than sequential
    consistency; configurations other than x86 and Linux; and the benchmarks, which only time
    operations modelled here. *)
From Stdlib Require Import ZArith Lia.
From stdpp Require Import gmap list.

(** ** Outcomes of Rust code

    A Rust expression yields a value, panics, or runs into undefined
    behaviour.  [UB] is what an [unsafe] block reaches when the condition it
    takes for granted does not hold: [get_unchecked] out of range,
    [unwrap_unchecked] on [None].  [NoFuel] is not a behaviour of the code: a loop
    that is translated with fuel yields it when the fuel runs out, so a theorem that
    the code returns a value shows that the fuel was enough. *)
Inductive outcome (A : Type) : Type :=
| Ret (a : A)
| Panic
| UB
| NoFuel.
Arguments Ret {A} a.
Arguments Panic {A}.
Arguments UB {A}.
Arguments NoFuel {A}.

#[global] Instance outcome_ret : MRet outcome := λ A a, Ret a.
#[global] Instance outcome_bind : MBind outcome := λ A B f m,
  match m with Ret a => f a | Panic => Panic | UB => UB | NoFuel => NoFuel end.
#[global] Instance outcome_fmap : FMap outcome := λ A B f m,
  match m with Ret a => Ret (f a) | Panic => Panic | UB => UB | NoFuel => NoFuel end.

(** [opt.unwrap()] and [opt.unwrap_unchecked()]. *)
Definition unwrap {A} (o : option A) : outcome A :=
  match o with Some a => Ret a | None => Panic end.
Definition unwrap_unchecked {A} (o : option A) : outcome A :=
  match o with Some a => Ret a | None => UB end.

(** [m] runs to a value that satisfies [Q]: it neither panics nor reaches
    undefined behaviour. *)
Definition returns {A} (m : outcome A) (Q : A → Prop) : Prop :=
  ∃ a, m = Ret a ∧ Q a.

Lemma bind_Ret {A B} (a : A) (f : A → outcome B) : (Ret a ≫= f) = f a.
Proof. done. Qed.

Lemma bind_assoc {A B C} (m : outcome A) (f : A → outcome B) (g : B → outcome C) :
  ((m ≫= f) ≫= g) = (m ≫= λ a, f a ≫= g).
Proof. by destruct m. Qed.

Lemma returns_bind {A B} (m : outcome A) (f : A → outcome B) P Q :
  returns m P → (∀ a, P a → returns (f a) Q) → returns (m ≫= f) Q.
Proof. intros (a & -> & Ha) Hf. by apply Hf. Qed.

Lemma returns_mono {A} (m : outcome A) (P Q : A → Prop) :
  (∀ a, P a → Q a) → returns m P → returns m Q.
Proof. intros HPQ (a & -> & Ha). exists a. eauto. Qed.

(** ** [Vec] as a stack: [push] and [pop] work at the end. *)
Definition vec_push {A} (l : list A) (x : A) : list A := l ++ [x].
Definition vec_pop {A} (l : list A) : option A * list A :=
  match last l with
  | Some x => (Some x, take (length l - 1) l)
  | None => (None, l)
  end.

Lemma vec_pop_snoc {A} (l : list A) x : vec_pop (l ++ [x]) = (Some x, l).
Proof.
  unfold vec_pop. rewrite last_snoc, length_app. simpl.
  replace (length l + 1 - 1) with (length l) by lia. by rewrite take_app_length.
Qed.

Lemma list_snoc_inv {A} (l : list A) : l = [] ∨ ∃ l' x, l = l' ++ [x].
Proof. induction l using rev_ind; eauto. Qed.

(** ** Lists *)
Lemma filter_fmap {A B} (P : B → Prop) `{!∀ x, Decision (P x)} (f : A → B) (l : list A) :
  filter P (f <$> l) = f <$> filter (λ a, P (f a)) l.
Proof.
  induction l as [|a l IH]; [done|]. rewrite fmap_cons. destruct (decide (P (f a))).
  - by rewrite !filter_cons_True, IH.
  - by rewrite !filter_cons_False, IH.
Qed.

(** ** Machine integers

    A [w]-bit unsigned integer is a [Z] in [0, 2^w).  The arithmetic operators of
    the release profile wrap around. *)
Local Open Scope Z_scope.

Definition wrap (w x : Z) : Z := x mod 2 ^ w.
Definition in_u (w x : Z) : Prop := 0 ≤ x < 2 ^ w.
Definition u8_ok : Z → Prop := in_u 8.
Definition u32_ok : Z → Prop := in_u 32.
Definition u64_ok : Z → Prop := in_u 64.
Definition u64_max : Z := 2 ^ 64 - 1.

Definition u32_add (a b : Z) : Z := wrap 32 (a + b).
Definition u64_add (a b : Z) : Z := wrap 64 (a + b).
Definition u64_sub (a b : Z) : Z := wrap 64 (a - b).
Definition u64_mul (a b : Z) : Z := wrap 64 (a * b).

Declare Scope rust_scope.
Delimit Scope rust_scope with rust.
Infix "+64" := u64_add (at level 50, left associativity) : rust_scope.
Infix "-64" := u64_sub (at level 50, left associativity) : rust_scope.
Infix "*64" := u64_mul (at level 40, left associativity) : rust_scope.
Infix "+32" := u32_add (at level 50, left associativity) : rust_scope.

Lemma wrap_in_u w x : 0 ≤ w → in_u w (wrap w x).
Proof. intros Hw. apply Z.mod_pos_bound. by apply Z.pow_pos_nonneg. Qed.

Lemma wrap_id w x : in_u w x → wrap w x = x.
Proof. apply Z.mod_small. Qed.

Lemma u64_add_small a b : in_u 64 (a + b) → u64_add a b = a + b.
Proof. apply wrap_id. Qed.

Lemma wrap_add_l w a b : wrap w (wrap w a + b) = wrap w (a + b).
Proof. apply Zplus_mod_idemp_l. Qed.

Lemma wrap_add_r w a b : wrap w (a + wrap w b) = wrap w (a + b).
Proof. apply Zplus_mod_idemp_r. Qed.

Lemma wrap_wrap w a : wrap w (wrap w a) = wrap w a.
Proof. apply Zmod_mod. Qed.

(** ** Little-endian bytes: [to_le_bytes] and [from_le_bytes] *)
Fixpoint to_le_bytes (n : nat) (x : Z) : list Z :=
  match n with
  | O => []
  | S n => x mod 256 :: to_le_bytes n (x / 256)
  end.

Fixpoint from_le_bytes (l : list Z) : Z :=
  match l with
  | [] => 0
  | b :: l => b + 256 * from_le_bytes l
  end.

Lemma length_to_le_bytes n x : length (to_le_bytes n x) = n.
Proof. revert x. induction n as [|n IH]; intros x; simpl; [done|]. by rewrite IH. Qed.

Lemma to_le_bytes_u8 n x : Forall u8_ok (to_le_bytes n x).
Proof.
  revert x. induction n as [|n IH]; intros x; simpl; constructor; [|done].
  unfold u8_ok, in_u. pose proof (Z.mod_pos_bound x 256). lia.
Qed.

Lemma from_le_bytes_bound l : Forall u8_ok l → 0 ≤ from_le_bytes l < 256 ^ Z.of_nat (length l).
Proof.
  induction 1 as [|b l Hb Hl IH]; [done|]. cbn [from_le_bytes length].
  unfold u8_ok, in_u in Hb. rewrite Nat2Z.inj_succ, Z.pow_succ_r by lia. lia.
Qed.

Lemma from_to_le_bytes n x : from_le_bytes (to_le_bytes n x) = x mod 256 ^ Z.of_nat n.
Proof.
  revert x. induction n as [|n IH]; intros x; cbn [to_le_bytes from_le_bytes].
  { by rewrite Z.mod_1_r. }
  rewrite IH, Nat2Z.inj_succ, Z.pow_succ_r, Z.rem_mul_r by lia. lia.
Qed.

Lemma to_from_le_bytes l : Forall u8_ok l → to_le_bytes (length l) (from_le_bytes l) = l.
Proof.
  induction 1 as [|b l Hb Hl IH]; [done|]. cbn [from_le_bytes length to_le_bytes].
  unfold u8_ok, in_u in Hb.
  replace ((b + 256 * from_le_bytes l) mod 256) with b by
    (rewrite Z.mul_comm, Z_mod_plus_full; symmetry; apply Z.mod_small; lia).
  replace ((b + 256 * from_le_bytes l) / 256) with (from_le_bytes l); [by rewrite IH|].
  rewrite Z.mul_comm, Z_div_plus_full, Z.div_small by lia. lia.
Qed.

Lemma from_le_bytes_inj l1 l2 :
  length l1 = length l2 → Forall u8_ok l1 → Forall u8_ok l2 →
  from_le_bytes l1 = from_le_bytes l2 → l1 = l2.
Proof.
  intros Hlen H1 H2 Heq. rewrite <- (to_from_le_bytes l1), <- (to_from_le_bytes l2) by done.
  by rewrite Hlen, Heq.
Qed.

(** ** Total comparisons ([Ord]) *)
Class Ord (K : Type) := cmp : K → K → comparison.

Class OrdLaws (K : Type) `{Ord K} : Prop := {
  cmp_refl (x : K) : cmp x x = Eq;
  cmp_flip (x y : K) : cmp y x = CompOpp (cmp x y);
  cmp_lt_trans (x y z : K) : cmp x y = Lt → cmp y z = Lt → cmp x z = Lt;
  cmp_eq_l (x y z : K) : cmp x y = Eq → cmp x z = cmp y z;
}.

(** Comparisons whose equality is the equality of the values. *)
Class OrdEq (K : Type) `{Ord K} : Prop := cmp_eq (x y : K) : cmp x y = Eq ↔ x = y.

Lemma cmp_eq_sym `{OrdLaws K} (x y : K) : cmp x y = Eq → cmp y x = Eq.
Proof. intros E. by rewrite cmp_flip, E. Qed.

#[global] Instance ord_Z : Ord Z := Z.compare.
#[global] Instance ord_Z_laws : OrdLaws Z.
Proof.
  split; unfold cmp, ord_Z.
  - apply Z.compare_refl.
  - intros. apply Z.compare_antisym.
  - intros x y z. rewrite !Z.compare_lt_iff. lia.
  - intros x y z ->%Z.compare_eq_iff. done.
Qed.
#[global] Instance ord_Z_eq : OrdEq Z := Z.compare_eq_iff.

(** Arrays are compared lexicographically. *)
Fixpoint list_cmp `{Ord K} (l1 l2 : list K) : comparison :=
  match l1, l2 with
  | [], [] => Eq
  | [], _ :: _ => Lt
  | _ :: _, [] => Gt
  | x :: l1, y :: l2 => match cmp x y with Eq => list_cmp l1 l2 | c => c end
  end.
#[global] Instance ord_list `{Ord K} : Ord (list K) := list_cmp.
#[global] Instance ord_list_laws `{OrdLaws K} : OrdLaws (list K).
Proof.
  assert (Hgt : ∀ x y z : K, cmp x y = Lt → cmp y z = Eq → cmp x z = Lt).
  { intros x y z E1 E2. rewrite (cmp_flip z x), (cmp_eq_l z y x) by by apply cmp_eq_sym.
    by rewrite (cmp_flip x y), E1. }
  split; change (@cmp (list K) ord_list) with (@list_cmp K _).
  - induction x as [|x l IH]; simpl; [done|]. by rewrite cmp_refl.
  - induction x as [|x l IH]; intros [|y l']; simpl; try done.
    rewrite (cmp_flip x y). destruct (cmp x y); simpl; auto.
  - induction x as [|x l IH]; intros [|y l1] [|z l2]; simpl; try done.
    destruct (cmp x y) eqn:E1; try done; destruct (cmp y z) eqn:E2; try done.
    + rewrite (cmp_eq_l _ _ z E1), E2. apply IH.
    + by rewrite (cmp_eq_l _ _ z E1), E2.
    + by rewrite (Hgt _ _ _ E1 E2).
    + by rewrite (cmp_lt_trans _ _ _ E1 E2).
  - induction x as [|x l IH]; intros [|y l1] [|z l2]; simpl; try done;
      destruct (cmp x y) eqn:E1; try done.
    intros Heq. rewrite (cmp_eq_l _ _ z E1). destruct (cmp y z); auto.
Qed.
#[global] Instance ord_list_eq `{OrdEq K} : OrdEq (list K).
Proof.
  intros l1. unfold cmp, ord_list. induction l1 as [|x l1 IH]; intros [|y l2]; simpl; try done.
  destruct (cmp x y) eqn:E.
  - apply cmp_eq in E as ->. rewrite IH. naive_solver.
  - split; [done|]. intros [= -> ->]. by rewrite (proj2 (cmp_eq y y)) in E.
  - split; [done|]. intros [= -> ->]. by rewrite (proj2 (cmp_eq y y)) in E.
Qed.
