(* ===== verification/LruSpec.v ===== *)
(** Correctness of the LRU cache: the representation invariant [lru_repr], the
    abstract cache, and the refinement of the one by the other. *)
From stdpp Require Import gmap list.
From S2P Require Import Prelude Lru.

Create HintDb lru.

(** ** The abstract cache

    A cache of capacity [N] is the list of its entries, most recently used
    first, with pairwise different keys. *)
Section Abstract.
Context {K V : Type} `{Countable K}.
Implicit Types (l : list (K * V)) (k : K) (v : V).

Definition assoc k l : option V := (list_to_map l : gmap K V) !! k.
Definition drop_key k l : list (K * V) := filter (λ e, e.1 ≠ k) l.

Definition spec_get k l : option V * list (K * V) :=
  match assoc k l with
  | Some v => (Some v, (k, v) :: drop_key k l)
  | None => (None, l)
  end.

Definition spec_pop k l : option (K * V) * list (K * V) :=
  match assoc k l with
  | Some v => (Some (k, v), drop_key k l)
  | None => (None, l)
  end.

Definition spec_put (N : nat) k v l : (option (K * V) * bool) * list (K * V) :=
  match assoc k l with
  | Some _ => ((None, true), (k, v) :: drop_key k l)
  | None =>
     if decide (length l = N)
     then ((last l, false), (k, v) :: take (N - 1) l)
     else ((None, false), (k, v) :: l)
  end.

Lemma assoc_None k l : assoc k l = None ↔ k ∉ l.*1.
Proof. symmetry. apply not_elem_of_list_to_map. Qed.

Lemma drop_key_notin k l : k ∉ l.*1 → drop_key k l = l.
Proof.
  induction l as [|[k' v'] l IH]; intros Hk; [done|].
  unfold drop_key in *. apply not_elem_of_cons in Hk as [Hne Hk].
  rewrite filter_cons_True by (simpl in *; congruence). by rewrite IH.
Qed.

Lemma assoc_middle k v l1 l2 :
  NoDup ((l1 ++ (k, v) :: l2).*1) → assoc k (l1 ++ (k, v) :: l2) = Some v.
Proof. intros Hnd. apply elem_of_list_to_map; [done|]. set_solver. Qed.

Lemma drop_key_middle k v l1 l2 :
  NoDup ((l1 ++ (k, v) :: l2).*1) → drop_key k (l1 ++ (k, v) :: l2) = l1 ++ l2.
Proof.
  rewrite fmap_app, fmap_cons. intros (Hnd1 & Hdisj & Hnd2)%NoDup_app.
  apply NoDup_cons in Hnd2 as [Hk Hnd2].
  unfold drop_key. rewrite filter_app, filter_cons_False by naive_solver.
  fold (drop_key k l1) (drop_key k l2). rewrite !drop_key_notin; [done|done|].
  intros Hin. eapply Hdisj; [done|]. simpl. set_solver.
Qed.
End Abstract.

(** ** Linked segments of the slot array *)
Section Segments.
Context {K V : Type}.
Abbreviation Node := (Node K V).
Abbreviation entry := (nat * (K * V))%type.
Implicit Types (ns : list (option Node)) (es l : list entry) (p q o : option nat).

Definition hd_idx es q : option nat :=
  match es with [] => q | (i, _) :: _ => Some i end.
Definition last_idx p es : option nat :=
  match last es with None => p | Some (i, _) => Some i end.

(** [dll ns p es q]: the slots of [es] hold its entries, linked in order, the
    first one back to [p] and the last one on to [q]. *)
Fixpoint dll ns p es q : Prop :=
  match es with
  | [] => True
  | (i, (k, v)) :: es =>
     ns !! i = Some (Some (mkNode k v p (hd_idx es q))) ∧ dll ns (Some i) es q
  end.

(** Rewriting one field of the node at an optional slot. *)
Definition upd (f : Node → Node) o ns : list (option Node) :=
  match o with Some i => alter (fmap f) i ns | None => ns end.

Lemma length_upd f o ns : length (upd f o ns) = length ns.
Proof. destruct o; [apply length_alter|done]. Qed.

Lemma upd_ne f o ns i : o ≠ Some i → upd f o ns !! i = ns !! i.
Proof. destruct o as [j|]; [|done]. intros. apply list_lookup_alter_ne. congruence. Qed.

Lemma upd_eq f i ns n : ns !! i = Some (Some n) → upd f (Some i) ns !! i = Some (Some (f n)).
Proof. intros Hi. simpl. by rewrite list_lookup_alter_eq, Hi. Qed.

Lemma last_idx_cons p i kv es : last_idx p ((i, kv) :: es) = last_idx (Some i) es.
Proof. unfold last_idx. rewrite last_cons. by destruct (last es) as [[]|]. Qed.

Lemma last_idx_snoc p es i kv : last_idx p (es ++ [(i, kv)]) = Some i.
Proof. unfold last_idx. by rewrite last_snoc. Qed.

Lemma hd_idx_snoc es e q q' : hd_idx (es ++ [e]) q = hd_idx (es ++ [e]) q'.
Proof. by destruct e, es as [|[]]. Qed.

Lemma hd_idx_app es1 es2 q : hd_idx (es1 ++ es2) q = hd_idx es1 (hd_idx es2 q).
Proof. by destruct es1 as [|[]]. Qed.

Lemma last_idx_app p es1 es2 : last_idx p (es1 ++ es2) = last_idx (last_idx p es1) es2.
Proof.
  revert p. induction es1 as [|[i kv] es1 IH]; intros p; [done|].
  simpl. by rewrite !last_idx_cons.
Qed.

Lemma hd_idx_in es q i : hd_idx es q = Some i → q ≠ Some i → i ∈ es.*1.
Proof. destruct es as [|[j kv] es]; simpl; [done|]. set_solver. Qed.

Lemma last_idx_in p es i : last_idx p es = Some i → p ≠ Some i → i ∈ es.*1.
Proof.
  unfold last_idx. destruct (last es) as [[j kv]|] eqn:E; [|done].
  intros [= ->] _. apply last_Some_elem_of in E. apply list_elem_of_fmap. by exists (i, kv).
Qed.

Lemma dll_app ns p es1 es2 q :
  dll ns p (es1 ++ es2) q ↔
  dll ns p es1 (hd_idx es2 q) ∧ dll ns (last_idx p es1) es2 q.
Proof.
  revert p. induction es1 as [|[i [k v]] es1 IH]; intros p; simpl.
  - unfold last_idx. simpl. tauto.
  - rewrite IH, last_idx_cons, hd_idx_app. tauto.
Qed.

Lemma dll_frame ns ns' p es q :
  (∀ i, i ∈ es.*1 → ns' !! i = ns !! i) → dll ns p es q → dll ns' p es q.
Proof.
  revert p. induction es as [|[i [k v]] es IH]; intros p Hf; simpl; [done|].
  intros [Hi Hd]. split; [rewrite Hf; [done|set_solver]|]. apply IH; [set_solver|done].
Qed.

Lemma dll_upd_frame f o ns p es q :
  (∀ i, o = Some i → i ∉ es.*1) → dll ns p es q → dll (upd f o ns) p es q.
Proof.
  intros Ho. apply dll_frame. intros i Hi. apply upd_ne. intros ->. by apply (Ho i).
Qed.

Lemma dll_retarget_first ns p p' es q :
  NoDup es.*1 → dll ns p es q → dll (upd (with_prev p') (hd_idx es None) ns) p' es q.
Proof.
  destruct es as [|[i [k v]] es]; [done|]. intros [Hi _]%NoDup_cons [Hn Hd].
  cbn [hd_idx dll]. split; [by erewrite upd_eq by done|].
  apply dll_upd_frame; [|done]. by intros ? [= <-].
Qed.

Lemma dll_retarget_last ns p es q q' :
  NoDup es.*1 → dll ns p es q → dll (upd (with_next q') (last_idx None es) ns) p es q'.
Proof.
  destruct (list_snoc_inv es) as [->|(es' & [i [k v]] & ->)]; [done|].
  rewrite last_idx_snoc, fmap_app, !dll_app. cbn [dll hd_idx]. intros (_ & Hd & _)%NoDup_app [Hd1 [Hn _]].
  split_and!; [|by erewrite upd_eq by done|done].
  apply dll_upd_frame; [|done]. intros ? [= <-] Hin. apply (Hd _ Hin). set_solver.
Qed.

(** Unlinking the entry at slot [i]. *)
Lemma dll_unlink ns es1 i kv es2 :
  NoDup (es1 ++ (i, kv) :: es2).*1 →
  dll ns None (es1 ++ (i, kv) :: es2) None →
  dll (upd (with_prev (last_idx None es1)) (hd_idx es2 None)
        (upd (with_next (hd_idx es2 None)) (last_idx None es1) ns)) None (es1 ++ es2) None.
Proof.
  destruct kv as [k v]. rewrite fmap_app, fmap_cons, !dll_app. simpl.
  intros (Hnd1 & Hdisj & [Hi Hnd2]%NoDup_cons)%NoDup_app [Hd1 [_ Hd2]].
  split.
  - apply dll_upd_frame; [|by eapply dll_retarget_last].
    intros j Hj Hin. apply (Hdisj _ Hin). apply hd_idx_in in Hj; set_solver.
  - eapply dll_retarget_first; [done|]. apply dll_upd_frame; [|done].
    intros j Hj Hin. apply last_idx_in in Hj; [|done]. apply (Hdisj _ Hj). set_solver.
Qed.

(** Linking a fresh entry in front. *)
Lemma dll_push ns i k v es :
  NoDup es.*1 → i ∉ es.*1 →
  dll ns None es None →
  ns !! i = Some (Some (mkNode k v None (hd_idx es None))) →
  dll (upd (with_prev (Some i)) (hd_idx es None) ns) None ((i, (k, v)) :: es) None.
Proof.
  intros Hnd Hi Hd Hn. cbn [dll]. split; [|by eapply dll_retarget_first].
  rewrite upd_ne; [done|]. intros Hj. apply hd_idx_in in Hj; done.
Qed.

Lemma dll_lookup ns es1 i k v es2 :
  dll ns None (es1 ++ (i, (k, v)) :: es2) None →
  ns !! i = Some (Some (mkNode k v (last_idx None es1) (hd_idx es2 None))).
Proof. rewrite dll_app. by intros [_ [? _]]. Qed.
End Segments.

(** ** Running the node primitives *)
Section Primitives.
Context {K V : Type} `{Countable K}.
Implicit Types (c : LRUCache K V) (ns : list (option (Node K V))).

Definition is_node ns (i : nat) : Prop := ∃ n, ns !! i = Some (Some n).

Lemma upd_is_node f o ns i : is_node ns i → is_node (upd f o ns) i.
Proof.
  intros [n Hn]. destruct (decide (o = Some i)) as [->|Ho].
  - exists (f n). by apply upd_eq.
  - exists n. by rewrite upd_ne.
Qed.

Lemma upd_vacant f o ns i : ns !! i = Some None → upd f o ns !! i = Some None.
Proof.
  intros Hn. destruct (decide (o = Some i)) as [->|Ho]; [|by rewrite upd_ne].
  simpl. by rewrite list_lookup_alter_eq, Hn.
Qed.

Lemma insert_as_upd f i ns n :
  ns !! i = Some (Some n) → <[i := Some (f n)]> ns = upd f (Some i) ns.
Proof.
  intros Hi. rewrite list_insert_alter. apply list_alter_ext; [|done].
  intros x Hx. rewrite Hi in Hx. by injection Hx as <-.
Qed.

Lemma node_ref_run c i n : nodes c !! i = Some (Some n) → node_ref c i = Ret n.
Proof. intros Hi. unfold node_ref. by rewrite Hi. Qed.

Lemma node_mut_run c i f :
  is_node (nodes c) i → node_mut c i f = Ret (set_nodes c (upd f (Some i) (nodes c))).
Proof.
  intros [n Hi]. unfold node_mut. rewrite (node_ref_run _ _ _ Hi), bind_Ret.
  by rewrite (insert_as_upd _ _ _ _ Hi).
Qed.

Lemma node_mut_opt_run c o f :
  (∀ i, o = Some i → is_node (nodes c) i) →
  match o with Some i => node_mut c i f | None => Ret c end
  = Ret (set_nodes c (upd f o (nodes c))).
Proof.
  destruct o as [i|]; intros Ho; [by apply node_mut_run, Ho|]. by destruct c.
Qed.
End Primitives.
#[export] Hint Resolve upd_is_node upd_vacant : lru.

(** ** The representation invariant *)
Section Invariant.
Context {K V : Type} `{Countable K}.
Abbreviation entry := (nat * (K * V))%type.
Implicit Types (c : LRUCache K V) (es l : list entry).

(** The key index of a list of entries. *)
Definition index_of es : gmap K nat := list_to_map ((λ e, (e.2.1, e.1)) <$> es).

(** [lru_repr N c es]: the cache [c] of capacity [N] holds the entries [es], each
    with its slot, most recently used first. *)
Record lru_repr (N : nat) c es : Prop := {
  repr_len : length (nodes c) = N;
  repr_dll : dll (nodes c) None es None;
  repr_head : head c = hd_idx es None;
  repr_tail : tail c = last_idx None es;
  repr_map : map c = index_of es;
  repr_keys : NoDup es.*2.*1;
  repr_slots : free_list c ++ es.*1 ≡ₚ seq 0 N;
  repr_vacant : ∀ i, i ∈ free_list c → nodes c !! i = Some None;
}.

Definition lru_inv (N : nat) c (l : list (K * V)) : Prop := ∃ es, lru_repr N c es ∧ es.*2 = l.

Lemma repr_idx_nodup N c es : lru_repr N c es → NoDup es.*1.
Proof.
  intros Hr. pose proof (NoDup_seq 0 N) as Hnd. rewrite <- (repr_slots _ _ _ Hr) in Hnd.
  by apply NoDup_app in Hnd as (_ & _ & ?).
Qed.

Lemma repr_size N c es : lru_repr N c es → size (map c) = length es.
Proof.
  intros Hr. rewrite (repr_map _ _ _ Hr). unfold index_of.
  rewrite <- length_map_to_list, map_to_list_to_map, length_fmap; [done|].
  rewrite <- list_fmap_compose. pose proof (repr_keys _ _ _ Hr) as Hk.
  by rewrite <- list_fmap_compose in Hk.
Qed.

Lemma repr_count N c es : lru_repr N c es → length (free_list c) + length es = N.
Proof.
  intros Hr. pose proof (Permutation_length (repr_slots _ _ _ Hr)) as Hlen.
  by rewrite length_app, length_fmap, length_seq in Hlen.
Qed.

Lemma index_keys es : ((λ e : entry, (e.2.1, e.1)) <$> es).*1 = es.*2.*1.
Proof. by rewrite <- !list_fmap_compose. Qed.

Lemma index_of_Some es k i :
  NoDup es.*2.*1 → index_of es !! k = Some i → ∃ v, (i, (k, v)) ∈ es.
Proof.
  intros Hnd. unfold index_of. rewrite <- elem_of_list_to_map by (by rewrite index_keys).
  intros ([i' [k' v]] & [= -> ->] & Hin)%list_elem_of_fmap. by exists v.
Qed.

Lemma index_of_None es k : index_of es !! k = None ↔ k ∉ es.*2.*1.
Proof. rewrite <- index_keys. symmetry. apply not_elem_of_list_to_map. Qed.

Lemma index_of_perm es es' : NoDup es.*2.*1 → es ≡ₚ es' → index_of es = index_of es'.
Proof.
  intros Hnd Hp. apply list_to_map_proper; [by rewrite index_keys|]. by rewrite Hp.
Qed.

Lemma index_of_delete es1 i k v es2 :
  NoDup (es1 ++ (i, (k, v)) :: es2).*2.*1 →
  delete k (index_of (es1 ++ (i, (k, v)) :: es2)) = index_of (es1 ++ es2).
Proof.
  intros Hnd. rewrite (index_of_perm _ ((i, (k, v)) :: es1 ++ es2)) by
    (done || by rewrite Permutation_middle).
  rewrite <- Permutation_middle in Hnd. simpl in Hnd. apply NoDup_cons in Hnd as [Hk _].
  unfold index_of. simpl. apply delete_insert_id. by apply index_of_None.
Qed.

(** The key of a cached entry finds its slot; any other key finds nothing. *)
Lemma repr_lookup N c es k :
  lru_repr N c es →
  (∃ es1 i v es2, es = es1 ++ (i, (k, v)) :: es2 ∧ map c !! k = Some i) ∨
  (map c !! k = None ∧ k ∉ es.*2.*1).
Proof.
  intros Hr. rewrite (repr_map _ _ _ Hr).
  destruct (index_of es !! k) as [i|] eqn:E; [left|right].
  - destruct (index_of_Some _ _ _ (repr_keys _ _ _ Hr) E) as [v (es1 & es2 & ->)%list_elem_of_split].
    eauto 10.
  - by rewrite <- index_of_None.
Qed.
End Invariant.

(** ** The operations maintain the invariant *)
Section Operations.
Context {K V : Type} `{Countable K}.
Abbreviation entry := (nat * (K * V))%type.
Implicit Types (c : LRUCache K V) (es l : list entry) (k : K) (v : V).

Lemma dll_is_node (ns : list (option (Node K V))) p es q i :
  dll ns p es q → i ∈ es.*1 → is_node ns i.
Proof.
  revert p. induction es as [|[j [k v]] es IH]; intros p; simpl; [set_solver|].
  intros [Hj Hd] [->|Hi]%elem_of_cons; [by eexists|by eapply IH].
Qed.

Lemma new_repr N : lru_repr N (new N : LRUCache K V) [].
Proof.
  assert (Hfl : ∀ n fl, push_rev n fl ≡ₚ fl ++ seq 0 n).
  { induction n as [|n IH]; intros fl; simpl push_rev; [by rewrite app_nil_r|].
    rewrite IH, seq_S. unfold vec_push. simpl. by rewrite <- app_assoc, (Permutation_app_comm [n]). }
  split; simpl; try done.
  - apply length_replicate.
  - constructor.
  - by rewrite app_nil_r, Hfl.
  - intros i Hi. rewrite Hfl in Hi. apply elem_of_seq in Hi. apply lookup_replicate. split; [done|lia].
Qed.

(** [Hfind] facts about the neighbours of a slot of the list. *)
Lemma neighbours_are_nodes (ns : list (option (Node K V))) es1 e es2 :
  dll ns None (es1 ++ e :: es2) None →
  (∀ i, last_idx None es1 = Some i → is_node ns i) ∧
  (∀ i, hd_idx es2 None = Some i → is_node ns i) ∧
  (∀ i, hd_idx (es1 ++ e :: es2) None = Some i → is_node ns i).
Proof.
  intros Hd. split_and!; intros i Hi; eapply (dll_is_node _ _ _ _ _ Hd).
  - apply last_idx_in in Hi; [set_solver|done].
  - apply hd_idx_in in Hi; [set_solver|done].
  - by apply hd_idx_in in Hi.
Qed.

Lemma outside_neighbours es1 i kv es2 :
  NoDup (es1 ++ (i, kv) :: es2).*1 →
  last_idx None es1 ≠ Some i ∧ hd_idx es2 None ≠ Some i ∧ i ∉ (es1 ++ es2).*1.
Proof.
  rewrite !fmap_app, fmap_cons. intros (Hnd1 & Hdisj & [Hi Hnd2]%NoDup_cons)%NoDup_app.
  split_and!.
  - intros Hl. apply last_idx_in in Hl; [|done]. apply (Hdisj _ Hl). set_solver.
  - intros Hh. apply hd_idx_in in Hh; [|done]. done.
  - rewrite elem_of_app. intros [Hin|Hin]; [|done]. apply (Hdisj _ Hin). set_solver.
Qed.

(** The slot array after unlinking the entry between [es1] and [es2]. *)
Definition unlinked es1 es2 (ns : list (option (Node K V))) : list (option (Node K V)) :=
  upd (with_prev (last_idx None es1)) (hd_idx es2 None)
    (upd (with_next (hd_idx es2 None)) (last_idx None es1) ns).

Lemma move_to_front_run N c es1 i kv es2 :
  es1 ≠ [] → lru_repr N c (es1 ++ (i, kv) :: es2) →
  move_to_front c i = Ret (mkLRUCache
    (upd (with_prev (Some i)) (head c)
      (upd (with_next (head c)) (Some i)
        (upd (with_prev None) (Some i) (unlinked es1 es2 (nodes c)))))
    (map c) (free_list c) (Some i)
    (match hd_idx es2 None with Some _ => tail c | None => last_idx None es1 end)).
Proof.
  intros Hes1 Hr. pose proof (repr_idx_nodup _ _ _ Hr) as Hnd. destruct kv as [k v].
  pose proof (repr_dll _ _ _ Hr) as Hd. pose proof (repr_head _ _ _ Hr) as Hh.
  destruct (neighbours_are_nodes _ _ _ _ Hd) as (Hn1 & Hn2 & Hn3).
  destruct (outside_neighbours _ _ _ _ Hnd) as (Ho1 & Ho2 & Ho3).
  unfold move_to_front. rewrite decide_False; cycle 1.
  { rewrite Hh, hd_idx_app. destruct es1 as [|[j kv] es1]; [done|]. intros [= ->]. set_solver. }
  pose proof (dll_lookup _ _ _ _ _ _ Hd) as Hi. rewrite (node_ref_run _ _ _ Hi), !bind_Ret.
  cbn [prev next]. rewrite node_mut_opt_run by done. rewrite bind_Ret.
  assert (Hi' : is_node (nodes c) i) by by eexists.
  assert (∃ t, match hd_idx es2 None with
    | Some q => node_mut (set_nodes c (upd (with_next (hd_idx es2 None)) (last_idx None es1) (nodes c)))
                  q (with_prev (last_idx None es1))
    | None => Ret (set_tail (set_nodes c (upd (with_next (hd_idx es2 None)) (last_idx None es1)
                (nodes c))) (last_idx None es1)) end
    = Ret (set_tail (set_nodes c (unlinked es1 es2 (nodes c))) t) ∧
    t = match hd_idx es2 None with Some _ => tail c | None => last_idx None es1 end) as (t & -> & ->).
  { unfold unlinked. destruct (hd_idx es2 None) as [q|] eqn:Eq; [|by eexists].
    eexists. split; [|done]. rewrite node_mut_run by (apply upd_is_node, Hn2; done). done. }
  rewrite bind_Ret. rewrite node_mut_run by (unfold unlinked; cbn [nodes set_nodes set_tail]; eauto 10 with lru).
  rewrite bind_Ret. rewrite node_mut_run by (unfold unlinked; cbn [nodes set_nodes set_tail]; eauto 10 with lru).
  rewrite bind_Ret. cbn [set_nodes set_tail head nodes tail].
  rewrite node_mut_opt_run; [done|]. cbn [nodes].
  intros j Hj. rewrite Hh in Hj. unfold unlinked. repeat apply upd_is_node. eauto.
Qed.

Lemma move_to_front_repr N c es1 i kv es2 :
  lru_repr N c (es1 ++ (i, kv) :: es2) →
  ∃ c', move_to_front c i = Ret c' ∧ lru_repr N c' ((i, kv) :: es1 ++ es2).
Proof.
  intros Hr. destruct es1 as [|e1 es1'] eqn:Ees1.
  { exists c. split; [|done]. unfold move_to_front. rewrite decide_True; [done|].
    by rewrite (repr_head _ _ _ Hr). }
  rewrite <- Ees1 in *. assert (es1 ≠ []) as Hne by congruence. clear Ees1 e1 es1'.
  eexists. split; [by eapply move_to_front_run|].
  pose proof (repr_idx_nodup _ _ _ Hr) as Hnd. destruct kv as [k v].
  pose proof (repr_dll _ _ _ Hr) as Hd. pose proof (repr_head _ _ _ Hr) as Hh.
  destruct (outside_neighbours _ _ _ _ Hnd) as (Ho1 & Ho2 & Ho3).
  assert (Hp : es1 ++ (i, (k, v)) :: es2 ≡ₚ (i, (k, v)) :: es1 ++ es2) by by rewrite Permutation_middle.
  assert (Hh' : head c = hd_idx (es1 ++ es2) None).
  { rewrite Hh, !hd_idx_app. by destruct es1 as [|[]]. }
  split; cbn [nodes map free_list head tail].
  - unfold unlinked. rewrite !length_upd. apply (repr_len _ _ _ Hr).
  - rewrite Hh'. apply dll_push; [|done| |].
    + rewrite Hp in Hnd. by apply NoDup_cons in Hnd as [_ ?].
    + do 2 (apply dll_upd_frame; [by intros ? [= <-]|]). by apply dll_unlink in Hd.
    + erewrite upd_eq by (erewrite upd_eq; [done|]; unfold unlinked; rewrite !upd_ne by done;
        by eapply dll_lookup). done.
  - done.
  - rewrite last_idx_cons, !last_idx_app.
    destruct es2 as [|[j kv'] es2]; simpl.
    + destruct (list_snoc_inv es1) as [->|(? & [] & ->)]; [done|]. by rewrite !last_idx_snoc.
    + by rewrite (repr_tail _ _ _ Hr), last_idx_app, !last_idx_cons.
  - rewrite (repr_map _ _ _ Hr). apply index_of_perm; [apply (repr_keys _ _ _ Hr)|done].
  - rewrite <- Hp. apply (repr_keys _ _ _ Hr).
  - rewrite <- Hp. apply (repr_slots _ _ _ Hr).
  - intros j Hj. unfold unlinked. eauto 10 using repr_vacant with lru.
Qed.
(** The keys and slots of a list of entries without one of its entries. *)
Lemma repr_remove_perm N c es1 i kv es2 :
  lru_repr N c (es1 ++ (i, kv) :: es2) →
  NoDup (es1 ++ es2).*2.*1 ∧ (free_list c ++ [i]) ++ (es1 ++ es2).*1 ≡ₚ seq 0 N.
Proof.
  intros Hr. assert (Hp : es1 ++ (i, kv) :: es2 ≡ₚ (i, kv) :: es1 ++ es2) by by rewrite Permutation_middle.
  pose proof (repr_keys _ _ _ Hr) as Hk. pose proof (repr_slots _ _ _ Hr) as Hs.
  rewrite Hp in Hk, Hs. apply NoDup_cons in Hk as [_ Hk]. split; [done|].
  rewrite <- Hs, <- app_assoc. done.
Qed.

(** What is left when the entry between [es1] and [es2] has been taken out of its
    slot, unlinked, and dropped from the key index. *)
Lemma unlink_repr N c es1 i k v es2 :
  lru_repr N c (es1 ++ (i, (k, v)) :: es2) →
  lru_repr N (mkLRUCache (unlinked es1 es2 (<[i := None]> (nodes c))) (delete k (map c))
    (vec_push (free_list c) i) (hd_idx (es1 ++ es2) None) (last_idx None (es1 ++ es2)))
    (es1 ++ es2).
Proof.
  intros Hr. pose proof (repr_idx_nodup _ _ _ Hr) as Hnd.
  pose proof (repr_dll _ _ _ Hr) as Hd. pose proof (dll_lookup _ _ _ _ _ _ Hd) as Hi.
  destruct (outside_neighbours _ _ _ _ Hnd) as (Ho1 & Ho2 & Ho3).
  destruct (repr_remove_perm _ _ _ _ _ _ Hr) as [Hk Hs].
  split; cbn [nodes map free_list head tail]; try done.
  - unfold unlinked. rewrite !length_upd, length_insert. apply (repr_len _ _ _ Hr).
  - apply dll_unlink in Hd; [|done]. revert Hd. apply dll_frame. intros j Hj.
    unfold unlinked. assert (i ≠ j) by congruence.
    assert (∀ f o (ns ns' : list (option (Node K V))), ns !! j = ns' !! j → upd f o ns !! j = upd f o ns' !! j) as Hcong.
    { intros f [o|] ns ns' Heq; [|done]. destruct (decide (o = j)) as [->|].
      - simpl. by rewrite !list_lookup_alter_eq, Heq.
      - rewrite !upd_ne by congruence. done. }
    do 2 apply Hcong. by rewrite list_lookup_insert_ne.
  - rewrite (repr_map _ _ _ Hr). apply index_of_delete, (repr_keys _ _ _ Hr).
  - intros j [Hj|Hj%list_elem_of_singleton]%elem_of_app; unfold unlinked.
    + do 2 apply upd_vacant. destruct (decide (i = j)) as [->|].
      * apply list_lookup_insert_eq. by eapply lookup_lt_Some.
      * rewrite list_lookup_insert_ne by done. by eapply repr_vacant.
    + subst j. do 2 apply upd_vacant. apply list_lookup_insert_eq. by eapply lookup_lt_Some.
Qed.

Lemma pop_repr N c es1 i k v es2 :
  lru_repr N c (es1 ++ (i, (k, v)) :: es2) → map c !! k = Some i →
  ∃ c', pop c k = Ret (Some (k, v), c') ∧ lru_repr N c' (es1 ++ es2).
Proof.
  intros Hr Hm. eexists. split; [|by eapply unlink_repr].
  pose proof (repr_dll _ _ _ Hr) as Hd. pose proof (dll_lookup _ _ _ _ _ _ Hd) as Hi.
  pose proof (repr_idx_nodup _ _ _ Hr) as Hnd.
  destruct (outside_neighbours _ _ _ _ Hnd) as (Ho1 & Ho2 & _).
  destruct (neighbours_are_nodes _ _ _ _ Hd) as (Hn1 & Hn2 & _).
  assert (Hins : ∀ j, is_node (nodes c) j → j ≠ i → is_node (<[i := None]> (nodes c)) j).
  { intros j [n Hn] Hj. exists n. by rewrite list_lookup_insert_ne. }
  unfold pop, node_take. rewrite Hm. erewrite node_ref_run by done. rewrite !bind_Ret.
  cbn [prev next key value set_map set_nodes nodes map free_list head tail].
  unfold unlinked. rewrite hd_idx_app, last_idx_app.
  pose proof (repr_head _ _ _ Hr) as Hh. pose proof (repr_tail _ _ _ Hr) as Ht.
  rewrite hd_idx_app in Hh. rewrite last_idx_app, last_idx_cons in Ht.
  destruct (list_snoc_inv es1) as [->|(es1' & [a kva] & ->)], es2 as [|[b kvb] es2];
    rewrite ?last_idx_snoc in *; cbn [hd_idx] in *.
  - done.
  - change (last_idx None []) with (None (A := nat)) in *.
    cbn beta iota. rewrite bind_Ret, node_mut_run by (apply Hins; [by apply Hn2|congruence]).
    rewrite bind_Ret, last_idx_cons. rewrite last_idx_cons in Ht. simpl. by rewrite <- Ht.
  - rewrite node_mut_run by (apply Hins; [by apply Hn1|congruence]).
    rewrite !bind_Ret. simpl. by rewrite (hd_idx_snoc _ _ _ (Some i)), <- Hh.
  - rewrite node_mut_run by (apply Hins; [by apply Hn1|congruence]).
    rewrite bind_Ret, node_mut_run by (apply upd_is_node, Hins; [by apply Hn2|congruence]).
    rewrite bind_Ret, last_idx_cons. rewrite last_idx_cons in Ht. simpl.
    by rewrite (hd_idx_snoc _ _ _ (Some i)), <- Hh, <- Ht.
Qed.

Lemma evict_repr N c es i k v :
  lru_repr N c (es ++ [(i, (k, v))]) →
  ∃ c', evict c = Ret (Some (k, v), c') ∧ lru_repr N c' es ∧ free_list c' ≠ [].
Proof.
  intros Hr. apply unlink_repr in Hr as Hr'. rewrite app_nil_r in Hr'.
  eexists. split; [|split; [exact Hr'|by destruct (free_list c)]].
  pose proof (repr_dll _ _ _ Hr) as Hd. pose proof (dll_lookup _ _ _ _ _ _ Hd) as Hi.
  pose proof (repr_idx_nodup _ _ _ Hr) as Hnd.
  destruct (outside_neighbours _ _ _ _ Hnd) as (Ho1 & _ & _).
  destruct (neighbours_are_nodes _ _ _ _ Hd) as (Hn1 & _ & _).
  unfold evict, node_take. rewrite (repr_tail _ _ _ Hr), last_idx_snoc.
  erewrite node_ref_run by done. rewrite !bind_Ret.
  cbn [prev next key value set_map set_nodes set_tail nodes map free_list head tail].
  pose proof (repr_head _ _ _ Hr) as Hh. rewrite hd_idx_app in Hh. unfold unlinked. cbn [hd_idx upd] in *.
  destruct (list_snoc_inv es) as [->|(es' & [a kva] & ->)]; [done|].
  rewrite last_idx_snoc in *. rewrite node_mut_run; [|].
  - rewrite bind_Ret. simpl. by rewrite (hd_idx_snoc _ _ _ (Some i)), <- Hh.
  - destruct (Hn1 a eq_refl) as [n Hn]. exists n. simpl.
    by rewrite list_lookup_insert_ne by congruence.
Qed.

Lemma insert_front_repr N c es k v :
  lru_repr N c es → free_list c ≠ [] → k ∉ es.*2.*1 →
  ∃ c' i, insert_front c k v = Ret c' ∧ lru_repr N c' ((i, (k, v)) :: es).
Proof.
  intros Hr Hfl Hk. destruct (list_snoc_inv (free_list c)) as [|(fl & i & Efl)]; [done|].
  pose proof (repr_idx_nodup _ _ _ Hr) as Hnd. pose proof (repr_dll _ _ _ Hr) as Hd.
  pose proof (repr_slots _ _ _ Hr) as Hs. rewrite Efl in Hs.
  pose proof (NoDup_seq 0 N) as Hnd'. rewrite <- Hs in Hnd'.
  apply NoDup_app in Hnd' as ((_ & Hfi & _)%NoDup_app & Hdisj & _).
  assert (Hi : nodes c !! i = Some None) by (eapply repr_vacant; [done|]; rewrite Efl; set_solver).
  assert (Hie : i ∉ es.*1) by (apply Hdisj; set_solver).
  set (ns := <[i := Some (mkNode k v None (hd_idx es None))]> (nodes c)).
  assert (Hd' : dll ns None es None).
  { revert Hd. apply dll_frame. intros j Hj. apply list_lookup_insert_ne. congruence. }
  exists (mkLRUCache (upd (with_prev (Some i)) (hd_idx es None) ns) (<[k := i]> (map c)) fl
    (Some i) (last_idx (Some i) es)), i. split.
  - unfold insert_front, node_write. rewrite Efl, vec_pop_snoc. cbn [unwrap_unchecked].
    rewrite bind_Ret. cbn [set_free_list nodes head]. rewrite Hi, bind_Ret. cbn [set_nodes set_free_list head].
    rewrite (repr_head _ _ _ Hr).
    rewrite node_mut_opt_run; [|intros j Hj; eapply (dll_is_node ns); [exact Hd'|by apply hd_idx_in in Hj]].
    rewrite bind_Ret. cbn [set_nodes set_free_list set_head head tail map nodes free_list].
    pose proof (repr_tail _ _ _ Hr) as Ht. rewrite Ht. unfold last_idx in *.
    destruct (last es) as [[]|]; simpl; [by rewrite <- Ht|done].
  - split; cbn [nodes map free_list head tail]; try done.
    + rewrite length_upd. unfold ns. rewrite length_insert. apply (repr_len _ _ _ Hr).
    + apply dll_push; try done. apply list_lookup_insert_eq. by eapply lookup_lt_Some.
    + by rewrite last_idx_cons.
    + by rewrite (repr_map _ _ _ Hr).
    + simpl. apply NoDup_cons. split; [done|]. apply (repr_keys _ _ _ Hr).
    + rewrite <- Hs. simpl. by rewrite <- app_assoc.
    + intros j Hj. apply upd_vacant. unfold ns. rewrite list_lookup_insert_ne.
      * eapply repr_vacant; [done|]. rewrite Efl. set_solver.
      * intros ->. apply (Hfi j Hj). set_solver.
Qed.

Lemma set_value_repr N c es1 i k v v' es2 :
  lru_repr N c (es1 ++ (i, (k, v)) :: es2) →
  ∃ c', node_mut c i (with_value v') = Ret c' ∧ lru_repr N c' (es1 ++ (i, (k, v')) :: es2).
Proof.
  intros Hr. pose proof (repr_dll _ _ _ Hr) as Hd. pose proof (dll_lookup _ _ _ _ _ _ Hd) as Hi.
  pose proof (repr_idx_nodup _ _ _ Hr) as Hnd.
  destruct (outside_neighbours _ _ _ _ Hnd) as (_ & _ & Ho).
  rewrite fmap_app, elem_of_app in Ho.
  eexists. split; [apply node_mut_run; by eexists|].
  split; cbn [set_nodes nodes map free_list head tail].
  - rewrite length_upd. apply (repr_len _ _ _ Hr).
  - apply dll_app in Hd as [Hd1 [_ Hd2]]. apply dll_app. cbn [dll hd_idx]. split_and!.
    + apply dll_upd_frame; [|done]. intros ? [= <-]. tauto.
    + by erewrite upd_eq by done.
    + apply dll_upd_frame; [|done]. intros ? [= <-]. tauto.
  - rewrite (repr_head _ _ _ Hr), !hd_idx_app. done.
  - by rewrite (repr_tail _ _ _ Hr), !last_idx_app, !last_idx_cons.
  - rewrite (repr_map _ _ _ Hr). unfold index_of. by rewrite !fmap_app.
  - pose proof (repr_keys _ _ _ Hr) as Hk. rewrite !fmap_app in Hk. by rewrite !fmap_app.
  - pose proof (repr_slots _ _ _ Hr) as Hs. rewrite !fmap_app in Hs. by rewrite !fmap_app.
  - intros j Hj. apply upd_vacant. by eapply repr_vacant.
Qed.
End Operations.

(** ** Refinement *)
Section Refinement.
Context {K V : Type} `{Countable K}.
Implicit Types (c : LRUCache K V) (l : list (K * V)) (k : K) (v : V).

(** An entry found through the invariant splits the abstract list at its key. *)
Lemma inv_cases N c l k :
  lru_inv N c l →
  (∃ es1 i v es2, lru_repr N c (es1 ++ (i, (k, v)) :: es2) ∧ map c !! k = Some i ∧
     l = es1.*2 ++ (k, v) :: es2.*2 ∧ assoc k l = Some v ∧ drop_key k l = (es1 ++ es2).*2) ∨
  (∃ es, lru_repr N c es ∧ es.*2 = l ∧ map c !! k = None ∧ k ∉ l.*1 ∧ assoc k l = None).
Proof.
  intros (es & Hr & <-). destruct (repr_lookup _ _ _ k Hr) as [(es1 & i & v & es2 & -> & Hm)|[Hm Hk]].
  - left. exists es1, i, v, es2. pose proof (repr_keys _ _ _ Hr) as Hnd.
    rewrite fmap_app, fmap_cons in *. simpl in *.
    split_and!; [done..|by apply assoc_middle|]. by rewrite drop_key_middle, fmap_app.
  - right. exists es. by rewrite assoc_None.
Qed.

Lemma get_run N c l k :
  lru_inv N c l →
  ∃ c', get c k = Ret ((spec_get k l).1, c') ∧ lru_inv N c' (spec_get k l).2.
Proof.
  unfold get, spec_get.
  intros [(es1 & i & v & es2 & Hr & -> & -> & -> & ->)|(es & Hr & Hl & -> & _ & ->)]%(inv_cases _ _ _ k);
    [|exists c; split; [done|by exists es]].
  destruct (move_to_front_repr _ _ _ _ _ _ Hr) as (c' & -> & Hr'). exists c'. split.
  - rewrite bind_Ret. destruct (repr_dll _ _ _ Hr') as [Hi _]. by rewrite Hi.
  - by eexists.
Qed.

Lemma pop_run N c l k :
  lru_inv N c l →
  ∃ c', pop c k = Ret ((spec_pop k l).1, c') ∧ lru_inv N c' (spec_pop k l).2.
Proof.
  unfold spec_pop.
  intros [(es1 & i & v & es2 & Hr & Hm & -> & -> & ->)|(es & Hr & Hl & Hm & _ & ->)]%(inv_cases _ _ _ k).
  - destruct (pop_repr _ _ _ _ _ _ _ Hr Hm) as (c' & -> & Hr'). exists c'. split; [done|by eexists].
  - exists c. unfold pop. rewrite Hm. split; [done|by exists es].
Qed.

Lemma contains_run N c l k : lru_inv N c l → contains c k = bool_decide (k ∈ l.*1).
Proof.
  intros [(es1 & i & v & es2 & Hr & Hm & -> & _)|(es & Hr & <- & Hm & Hk & _)]%(inv_cases _ _ _ k);
    unfold contains; rewrite Hm; apply bool_decide_ext.
  - split; [|by eexists]. rewrite fmap_app, fmap_cons. set_solver.
  - split; [by intros []|done].
Qed.

Lemma put_run N c l k v :
  0 < N → lru_inv N c l →
  ∃ c', put N c k v = Ret ((spec_put N k v l).1, c') ∧ lru_inv N c' (spec_put N k v l).2.
Proof.
  intros HN [(es1 & i & v' & es2 & Hr & Hm & -> & Ha & Hdk)|(es & Hr & Hl & Hm & Hk & Ha)]%(inv_cases _ _ _ k);
    unfold put, spec_put; rewrite Hm, Ha.
  - destruct (set_value_repr _ _ _ _ _ _ v _ Hr) as (c1 & -> & Hr1).
    destruct (move_to_front_repr _ _ _ _ _ _ Hr1) as (c' & Hc' & Hr'). exists c'.
    rewrite bind_Ret, Hc', bind_Ret, Hdk. split; [done|by eexists].
  - pose proof (repr_count _ _ _ Hr) as Hcnt. rewrite (repr_size _ _ _ Hr), <- Hl, length_fmap.
    rewrite <- Hl in Hk. destruct (decide (length es = N)) as [Hfull|Hroom].
    + destruct (list_snoc_inv es) as [->|(es' & [i [k' v']] & ->)]; [simpl in *; lia|].
      destruct (evict_repr _ _ _ _ _ _ Hr) as (c1 & -> & Hr1 & Hfl). rewrite bind_Ret.
      destruct (insert_front_repr _ _ _ k v Hr1 Hfl) as (c' & j & Hc' & Hr'); [set_solver|].
      exists c'. rewrite Hc', bind_Ret, fmap_app. change ([(i, (k', v'))].*2) with [(k', v')].
      rewrite last_snoc. split; [done|].
      eexists. split; [done|]. rewrite length_app in Hfull. simpl in *. rewrite take_app_length'; [done|].
      rewrite length_fmap. lia.
    + destruct (insert_front_repr _ _ _ k v Hr) as (c' & j & Hc' & Hr'); [|done|].
      { intros Hfl. rewrite Hfl in Hcnt. simpl in Hcnt. lia. }
      exists c'. rewrite Hc', bind_Ret. split; [done|]. by eexists.
Qed.

Lemma new_inv N : lru_inv N (new N : LRUCache K V) [].
Proof. exists []. split; [apply new_repr|done]. Qed.

Lemma inv_bounds N c l : lru_inv N c l → length l ≤ N ∧ NoDup l.*1 ∧ size (map c) = length l.
Proof.
  intros (es & Hr & <-). rewrite length_fmap. pose proof (repr_count _ _ _ Hr).
  split_and!; [lia|apply (repr_keys _ _ _ Hr)|by eapply repr_size].
Qed.

(** A program that drives the cache through its public operations. *)
Inductive lru_op : Type :=
| OpGet (k : K)
| OpContains (k : K)
| OpPop (k : K)
| OpPut (k : K) (v : V).

Inductive lru_res : Type :=
| ResGet (o : option V)
| ResContains (b : bool)
| ResPop (o : option (K * V))
| ResPut (o : option (K * V)) (dup : bool).

Definition exec (N : nat) c (op : lru_op) : outcome (lru_res * LRUCache K V) :=
  match op with
  | OpGet k => '(o, c) ← get c k; Ret (ResGet o, c)
  | OpContains k => Ret (ResContains (contains c k), c)
  | OpPop k => '(o, c) ← pop c k; Ret (ResPop o, c)
  | OpPut k v => '((o, b), c) ← put N c k v; Ret (ResPut o b, c)
  end.

Definition spec_exec (N : nat) l (op : lru_op) : lru_res * list (K * V) :=
  match op with
  | OpGet k => let '(o, l) := spec_get k l in (ResGet o, l)
  | OpContains k => (ResContains (bool_decide (k ∈ l.*1)), l)
  | OpPop k => let '(o, l) := spec_pop k l in (ResPop o, l)
  | OpPut k v => let '((o, b), l) := spec_put N k v l in (ResPut o b, l)
  end.

Fixpoint run (N : nat) c (ops : list lru_op) : outcome (list lru_res * LRUCache K V) :=
  match ops with
  | [] => Ret ([], c)
  | op :: ops =>
     '(r, c) ← exec N c op;
     '(rs, c) ← run N c ops;
     Ret (r :: rs, c)
  end.

Fixpoint spec_run (N : nat) l (ops : list lru_op) : list lru_res * list (K * V) :=
  match ops with
  | [] => ([], l)
  | op :: ops =>
     let '(r, l) := spec_exec N l op in
     let '(rs, l) := spec_run N l ops in (r :: rs, l)
  end.

Lemma exec_run N c l op :
  0 < N → lru_inv N c l →
  ∃ c', exec N c op = Ret ((spec_exec N l op).1, c') ∧ lru_inv N c' (spec_exec N l op).2.
Proof.
  intros HN Hi. destruct op as [k|k|k|k v]; simpl.
  - destruct (get_run _ _ _ k Hi) as (c' & -> & Hi'). exists c'. by destruct (spec_get k l).
  - exists c. by rewrite (contains_run _ _ _ k Hi).
  - destruct (pop_run _ _ _ k Hi) as (c' & -> & Hi'). exists c'. by destruct (spec_pop k l).
  - destruct (put_run _ _ _ k v HN Hi) as (c' & -> & Hi'). exists c'. by destruct (spec_put N k v l) as [[]].
Qed.

Lemma run_from N c l ops :
  0 < N → lru_inv N c l →
  ∃ c', run N c ops = Ret ((spec_run N l ops).1, c') ∧ lru_inv N c' (spec_run N l ops).2.
Proof.
  intros HN. revert c l. induction ops as [|op ops IH]; intros c l Hi; [by exists c|].
  cbn [run spec_run]. destruct (exec_run _ _ _ op HN Hi) as (c1 & -> & Hi1). rewrite bind_Ret.
  destruct (spec_exec N l op) as [r l1]. cbn [fst snd] in *. destruct (IH _ _ Hi1) as (c' & -> & Hi').
  exists c'.
  simpl in *. by destruct (spec_run N l1 ops).
Qed.

(** ** Retention

    [touched] are the keys a program uses through [get] and [put]. *)
Fixpoint touched (ops : list lru_op) : gset K :=
  match ops with
  | [] => ∅
  | (OpGet k | OpPut k _) :: ops => {[k]} ∪ touched ops
  | _ :: ops => touched ops
  end.

Definition never_pops k (ops : list lru_op) : Prop :=
  Forall (λ op, match op with OpPop k' => k' ≠ k | _ => True end) ops.

(** [k] is cached, and only keys of [T] were used after it. *)
Definition recent k (T : gset K) l : Prop :=
  ∃ l1 v l2, l = l1 ++ (k, v) :: l2 ∧ ∀ k', k' ∈ l1.*1 → k' ∈ T.

Lemma recent_filter k k' T l :
  k' ≠ k → recent k T l → recent k T (drop_key k' l).
Proof.
  intros Hne (l1 & v & l2 & -> & Hl1). unfold drop_key.
  exists (filter (λ e, e.1 ≠ k') l1), v, (filter (λ e, e.1 ≠ k') l2). split.
  - rewrite filter_app, filter_cons_True by (simpl; congruence). done.
  - intros x ([x' w] & -> & Hx)%list_elem_of_fmap. apply list_elem_of_filter in Hx as [_ Hx].
    apply Hl1, list_elem_of_fmap. eauto.
Qed.

Lemma recent_use k k' v T l :
  recent k T l → recent k ({[k']} ∪ T) ((k', v) :: drop_key k' l).
Proof.
  intros Hr. destruct (decide (k' = k)) as [->|Hne].
  - exists [], v, (drop_key k l). split; [done|]. set_solver.
  - destruct (recent_filter _ _ _ _ Hne Hr) as (l1 & w & l2 & -> & Hl1).
    exists ((k', v) :: l1), w, l2. split; [done|]. set_solver.
Qed.

(** Evicting the last entry keeps a recent key as long as the keys used since
    then, the new one included, do not fill the cache. *)
Lemma recent_evict k k' v T l N :
  NoDup l.*1 → length l = N → k' ∉ l.*1 → k ≠ k' → size (({[k']} ∪ T) ∖ {[k]}) < N →
  recent k T l → recent k ({[k']} ∪ T) ((k', v) :: take (N - 1) l).
Proof.
  intros Hnd Hlen Hk' Hne Hsz (l1 & w & l2 & -> & Hl1).
  destruct (list_snoc_inv l2) as [->|(l2' & e & ->)].
  - exfalso. rewrite fmap_app in Hnd, Hk'. apply NoDup_app in Hnd as (Hnd1 & Hd & _).
    assert (length (k' :: l1.*1) ≤ size (({[k']} ∪ T) ∖ {[k]})) as Hle.
    { rewrite <- (size_list_to_set (C := gset K) (k' :: l1.*1)) by
        (apply NoDup_cons; set_solver). apply subseteq_size.
      intros x Hx. apply elem_of_list_to_set in Hx. apply elem_of_difference.
      apply elem_of_cons in Hx as [->|Hx]; [set_solver|].
      split; [apply elem_of_union; right; by apply Hl1|].
      intros ->%elem_of_singleton. apply (Hd _ Hx). set_solver. }
    rewrite length_app in Hlen. simpl in *. rewrite length_fmap in Hle. lia.
  - exists ((k', v) :: l1), w, l2'. split; [|set_solver].
    rewrite <- app_comm_cons. f_equal. rewrite app_comm_cons, app_assoc.
    apply take_app_length'. rewrite <- Hlen, !length_app. simpl. rewrite !length_app. simpl. lia.
Qed.

Lemma spec_exec_recent N k T l op :
  NoDup l.*1 → size ((touched [op] ∪ T) ∖ {[k]}) < N →
  match op with OpPop k' => k' ≠ k | _ => True end →
  recent k T l → recent k (touched [op] ∪ T) (spec_exec N l op).2.
Proof.
  intros Hnd Hsz Hpop Hr. pose proof Hr as (l1 & w & l2 & El & Hl1).
  assert (Hk : k ∈ l.*1) by (rewrite El, fmap_app; set_solver).
  assert (Hmono : ∀ T', recent k (T' ∪ T) l).
  { intros T'. exists l1, w, l2. split; [done|]. set_solver. }
  destruct op as [k'|k'|k'|k' v]; simpl in *.
  - unfold spec_get. rewrite (right_id_L ∅ (∪)) in *.
    destruct (assoc k' l); [by apply recent_use|by apply Hmono].
  - apply Hmono.
  - rewrite (left_id_L ∅ (∪)). unfold spec_pop. destruct (assoc k' l); [by apply recent_filter|done].
  - rewrite (right_id_L ∅ (∪)) in *. unfold spec_put. destruct (assoc k' l) eqn:E; [by apply recent_use|].
    apply assoc_None in E. assert (k ≠ k') by congruence.
    destruct (decide (length l = N)); simpl; [by apply recent_evict|].
    rewrite <- (drop_key_notin k' l) by done. by apply recent_use.
Qed.

Lemma spec_exec_nodup N l op : NoDup l.*1 → NoDup (spec_exec N l op).2.*1.
Proof.
  intros Hnd.
  assert (Hd : ∀ k, NoDup (drop_key k l).*1 ∧ k ∉ (drop_key k l).*1).
  { intros k. split.
    - eapply sublist_NoDup; [exact Hnd|]. apply fmap_sublist, sublist_filter.
    - intros ([? w] & -> & [Hx _]%list_elem_of_filter)%list_elem_of_fmap. done. }
  destruct op as [k|k|k|k v]; simpl; unfold spec_get, spec_pop, spec_put; [| done | |];
    destruct (assoc k l) eqn:E; simpl; try done; try (apply NoDup_cons; by split; apply Hd).
  - apply Hd.
  - apply assoc_None in E. destruct (decide (length l = N)); simpl; apply NoDup_cons; split; try done.
    + intros Hin. apply E. rewrite fmap_take in Hin. apply elem_of_take in Hin as (i & Hi & _).
      by eapply list_elem_of_lookup_2.
    + rewrite fmap_take. eapply sublist_NoDup; [done|apply sublist_take].
Qed.

Lemma spec_run_recent N k T l ops :
  NoDup l.*1 → never_pops k ops → size ((touched ops ∪ T) ∖ {[k]}) < N →
  recent k T l → recent k (touched ops ∪ T) (spec_run N l ops).2.
Proof.
  revert T l. induction ops as [|op ops IH]; intros T l Hnd Hpop Hsz Hr; simpl.
  { by rewrite (left_id_L ∅ (∪)). }
  apply Forall_cons in Hpop as [Hp Hpop].
  assert (Ht : touched (op :: ops) ∪ T = touched ops ∪ (touched [op] ∪ T)) by (destruct op; set_solver).
  change (match op with OpGet k | OpPut k _ => {[k]} ∪ touched ops | _ => touched ops end)
    with (touched (op :: ops)) in *. rewrite Ht in *.
  assert (Hr' : recent k (touched [op] ∪ T) (spec_exec N l op).2).
  { apply spec_exec_recent; try done. eapply Nat.le_lt_trans; [|exact Hsz].
    apply subseteq_size. set_solver. }
  pose proof (spec_exec_nodup N l op Hnd) as Hnd'. destruct (spec_exec N l op) as [r l'].
  specialize (IH _ _ Hnd' Hpop Hsz Hr'). simpl in *. by destruct (spec_run N l' ops).
Qed.

Lemma spec_run_app (N : nat) l (ops1 ops2 : list lru_op) :
  (spec_run N l (ops1 ++ ops2)).2 = (spec_run N (spec_run N l ops1).2 ops2).2.
Proof.
  revert l. induction ops1 as [|op ops1 IH]; intros l; simpl; [done|].
  destruct (spec_exec N l op) as [r l1]. specialize (IH l1).
  destruct (spec_run N l1 (ops1 ++ ops2)), (spec_run N l1 ops1). simpl in *. done.
Qed.

(** A run of [n] operations uses at most [n] keys. *)
Lemma touched_length (ops : list lru_op) : size (touched ops) ≤ length ops.
Proof.
  induction ops as [|op ops IH]; cbn [touched length]; [by rewrite size_empty|].
  destruct op as [k|k|k|k v]; try lia; rewrite size_union_alt, size_singleton;
    pose proof (subseteq_size (touched ops ∖ {[k]}) (touched ops) ltac:(set_solver)); lia.
Qed.

(** A key that is put stays cached while fewer than [N] operations follow that do not
    pop it. *)
Lemma put_stays N c l k v ops :
  0 < N → lru_inv N c l → never_pops k ops → length ops < N →
  k ∈ (spec_run N (spec_put N k v l).2 ops).2.*1.
Proof.
  intros HN Hi Hpop Hlen. destruct (put_run _ _ _ k v HN Hi) as (c' & _ & Hi').
  destruct (inv_bounds _ _ _ Hi') as (_ & Hnd & _).
  assert (Hr : recent k ∅ (spec_put N k v l).2).
  { unfold spec_put. destruct (assoc k l), (decide (length l = N)); simpl;
      eexists [], _, _; (split; [done|set_solver]). }
  eapply (spec_run_recent N k ∅ _ ops) in Hr as (l1 & w & l2 & -> & _); [|done|done|].
  - rewrite fmap_app. set_solver.
  - rewrite (right_id_L ∅ (∪)). pose proof (touched_length ops).
    pose proof (subseteq_size (touched ops ∖ {[k]}) (touched ops) ltac:(set_solver)). lia.
Qed.
End Refinement.
