(* ===== verification/LruProps.v ===== *)
(** The properties of the LRU cache: refinement of the abstract cache by every
    sequence of operations, the documented results of [put], retention of recent
    keys, removal, construction, and the behaviour of a cache of capacity zero. *)
From stdpp Require Import gmap list.
From S2P Require Import Prelude Lru LruSpec.

Section Props.
Context {K V : Type} `{Countable K}.
Implicit Types (c : LRUCache K V) (l : list (K * V)) (k : K) (v : V) (ops : list (lru_op (K := K) (V := V))).

(** C11. Any sequence of [get], [contains], [pop] and [put] on a fresh cache of
    nonzero capacity runs without undefined behaviour (no unchecked access is out
    of range or finds an empty slot) and returns, call by call, what the abstract
    most-recently-used-first list returns; the final state represents the abstract
    one. *)
Theorem lru_refines_spec (N : nat) ops :
  0 < N →
  ∃ c, run N (new N) ops = Ret ((spec_run N [] ops).1, c) ∧
       lru_inv N c (spec_run N [] ops).2.
Proof. intros HN. apply run_from; [done|apply new_inv]. Qed.

(** The result of [put] is the documented one in all four cases: a present key
    is reported as a duplicate and nothing is evicted; an absent key is not a
    duplicate, and the entry evicted is the least recently used one if and only if
    the cache is full.  The number of entries never exceeds the capacity. *)
Theorem put_result_cases (N : nat) c l k v :
  0 < N → lru_inv N c l →
  ∃ c' l', lru_inv N c' l' ∧ size (map c') ≤ N ∧ l' !! 0 = Some (k, v) ∧
    put N c k v =
      Ret (if contains c k then (None, true)
           else if bool_decide (size (map c) = N) then (last l, false) else (None, false), c') ∧
    (contains c k = false → size (map c) = N → is_Some (last l)).
Proof.
  intros HN Hi. destruct (put_run _ _ _ k v HN Hi) as (c' & Hput & Hi').
  exists c', (spec_put N k v l).2. rewrite (contains_run _ _ _ k Hi), Hput.
  destruct (inv_bounds _ _ _ Hi) as (_ & _ & ->), (inv_bounds _ _ _ Hi') as (Hb & _ & Hs).
  split_and!; [done|lia|..].
  - unfold spec_put. by destruct (assoc k l), (decide (length l = N)).
  - unfold spec_put. destruct (assoc k l) eqn:E.
    + rewrite bool_decide_true; [done|]. destruct (decide (k ∈ l.*1)) as [|Hk]; [done|].
      apply assoc_None in Hk. congruence.
    + apply assoc_None in E. rewrite bool_decide_false by done. by case_decide; case_bool_decide.
  - intros _ Hlen. destruct (list_snoc_inv l) as [->|(l0 & e & ->)]; [simpl in *; lia|].
    rewrite last_snoc. by eexists.
Qed.

(** After [put k v], [get k] returns [v] and every other cached key keeps its
    value, unless it was the one evicted. *)
Theorem put_then_get (N : nat) c l k v k' :
  0 < N → lru_inv N c l →
  ∃ r c' o c'', put N c k v = Ret (r, c') ∧ get c' k' = Ret (o, c'') ∧
    o = (if decide (k' = k) then Some v
         else if decide (fst <$> r.1 = Some k') then None else assoc k' l).
Proof.
  intros HN Hi. destruct (put_run _ _ _ k v HN Hi) as (c' & Hput & Hi').
  destruct (get_run _ _ _ k' Hi') as (c'' & Hget & _).
  do 4 eexists. split; [exact Hput|]. split; [exact Hget|].
  assert (Hg : ∀ l0, (spec_get k' l0).1 = assoc k' l0) by
    (intros l0; unfold spec_get; by destruct (assoc k' l0)). rewrite Hg.
  destruct (decide (k' = k)) as [->|Hne].
  { unfold spec_put. destruct (assoc k l), (decide (length l = N)); apply lookup_insert_eq. }
  assert (Hcons : ∀ l0, assoc k' ((k, v) :: l0) = assoc k' l0) by
    (intros l0; by apply lookup_insert_ne).
  assert (Hdrop : assoc k' (drop_key k l) = assoc k' l).
  { destruct (inv_cases _ _ _ k Hi) as [(es1 & i & w & es2 & _ & _ & -> & _ & ->)|(es & _ & _ & _ & Hk & _)];
      [|by rewrite drop_key_notin].
    unfold assoc. rewrite fmap_app, !list_to_map_app. simpl.
    rewrite !lookup_union. by rewrite lookup_insert_ne. }
  unfold spec_put. destruct (assoc k l) eqn:E.
  { simpl. by rewrite Hcons, Hdrop. }
  destruct (decide (length l = N)) as [Hlen|]; simpl; rewrite Hcons; [|done].
  destruct (list_snoc_inv l) as [->|(l0 & [ke ve] & ->)]; [simpl in *; lia|].
  rewrite length_app in Hlen. simpl in Hlen. rewrite take_app_length' by lia. rewrite last_snoc. simpl.
  destruct (inv_bounds _ _ _ Hi) as (_ & Hnd & _). rewrite fmap_app in Hnd.
  apply NoDup_app in Hnd as (_ & Hd & _). case_decide as Hke.
  - injection Hke as ->. apply assoc_None. intros Hin. apply (Hd _ Hin). set_solver.
  - unfold assoc. rewrite list_to_map_app, lookup_union. simpl.
    rewrite lookup_insert_ne by congruence. rewrite lookup_empty. by destruct (list_to_map l0 !! k').
Qed.

(** Retention: a key that has been put stays cached as long as it is not popped
    and fewer than [N] other keys are used after it. *)
Theorem lru_retention (N : nat) c l k v ops :
  0 < N → lru_inv N c l →
  never_pops k ops → size (touched ops ∖ {[k]}) < N →
  ∃ r c' rs c'', put N c k v = Ret (r, c') ∧ run N c' ops = Ret (rs, c'') ∧
    contains c'' k = true.
Proof.
  intros HN Hi Hpop Hsz. destruct (put_run _ _ _ k v HN Hi) as (c' & Hput & Hi').
  destruct (run_from _ _ _ ops HN Hi') as (c'' & Hrun & Hi'').
  do 4 eexists. split; [exact Hput|]. split; [exact Hrun|].
  rewrite (contains_run _ _ _ k Hi''). apply bool_decide_true.
  destruct (inv_bounds _ _ _ Hi') as (_ & Hnd & _).
  assert (Hr : recent k ∅ (spec_put N k v l).2).
  { unfold spec_put. destruct (assoc k l), (decide (length l = N)); simpl;
      eexists [], _, _; (split; [done|set_solver]). }
  eapply (spec_run_recent N k ∅ _ ops) in Hr as (l1 & w & l2 & -> & _); [|done|done|].
  - rewrite fmap_app. set_solver.
  - by rewrite (right_id_L ∅ (∪)).
Qed.

(** [pop k] hands back the stored entry, the key is gone afterwards, and
    popping it again or getting it finds nothing. *)
Theorem pop_removes (N : nat) c l k :
  lru_inv N c l →
  ∃ o c', pop c k = Ret (o, c') ∧ o = (λ v, (k, v)) <$> assoc k l ∧
    contains c' k = false ∧ pop c' k = Ret (None, c') ∧ get c' k = Ret (None, c') ∧
    lru_inv N c' (drop_key k l).
Proof.
  intros Hi. destruct (pop_run _ _ _ k Hi) as (c' & Hpop & Hi').
  assert (Hl : (spec_pop k l).2 = drop_key k l).
  { unfold spec_pop. destruct (assoc k l) eqn:E; [done|]. apply assoc_None in E.
    by rewrite drop_key_notin. }
  rewrite Hl in Hi'.
  assert (Hk : k ∉ (drop_key k l).*1).
  { intros ([? w] & -> & [Hx _]%list_elem_of_filter)%list_elem_of_fmap. done. }
  assert (Hm : map c' !! k = None).
  { destruct (inv_cases _ _ _ k Hi') as [(es1 & i & w & es2 & _ & _ & El & _)|(es & _ & _ & Hm & _)]; [|done].
    rewrite El, fmap_app in Hk. set_solver. }
  exists (spec_pop k l).1, c'. split_and!; [done|..|done].
  - unfold spec_pop. by destruct (assoc k l).
  - unfold contains. rewrite Hm. by rewrite bool_decide_false by (by intros []).
  - unfold pop. by rewrite Hm.
  - unfold get. by rewrite Hm.
Qed.

Lemma clear_slots_all n i (ns : list (option (Node K V))) :
  i + n = length ns → (∀ j, j < i → ns !! j = Some None) →
  clear_slots n i ns = Ret (replicate (length ns) None).
Proof.
  revert i ns. induction n as [|n IH]; intros i ns Hlen Hpre; simpl.
  - f_equal. apply list_eq. intros j. destruct (decide (j < length ns)).
    + rewrite lookup_replicate_2 by done. apply Hpre. lia.
    + rewrite !lookup_ge_None_2; [done|rewrite length_replicate; lia|lia].
  - rewrite decide_True by lia. rewrite IH, length_insert; [done|rewrite length_insert; lia|].
    intros j Hj. destruct (decide (j = i)) as [->|].
    + apply list_lookup_insert_eq. lia.
    + rewrite list_lookup_insert_ne by done. apply Hpre. lia.
Qed.

(** [new_boxed] initialises every field of the allocation it is given: whatever
    the memory held, the result is the cache [new] builds; a failed allocation
    panics. *)
Lemma new_boxed_new (N : nat) c :
  length (nodes c) = N → new_boxed N (Some c) = Ret (new N) ∧ new_boxed N None = Panic (A := LRUCache K V).
Proof.
  intros HN. split; [|done]. unfold new_boxed.
  rewrite clear_slots_all; [|lia|intros; lia]. by rewrite HN.
Qed.

(** The capacity must be nonzero: the first [put] into a cache of capacity zero
    pops the empty free list with [unwrap_unchecked], which is undefined behaviour.
    The assertion [_ASSERT_NONZERO] of the source would reject [N = 0], but no code
    refers to it, so it is never evaluated. *)
Theorem put_zero_capacity k v : put 0 (new 0) k v = UB.
Proof. done. Qed.
End Props.

(** ** Witnesses: concrete caches over integers *)
Definition demo_ops : list (lru_op (K := nat) (V := nat)) :=
  [OpPut 1 10; OpPut 2 20; OpGet 1; OpPut 3 30; OpContains 2; OpPop 1; OpGet 3].

Example demo_results :
  (spec_run 2 [] demo_ops).1 =
  [ResPut None false; ResPut None false; ResGet (Some 10); ResPut (Some (2, 20)) false;
   ResContains false; ResPop (Some (1, 10)); ResGet (Some 30)].
Proof. vm_compute. reflexivity. Qed.

Lemma lru_refines_spec_witness :
  ∃ c, run 2 (new 2) demo_ops = Ret ((spec_run 2 [] demo_ops).1, c) ∧
       lru_inv 2 c (spec_run 2 [] demo_ops).2.
Proof. apply (lru_refines_spec 2 demo_ops). lia. Defined.

Lemma put_result_cases_witness :
  ∃ c' l', lru_inv 2 c' l' ∧ size (map c') ≤ 2 ∧ l' !! 0 = Some (7, 70) ∧
    put 2 (new 2) 7 70 =
      Ret (if contains (new 2 : LRUCache nat nat) 7 then (None, true)
           else if bool_decide (size (map (new 2 : LRUCache nat nat)) = 2)
                then (last [], false) else (None, false), c') ∧
    (contains (new 2 : LRUCache nat nat) 7 = false → size (map (new 2 : LRUCache nat nat)) = 2 →
     is_Some (last ([] : list (nat * nat)))).
Proof. apply (put_result_cases 2 (new 2) [] 7 70); [lia|apply new_inv]. Defined.

Lemma put_then_get_witness :
  ∃ r c' o c'', put 1 (new 1) 7 70 = Ret (r, c') ∧ get c' 7 = Ret (o, c'') ∧
    o = (if decide (7 = 7) then Some 70
         else if decide (fst <$> r.1 = Some 7) then None else assoc 7 []).
Proof. apply (put_then_get 1 (new 1) [] 7 70 7); [lia|apply new_inv]. Defined.

Lemma lru_retention_witness :
  ∃ r c' rs c'', put 2 (new 2) 7 70 = Ret (r, c') ∧
    run 2 c' [OpPut 8 80; OpGet 8; OpPop 8; OpPut 8 81] = Ret (rs, c'') ∧ contains c'' 7 = true.
Proof.
  apply (lru_retention 2 (new 2) [] 7 70); [lia|apply new_inv| |].
  - repeat constructor; lia.
  - apply (bool_decide_unpack _). vm_compute. exact I.
Defined.

Lemma pop_removes_witness :
  ∃ o c', pop (new 2 : LRUCache nat nat) 7 = Ret (o, c') ∧ o = (λ v, (7, v)) <$> assoc 7 [] ∧
    contains c' 7 = false ∧ pop c' 7 = Ret (None, c') ∧ get c' 7 = Ret (None, c') ∧
    lru_inv 2 c' (drop_key 7 []).
Proof. apply (pop_removes 2 (new 2) [] 7). apply new_inv. Defined.
