(* ===== verification/F64.v ===== *)
(** Binary64 arithmetic and the [OrderedFloat] wrapper.

    [f64] is the IEEE 754 binary64 format of the Standard Library's [SpecFloat]:
    53 bits of precision, exponents up to 1024, round to nearest, ties to even,
    which is the arithmetic of Rust's [f64] (NaN payloads are not kept).

    [OrderedFloat] is a crate the program depends on; [OrderedFloatOps] lists what
    the program uses of it and [OrderedFloatLaws] what its documentation promises:
    it compares like [f64] except that NaN equals itself and is greater than every
    other value, and its arithmetic is that of the wrapped float. *)
From Stdlib Require Import ZArith Lia SpecFloat.
From stdpp Require Import gmap list.
From S2P Require Import Prelude.
Local Open Scope Z_scope.

Abbreviation f64 := spec_float.
Definition f64_add : f64 → f64 → f64 := SFadd 53 1024.
Definition f64_sub : f64 → f64 → f64 := SFsub 53 1024.
Definition f64_mul : f64 → f64 → f64 := SFmul 53 1024.
Definition f64_div : f64 → f64 → f64 := SFdiv 53 1024.
Definition f64_eqb : f64 → f64 → bool := SFeqb.

(** [x as f64] for an unsigned integer [x]: the nearest binary64 number. *)
Definition f64_of_uint (x : Z) : f64 := binary_normalize 53 1024 x 0 false.

(** A decimal literal [n/d]: both are exact, so the rounded quotient is the binary64
    number nearest to the literal. *)
Definition f64_lit (n d : Z) : f64 := f64_div (f64_of_uint n) (f64_of_uint d).

Definition f64_zero : f64 := S754_zero false.
Definition f64_one : f64 := f64_of_uint 1.

#[global] Instance f64_eq_dec : EqDecision f64.
Proof. solve_decision. Defined.

(** ** OrderedFloat *)
Class OrderedFloatOps : Type := {
  of_cmp : f64 → f64 → comparison;
  of_add : f64 → f64 → f64;
  of_sub : f64 → f64 → f64;
  of_mul : f64 → f64 → f64;
  of_div : f64 → f64 → f64;
}.

Class OrderedFloatLaws `{OrderedFloatOps} : Prop := {
  of_cmp_num x y c : SFcompare x y = Some c → of_cmp x y = c;
  of_cmp_nan_nan : of_cmp S754_nan S754_nan = Eq;
  of_cmp_nan_l x : x ≠ S754_nan → of_cmp S754_nan x = Gt;
  of_cmp_nan_r x : x ≠ S754_nan → of_cmp x S754_nan = Lt;
  of_add_f64 x y : of_add x y = f64_add x y;
  of_sub_f64 x y : of_sub x y = f64_sub x y;
  of_mul_f64 x y : of_mul x y = f64_mul x y;
  of_div_f64 x y : of_div x y = f64_div x y;
}.

(** The documented behaviour, as a function: it satisfies the laws. *)
Definition ref_of_cmp (x y : f64) : comparison :=
  match SFcompare x y with
  | Some c => c
  | None => match x, y with
            | S754_nan, S754_nan => Eq
            | S754_nan, _ => Gt
            | _, _ => Lt
            end
  end.

Definition ref_ordered_float : OrderedFloatOps :=
  {| of_cmp := ref_of_cmp; of_add := f64_add; of_sub := f64_sub;
     of_mul := f64_mul; of_div := f64_div |}.

Lemma ref_ordered_float_laws : @OrderedFloatLaws ref_ordered_float.
Proof.
  split; try done; simpl; unfold ref_of_cmp.
  - intros x y c ->. done.
  - intros x Hx. by destruct x.
  - intros x Hx. by destruct x.
Qed.

(** ** The order on numbers

    [rank] places the numbers that are not NaN on a line, as triples compared
    lexicographically, so that the order facts become facts about integers. *)
Definition rank (x : f64) : Z * (Z * Z) :=
  match x with
  | S754_infinity true => (-2, (0, 0))
  | S754_finite true m e => (-1, (- e, Z.neg m))
  | S754_zero _ => (0, (0, 0))
  | S754_finite false m e => (1, (e, Z.pos m))
  | S754_infinity false => (2, (0, 0))
  | S754_nan => (3, (0, 0))
  end.

Definition rank_cmp (a b : Z * (Z * Z)) : comparison :=
  match a.1 ?= b.1 with
  | Eq => match a.2.1 ?= b.2.1 with Eq => a.2.2 ?= b.2.2 | c => c end
  | c => c
  end.

Lemma of_cmp_rank `{OrderedFloatLaws} x y : of_cmp x y = rank_cmp (rank x) (rank y).
Proof.
  destruct (SFcompare x y) as [c|] eqn:E.
  - rewrite (of_cmp_num _ _ _ E).
    destruct x as [s1|s1| |s1 m1 e1], y as [s2|s2| |s2 m2 e2]; simpl in E; try done;
      injection E as <-; try destruct s1; try destruct s2; try done; unfold rank_cmp; simpl.
    rewrite Z.compare_opp, (Z.compare_antisym e1 e2). by destruct (e1 ?= e2).
  - destruct x as [s1|s1| |s1 m1 e1], y as [s2|s2| |s2 m2 e2]; try done;
      first [ rewrite of_cmp_nan_nan; done
            | rewrite of_cmp_nan_l by done; try destruct s2; done
            | rewrite of_cmp_nan_r by done; try destruct s1; done ].
Qed.

Lemma rank_cmp_spec a b :
  match rank_cmp a b with
  | Eq => a = b
  | Lt => a.1 < b.1 ∨ a.1 = b.1 ∧ (a.2.1 < b.2.1 ∨ a.2.1 = b.2.1 ∧ a.2.2 < b.2.2)
  | Gt => b.1 < a.1 ∨ a.1 = b.1 ∧ (b.2.1 < a.2.1 ∨ a.2.1 = b.2.1 ∧ b.2.2 < a.2.2)
  end.
Proof.
  destruct a as [a [a1 a2]], b as [b [b1 b2]]. unfold rank_cmp. simpl.
  destruct (Z.compare_spec a b), (Z.compare_spec a1 b1), (Z.compare_spec a2 b2); subst; tauto || lia.
Qed.

(** [OrderedFloat] is totally ordered, NaN included; equality of the order
    identifies the two zeros and nothing else. *)
#[global] Instance of_ord `{OrderedFloatOps} : Ord f64 := of_cmp.
#[global] Instance of_ord_laws `{OrderedFloatLaws} : OrdLaws f64.
Proof.
  split; unfold cmp, of_ord; intros x; [|intros y|intros y z|intros y z]; rewrite !of_cmp_rank.
  - pose proof (rank_cmp_spec (rank x) (rank x)). destruct (rank_cmp _ _); [done|lia|lia].
  - pose proof (rank_cmp_spec (rank x) (rank y)) as H1.
    pose proof (rank_cmp_spec (rank y) (rank x)) as H2.
    destruct (rank_cmp (rank x) (rank y)), (rank_cmp (rank y) (rank x)); simpl; try done;
      rewrite ?H1, ?H2 in *; lia.
  - intros Hxy Hyz. pose proof (rank_cmp_spec (rank x) (rank y)) as H1.
    pose proof (rank_cmp_spec (rank y) (rank z)) as H2.
    pose proof (rank_cmp_spec (rank x) (rank z)) as H3. rewrite Hxy in H1. rewrite Hyz in H2.
    destruct (rank_cmp (rank x) (rank z)); [rewrite ?H3 in *; lia|done|lia].
  - intros Hxy. pose proof (rank_cmp_spec (rank x) (rank y)) as H1. rewrite Hxy in H1. by rewrite H1.
Qed.
