(* ===== verification/OrdMap.v ===== *)
(** Ordered maps as association lists: the model of [std::collections::BTreeMap]
    used by the models, and the reference against which the red-black trees of
    the sokoban crate are specified.  Keys are compared with [cmp]; two keys that
    compare equal are the same key of the map even when they are different
    values (floating-point zeros of either sign, for example). *)
From Stdlib Require Import ZArith Lia.
From stdpp Require Import gmap list.
From S2P Require Import Prelude.

Section Ops.
Context {K V : Type} `{Ord K}.
Implicit Types (l : list (K * V)) (k : K) (v : V).

Fixpoint al_get k l : option V :=
  match l with
  | [] => None
  | (k', v') :: l => match cmp k k' with Eq => Some v' | _ => al_get k l end
  end.

(** Insertion keeps the list in key order; a present key keeps its place and takes
    the new value. *)
Fixpoint al_insert k v l : list (K * V) :=
  match l with
  | [] => [(k, v)]
  | (k', v') :: l' =>
     match cmp k k' with
     | Lt => (k, v) :: l
     | Eq => (k', v) :: l'
     | Gt => (k', v') :: al_insert k v l'
     end
  end.

Fixpoint al_remove k l : list (K * V) :=
  match l with
  | [] => []
  | (k', v') :: l => match cmp k k' with Eq => l | _ => (k', v') :: al_remove k l end
  end.

(** Overwriting the value of a present key, as through a [&mut V]. *)
Fixpoint al_set k v l : list (K * V) :=
  match l with
  | [] => []
  | (k', v') :: l => match cmp k k' with Eq => (k', v) :: l | _ => (k', v') :: al_set k v l end
  end.

Definition al_mem k l : bool := match al_get k l with Some _ => true | None => false end.
End Ops.

(** ** Facts that hold of any comparison *)
Section Facts.
Context {K V : Type} `{Ord K}.
Implicit Types (l : list (K * V)) (k : K) (v : V).

Lemma al_get_elem k v l : al_get k l = Some v → ∃ k', (k', v) ∈ l ∧ cmp k k' = Eq.
Proof.
  induction l as [|[k' v'] l IH]; simpl; [done|]. destruct (cmp k k') eqn:E.
  - intros [= ->]. exists k'. split; [by left|done].
  - intros (k2 & ? & ?)%IH. exists k2. split; [by right|done].
  - intros (k2 & ? & ?)%IH. exists k2. split; [by right|done].
Qed.

Lemma al_get_None k l : al_get k l = None ↔ ∀ k' v, (k', v) ∈ l → cmp k k' ≠ Eq.
Proof.
  induction l as [|[k' v'] l IH]; simpl; [set_solver|].
  destruct (cmp k k') eqn:E; rewrite ?IH; split; intros Hl.
  - done.
  - exfalso. by apply (Hl k' v'); [left|].
  - intros k2 w [[= -> ->]|Hin]%elem_of_cons; [by rewrite E|eauto].
  - intros k2 w Hin. apply (Hl k2 w). by right.
  - intros k2 w [[= -> ->]|Hin]%elem_of_cons; [by rewrite E|eauto].
  - intros k2 w Hin. apply (Hl k2 w). by right.
Qed.

Lemma al_insert_perm k v l : al_get k l = None → al_insert k v l ≡ₚ (k, v) :: l.
Proof.
  induction l as [|[k' v'] l IH]; simpl; [done|].
  destruct (cmp k k'); [done|done|]. intros E. rewrite IH by done. constructor.
Qed.

Lemma al_insert_length k v l : (length (al_insert k v l) ≤ S (length l))%nat.
Proof.
  induction l as [|[k' v'] l IH]; simpl; [done|]. destruct (cmp k k'); simpl; lia.
Qed.

Lemma al_remove_absent k l : al_get k l = None → al_remove k l = l.
Proof.
  induction l as [|[k' v'] l IH]; simpl; [done|]. destruct (cmp k k'); [done|..];
    intros E; by rewrite IH.
Qed.

Lemma al_remove_perm k v l :
  al_get k l = Some v → ∃ k', cmp k k' = Eq ∧ l ≡ₚ (k', v) :: al_remove k l.
Proof.
  induction l as [|[k' v'] l IH]; simpl; [done|]. destruct (cmp k k') eqn:E.
  - intros [= ->]. by exists k'.
  - intros (k2 & ? & Hp)%IH. exists k2. split; [done|]. rewrite Hp at 1. constructor.
  - intros (k2 & ? & Hp)%IH. exists k2. split; [done|]. rewrite Hp at 1. constructor.
Qed.

Lemma al_remove_length k l :
  length (al_remove k l) = (length l - if al_mem k l then 1 else 0)%nat.
Proof.
  unfold al_mem. destruct (al_get k l) eqn:E.
  - destruct (al_remove_perm _ _ _ E) as (k' & _ & Hp). apply Permutation_length in Hp. simpl in Hp. lia.
  - rewrite al_remove_absent by done. lia.
Qed.

Lemma al_set_absent k v l : al_get k l = None → al_set k v l = l.
Proof.
  induction l as [|[k' v'] l IH]; simpl; [done|]. destruct (cmp k k'); [done|..];
    intros E; by rewrite IH.
Qed.

Lemma al_set_perm k v w l :
  al_get k l = Some v → ∃ k' l', cmp k k' = Eq ∧ l ≡ₚ (k', v) :: l' ∧ al_set k w l ≡ₚ (k', w) :: l'.
Proof.
  induction l as [|[k' v'] l IH]; simpl; [done|]. destruct (cmp k k') eqn:E.
  - intros [= ->]. by exists k', l.
  - intros (k2 & l' & ? & Hp & Hq)%IH. exists k2, ((k', v') :: l'). split; [done|].
    split; [rewrite Hp; constructor|rewrite Hq; constructor].
  - intros (k2 & l' & ? & Hp & Hq)%IH. exists k2, ((k', v') :: l'). split; [done|].
    split; [rewrite Hp; constructor|rewrite Hq; constructor].
Qed.

Lemma al_set_keys k v l : (al_set k v l).*1 = l.*1.
Proof.
  induction l as [|[k' v'] l IH]; simpl; [done|]. destruct (cmp k k'); rewrite ?fmap_cons, ?IH; done.
Qed.
End Facts.

(** ** Facts for comparisons that decide equality of keys *)
Section EqFacts.
Context {K V : Type} `{EqDecision K} `{OrdEq K}.
Implicit Types (l : list (K * V)) (k : K) (v : V).

Lemma cmp_same k : cmp k k = Eq.
Proof. by apply cmp_eq. Qed.

Lemma cmp_ne k k' : k ≠ k' → cmp k k' ≠ Eq.
Proof. intros Hne E. by apply Hne, cmp_eq. Qed.

Lemma al_get_Some k v l : NoDup l.*1 → al_get k l = Some v ↔ (k, v) ∈ l.
Proof.
  intros Hnd. split.
  - intros (k' & Hin & ->%cmp_eq)%al_get_elem. done.
  - intros Hin. destruct (al_get k l) as [w|] eqn:E.
    + apply al_get_elem in E as (k' & Hin' & <-%cmp_eq). f_equal.
      apply list_elem_of_lookup in Hin as [i Hi], Hin' as [j Hj].
      assert (i = j) as <-; [|congruence].
      eapply NoDup_lookup; [exact Hnd|..]; rewrite list_lookup_fmap; [by rewrite Hi|by rewrite Hj].
    + apply al_get_None with (k' := k) (v := v) in E; [|done]. by rewrite cmp_same in E.
Qed.

Lemma al_get_None_keys k l : al_get k l = None ↔ k ∉ l.*1.
Proof.
  rewrite al_get_None. split.
  - intros Hl ([k' v] & -> & Hin)%list_elem_of_fmap. apply (Hl _ _ Hin), cmp_same.
  - intros Hk k' v Hin. apply cmp_ne. intros ->. apply Hk, list_elem_of_fmap. by exists (k', v).
Qed.

Lemma al_get_perm k l l' : NoDup l.*1 → l ≡ₚ l' → al_get k l = al_get k l'.
Proof.
  intros Hnd Hp. assert (Hnd' : NoDup l'.*1) by by rewrite <- Hp.
  destruct (al_get k l) as [v|] eqn:E; symmetry.
  - apply al_get_Some; [done|]. rewrite <- Hp. by apply al_get_Some.
  - apply al_get_None_keys. rewrite <- Hp. by apply al_get_None_keys.
Qed.

Lemma al_remove_Some k v l : al_get k l = Some v → l ≡ₚ (k, v) :: al_remove k l.
Proof. intros (k' & <-%cmp_eq & Hp)%al_remove_perm. done. Qed.

Lemma al_remove_keys k l : NoDup l.*1 → NoDup (al_remove k l).*1 ∧ k ∉ (al_remove k l).*1.
Proof.
  intros Hnd. destruct (al_get k l) as [v|] eqn:E.
  - apply al_remove_Some in E. rewrite E in Hnd. by apply NoDup_cons in Hnd as [? ?].
  - rewrite al_remove_absent by done. split; [done|]. by apply al_get_None_keys.
Qed.

Lemma al_get_remove k k' l :
  NoDup l.*1 → al_get k' (al_remove k l) = if decide (k' = k) then None else al_get k' l.
Proof.
  intros Hnd. destruct (decide (k' = k)) as [->|Hne].
  - by apply al_get_None_keys, al_remove_keys.
  - destruct (al_get k l) as [v|] eqn:E; [|by rewrite al_remove_absent].
    rewrite (al_get_perm k' l ((k, v) :: al_remove k l)) by (done || by apply al_remove_Some).
    simpl. destruct (cmp k' k) eqn:E'; [by apply cmp_eq in E'|done|done].
Qed.

Lemma al_insert_fresh k v l :
  NoDup l.*1 → al_get k l = None →
  NoDup (al_insert k v l).*1 ∧
  ∀ k', al_get k' (al_insert k v l) = if decide (k' = k) then Some v else al_get k' l.
Proof.
  intros Hnd E. assert (Hnd' : NoDup (al_insert k v l).*1).
  { rewrite al_insert_perm by done. apply NoDup_cons. by rewrite <- al_get_None_keys. }
  split; [done|]. intros k'. rewrite (al_get_perm k' _ ((k, v) :: l)) by (done || by apply al_insert_perm).
  simpl. destruct (cmp k' k) eqn:Ec.
  - apply cmp_eq in Ec as ->. by rewrite decide_True.
  - rewrite decide_False; [done|]. intros ->. by rewrite cmp_same in Ec.
  - rewrite decide_False; [done|]. intros ->. by rewrite cmp_same in Ec.
Qed.

Lemma al_get_set k v k' l :
  al_get k' (al_set k v l) =
  if decide (k' = k) then (λ _, v) <$> al_get k l else al_get k' l.
Proof.
  induction l as [|[k2 v2] l IH]; simpl; [by case_decide|].
  destruct (cmp k k2) eqn:E; simpl.
  - apply cmp_eq in E as ->. destruct (decide (k' = k2)) as [->|Hne]; [by rewrite cmp_same|].
    destruct (cmp k' k2) eqn:E2; [by apply cmp_eq in E2|done|done].
  - destruct (cmp k' k2) eqn:E2; rewrite ?IH; try done. apply cmp_eq in E2 as ->.
    rewrite decide_False; [done|]. intros ->. by rewrite cmp_same in E.
  - destruct (cmp k' k2) eqn:E2; rewrite ?IH; try done. apply cmp_eq in E2 as ->.
    rewrite decide_False; [done|]. intros ->. by rewrite cmp_same in E.
Qed.
End EqFacts.
