(* ===== verification/RedBlack.v ===== *)
(** The interface of the red-black trees of the sokoban crate, on which the scoring
    models keep their tables.  [SokobanOps] lists the operations the models call;
    [SokobanLaws] states what they rely on, in terms of the ordered association
    list of a tree's entries ([elems]): an ordered map of bounded capacity, in
    which inserting a new key into a full tree changes nothing, and whose root is
    one of its entries.  Nothing is assumed about the shape of the tree, so
    nothing about which entry is the root. *)
From Stdlib Require Import ZArith Lia.
From stdpp Require Import gmap list.
From S2P Require Import Prelude OrdMap.

(** [rbt MAX K V] is [RedBlackTree<K, V, MAX>].  [rb_write k v] stands for writing
    [v] through the [&mut V] that [get_mut] or [iter_mut] gives for key [k];
    [rb_root_key] for [tree.get_node(tree.root).key]; the address that [insert]
    returns is not used by any caller. *)
Class SokobanOps : Type := {
  rbt : nat → Type → Type → Type;
  rb_new {MAX K V} : rbt MAX K V;
  rb_insert {MAX K V} `{Ord K} : K → V → rbt MAX K V → rbt MAX K V;
  rb_remove {MAX K V} `{Ord K} : K → rbt MAX K V → option V * rbt MAX K V;
  rb_get {MAX K V} `{Ord K} : K → rbt MAX K V → option V;
  rb_write {MAX K V} `{Ord K} : K → V → rbt MAX K V → rbt MAX K V;
  rb_len {MAX K V} : rbt MAX K V → nat;
  rb_is_empty {MAX K V} : rbt MAX K V → bool;
  rb_iter {MAX K V} : rbt MAX K V → list (K * V);
  rb_root_key {MAX K V} : rbt MAX K V → option K;
  rb_remove_root {MAX K V} `{Ord K} : rbt MAX K V → option (K * V) * rbt MAX K V;
}.

Class SokobanLaws `{SokobanOps} : Type := {
  elems {MAX K V} : rbt MAX K V → list (K * V);
  capacity : nat → nat;
  elems_new {MAX K V} : elems (rb_new : rbt MAX K V) = [];
  elems_insert {MAX K V} `{Ord K} k v (t : rbt MAX K V) :
    elems (rb_insert k v t) =
    if al_mem k (elems t) || bool_decide (length (elems t) < capacity MAX)%nat
    then al_insert k v (elems t) else elems t;
  remove_value {MAX K V} `{Ord K} k (t : rbt MAX K V) : (rb_remove k t).1 = al_get k (elems t);
  elems_remove {MAX K V} `{Ord K} k (t : rbt MAX K V) :
    elems (rb_remove k t).2 = al_remove k (elems t);
  get_elems {MAX K V} `{Ord K} k (t : rbt MAX K V) : rb_get k t = al_get k (elems t);
  elems_write {MAX K V} `{Ord K} k v (t : rbt MAX K V) : elems (rb_write k v t) = al_set k v (elems t);
  len_elems {MAX K V} (t : rbt MAX K V) : rb_len t = length (elems t);
  is_empty_elems {MAX K V} (t : rbt MAX K V) : rb_is_empty t = bool_decide (elems t = []);
  iter_elems {MAX K V} (t : rbt MAX K V) : rb_iter t = elems t;
  root_elems {MAX K V} (t : rbt MAX K V) :
    elems t ≠ [] → ∃ k v, rb_root_key t = Some k ∧ (k, v) ∈ elems t;
  remove_root_elems {MAX K V} `{Ord K} (t : rbt MAX K V) :
    elems t ≠ [] →
    ∃ k v t', rb_remove_root t = (Some (k, v), t') ∧ rb_root_key t = Some k ∧
      (k, v) ∈ elems t ∧ elems t' = al_remove k (elems t);
}.

#[export] Hint Rewrite @elems_new @remove_value @elems_remove @get_elems @elems_write @len_elems
  @is_empty_elems @iter_elems using typeclasses eauto : sokoban.

(** ** A concrete tree that satisfies the laws: the association list itself, with
    its middle entry for a root. *)
Definition ref_root_key {K V} (l : list (K * V)) : option K := fst <$> l !! Nat.div2 (length l).

Definition ref_sokoban : SokobanOps := {|
  rbt MAX K V := list (K * V);
  rb_new MAX K V := [];
  rb_insert MAX K V _ k v t :=
    if al_mem k t || bool_decide (length t < MAX)%nat then al_insert k v t else t;
  rb_remove MAX K V _ k t := (al_get k t, al_remove k t);
  rb_get MAX K V _ k t := al_get k t;
  rb_write MAX K V _ k v t := al_set k v t;
  rb_len MAX K V t := length t;
  rb_is_empty MAX K V t := match t with [] => true | _ => false end;
  rb_iter MAX K V t := t;
  rb_root_key MAX K V t := ref_root_key t;
  rb_remove_root MAX K V _ t :=
    match t !! Nat.div2 (length t) with
    | Some (k, v) => (Some (k, v), al_remove k t)
    | None => (None, t)
    end
|}.

Lemma ref_middle {A} (l : list A) : l ≠ [] → ∃ x, l !! Nat.div2 (length l) = Some x.
Proof.
  intros Hl. apply lookup_lt_is_Some_2. destruct l as [|x l]; [done|].
  apply Nat.lt_div2. simpl. lia.
Qed.

Definition ref_sokoban_laws : @SokobanLaws ref_sokoban.
Proof.
  unshelve esplit; [exact (λ _ _ _ t, t)|exact (λ MAX, MAX)|..]; try (intros; reflexivity).
  - intros MAX K V t. simpl. destruct t; case_bool_decide; done.
  - intros MAX K V t Ht. simpl. unfold ref_root_key. destruct (ref_middle t Ht) as [[k v] E].
    rewrite E. exists k, v. split; [done|]. by eapply list_elem_of_lookup_2.
  - intros MAX K V O t Ht. simpl. unfold ref_root_key. destruct (ref_middle t Ht) as [[k v] E].
    rewrite E. exists k, v, (al_remove k t). split_and!; [done..|by eapply list_elem_of_lookup_2|done].
Defined.
