(* ===== verification/ScoreTableFacts.v ===== *)
(** The invariant of a score table and the effect of each operation on it. *)
From Stdlib Require Import ZArith Lia SpecFloat.
From stdpp Require Import gmap list.
From S2P Require Import Prelude F64 OrdMap RedBlack ScoreTable.
Local Open Scope Z_scope.

(** ** Entries *)
Section Entries.
Context `{OrderedFloatLaws} {K : Type} `{OrdEq K}.

Lemma entry_cmp_id (a b : InverseScoreEntry K) : cmp a b = Eq → entry_id a = entry_id b.
Proof.
  unfold cmp, entry_ord. destruct (of_cmp _ _); [|done|done].
  destruct (cmp (entry_id a) (entry_id b)) eqn:E; [|done|done]. intros _. by apply cmp_eq.
Qed.

Lemma entry_cmp_refl (a : InverseScoreEntry K) : cmp a a = Eq.
Proof.
  unfold cmp, entry_ord. change (of_cmp (entry_score a) (entry_score a))
    with (cmp (entry_score a) (entry_score a)).
  rewrite cmp_refl, (proj2 (cmp_eq (entry_id a) _)) by done. by rewrite (proj2 (cmp_eq (entry_pad a) _)).
Qed.
End Entries.

(** ** Tables as lists: [synced pad f i] says that the inverse [i] holds exactly the
    entries of the table [f]. *)
Section Synced.
Context `{OrderedFloatLaws} {K : Type} `{EqDecision K} `{OrdEq K} (pad : nat).
Implicit Types (f : list (K * f64)) (i : list (InverseScoreEntry K * ())) (k : K) (s : f64).

Definition to_entry (e : K * f64) : InverseScoreEntry K := entry_new pad e.2 e.1.
Definition synced f i : Prop := NoDup f.*1 ∧ i.*1 ≡ₚ to_entry <$> f.

Lemma synced_nil : synced [] [].
Proof. split; [constructor|done]. Qed.

Lemma synced_length f i : synced f i → length i = length f.
Proof.
  intros [_ Hp]. apply Permutation_length in Hp. by rewrite !length_fmap in Hp.
Qed.

Lemma synced_elem f i e u :
  synced f i → (e, u) ∈ i → e = entry_new pad (entry_score e) (entry_id e) ∧
  al_get (entry_id e) f = Some (entry_score e).
Proof.
  intros [Hnd Hp] Hin. assert (e ∈ i.*1) as He by (apply list_elem_of_fmap; by exists (e, u)).
  rewrite Hp in He. apply list_elem_of_fmap in He as ([k s] & -> & Hks). simpl. split; [done|].
  by apply al_get_Some.
Qed.

Lemma synced_absent f i k s :
  synced f i → al_get k f = None → al_get (entry_new pad s k) i = None.
Proof.
  intros Hs Hk. apply al_get_None. intros e u Hin Hc%entry_cmp_id.
  destruct (synced_elem _ _ _ _ Hs Hin) as [_ He]. simpl in Hc. rewrite <- Hc in He. congruence.
Qed.

Lemma synced_present f i k s :
  synced f i → al_get k f = Some s →
  al_get (entry_new pad s k) i = Some () ∧
  i ≡ₚ (entry_new pad s k, ()) :: al_remove (entry_new pad s k) i.
Proof.
  intros Hs Hk. assert (Hget : al_get (entry_new pad s k) i = Some ()).
  { destruct (al_get (entry_new pad s k) i) as [[]|] eqn:E; [done|].
    assert ((entry_new pad s k, ()) ∈ i) as Hin.
    { assert (entry_new pad s k ∈ i.*1) as He.
      { rewrite (proj2 Hs). apply list_elem_of_fmap. exists (k, s). split; [done|].
        apply al_get_Some; [apply Hs|done]. }
      apply list_elem_of_fmap in He as ([e []] & -> & ?). done. }
    apply al_get_None with (k' := entry_new pad s k) (v := ()) in E; [|done].
    by rewrite entry_cmp_refl in E. }
  split; [done|]. destruct (al_remove_perm _ _ _ Hget) as (e & Hc & Hp).
  assert ((e, ()) ∈ i) as Hin by (rewrite Hp; by left).
  destruct (synced_elem _ _ _ _ Hs Hin) as [He Hg]. apply entry_cmp_id in Hc. simpl in Hc.
  rewrite <- Hc, Hk in Hg. injection Hg as ->. rewrite Hc in *. by rewrite <- He in *.
Qed.

Lemma synced_insert f i k s :
  synced f i → al_get k f = None → synced (al_insert k s f) (al_insert (entry_new pad s k) () i).
Proof.
  intros Hs Hk. split.
  - apply al_insert_fresh; [apply Hs|done].
  - rewrite !al_insert_perm by (done || by eapply synced_absent). simpl. by rewrite (proj2 Hs).
Qed.

Lemma synced_remove f i k s :
  synced f i → al_get k f = Some s → synced (al_remove k f) (al_remove (entry_new pad s k) i).
Proof.
  intros Hs Hk. destruct (synced_present _ _ _ _ Hs Hk) as [_ Hp].
  split; [apply al_remove_keys, Hs|].
  apply (Permutation_cons_inv (a := entry_new pad s k)).
  transitivity i.*1; [by rewrite Hp at 2|]. rewrite (proj2 Hs).
  by rewrite (al_remove_Some _ _ _ Hk) at 1.
Qed.

(** Replacing a score in place: the old entry leaves the inverse, the new one
    enters. *)
Lemma synced_replace f i k s s' :
  synced f i → al_get k f = Some s →
  synced (al_set k s' f) (al_insert (entry_new pad s' k) () (al_remove (entry_new pad s k) i)).
Proof.
  intros Hs Hk. pose proof (synced_remove _ _ _ _ Hs Hk) as Hr.
  split; [rewrite al_set_keys; apply Hs|].
  rewrite al_insert_perm; cycle 1.
  { eapply synced_absent; [done|]. rewrite al_get_remove by apply Hs. by rewrite decide_True. }
  rewrite fmap_cons, (proj2 Hr).
  destruct (al_set_perm _ _ s' _ Hk) as (k' & f' & <-%cmp_eq & Hp & Hq). rewrite Hq.
  change (to_entry <$> (k, s') :: f') with (to_entry (k, s') :: (to_entry <$> f')).
  apply Permutation_cons; [done|]. apply fmap_Permutation.
  apply (Permutation_cons_inv (a := (k, s))). rewrite <- Hp. symmetry. by apply al_remove_Some.
Qed.
End Synced.

(** ** The invariant of a table *)
Section Wf.
Context `{OrderedFloatLaws} `{SokobanLaws} {K : Type} `{EqDecision K} `{OrdEq K} {MAX : nat} (pad : nat).
Abbreviation scores := (rbt MAX K f64).
Abbreviation inverse := (rbt MAX (InverseScoreEntry K) ()).
Implicit Types (sc : scores) (inv : inverse) (k : K) (s : f64).

Record table_wf sc inv : Prop := {
  wf_synced : synced pad (elems sc) (elems inv);
  wf_capacity : (length (elems sc) ≤ capacity MAX)%nat;
}.

(** The scores of a table. *)
Definition lookup_score k sc : option f64 := al_get k (elems sc).

Lemma wf_new : table_wf rb_new rb_new.
Proof. split; rewrite !elems_new; [apply synced_nil|simpl; lia]. Qed.

Lemma elems_insert_absent {K' V} `{Ord K'} (x : K') (v : V) (t : rbt MAX K' V) :
  al_get x (elems t) = None →
  elems (rb_insert x v t) =
  if bool_decide (length (elems t) < capacity MAX)%nat then al_insert x v (elems t) else elems t.
Proof. intros E. rewrite elems_insert. unfold al_mem. by rewrite E. Qed.

(** Inserting an absent source: both trees take it, or both are full. *)
Lemma wf_insert sc inv k s :
  table_wf sc inv → lookup_score k sc = None →
  table_wf (rb_insert k s sc) (rb_insert (entry_new pad s k) () inv) ∧
  ∀ k', lookup_score k' (rb_insert k s sc) =
    if decide (k' = k ∧ (length (elems sc) < capacity MAX)%nat) then Some s else lookup_score k' sc.
Proof.
  intros Hwf Hk. pose proof (wf_synced _ _ Hwf) as Hs. unfold lookup_score in *.
  rewrite !elems_insert_absent by done.
  assert (Hins : elems (rb_insert (entry_new pad s k) () inv) =
    if bool_decide (length (elems sc) < capacity MAX)%nat
    then al_insert (entry_new pad s k) () (elems inv) else elems inv).
  { rewrite elems_insert_absent by (by eapply synced_absent). by rewrite (synced_length _ _ _ Hs). }
  case_bool_decide as Hroom; split.
  - split; rewrite ?Hins, !elems_insert_absent, ?(bool_decide_true _ Hroom) by done.
    + by apply synced_insert.
    + rewrite al_insert_perm by done. simpl. lia.
  - intros k'. destruct (al_insert_fresh k s (elems sc) (proj1 Hs) Hk) as [_ ->].
    destruct (decide (k' = k)); [by rewrite decide_True|by rewrite decide_False by tauto].
  - split; rewrite ?Hins, !elems_insert_absent, ?(bool_decide_false _ Hroom) by done; apply Hwf.
  - intros k'. by rewrite decide_False by tauto.
Qed.

Lemma wf_remove sc inv k s :
  table_wf sc inv → lookup_score k sc = Some s →
  table_wf (rb_remove k sc).2 (rb_remove (entry_new pad s k) inv).2.
Proof.
  intros Hwf Hk. split; rewrite !elems_remove.
  - by apply synced_remove; [apply Hwf|].
  - rewrite al_remove_length. pose proof (wf_capacity _ _ Hwf). lia.
Qed.

(** The in-place replacement shared by [ip_feedback] and [update_model]. *)
Lemma wf_replace sc inv k s s' :
  table_wf sc inv → lookup_score k sc = Some s →
  table_wf (rb_write k s' sc)
    (rb_insert (entry_new pad s' k) () (rb_remove (entry_new pad s k) inv).2) ∧
  ∀ k', lookup_score k' (rb_write k s' sc) = if decide (k' = k) then Some s' else lookup_score k' sc.
Proof.
  intros Hwf Hk. pose proof (wf_synced _ _ Hwf) as Hs. pose proof (wf_capacity _ _ Hwf) as Hc.
  unfold lookup_score in *. rewrite !elems_write. split.
  - assert (Hsr := synced_remove _ _ _ _ _ Hs Hk).
    assert (al_get k (al_remove k (elems sc)) = None) as Hnone
      by (rewrite al_get_remove by apply Hs; by rewrite decide_True).
    assert (length (al_remove k (elems sc)) < capacity MAX)%nat as Hroom.
    { pose proof (al_remove_Some _ _ _ Hk) as Hp. apply Permutation_length in Hp. simpl in Hp. lia. }
    split; rewrite ?elems_write.
    + rewrite elems_insert_absent; rewrite elems_remove; [|by eapply synced_absent].
      rewrite (synced_length _ _ _ Hsr), (bool_decide_true _ Hroom). by apply synced_replace.
    + rewrite <- (length_fmap fst), al_set_keys, length_fmap. done.
  - intros k'. rewrite al_get_set, Hk. done.
Qed.
End Wf.

(** ** The operations *)
Section Operations.
Context `{OrderedFloatLaws} `{SokobanLaws} {K : Type} `{EqDecision K} `{OrdEq K} {MAX : nat} (pad : nat).
Abbreviation scores := (rbt MAX K f64).
Abbreviation inverse := (rbt MAX (InverseScoreEntry K) ()).
Abbreviation candidates := (list (K * ScoreUpdateCandidate)).
Implicit Types (sc : scores) (inv : inverse) (k : K) (s : f64) (cands : candidates).

Lemma load_wf l sc inv :
  table_wf pad sc inv → NoDup (l.*1 ++ (elems sc).*1) →
  table_wf pad (fold_left (load_score pad) l (sc, inv)).1 (fold_left (load_score pad) l (sc, inv)).2 ∧
  ((length l + length (elems sc) ≤ capacity MAX)%nat →
   ∀ k, lookup_score k (fold_left (load_score pad) l (sc, inv)).1 =
     match al_get k l with Some s => Some s | None => lookup_score k sc end).
Proof.
  revert sc inv. induction l as [|[k s] l IH]; intros sc inv Hwf Hnd; simpl; [done|].
  simpl in Hnd. apply NoDup_cons in Hnd as [Hk Hnd]. rewrite elem_of_app in Hk.
  assert (Hnone : lookup_score k sc = None) by (apply al_get_None_keys; tauto).
  destruct (wf_insert pad _ _ k s Hwf Hnone) as [Hwf' Hl].
  assert (Hkeys : NoDup (l.*1 ++ (elems (rb_insert k s sc)).*1)).
  { rewrite elems_insert_absent by done. case_bool_decide; [|done].
    rewrite al_insert_perm by done. rewrite fmap_cons, <- Permutation_middle.
    apply NoDup_cons. rewrite elem_of_app. split; [tauto|done]. }
  destruct (IH _ _ Hwf' Hkeys) as [Hwf'' Hl']. split; [done|]. intros Hroom k'.
  rewrite Hl'; cycle 1.
  { rewrite elems_insert_absent by done. case_bool_decide; [|lia].
    rewrite al_insert_perm by done. simpl. lia. }
  rewrite Hl. destruct (cmp k' k) eqn:Ec.
  - apply cmp_eq in Ec as ->. rewrite decide_True by (split; [done|simpl in *; lia]).
    rewrite (proj2 (al_get_None_keys k l)) by tauto. done.
  - rewrite decide_False; [done|]. intros [-> _]. by rewrite cmp_same in Ec.
  - rewrite decide_False; [done|]. intros [-> _]. by rewrite cmp_same in Ec.
Qed.

Lemma table_new_wf l :
  NoDup l.*1 →
  table_wf pad (table_new (MAX := MAX) pad l).1 (table_new pad l).2 ∧
  ((length l ≤ capacity MAX)%nat → ∀ k, lookup_score k (table_new (MAX := MAX) pad l).1 = al_get k l).
Proof.
  intros Hnd. destruct (load_wf l rb_new rb_new) as [Hwf Hl].
  - apply wf_new.
  - by rewrite elems_new, app_nil_r.
  - split; [done|]. intros Hroom k. unfold table_new. rewrite Hl by (rewrite elems_new; simpl; lia).
    unfold lookup_score. rewrite elems_new. by destruct (al_get k l).
Qed.

Lemma add_score_wf sc inv k s :
  table_wf pad sc inv →
  table_wf pad (add_score pad k s sc inv).1 (add_score pad k s sc inv).2 ∧
  ∀ k', lookup_score k' (add_score pad k s sc inv).1 =
    if decide (k' = k ∧ (is_Some (lookup_score k sc) ∨ (length (elems sc) < capacity MAX)%nat))
    then Some s else lookup_score k' sc.
Proof.
  intros Hwf. unfold add_score.
  destruct (rb_remove k sc) as [old sc'] eqn:E.
  assert (old = lookup_score k sc) as -> by (unfold lookup_score; rewrite <- remove_value, E; done).
  assert (sc' = (rb_remove k sc).2) as -> by (by rewrite E). clear E.
  set (inv' := match lookup_score k sc with
    Some old => (rb_remove (entry_new pad old k) inv).2 | None => inv end).
  assert (Hwf' : table_wf pad (rb_remove k sc).2 inv').
  { unfold inv'. destruct (lookup_score k sc) as [old|] eqn:Ek; [by apply wf_remove|].
    split; rewrite elems_remove, al_remove_absent by done; apply Hwf. }
  assert (Hlk : ∀ k', lookup_score k' (rb_remove k sc).2 =
    if decide (k' = k) then None else lookup_score k' sc).
  { intros k'. unfold lookup_score. rewrite elems_remove. apply al_get_remove, Hwf. }
  assert (Hnone : lookup_score k (rb_remove k sc).2 = None) by (rewrite Hlk; by rewrite decide_True).
  destruct (wf_insert pad _ _ k s Hwf' Hnone) as [Hwf'' Hl]. split; [done|]. intros k'. simpl.
  rewrite Hl, Hlk, elems_remove, al_remove_length. unfold al_mem, lookup_score.
  pose proof (wf_capacity _ _ _ Hwf) as Hcap.
  destruct (decide (k' = k)) as [->|Hne]; [|by rewrite !decide_False by tauto].
  destruct (al_get k (elems sc)) as [old|] eqn:Ek.
  - apply al_remove_Some, Permutation_length in Ek. simpl in Ek.
    rewrite !decide_True by (split; [done|]; eauto || lia). done.
  - rewrite Nat.sub_0_r. destruct (decide (length (elems sc) < capacity MAX)%nat).
    + by rewrite !decide_True by tauto.
    + rewrite !decide_False; [done|..]; [intros [_ [[? [=]]|?]]; done|tauto].
Qed.

Lemma feedback_wf sc inv k :
  table_wf pad sc inv →
  table_wf pad (feedback pad k sc inv).1 (feedback pad k sc inv).2 ∧
  ∀ k', lookup_score k' (feedback pad k sc inv).1 =
    if decide (k' = k) then (λ s, f64_mul s PENALTY) <$> lookup_score k sc else lookup_score k' sc.
Proof.
  intros Hwf. unfold feedback. rewrite get_elems. change (al_get k (elems sc)) with (lookup_score k sc).
  destruct (lookup_score k sc) as [s|] eqn:E; simpl.
  - rewrite of_mul_f64. by apply wf_replace.
  - split; [done|]. intros k'. by case_decide; subst.
Qed.

Lemma prune_roots_wf n sc inv :
  table_wf pad sc inv → (n ≤ length (elems sc))%nat →
  ∃ sc' inv', prune_roots n sc inv = Ret (sc', inv') ∧ table_wf pad sc' inv' ∧
    length (elems sc') = (length (elems sc) - n)%nat ∧
    ∀ k s, lookup_score k sc' = Some s → lookup_score k sc = Some s.
Proof.
  revert sc inv. induction n as [|n IH]; intros sc inv Hwf Hn; simpl.
  { exists sc, inv. split_and!; [done|done|lia|done]. }
  pose proof (wf_synced _ _ _ Hwf) as Hs.
  destruct (remove_root_elems inv) as (e & [] & inv1 & -> & _ & Hin & Hel).
  { intros Hnil. pose proof (synced_length _ _ _ Hs) as Hlen. rewrite Hnil in Hlen. simpl in *. lia. }
  destruct (synced_elem _ _ _ _ _ Hs Hin) as [He Hk]. simpl.
  assert (Hwf1 : table_wf pad (rb_remove (entry_id e) sc).2 inv1).
  { split; rewrite ?Hel, elems_remove.
    - rewrite He. by apply synced_remove.
    - rewrite al_remove_length. pose proof (wf_capacity _ _ _ Hwf). lia. }
  pose proof (Permutation_length (al_remove_Some _ _ _ Hk)) as Hlen. simpl in Hlen.
  destruct (IH _ _ Hwf1) as (sc' & inv' & -> & Hwf' & Hlen' & Hl); [rewrite elems_remove; lia|].
  exists sc', inv'. split_and!; [done|done|rewrite Hlen', elems_remove; lia|].
  intros k s Hks%Hl. unfold lookup_score in Hks. rewrite elems_remove, al_get_remove in Hks by apply Hs.
  by case_decide.
Qed.

Lemma table_prune_wf num sc inv :
  table_wf pad sc inv →
  ∃ sc' inv', table_prune num sc inv = Ret (sc', inv') ∧ table_wf pad sc' inv' ∧
    length (elems sc') = (length (elems sc) `min` num)%nat ∧
    (∀ k s, lookup_score k sc' = Some s → lookup_score k sc = Some s) ∧
    ((length (elems sc) ≤ num)%nat → sc' = sc).
Proof.
  intros Hwf. unfold table_prune. rewrite len_elems, (synced_length _ _ _ (wf_synced _ _ _ Hwf)).
  destruct (prune_roots_wf (length (elems sc) - num) _ _ Hwf) as (sc' & inv' & Hp & Hwf' & Hlen & Hl); [lia|].
  exists sc', inv'. split_and!; [done|done|lia|done|].
  intros Hle. replace (length (elems sc) - num)%nat with O in Hp by lia. by injection Hp.
Qed.
End Operations.

(** ** The update of a table from a batch *)
Section Update.
Context `{OrderedFloatLaws} `{SokobanLaws} {K : Type} `{EqDecision K} `{OrdEq K} {MAX : nat} (pad : nat).
Abbreviation scores := (rbt MAX K f64).
Abbreviation inverse := (rbt MAX (InverseScoreEntry K) ()).
Abbreviation candidates := (list (K * ScoreUpdateCandidate)).
Implicit Types (sc : scores) (inv : inverse) (k : K) (s : f64) (cands : candidates).

(** A candidate counts when it has at least five samples; it then yields their
    mean. *)
Definition batch_score cands k : option f64 :=
  match al_get k cands with
  | Some c => if 5 <=? count c then Some (candidate_finalize c) else None
  | None => None
  end.

(** What [update_model] makes of the score of a source. *)
Definition updated_score (median : f64) cands (old : option f64) k : option f64 :=
  match old with
  | Some s => Some (ema s (default median (batch_score cands k)))
  | None => batch_score cands k
  end.

Lemma refresh_wf median todo cands sc inv :
  table_wf pad sc inv → NoDup cands.*1 → NoDup todo.*1 →
  (∀ k s, (k, s) ∈ todo → lookup_score k sc = Some s) →
  ∃ cands' sc' inv',
    fold_left (refresh_step pad median) todo (cands, sc, inv) = (cands', sc', inv') ∧
    table_wf pad sc' inv' ∧ NoDup cands'.*1 ∧ (elems sc').*1 = (elems sc).*1 ∧
    (∀ k, al_get k cands' = if decide (k ∈ todo.*1) then None else al_get k cands) ∧
    (∀ k, lookup_score k sc' =
       if decide (k ∈ todo.*1) then updated_score median cands (lookup_score k sc) k
       else lookup_score k sc).
Proof.
  revert cands sc inv. induction todo as [|[k s] todo IH]; intros cands sc inv Hwf Hc Hnd Htodo;
    cbn [fold_left].
  { exists cands, sc, inv. split_and!; [done..| |]; intros k; by rewrite decide_False by set_solver. }
  simpl in Hnd. apply NoDup_cons in Hnd as [Hk Hnd].
  assert (Hks : lookup_score k sc = Some s) by (apply Htodo; by left).
  set (new := ema s (match al_get k cands with
    | Some c => if 5 <=? count c then candidate_finalize c else median | None => median end)).
  assert (Hnew : Some new = updated_score median cands (lookup_score k sc) k).
  { rewrite Hks. unfold updated_score, batch_score, new. destruct (al_get k cands); [|done].
    by destruct (5 <=? count s0). }
  destruct (wf_replace pad _ _ k s new Hwf Hks) as [Hwf' Hl].
  change (refresh_step pad median (cands, sc, inv) (k, s)) with (al_remove k cands, rb_write k new sc,
    rb_insert (entry_new pad new k) () (rb_remove (entry_new pad s k) inv).2).
  destruct (IH (al_remove k cands) (rb_write k new sc) _ Hwf') as
    (cands' & sc' & inv' & -> & Hwf'' & Hc' & Hkeys & Hg & Hl').
  { by apply al_remove_keys. }
  { done. }
  { intros k' s' Hin. rewrite Hl. rewrite decide_False; [apply Htodo; by right|].
    intros ->. apply Hk, list_elem_of_fmap. by exists (k, s'). }
  exists cands', sc', inv'. change (((k, s) :: todo).*1) with (k :: todo.*1).
  split_and!; [done..| | |].
  - rewrite Hkeys, elems_write. apply al_set_keys.
  - intros k'. rewrite Hg, al_get_remove by done.
    destruct (decide (k' = k)) as [->|Hne].
    + rewrite (decide_True (P := k ∈ k :: _)) by (by left). by case_decide.
    + destruct (decide (k' ∈ todo.*1)); [by rewrite decide_True by (by right)|].
      rewrite decide_False; [done|]. by intros [?|?]%elem_of_cons.
  - intros k'. rewrite Hl', Hl. destruct (decide (k' = k)) as [->|Hne].
    + rewrite (decide_False (P := k ∈ todo.*1)) by done.
      rewrite (decide_True (P := k ∈ k :: _)) by (by left). done.
    + assert (updated_score median (al_remove k cands) (lookup_score k' sc) k' =
        updated_score median cands (lookup_score k' sc) k') as ->.
      { unfold updated_score, batch_score. rewrite al_get_remove by done. by rewrite decide_False. }
      destruct (decide (k' ∈ todo.*1)); [by rewrite decide_True by (by right)|].
      rewrite decide_False; [done|]. by intros [?|?]%elem_of_cons.
Qed.

Lemma admit_wf cands sc inv :
  table_wf pad sc inv → NoDup cands.*1 → (∀ k, k ∈ cands.*1 → lookup_score k sc = None) →
  table_wf pad (fold_left (admit_step pad) cands (sc, inv)).1 (fold_left (admit_step pad) cands (sc, inv)).2 ∧
  ((length (elems sc) + length cands ≤ capacity MAX)%nat →
   ∀ k, lookup_score k (fold_left (admit_step pad) cands (sc, inv)).1 =
     match lookup_score k sc with Some s => Some s | None => batch_score cands k end).
Proof.
  revert sc inv. induction cands as [|[k c] cands IH]; intros sc inv Hwf Hnd Habs; cbn [fold_left].
  { split; [done|]. intros _ k. simpl. by destruct (lookup_score k sc). }
  simpl in Hnd. apply NoDup_cons in Hnd as [Hk Hnd].
  assert (Hbatch : ∀ k', k' ≠ k → batch_score ((k, c) :: cands) k' = batch_score cands k').
  { intros k' Hne. unfold batch_score. simpl. destruct (cmp k' k) eqn:E; [by apply cmp_eq in E|done|done]. }
  assert (Hself : batch_score ((k, c) :: cands) k = if 5 <=? count c then Some (candidate_finalize c) else None).
  { unfold batch_score. simpl. by rewrite cmp_same. }
  assert (Hno : batch_score cands k = None).
  { unfold batch_score. by rewrite (proj2 (al_get_None_keys k cands)). }
  assert (Hknone : lookup_score k sc = None) by (apply Habs; by left).
  unfold admit_step at 2 4 6. destruct (5 <=? count c) eqn:E5.
  - destruct (wf_insert pad _ _ k (candidate_finalize c) Hwf Hknone) as [Hwf' Hl].
    destruct (IH _ _ Hwf' Hnd) as [Hwf'' Hl'].
    { intros k' Hin. rewrite Hl, decide_False by (intros [-> _]; done). apply Habs. by right. }
    split; [done|]. intros Hroom k'. rewrite Hl'; cycle 1.
    { rewrite elems_insert_absent by done. case_bool_decide; [|simpl in *; lia].
      rewrite al_insert_perm by done. simpl in *. lia. }
    rewrite Hl. destruct (decide (k' = k)) as [->|Hne].
    + rewrite decide_True by (split; [done|simpl in *; lia]). by rewrite Hknone, Hself.
    + rewrite decide_False by tauto. by rewrite Hbatch.
  - destruct (IH _ _ Hwf Hnd) as [Hwf'' Hl'].
    { intros k' Hin. apply Habs. by right. }
    split; [done|]. intros Hroom k'. rewrite Hl' by (simpl in *; lia).
    destruct (decide (k' = k)) as [->|Hne]; [by rewrite Hknone, Hself, Hno|by rewrite Hbatch].
Qed.

Lemma admit_length cands sc inv :
  (length (elems (fold_left (admit_step pad) cands (sc, inv)).1) ≤ length (elems sc) + length cands)%nat.
Proof.
  revert sc inv. induction cands as [|[k c] cands IH]; intros sc inv; cbn [fold_left]; [simpl; lia|].
  unfold admit_step at 2. destruct (5 <=? count c).
  - etransitivity; [apply IH|]. rewrite elems_insert.
    pose proof (al_insert_length k (candidate_finalize c) (elems sc)).
    destruct (_ || _); simpl; lia.
  - etransitivity; [apply IH|]. simpl. lia.
Qed.

Lemma table_update_wf cands sc inv :
  table_wf pad sc inv → NoDup cands.*1 →
  table_wf pad (table_update pad cands sc inv).1 (table_update pad cands sc inv).2 ∧
  (length (elems (table_update pad cands sc inv).1) ≤ length (elems sc) + length cands)%nat ∧
  ((length (elems sc) + length cands ≤ capacity MAX)%nat →
   ∀ k, lookup_score k (table_update pad cands sc inv).1 =
     updated_score (approximate_median inv) cands (lookup_score k sc) k).
Proof.
  intros Hwf Hc. unfold table_update. pose proof (proj1 (wf_synced _ _ _ Hwf)) as Hnd.
  destruct (refresh_wf (approximate_median inv) (rb_iter sc) cands sc inv Hwf Hc) as
    (cands' & sc' & inv' & -> & Hwf' & Hc' & Hkeys & Hg & Hl).
  { by rewrite iter_elems. }
  { intros k s Hin. rewrite iter_elems in Hin. by apply al_get_Some. }
  rewrite iter_elems in Hg, Hl.
  assert (Hlen : length (elems sc') = length (elems sc)).
  { by rewrite <- (length_fmap fst), Hkeys, length_fmap. }
  assert (Hsub : (length cands' ≤ length cands)%nat).
  { rewrite <- (length_fmap fst cands'), <- (length_fmap fst cands).
    apply submseteq_length, NoDup_submseteq; [done|]. intros k Hk.
    destruct (decide (k ∈ cands.*1)) as [|Hn]; [done|]. apply al_get_None_keys in Hn. exfalso.
    specialize (Hg k). rewrite Hn in Hg. assert (al_get k cands' = None) as Hn' by (by case_decide).
    by apply al_get_None_keys in Hn'. }
  destruct (admit_wf cands' sc' inv' Hwf' Hc') as [Hwf'' Hl''].
  { intros k Hk. rewrite Hl. destruct (decide (k ∈ (elems sc).*1)) as [Hin|Hn].
    - specialize (Hg k). rewrite decide_True in Hg by done. by apply al_get_None_keys in Hg.
    - by apply al_get_None_keys. }
  split; [done|]. split; [rewrite admit_length; lia|]. intros Hroom k. rewrite Hl'', Hl by lia.
  unfold batch_score. rewrite Hg. destruct (decide (k ∈ (elems sc).*1)) as [Hin|Hn].
  - unfold lookup_score. destruct (al_get k (elems sc)) eqn:E; [done|]. by apply al_get_None_keys in E.
  - apply al_get_None_keys in Hn. unfold lookup_score. by rewrite Hn.
Qed.

(** The candidates of a batch: for each source, the sum of its scores in arrival
    order and their number. *)
Definition samples (k : K) (batch : list (K * f64)) : list f64 :=
  (filter (λ e, e.1 = k) batch).*2.

Definition candidate_of (l : list f64) : option ScoreUpdateCandidate :=
  match l with
  | [] => None
  | s :: l => Some (mkCandidate (fold_left of_add l s) (wrap 32 (Z.of_nat (S (length l)))))
  end.

Lemma candidate_of_snoc l s :
  candidate_of (l ++ [s]) =
  Some (match candidate_of l with Some c => candidate_update c s | None => candidate_new s end).
Proof.
  destruct l as [|x l]; simpl; [done|]. unfold candidate_update. simpl. f_equal.
  rewrite fold_left_app. simpl. f_equal. unfold u32_add. rewrite wrap_add_l, length_app. simpl.
  f_equal. lia.
Qed.

Lemma add_candidates_spec (batch : list (K * f64)) :
  let cands := fold_left (λ c e, add_candidate c e.1 e.2) batch [] in
  NoDup cands.*1 ∧ ∀ k, al_get k cands = candidate_of (samples k batch).
Proof.
  induction batch as [|[k s] batch IH] using rev_ind; simpl; [by split; [constructor|]|].
  rewrite fold_left_app. simpl. destruct IH as [Hnd Hg].
  set (cands := fold_left (λ c e, add_candidate c e.1 e.2) batch []) in *.
  assert (Hsamples : ∀ k', samples k' (batch ++ [(k, s)]) =
    if decide (k' = k) then samples k' batch ++ [s] else samples k' batch).
  { intros k'. unfold samples. rewrite filter_app, fmap_app. case_decide; subst.
    - by rewrite filter_cons_True.
    - rewrite filter_cons_False by done. by rewrite app_nil_r. }
  unfold add_candidate. specialize (Hg k) as Hgk. destruct (al_get k cands) as [c|] eqn:E.
  - split; [by rewrite al_set_keys|]. intros k'. rewrite al_get_set, Hsamples.
    case_decide; subst; [|done]. rewrite E, candidate_of_snoc, <- Hgk. done.
  - destruct (al_insert_fresh k (candidate_new s) cands Hnd E) as [Hnd' Hins]. split; [done|].
    intros k'. rewrite Hins, Hsamples. case_decide; subst; [|done].
    by rewrite candidate_of_snoc, <- Hgk.
Qed.
End Update.
