(* ===== verification/Model.v ===== *)
(** The [QoSModel] trait and the scoring model [IpSignerModel] of [model/src]
    ([interface.rs], [models/ip_signer.rs]); [IpSignerStakeModel] is in [StakeModel].
    A model is two score tables ([ScoreTable]), one by IP address and one by
    signer. *)
From Stdlib Require Import ZArith Lia SpecFloat.
From stdpp Require Import gmap list.
From S2P Require Import Prelude F64 OrdMap RedBlack ScoreTable ScoreTableFacts.
Local Open Scope Z_scope.

(** Source addresses are [u32], signers 32-byte arrays. *)
Abbreviation Ip4 := Z.
Abbreviation SignerKey := (list Z).

(** The trait [QoSModel] ([interface.rs]). *)
Class QoSModel (M : Type) : Type := {
  AdditionalArgs : Type;
  AdditionalUpdateMeta : Type;
  IpFeedback : Type;
  qm_forward : M → Ip4 → SignerKey → AdditionalArgs → f64;
  qm_update_model : M → list QoSTransactionMeta → AdditionalUpdateMeta → outcome M;
  qm_ip_feedback : M → IpFeedback → M;
}.

(** [InverseScoreEntryIp] has four bytes of padding, [InverseScoreEntrySigner] none. *)
Definition IP_PAD : nat := 4.
Definition SIGNER_PAD : nat := 0.

Section Model.
Context `{OrderedFloatOps} `{SokobanOps} {MAX_SIGNERS MAX_IPS : nat}.

Record IpSignerModel : Type := mkModel {
  signer_score : rbt MAX_SIGNERS SignerKey f64;
  ip_score : rbt MAX_IPS Ip4 f64;
  signer_score_inverse : rbt MAX_SIGNERS (InverseScoreEntry SignerKey) ();
  ip_score_inverse : rbt MAX_IPS (InverseScoreEntry Ip4) ();
}.

Definition set_ip_table (m : IpSignerModel) t : IpSignerModel :=
  mkModel (signer_score m) t.1 (signer_score_inverse m) t.2.
Definition set_signer_table (m : IpSignerModel) t : IpSignerModel :=
  mkModel t.1 (ip_score m) t.2 (ip_score_inverse m).

(** [IpSignerModel::new]. *)
Definition model_new (ip_scores : list (Ip4 * f64)) (signer_scores : list (SignerKey * f64))
    : IpSignerModel :=
  let '(signer_score, signer_score_inverse) := table_new SIGNER_PAD signer_scores in
  let '(ip_score, ip_score_inverse) := table_new IP_PAD ip_scores in
  mkModel signer_score ip_score signer_score_inverse ip_score_inverse.

Definition approximate_median_ip_score (m : IpSignerModel) : f64 :=
  approximate_median (ip_score_inverse m).
Definition approximate_median_signer_score (m : IpSignerModel) : f64 :=
  approximate_median (signer_score_inverse m).

Definition _forward (m : IpSignerModel) (ip : Ip4) (signer : SignerKey) : f64 :=
  let ip_score :=
    match rb_get ip (ip_score m) with Some s => s | None => approximate_median_ip_score m end in
  let signer_score :=
    match rb_get signer (signer_score m) with
    | Some s => s
    | None => approximate_median_signer_score m
    end in
  of_mul ip_score signer_score.

Definition prune (num_ips num_signers : nat) (m : IpSignerModel) : outcome IpSignerModel :=
  ips ← table_prune num_ips (ip_score m) (ip_score_inverse m);
  let m := set_ip_table m ips in
  signers ← table_prune num_signers (signer_score m) (signer_score_inverse m);
  Ret (set_signer_table m signers).

Definition add_ip_score (ip : Ip4) (score : f64) (m : IpSignerModel) : IpSignerModel :=
  set_ip_table m (add_score IP_PAD ip score (ip_score m) (ip_score_inverse m)).

Definition add_signer_score (signer : SignerKey) (score : f64) (m : IpSignerModel) : IpSignerModel :=
  set_signer_table m (add_score SIGNER_PAD signer score (signer_score m) (signer_score_inverse m)).

Definition ip_feedback (m : IpSignerModel) (ip : Ip4) : IpSignerModel :=
  set_ip_table m (feedback IP_PAD ip (ip_score m) (ip_score_inverse m)).

(** The first loop of [update_model]: both candidate maps grow together. *)
Definition collect_candidates (transactions : list QoSTransactionMeta)
    : list (SignerKey * ScoreUpdateCandidate) * list (Ip4 * ScoreUpdateCandidate) :=
  fold_left
    (λ cands transaction,
       (add_candidate cands.1 (meta_signer transaction) (meta_value transaction),
        add_candidate cands.2 (meta_ip transaction) (meta_value transaction)))
    transactions ([], []).

Definition update_model (transactions : list QoSTransactionMeta)
    (prune_signers prune_ips : nat) (m : IpSignerModel) : outcome IpSignerModel :=
  let '(signer_score_candidates, ip_score_candidates) := collect_candidates transactions in
  let m := set_ip_table m
    (table_update IP_PAD ip_score_candidates (ip_score m) (ip_score_inverse m)) in
  let m := set_signer_table m
    (table_update SIGNER_PAD signer_score_candidates (signer_score m) (signer_score_inverse m)) in
  prune prune_ips prune_signers m.

(** [Ipv4Addr::from_bits] reads the number as a big-endian address. *)
Definition ipv4_from_bits (ip : Z) : list Z := reverse (to_le_bytes 4 ip).

(** The lines of the file [save_ip_scores] writes: an address and a score each.  An I/O
    error is printed and ends the writing; it has no other effect. *)
Definition save_ip_scores (m : IpSignerModel) : list (list Z * f64) :=
  (λ e, (ipv4_from_bits e.1, e.2)) <$> rb_iter (ip_score m).

#[export] Instance ip_signer_qos_model : QoSModel IpSignerModel := {|
  AdditionalArgs := ();
  AdditionalUpdateMeta := ();
  IpFeedback := Ip4;
  qm_forward m ip signer _ := _forward m ip signer;
  qm_update_model m transactions _ := update_model transactions 5 5 m;
  qm_ip_feedback := ip_feedback;
|}.
End Model.
Arguments IpSignerModel {_} MAX_SIGNERS MAX_IPS.
