(* ===== verification/ModelProps.v ===== *)
(** Properties of the scoring models: consistency of the tables with their inverses
    in every reachable state, what scoring, feedback, batch updates and pruning do,
    and the corner cases of construction. *)
From Stdlib Require Import ZArith Lia SpecFloat.
From stdpp Require Import gmap list.
From S2P Require Import Prelude F64 OrdMap RedBlack ScoreTable ScoreTableFacts Model.
Local Open Scope Z_scope.

Section Facts.
Context `{OrderedFloatLaws} `{SokobanLaws} {MAX_SIGNERS MAX_IPS : nat}.
Abbreviation model := (IpSignerModel MAX_SIGNERS MAX_IPS).
Implicit Types (m : model) (ip : Ip4) (signer : SignerKey) (txs : list QoSTransactionMeta).

Record model_wf m : Prop := {
  wf_ip : table_wf IP_PAD (ip_score m) (ip_score_inverse m);
  wf_signer : table_wf SIGNER_PAD (signer_score m) (signer_score_inverse m);
}.

(** The calls that change a model. *)
Inductive model_call : Type :=
| CallFeedback (ip : Ip4)
| CallAddIp (ip : Ip4) (score : f64)
| CallAddSigner (signer : SignerKey) (score : f64)
| CallUpdate (txs : list QoSTransactionMeta) (prune_signers prune_ips : nat)
| CallPrune (num_ips num_signers : nat).

Definition model_exec m (c : model_call) : outcome model :=
  match c with
  | CallFeedback ip => Ret (ip_feedback m ip)
  | CallAddIp ip s => Ret (add_ip_score ip s m)
  | CallAddSigner k s => Ret (add_signer_score k s m)
  | CallUpdate txs ps pi => update_model txs ps pi m
  | CallPrune ni ns => prune ni ns m
  end.

Inductive reachable : model → Prop :=
| reachable_new ips signers :
    NoDup ips.*1 → NoDup signers.*1 → reachable (model_new ips signers)
| reachable_call m c m' : reachable m → model_exec m c = Ret m' → reachable m'.

Lemma collect_candidates_split txs :
  collect_candidates txs =
  (fold_left (λ c e, add_candidate c e.1 e.2) ((λ t, (meta_signer t, meta_value t)) <$> txs) [],
   fold_left (λ c e, add_candidate c e.1 e.2) ((λ t, (meta_ip t, meta_value t)) <$> txs) []).
Proof.
  unfold collect_candidates. induction txs as [|t txs IH] using rev_ind; [done|].
  rewrite !fmap_app, !fold_left_app, IH. done.
Qed.

Lemma model_new_wf ips signers :
  NoDup ips.*1 → NoDup signers.*1 → model_wf (model_new ips signers).
Proof.
  intros Hi Hs. unfold model_new.
  destruct (table_new_wf (MAX := MAX_SIGNERS) SIGNER_PAD signers Hs) as [Hws _].
  destruct (table_new_wf (MAX := MAX_IPS) IP_PAD ips Hi) as [Hwi _].
  destruct (table_new SIGNER_PAD signers), (table_new IP_PAD ips). by split.
Qed.

Lemma prune_wf num_ips num_signers m :
  model_wf m →
  ∃ m', prune num_ips num_signers m = Ret m' ∧ model_wf m' ∧
    length (elems (ip_score m')) = (length (elems (ip_score m)) `min` num_ips)%nat ∧
    length (elems (signer_score m')) = (length (elems (signer_score m)) `min` num_signers)%nat ∧
    (∀ ip s, lookup_score ip (ip_score m') = Some s → lookup_score ip (ip_score m) = Some s) ∧
    (∀ k s, lookup_score k (signer_score m') = Some s → lookup_score k (signer_score m) = Some s) ∧
    ((length (elems (ip_score m)) ≤ num_ips)%nat → ip_score m' = ip_score m) ∧
    ((length (elems (signer_score m)) ≤ num_signers)%nat → signer_score m' = signer_score m).
Proof.
  intros [Hi Hs]. unfold prune.
  destruct (table_prune_wf _ num_ips _ _ Hi) as (sc & inv & -> & Hwf & Hlen & Hl & Heq).
  destruct (table_prune_wf _ num_signers _ _ Hs) as (sc' & inv' & Hp & Hwf' & Hlen' & Hl' & Heq').
  cbn [set_ip_table signer_score signer_score_inverse fst snd] in *. rewrite bind_Ret.
  cbn [set_ip_table signer_score signer_score_inverse fst snd]. rewrite Hp, bind_Ret.
  eexists. split; [done|]. split_and!; done.
Qed.

(** The tables of a model after a batch, before pruning. *)
Lemma update_tables_wf txs m :
  model_wf m →
  let '(sc, ic) := collect_candidates txs in
  model_wf (set_signer_table (set_ip_table m
    (table_update IP_PAD ic (ip_score m) (ip_score_inverse m)))
    (table_update SIGNER_PAD sc (signer_score m) (signer_score_inverse m))).
Proof.
  intros [Hi Hs]. rewrite collect_candidates_split.
  destruct (add_candidates_spec ((λ t, (meta_signer t, meta_value t)) <$> txs)) as [Hnds _].
  destruct (add_candidates_spec ((λ t, (meta_ip t, meta_value t)) <$> txs)) as [Hndi _].
  destruct (table_update_wf _ _ _ _ Hi Hndi) as [Hwi _], (table_update_wf _ _ _ _ Hs Hnds) as [Hws _].
  by split.
Qed.

Lemma update_model_wf txs ps pi m :
  model_wf m → ∃ m', update_model txs ps pi m = Ret m' ∧ model_wf m' ∧
    (length (elems (ip_score m')) ≤ pi)%nat ∧ (length (elems (signer_score m')) ≤ ps)%nat.
Proof.
  intros Hwf. unfold update_model. pose proof (update_tables_wf txs m Hwf) as Hwf'.
  destruct (collect_candidates txs) as [sc ic].
  destruct (prune_wf pi ps _ Hwf') as (m' & Hp & Hwf'' & Hli & Hls & _).
  exists m'. split_and!; [done..|lia|lia].
Qed.

Lemma model_exec_wf m c : model_wf m → ∃ m', model_exec m c = Ret m' ∧ model_wf m'.
Proof.
  intros Hwf. pose proof Hwf as [Hi Hs]. destruct c as [ip|ip s|k s|txs ps pi|ni ns]; simpl.
  - eexists. split; [done|]. split; [|done]. by apply feedback_wf.
  - eexists. split; [done|]. split; [|done]. by apply add_score_wf.
  - eexists. split; [done|]. split; [done|]. by apply add_score_wf.
  - destruct (update_model_wf txs ps pi m Hwf) as (m' & Hm & Hwf' & _). eauto.
  - destruct (prune_wf ni ns m Hwf) as (m' & Hm & Hwf' & _). eauto.
Qed.

Lemma reachable_wf m : reachable m → model_wf m.
Proof.
  induction 1 as [ips signers Hi Hs|m c m' _ IH Hc]; [by apply model_new_wf|].
  destruct (model_exec_wf m c IH) as (m2 & Hm2 & Hwf). congruence.
Qed.

(** The median of a table is the score of one of its sources, or one when the table
    is empty. *)
Lemma median_cases {K} `{EqDecision K} `{OrdEq K} {MAX : nat} pad (sc : rbt MAX K f64)
    (inv : rbt MAX (InverseScoreEntry K) ()) :
  table_wf pad sc inv →
  (elems sc = [] ∧ approximate_median inv = ONE) ∨
  (∃ k s, lookup_score k sc = Some s ∧ approximate_median inv = s).
Proof.
  intros Hwf. pose proof (wf_synced _ _ _ Hwf) as Hs. unfold approximate_median.
  rewrite is_empty_elems. case_bool_decide as Hnil; [left|right].
  - split; [|done]. apply synced_length in Hs. rewrite Hnil in Hs. by destruct (elems sc).
  - destruct (root_elems inv Hnil) as (e & [] & -> & Hin).
    destruct (synced_elem _ _ _ _ _ Hs Hin) as [_ He]. eauto.
Qed.
End Facts.

Section Props.
Context `{OrderedFloatLaws} `{SokobanLaws} {MAX_SIGNERS MAX_IPS : nat}.
Abbreviation model := (IpSignerModel MAX_SIGNERS MAX_IPS).
Implicit Types (m : model) (ip : Ip4) (signer : SignerKey) (txs : list QoSTransactionMeta).

(** C12. In every state a model reaches from a constructor with distinct sources
    through feedback, score insertions, batch updates and pruning, each inverse tree
    holds exactly the (score, source) pairs of its table, both trees have as many
    entries as their capacity allows at most, and the next call, whichever it is,
    returns without a panic ([remove_root().unwrap()] always finds a root). *)
Theorem model_tables_consistent m (c : model_call) :
  reachable m →
  (elems (ip_score_inverse m)).*1 ≡ₚ (λ e, entry_new IP_PAD e.2 e.1) <$> elems (ip_score m) ∧
  (elems (signer_score_inverse m)).*1 ≡ₚ (λ e, entry_new SIGNER_PAD e.2 e.1) <$> elems (signer_score m) ∧
  NoDup (elems (ip_score m)).*1 ∧ NoDup (elems (signer_score m)).*1 ∧
  (length (elems (ip_score m)) ≤ capacity MAX_IPS)%nat ∧
  (length (elems (signer_score m)) ≤ capacity MAX_SIGNERS)%nat ∧
  ∃ m', model_exec m c = Ret m'.
Proof.
  intros Hr. apply reachable_wf in Hr as Hwf. destruct (model_exec_wf m c Hwf) as (m' & Hm & _).
  destruct Hwf as [[[Hi1 Hi2] Hi3] [[Hs1 Hs2] Hs3]]. split_and!; eauto.
Qed.

(** What an unknown source counts for: the score at the root of the inverse tree, or one
    when there are no scores. *)
Definition root_score {K} {MAX : nat} (sc : rbt MAX K f64) (inv : rbt MAX (InverseScoreEntry K) ()) : f64 :=
  if decide (elems sc = []) then f64_of_uint 1
  else match rb_root_key inv with Some e => entry_score e | None => f64_of_uint 1 end.

(** The root is the entry of one of the sources. *)
Lemma root_of_table {K} `{EqDecision K} `{OrdEq K} {MAX : nat} pad (sc : rbt MAX K f64) (inv : rbt MAX (InverseScoreEntry K) ()) :
  table_wf pad sc inv → elems sc ≠ [] →
  ∃ e, rb_root_key inv = Some e ∧ root_score sc inv = entry_score e ∧ lookup_score (entry_id e) sc = Some (entry_score e).
Proof.
  intros Hwf Hne. pose proof (wf_synced _ _ _ Hwf) as Hs. destruct (root_elems inv) as (e & [] & Hr & Hin).
  { intros Hnil. apply synced_length in Hs. rewrite Hnil in Hs. by destruct (elems sc). }
  destruct (synced_elem _ _ _ _ _ Hs Hin) as [_ He]. exists e. split_and!; [done| |done].
  unfold root_score. by rewrite decide_False, Hr.
Qed.

Lemma median_root {K} `{EqDecision K} `{OrdEq K} {MAX : nat} pad (sc : rbt MAX K f64) (inv : rbt MAX (InverseScoreEntry K) ()) :
  table_wf pad sc inv → approximate_median inv = root_score sc inv.
Proof.
  intros Hwf. unfold approximate_median, root_score. rewrite is_empty_elems.
  pose proof (synced_length _ _ _ (wf_synced _ _ _ Hwf)) as Hl.
  case_bool_decide as Hnil; case_decide as Hnil'; [done|rewrite Hnil in Hl; by destruct (elems sc)|
    rewrite Hnil' in Hl; by destruct (elems inv)|done].
Qed.

(** C23. Scoring.  The score of a packet is the product of the score of its address and
    the score of its signer.  An unknown address or signer counts with the score at the
    root of its inverse tree, which is the score of a source of the table, or with one
    when there are none.  It always returns; a model without scores does not panic,
    although a comment says so. *)
Theorem forward_score m ip signer :
  model_wf m →
  _forward m ip signer = f64_mul
    (default (root_score (ip_score m) (ip_score_inverse m)) (lookup_score ip (ip_score m)))
    (default (root_score (signer_score m) (signer_score_inverse m)) (lookup_score signer (signer_score m))) ∧
  (elems (ip_score m) ≠ [] → ∃ e, rb_root_key (ip_score_inverse m) = Some e ∧
     root_score (ip_score m) (ip_score_inverse m) = entry_score e ∧ lookup_score (entry_id e) (ip_score m) = Some (entry_score e)) ∧
  (elems (signer_score m) ≠ [] → ∃ e, rb_root_key (signer_score_inverse m) = Some e ∧
     root_score (signer_score m) (signer_score_inverse m) = entry_score e ∧
     lookup_score (entry_id e) (signer_score m) = Some (entry_score e)) ∧
  (elems (ip_score m) = [] → elems (signer_score m) = [] → _forward m ip signer = f64_mul (f64_of_uint 1) (f64_of_uint 1)).
Proof.
  intros [Hi Hs].
  assert (Hfwd : _forward m ip signer = f64_mul
    (default (root_score (ip_score m) (ip_score_inverse m)) (lookup_score ip (ip_score m)))
    (default (root_score (signer_score m) (signer_score_inverse m)) (lookup_score signer (signer_score m)))).
  { unfold _forward, approximate_median_ip_score, approximate_median_signer_score.
    rewrite of_mul_f64, !get_elems, (median_root _ _ _ Hi), (median_root _ _ _ Hs). done. }
  split_and!; [done|by eapply root_of_table|by eapply root_of_table|].
  intros Hni Hns. rewrite Hfwd. unfold lookup_score, root_score. by rewrite Hni, Hns, !decide_True.
Qed.

(** Feedback multiplies the score of a known address by 0.01 and changes nothing
    else: no other address, no signer, and nothing at all for an unknown address. *)
Theorem feedback_effect m ip :
  model_wf m →
  model_wf (ip_feedback m ip) ∧
  (∀ ip', lookup_score ip' (ip_score (ip_feedback m ip)) =
     if decide (ip' = ip) then (λ s, f64_mul s (f64_lit 1 100)) <$> lookup_score ip (ip_score m)
     else lookup_score ip' (ip_score m)) ∧
  signer_score (ip_feedback m ip) = signer_score m ∧
  (lookup_score ip (ip_score m) = None → ip_feedback m ip = m).
Proof.
  intros [Hi Hs]. destruct (feedback_wf _ _ _ ip Hi) as [Hwf Hl]. split_and!; [by split|done|done|].
  intros Hnone. unfold ip_feedback, feedback. rewrite get_elems. unfold lookup_score in Hnone.
  rewrite Hnone. by destruct m.
Qed.

(** What the batch [txs] makes of the score of a source, in the terms of the code. *)
Definition refreshed_ip_score m txs ip : option f64 :=
  updated_score (approximate_median_ip_score m) (collect_candidates txs).2
    (lookup_score ip (ip_score m)) ip.
Definition refreshed_signer_score m txs signer : option f64 :=
  updated_score (approximate_median_signer_score m) (collect_candidates txs).1
    (lookup_score signer (signer_score m)) signer.

Lemma update_model_run m txs (ps pi : nat) :
  model_wf m →
  ∃ m', update_model txs ps pi m = Ret m' ∧ model_wf m' ∧
    (length (elems (ip_score m')) ≤ pi)%nat ∧ (length (elems (signer_score m')) ≤ ps)%nat ∧
    ((length (elems (ip_score m)) + length (collect_candidates txs).2 ≤ capacity MAX_IPS)%nat →
      (∀ ip s, lookup_score ip (ip_score m') = Some s → refreshed_ip_score m txs ip = Some s) ∧
      ((length (elems (ip_score m)) + length (collect_candidates txs).2 ≤ pi)%nat →
        ∀ ip, lookup_score ip (ip_score m') = refreshed_ip_score m txs ip)) ∧
    ((length (elems (signer_score m)) + length (collect_candidates txs).1 ≤ capacity MAX_SIGNERS)%nat →
      (∀ k s, lookup_score k (signer_score m') = Some s → refreshed_signer_score m txs k = Some s) ∧
      ((length (elems (signer_score m)) + length (collect_candidates txs).1 ≤ ps)%nat →
        ∀ k, lookup_score k (signer_score m') = refreshed_signer_score m txs k)).
Proof.
  intros Hwf. unfold update_model. pose proof (update_tables_wf txs m Hwf) as Hwf'.
  unfold refreshed_ip_score, refreshed_signer_score. rewrite collect_candidates_split in *.
  cbn [fst snd] in *.
  destruct (add_candidates_spec ((λ t, (meta_ip t, meta_value t)) <$> txs)) as [Hnd _].
  destruct (add_candidates_spec ((λ t, (meta_signer t, meta_value t)) <$> txs)) as [Hnd' _].
  set (ic := fold_left _ ((λ t, (meta_ip t, meta_value t)) <$> txs) []) in *.
  set (sc := fold_left _ ((λ t, (meta_signer t, meta_value t)) <$> txs) []) in *.
  destruct (table_update_wf _ _ _ _ (wf_ip _ Hwf) Hnd) as (_ & Hlen & Hl).
  destruct (table_update_wf _ _ _ _ (wf_signer _ Hwf) Hnd') as (_ & Hlen' & Hl').
  destruct (prune_wf pi ps _ Hwf') as (m' & Hp & Hwf'' & Hli & Hls & Hsub & Hsub' & Hall & Hall').
  exists m'. simpl in *. split_and!; [done|done|lia|lia|intros Hroom|intros Hroom]; split.
  - intros ip s Hs%Hsub. by rewrite Hl in Hs.
  - intros Hfit ip. rewrite Hall; [by apply Hl|lia].
  - intros k s Hs%Hsub'. by rewrite Hl' in Hs.
  - intros Hfit k. rewrite Hall'; [by apply Hl'|lia].
Qed.

(** Grouping of a batch: the candidate of a source holds the floating-point sum
    of the values of its transactions, added in arrival order, and their number (a
    [u32] that wraps); a source with no transaction has no candidate. *)
Lemma batch_candidates txs ip signer :
  al_get ip (collect_candidates txs).2 =
    candidate_of (meta_value <$> filter (λ t, meta_ip t = ip) txs) ∧
  al_get signer (collect_candidates txs).1 =
    candidate_of (meta_value <$> filter (λ t, meta_signer t = signer) txs).
Proof.
  rewrite collect_candidates_split. cbn [fst snd].
  destruct (add_candidates_spec ((λ t, (meta_ip t, meta_value t)) <$> txs)) as [_ ->].
  destruct (add_candidates_spec ((λ t, (meta_signer t, meta_value t)) <$> txs)) as [_ ->].
  unfold samples. rewrite !filter_fmap, <- !list_fmap_compose. done.
Qed.

(** ** The expected scores, in terms of floating-point arithmetic only

    The mean of the samples of a source, added in the order in which they came, if there
    are at least five; their number is counted in 32 bits. *)
Definition sample_mean (l : list f64) : option f64 :=
  let n := Z.of_nat (length l) mod 2 ^ 32 in
  match l with
  | x :: l => if decide (5 ≤ n) then Some (f64_div (fold_left f64_add l x) (f64_of_uint n)) else None
  | [] => None
  end.
(** The old score moves a twentieth of the way: [0.95 * old + 0.05 * new]. *)
Definition blend (old new : f64) : f64 :=
  f64_add (f64_mul old (f64_sub (f64_of_uint 1) (f64_lit 5 100))) (f64_mul new (f64_lit 5 100)).
(** A known source is blended with the mean of its samples, or with the root's score if
    there are too few of them; an unknown one enters with the mean. *)
Definition expected_score (root : f64) (samples : list f64) (old : option f64) : option f64 :=
  match old with
  | Some score => Some (blend score (default root (sample_mean samples)))
  | None => sample_mean samples
  end.
Definition expected_ip_score m txs ip : option f64 :=
  expected_score (root_score (ip_score m) (ip_score_inverse m)) (meta_value <$> filter (λ t, meta_ip t = ip) txs)
    (lookup_score ip (ip_score m)).
Definition expected_signer_score m txs signer : option f64 :=
  expected_score (root_score (signer_score m) (signer_score_inverse m)) (meta_value <$> filter (λ t, meta_signer t = signer) txs)
    (lookup_score signer (signer_score m)).

Lemma fold_of_add l x : fold_left of_add l x = fold_left f64_add l x.
Proof. revert x. induction l as [|y l IH]; intros x; [done|]. cbn. by rewrite of_add_f64, IH. Qed.

Lemma candidate_mean l :
  match candidate_of l with Some c => if 5 <=? count c then Some (candidate_finalize c) else None | None => None end =
  sample_mean l.
Proof.
  destruct l as [|x l]; [done|]. cbn [candidate_of count]. unfold sample_mean, candidate_finalize. cbn [score_sum count length].
  rewrite of_div_f64, fold_of_add. unfold wrap. case_decide as Hn; [rewrite (proj2 (Z.leb_le _ _) Hn)|rewrite (proj2 (Z.leb_gt _ _)) by lia]; done.
Qed.

Lemma ema_blend old new : ema old new = blend old new.
Proof. unfold ema. rewrite of_add_f64, !of_mul_f64, of_sub_f64. reflexivity. Qed.

Lemma refreshed_expected m txs ip signer :
  model_wf m → refreshed_ip_score m txs ip = expected_ip_score m txs ip ∧
    refreshed_signer_score m txs signer = expected_signer_score m txs signer.
Proof.
  intros [Hi Hs]. unfold refreshed_ip_score, refreshed_signer_score, expected_ip_score, expected_signer_score,
    approximate_median_ip_score, approximate_median_signer_score, updated_score, batch_score, expected_score.
  destruct (batch_candidates txs ip signer) as [-> ->]. rewrite !candidate_mean, (median_root _ _ _ Hi), (median_root _ _ _ Hs).
  split; [destruct (lookup_score ip _)|destruct (lookup_score signer _)]; try done; by rewrite ema_blend.
Qed.

(** The sources of a batch. *)
Definition batch_ips txs : list Ip4 := remove_dups (meta_ip <$> txs).
Definition batch_signers txs : list SignerKey := remove_dups (meta_signer <$> txs).

Lemma candidate_of_None l : candidate_of l = None ↔ l = [].
Proof. by destruct l. Qed.

Lemma candidates_length {K} `{EqDecision K} `{OrdEq K} (key : QoSTransactionMeta → K) txs (cands : list (K * ScoreUpdateCandidate)) :
  NoDup cands.*1 → (∀ k, al_get k cands = candidate_of (meta_value <$> filter (λ t, key t = k) txs)) →
  length cands = length (remove_dups (key <$> txs)).
Proof.
  intros Hnd Hget. rewrite <- (length_fmap fst). apply Permutation_length, NoDup_Permutation; [done|apply NoDup_remove_dups|].
  intros k. rewrite elem_of_remove_dups, (list_elem_of_fmap key). split.
  - intros Hin. destruct (filter (λ t, key t = k) txs) as [|t l] eqn:E.
    + exfalso. apply al_get_None_keys in Hin; [done|]. by rewrite Hget, E.
    + exists t. assert (Ht : t ∈ filter (λ t, key t = k) txs) by (rewrite E; by left). by apply list_elem_of_filter in Ht as [<- ?].
  - intros (t & -> & Ht). apply dec_stable. intros Hin. apply al_get_None_keys in Hin. rewrite Hget, candidate_of_None in Hin.
    apply fmap_nil_inv in Hin. assert (Hf : t ∈ filter (λ t', key t' = key t) txs) by by apply list_elem_of_filter.
    rewrite Hin in Hf. by apply not_elem_of_nil in Hf.
Qed.

Lemma batch_lengths txs :
  length (collect_candidates txs).2 = length (batch_ips txs) ∧ length (collect_candidates txs).1 = length (batch_signers txs).
Proof.
  pose proof (λ ip, proj1 (batch_candidates txs ip [])) as Hi. pose proof (λ k, proj2 (batch_candidates txs 0 k)) as Hs.
  rewrite collect_candidates_split in *. cbn [fst snd] in *.
  destruct (add_candidates_spec ((λ t, (meta_ip t, meta_value t)) <$> txs)) as [Hndi _].
  destruct (add_candidates_spec ((λ t, (meta_signer t, meta_value t)) <$> txs)) as [Hnds _].
  split; by apply candidates_length.
Qed.

(** C21. A batch update.  Let the trees have room for the sources of the batch beside
    those they have.  The update returns; every source that survives pruning has exactly
    its expected score: a known source moves a twentieth of the way to the mean of its
    samples, or, when it has fewer than five, to the score at the root of the inverse
    tree; an unknown source enters with the mean of its samples if it has at least five.
    At most [prune_ips] addresses and [prune_signers] signers are kept; when the updated
    tables fit these limits, no source is pruned. *)
Theorem update_model_scores m txs (prune_signers prune_ips : nat) :
  model_wf m →
  (length (elems (ip_score m)) + length (batch_ips txs) ≤ capacity MAX_IPS)%nat →
  (length (elems (signer_score m)) + length (batch_signers txs) ≤ capacity MAX_SIGNERS)%nat →
  ∃ m', update_model txs prune_signers prune_ips m = Ret m' ∧ model_wf m' ∧
    (length (elems (ip_score m')) ≤ prune_ips)%nat ∧
    (length (elems (signer_score m')) ≤ prune_signers)%nat ∧
    (∀ ip s, lookup_score ip (ip_score m') = Some s → expected_ip_score m txs ip = Some s) ∧
    (∀ k s, lookup_score k (signer_score m') = Some s → expected_signer_score m txs k = Some s) ∧
    ((length (elems (ip_score m)) + length (batch_ips txs) ≤ prune_ips)%nat →
     ∀ ip, lookup_score ip (ip_score m') = expected_ip_score m txs ip) ∧
    ((length (elems (signer_score m)) + length (batch_signers txs) ≤ prune_signers)%nat →
     ∀ k, lookup_score k (signer_score m') = expected_signer_score m txs k).
Proof.
  intros Hwf. destruct (batch_lengths txs) as [<- <-]. intros Hi Hs.
  destruct (update_model_run m txs prune_signers prune_ips Hwf) as (m' & Hm & Hwf' & ? & ? & Hai & Has).
  destruct (Hai Hi) as [Hi1 Hi2], (Has Hs) as [Hs1 Hs2]. exists m'. split_and!; try done.
  - intros ip sc Hl. rewrite <- (proj1 (refreshed_expected m txs ip [] Hwf)). by apply Hi1.
  - intros k sc Hl. rewrite <- (proj2 (refreshed_expected m txs 0 k Hwf)). by apply Hs1.
  - intros Hfit ip. rewrite <- (proj1 (refreshed_expected m txs ip [] Hwf)). by apply Hi2.
  - intros Hfit k. rewrite <- (proj2 (refreshed_expected m txs 0 k Hwf)). by apply Hs2.
Qed.

(** Pruning returns; it leaves the smaller of the old size and the limit, drops
    the same sources from the table and its inverse, and changes no score. *)
Theorem prune_effect m (num_ips num_signers : nat) :
  model_wf m →
  ∃ m', prune num_ips num_signers m = Ret m' ∧ model_wf m' ∧
    length (elems (ip_score m')) = (length (elems (ip_score m)) `min` num_ips)%nat ∧
    length (elems (signer_score m')) = (length (elems (signer_score m)) `min` num_signers)%nat ∧
    (∀ ip s, lookup_score ip (ip_score m') = Some s → lookup_score ip (ip_score m) = Some s) ∧
    (∀ k s, lookup_score k (signer_score m') = Some s → lookup_score k (signer_score m) = Some s).
Proof.
  intros Hwf. destruct (prune_wf num_ips num_signers m Hwf) as (m' & ? & ? & ? & ? & ? & ? & _). eauto 10.
Qed.

(** A model without scores does not panic: every packet scores one times one. *)
Theorem forward_no_scores ip signer : _forward (model_new [] [] : model) ip signer = ONE.
Proof.
  unfold _forward, approximate_median_ip_score, approximate_median_signer_score, approximate_median,
    model_new, table_new. cbn [fold_left ip_score signer_score ip_score_inverse signer_score_inverse].
  rewrite !get_elems, !is_empty_elems, !elems_new, of_mul_f64. reflexivity.
Qed.
End Props.

(** ** Corner cases and witnesses, on the reference instances *)
Section Witnesses.
#[local] Existing Instance ref_ordered_float.
#[local] Existing Instance ref_ordered_float_laws.
#[local] Existing Instance ref_sokoban.
#[local] Existing Instance ref_sokoban_laws.

Definition tenth (n : Z) : f64 := f64_lit n 10.
Definition demo_ips : list (Ip4 * f64) := [(1, tenth 1); (2, tenth 2); (3, tenth 3)].
Definition demo_signers : list (SignerKey * f64) := [([7], tenth 5)].
Definition demo_model : IpSignerModel 16 16 := model_new demo_ips demo_signers.
Definition demo_txs : list QoSTransactionMeta := replicate 5 (mkMeta 9 [8] (tenth 4)).

Lemma demo_reachable : reachable demo_model.
Proof. apply reachable_new; apply (bool_decide_unpack _); vm_compute; exact I. Qed.
Lemma demo_wf : model_wf demo_model.
Proof. apply reachable_wf, demo_reachable. Qed.

(** The constructor expects distinct sources: given an address twice with
    different scores, the table keeps one entry and the inverse two, so the two trees
    no longer agree. *)
Theorem new_duplicate_desync :
  let m : IpSignerModel 16 16 := model_new [(1, tenth 1); (1, tenth 2)] [] in
  length (elems (ip_score m)) = 1%nat ∧ length (elems (ip_score_inverse m)) = 2%nat.
Proof. vm_compute. done. Qed.

Lemma model_tables_consistent_witness :
  ∃ m', model_exec demo_model (CallUpdate demo_txs 2 2) = Ret m'.
Proof. apply (model_tables_consistent demo_model (CallUpdate demo_txs 2 2)). apply demo_reachable. Defined.

(** An unknown address and an unknown signer: the roots hold 0.2 and 0.5. *)
Lemma forward_score_witness : _forward demo_model 9 [9] = f64_mul (tenth 2) (tenth 5).
Proof. destruct (forward_score demo_model 9 [9] demo_wf) as [-> _]. vm_compute. reflexivity. Defined.

Lemma feedback_effect_witness :
  lookup_score 2 (ip_score (ip_feedback demo_model 2)) = Some (f64_mul (tenth 2) (f64_lit 1 100)) ∧
  lookup_score 3 (ip_score (ip_feedback demo_model 2)) = Some (tenth 3).
Proof.
  destruct (feedback_effect demo_model 2 demo_wf) as (_ & E & _).
  split; rewrite E; vm_compute; reflexivity.
Defined.

(** Five samples of 0.4 of an unknown address, which enters with their mean; address 1, of
    which there are none, moves from 0.1 towards the root's 0.2. *)
Lemma update_model_scores_witness :
  ∃ m', update_model demo_txs 10 10 demo_model = Ret m' ∧
    lookup_score 9 (ip_score m') = sample_mean (replicate 5 (tenth 4)) ∧ is_Some (lookup_score 9 (ip_score m')) ∧
    lookup_score 1 (ip_score m') = Some (blend (tenth 1) (tenth 2)).
Proof.
  destruct (update_model_scores demo_model demo_txs 10 10 demo_wf) as
    (m' & Hm & _ & _ & _ & _ & _ & Hall & _).
  - apply Nat.leb_le. vm_compute. reflexivity.
  - apply Nat.leb_le. vm_compute. reflexivity.
  - exists m'. rewrite !Hall by (apply Nat.leb_le; vm_compute; reflexivity).
    split; [exact Hm|]. split; [vm_compute; reflexivity|]. split; [eexists; vm_compute; reflexivity|vm_compute; reflexivity].
Defined.

Lemma forward_no_scores_witness : _forward (model_new [] [] : IpSignerModel 16 16) 5 [6] = ONE.
Proof. apply (forward_no_scores 5 [6]). Defined.

Lemma prune_effect_witness : ∃ m', prune 2 0 demo_model = Ret m' ∧ length (elems (ip_score m')) = 2%nat.
Proof.
  destruct (prune_effect demo_model 2 0 demo_wf) as (m' & Hm & _ & Hl & _).
  exists m'. split; [exact Hm|]. rewrite Hl. vm_compute. reflexivity.
Defined.
End Witnesses.
