(* ===== verification/Rounding.v ===== *)
(** Facts about binary64 rounding that the scores need: what [x as f64] is for a
    [u64], that it is monotone and commutes with doubling, and that the quotient of two
    floats a factor of at most two apart lies between one and two. *)
From Stdlib Require Import ZArith Lia SpecFloat.
From stdpp Require Import numbers list.
From S2P Require Import Prelude F64.
Local Open Scope Z_scope.

(** ** Rounding an integer to 53 significant bits *)

(** The multiple of [2 ^ k] nearest to [x], ties to even, divided by [2 ^ k]. *)
Definition rne (x k : Z) : Z :=
  let q := x / 2 ^ k in
  match 2 * (x mod 2 ^ k) ?= 2 ^ k with
  | Lt => q
  | Gt => q + 1
  | Eq => if Z.even q then q else q + 1
  end.

(** The bits of [x] beyond the 53 a float holds, and [x] rounded. *)
Definition excess (x : Z) : Z := Z.log2 x - 52.
Definition round53 (x : Z) : Z :=
  if decide (excess x ≤ 0) then x else rne x (excess x) * 2 ^ excess x.

Lemma rne_bounds x k : 0 ≤ k → x / 2 ^ k ≤ rne x k ≤ x / 2 ^ k + 1.
Proof. intros _. unfold rne. destruct (_ ?= _); [destruct (Z.even _)|..]; lia. Qed.

Lemma rne_mono k x y : 0 ≤ k → x ≤ y → rne x k ≤ rne y k.
Proof.
  intros Hk Hxy. pose proof (Z.pow_pos_nonneg 2 k) as Hp.
  pose proof (Z.div_le_mono x y (2 ^ k)) as Hq. pose proof (rne_bounds x k Hk).
  pose proof (rne_bounds y k Hk).
  destruct (decide (x / 2 ^ k = y / 2 ^ k)) as [E|]; [|lia].
  pose proof (Z.div_mod x (2 ^ k)) as Hx. pose proof (Z.div_mod y (2 ^ k)) as Hy.
  unfold rne. rewrite <- E in *.
  destruct (Z.compare_spec (2 * (x mod 2 ^ k)) (2 ^ k)), (Z.compare_spec (2 * (y mod 2 ^ k)) (2 ^ k));
    try destruct (Z.even _); lia.
Qed.

Lemma rne_double x k : 0 ≤ k → rne (2 * x) (k + 1) = rne x k.
Proof.
  intros Hk. pose proof (Z.pow_pos_nonneg 2 k). unfold rne.
  rewrite Z.pow_add_r, Z.pow_1_r, (Z.mul_comm (2 ^ k)) by lia.
  rewrite Z.div_mul_cancel_l, Z.mul_mod_distr_l by lia.
  by rewrite <- (Zmult_compare_compat_l (2 * (x mod 2 ^ k)) (2 ^ k) 2) by lia.
Qed.

(** Between the powers of two around [x], inclusive. *)
Lemma log2_bounds x : 0 < x → 2 ^ Z.log2 x ≤ x < 2 * 2 ^ Z.log2 x.
Proof. intros Hx. pose proof (Z.log2_spec x Hx). rewrite <- Z.pow_succ_r; [done|apply Z.log2_nonneg]. Qed.

Lemma excess_quotient x : 0 < x → 0 ≤ excess x → 2 ^ 52 ≤ x / 2 ^ excess x < 2 ^ 53.
Proof.
  unfold excess. intros Hx He. pose proof (log2_bounds x Hx) as [Hl Hu].
  replace (Z.log2 x) with (52 + (Z.log2 x - 52)) in Hl, Hu by lia.
  rewrite Z.pow_add_r in Hl, Hu by lia.
  pose proof (Z.pow_pos_nonneg 2 (Z.log2 x - 52)). split.
  - apply Z.div_le_lower_bound; lia.
  - apply Z.div_lt_upper_bound; lia.
Qed.

Lemma round53_bounds x : 0 < x → 2 ^ Z.log2 x ≤ round53 x ≤ 2 * 2 ^ Z.log2 x.
Proof.
  intros Hx. unfold round53. pose proof (log2_bounds x Hx). case_decide as He; [lia|].
  pose proof (rne_bounds x (excess x)). pose proof (excess_quotient x Hx).
  replace (Z.log2 x) with (52 + excess x) by (unfold excess; lia).
  rewrite Z.pow_add_r by lia. pose proof (Z.pow_pos_nonneg 2 (excess x)). nia.
Qed.

Lemma round53_mono x y : 0 < x → x ≤ y → round53 x ≤ round53 y.
Proof.
  intros Hx Hxy. pose proof (Z.log2_le_mono x y Hxy) as Hl.
  pose proof (round53_bounds x Hx). pose proof (round53_bounds y ltac:(lia)).
  destruct (decide (Z.log2 x = Z.log2 y)) as [E|].
  - unfold round53, excess. rewrite <- E. case_decide; [done|].
    apply Z.mul_le_mono_nonneg_r; [by apply Z.pow_nonneg|]. apply rne_mono; lia.
  - assert (2 * 2 ^ Z.log2 x ≤ 2 ^ Z.log2 y); [|lia].
    rewrite <- Z.pow_succ_r by apply Z.log2_nonneg. apply Z.pow_le_mono_r; lia.
Qed.

Lemma round53_double x : 0 < x → round53 (2 * x) = 2 * round53 x.
Proof.
  intros Hx. unfold round53, excess. rewrite Z.log2_double by done. unfold Z.succ.
  replace (Z.log2 x + 1 - 52) with (Z.log2 x - 52 + 1) by lia.
  case_decide; case_decide; try lia.
  - assert (Z.log2 x - 52 = 0) as -> by lia. rewrite rne_double by lia.
    unfold rne. rewrite Z.pow_0_r, Z.mod_1_r, Z.div_1_r. simpl. lia.
  - rewrite rne_double, Z.pow_add_r by lia. lia.
Qed.

(** ** The rounding of [SpecFloat] *)
Lemma digits2_log2 p : Zdigits2 (Z.pos p) = Z.log2 (Z.pos p) + 1.
Proof.
  induction p as [p IH|p IH|]; [| |done]; unfold Zdigits2 in *; cbn [digits2_pos];
    rewrite Pos2Z.inj_succ, IH.
  - rewrite Pos2Z.inj_xI, Z.log2_succ_double by done. lia.
  - rewrite Pos2Z.inj_xO, Z.log2_double by done. lia.
Qed.

Lemma digits2_pos_range m d : 0 ≤ d → 2 ^ d ≤ m < 2 * 2 ^ d → Zdigits2 m = d + 1.
Proof.
  intros Hd Hm. pose proof (Z.pow_pos_nonneg 2 d). destruct m as [|p|p]; [lia| |lia].
  rewrite digits2_log2. rewrite <- Z.pow_succ_r in Hm by done. by rewrite (Z.log2_unique _ d).
Qed.

Lemma shr_1_spec m r s : 0 ≤ m → shr_1 (Build_shr_record m r s) = Build_shr_record (m / 2) (Z.odd m) (r || s).
Proof.
  intros Hm. destruct m as [|[p|p|]|p]; simpl; try done; try lia.
  - rewrite Pos2Z.inj_xI. f_equal. apply Z.div_unique with 1; lia.
  - rewrite Pos2Z.inj_xO. f_equal. apply Z.div_unique with 0; lia.
Qed.

Lemma iter_pos_iter {A} (f : A → A) n x : SpecFloat.iter_pos f n x = Pos.iter f x n.
Proof.
  revert x. induction n as [n IH|n IH|]; intros x; simpl; rewrite ?IH; [|done..].
  by rewrite !Pos.iter_swap.
Qed.

(** [n] shifts of the integer [x] leave the quotient, the bit below it and whether
    anything is set below that bit. *)
Lemma shr_iter x n :
  0 ≤ x →
  SpecFloat.iter_pos shr_1 n (shr_record_of_loc x loc_Exact) =
  Build_shr_record (x / 2 ^ Z.pos n) (Z.odd (x / 2 ^ (Z.pos n - 1)))
    (bool_decide (x mod 2 ^ (Z.pos n - 1) ≠ 0)).
Proof.
  intros Hx. rewrite iter_pos_iter. induction n as [|n IH] using Pos.peano_ind.
  - change (Pos.iter _ _ 1) with (shr_1 (Build_shr_record x false false)).
    rewrite shr_1_spec by done. simpl. by rewrite Z.div_1_r, Z.mod_1_r.
  - rewrite Pos.iter_succ, IH, shr_1_spec by (apply Z.div_pos; [done|by apply Z.pow_pos_nonneg]).
    rewrite Pos2Z.inj_succ. replace (Z.succ (Z.pos n) - 1) with (Z.pos n) by lia.
    rewrite Z.pow_succ_r, Z.div_div, (Z.mul_comm 2) by (try apply Z.pow_nonzero; lia). f_equal.
    set (k := Z.pos n - 1). replace (Z.pos n) with (Z.succ k) by lia.
    rewrite Z.pow_succ_r, (Z.mul_comm 2), Z.rem_mul_r by (unfold k; try apply Z.pow_nonzero; lia).
    pose proof (Z.pow_pos_nonneg 2 k). pose proof (Z.mod_pos_bound x (2 ^ k)).
    rewrite Zmod_odd. destruct (Z.odd _); simpl.
    + symmetry. apply bool_decide_eq_true. unfold k in *. lia.
    + by rewrite Z.mul_0_r, Z.add_0_r.
Qed.

Lemma round_shifted x n :
  0 ≤ x →
  let mrs := SpecFloat.iter_pos shr_1 n (shr_record_of_loc x loc_Exact) in
  round_nearest_even (shr_m mrs) (loc_of_shr_record mrs) = rne x (Z.pos n).
Proof.
  intros Hx. rewrite shr_iter by done. cbn zeta. set (k := Z.pos n - 1).
  unfold rne. replace (Z.pos n) with (Z.succ k) by lia.
  pose proof (Z.pow_pos_nonneg 2 k). pose proof (Z.mod_pos_bound x (2 ^ k)).
  rewrite Z.pow_succ_r, (Z.mul_comm 2 (2 ^ k)) by lia.
  rewrite Z.rem_mul_r by (unfold k in *; lia). rewrite Zmod_odd. cbn [shr_m loc_of_shr_record].
  set (q := x / (2 ^ k * 2)). set (r := x mod 2 ^ k) in *. unfold k in *.
  destruct (Z.odd _); case_bool_decide; cbn [round_nearest_even];
    destruct (Z.compare_spec (2 * (r + 2 ^ (Z.pos n - 1) * 1)) (2 ^ (Z.pos n - 1) * 2));
    destruct (Z.compare_spec (2 * (r + 2 ^ (Z.pos n - 1) * 0)) (2 ^ (Z.pos n - 1) * 2)); lia || done.
Qed.

(** A mantissa between [2 ^ 52] and [2 ^ 53], both included, as a normal float. *)
Definition norm (m e : Z) : f64 :=
  if decide (m < 2 ^ 53) then S754_finite false (Z.to_pos m) e
  else S754_finite false (Z.to_pos (m / 2)) (e + 1).

Definition round_tail (m e : Z) : f64 :=
  let '(mrs, e) := shr_fexp 53 1024 m e loc_Exact in
  match shr_m mrs with
  | Z0 => S754_zero false
  | Z.pos m => if e <=? 1024 - 53 then S754_finite false m e else S754_infinity false
  | _ => S754_nan
  end.

Lemma fexp_normal e : -1021 ≤ e → fexp 53 1024 e = e - 53.
Proof. unfold fexp, emin. lia. Qed.

Lemma round_tail_norm m e :
  2 ^ 52 ≤ m ≤ 2 ^ 53 → -1000 ≤ e ≤ 900 → round_tail m e = norm m e.
Proof.
  intros Hm He. unfold round_tail, norm, shr_fexp. case_decide as Hlt.
  - rewrite (digits2_pos_range m 52) by lia. rewrite fexp_normal by lia.
    replace (52 + 1 + e - 53 - e) with 0 by lia. cbn [shr shr_record_of_loc shr_m].
    destruct m as [|p|p]; [lia| |lia]. rewrite (proj2 (Z.leb_le _ _)) by lia. done.
  - assert (m = 2 ^ 53) as -> by lia. rewrite (digits2_pos_range (2 ^ 53) 53) by lia.
    rewrite fexp_normal by lia. replace (53 + 1 + e - 53 - e) with 1 by lia.
    cbn -[Z.add Z.leb Z.sub]. rewrite (proj2 (Z.leb_le _ _)) by lia. done.
Qed.

Lemma round_aux_tail m e l mrs e' :
  shr_fexp 53 1024 m e l = (mrs, e') →
  binary_round_aux 53 1024 false m e l =
  round_tail (round_nearest_even (shr_m mrs) (loc_of_shr_record mrs)) e'.
Proof. unfold binary_round_aux. intros ->. done. Qed.

Lemma norm_value m e :
  2 ^ 52 ≤ m ≤ 2 ^ 53 → -53 ≤ e →
  ∃ m' e', norm m e = S754_finite false m' e' ∧ 2 ^ 52 ≤ Z.pos m' < 2 ^ 53 ∧ e ≤ e' ≤ e + 1 ∧
    Z.pos m' * 2 ^ (e' + 53) = m * 2 ^ (e + 53).
Proof.
  intros Hm He. unfold norm. case_decide as Hlt.
  - exists (Z.to_pos m), e. rewrite Z2Pos.id by lia. split_and!; [done|lia..].
  - assert (m = 2 ^ 53) as -> by lia. exists (Z.to_pos (2 ^ 52)), (e + 1).
    split_and!; [done|lia..|]. rewrite Z2Pos.id by lia.
    replace (e + 1 + 53) with (Z.succ (e + 53)) by lia. rewrite Z.pow_succ_r by lia. lia.
Qed.

Lemma pos_iter_xO p d : Z.pos (Pos.iter xO p d) = Z.pos p * 2 ^ Z.pos d.
Proof.
  induction d as [|d IH] using Pos.peano_ind; [cbn; lia|].
  rewrite Pos.iter_succ, Pos2Z.inj_xO, IH, Pos2Z.inj_succ, Z.pow_succ_r by lia. lia.
Qed.

(** A mantissa of 53 bits needs no rounding beyond its location. *)
Lemma round_aux_53 m e l :
  2 ^ 52 ≤ m < 2 ^ 53 → -1000 ≤ e ≤ 900 →
  binary_round_aux 53 1024 false m e l = round_tail (round_nearest_even m l) e.
Proof.
  intros Hm He. rewrite (round_aux_tail _ _ _ (shr_record_of_loc m l) e).
  - by destruct l as [|[]].
  - unfold shr_fexp. rewrite (digits2_pos_range m 52), fexp_normal by lia.
    by replace (52 + 1 + e - 53 - e) with 0 by lia.
Qed.

Lemma binary_round_uint p :
  0 ≤ Z.log2 (Z.pos p) ≤ 64 →
  binary_round 53 1024 false p 0 =
  if decide (excess (Z.pos p) ≤ 0)
  then norm (Z.pos p * 2 ^ (- excess (Z.pos p))) (excess (Z.pos p))
  else norm (rne (Z.pos p) (excess (Z.pos p))) (excess (Z.pos p)).
Proof.
  intros Hl. pose proof (log2_bounds (Z.pos p) ltac:(lia)) as Hb.
  pose proof (digits2_log2 p) as Hd. unfold Zdigits2 in Hd.
  unfold binary_round, shl_align. rewrite Hd, fexp_normal by lia.
  assert (Z.log2 (Z.pos p) + 1 + 0 - 53 = excess (Z.pos p)) as -> by (unfold excess; lia).
  rewrite Z.sub_0_r. pose proof (excess_quotient (Z.pos p) ltac:(lia)) as Hq.
  assert (Hex : Z.log2 (Z.pos p) = excess (Z.pos p) + 52) by (unfold excess; lia).
  destruct (excess (Z.pos p)) as [|k|k] eqn:Ek; case_decide; try lia.
  - rewrite Hex in Hb. rewrite round_aux_53 by lia. cbn [round_nearest_even].
    rewrite round_tail_norm by lia. by rewrite Z.mul_1_r.
  - rewrite (round_aux_tail _ _ _ (SpecFloat.iter_pos shr_1 k (shr_record_of_loc (Z.pos p) loc_Exact)) (Z.pos k)).
    + pose proof (round_shifted (Z.pos p) k ltac:(lia)) as Hr. cbn zeta in Hr. rewrite Hr.
      pose proof (rne_bounds (Z.pos p) (Z.pos k) ltac:(lia)). apply round_tail_norm; lia.
    + unfold shr_fexp. rewrite digits2_log2, Hex, fexp_normal by lia.
      by replace (Z.pos k + 52 + 1 + 0 - 53 - 0) with (Z.pos k) by lia.
  - rewrite pos_iter_xO. replace (- Z.neg k) with (Z.pos k) by lia.
    assert (Hm : 2 ^ 52 = 2 ^ Z.log2 (Z.pos p) * 2 ^ Z.pos k)
      by (rewrite <- Z.pow_add_r by lia; f_equal; lia).
    pose proof (Z.pow_pos_nonneg 2 (Z.pos k)).
    rewrite round_aux_53 by (rewrite ?Hm; nia). cbn [round_nearest_even].
    by rewrite round_tail_norm by (rewrite ?Hm; nia).
Qed.

(** [x as f64]. *)
Lemma f64_of_uint_round x :
  0 < x < 2 ^ 65 →
  ∃ m e, f64_of_uint x = S754_finite false m e ∧ 2 ^ 52 ≤ Z.pos m < 2 ^ 53 ∧ -53 ≤ e ≤ 100 ∧
    Z.pos m * 2 ^ (e + 53) = round53 x * 2 ^ 53.
Proof.
  intros Hx. assert (Hl : 0 ≤ Z.log2 x ≤ 64).
  { split; [apply Z.log2_nonneg|]. assert (Z.log2 x < 65); [|lia]. apply Z.log2_lt_pow2; lia. }
  pose proof (log2_bounds x ltac:(lia)) as Hb. assert (He : Z.log2 x = excess x + 52) by (unfold excess; lia).
  destruct x as [|p|p]; [lia| |lia]. unfold f64_of_uint, binary_normalize.
  rewrite binary_round_uint by done. unfold round53. set (k := excess _) in *. case_decide.
  - assert (Hm : 2 ^ 52 = 2 ^ Z.log2 (Z.pos p) * 2 ^ (- k)) by (rewrite <- Z.pow_add_r by lia; f_equal; lia).
    pose proof (Z.pow_pos_nonneg 2 (- k)).
    destruct (norm_value (Z.pos p * 2 ^ (- k)) k) as (m & e & -> & Hm' & He' & Hv); [nia|lia|].
    exists m, e. split_and!; [done|lia..|]. rewrite Hv, <- Z.mul_assoc, <- Z.pow_add_r by lia.
    do 2 f_equal. lia.
  - pose proof (excess_quotient (Z.pos p) ltac:(lia)). pose proof (rne_bounds (Z.pos p) k).
    destruct (norm_value (rne (Z.pos p) k) k) as (m & e & -> & Hm' & He' & Hv); [unfold k in *; lia|lia|].
    exists m, e. split_and!; [done|lia..|]. rewrite Hv, Z.pow_add_r by lia. lia.
Qed.

(** ** Quotients *)
Lemma round_location q m r : (round_nearest_even q (new_location m r) = q ∨
  round_nearest_even q (new_location m r) = q + 1).
Proof.
  destruct (new_location m r) as [|[]]; cbn [round_nearest_even];
    try destruct (Z.even q); auto.
Qed.

(** An exact quotient is not rounded. *)
Lemma new_location_0 m : new_location m 0 = loc_Exact.
Proof. unfold new_location, new_location_even, new_location_odd. by destruct (Z.even m). Qed.

(** The quotient of normal floats [a] and [b] with [b ≤ a ≤ 2 * b]: their exponents are
    equal, or [a]'s is one greater. *)
Lemma div_core_53 m1 e1 m2 e2 :
  2 ^ 52 ≤ Z.pos m1 < 2 ^ 53 → 2 ^ 52 ≤ Z.pos m2 < 2 ^ 53 → -53 ≤ e1 ≤ 100 → -53 ≤ e2 ≤ 100 →
  SFdiv_core_binary 53 1024 (Z.pos m1) e1 (Z.pos m2) e2 =
  (Z.pos m1 * 2 ^ 53 / Z.pos m2, e1 - e2 - 53, new_location (Z.pos m2) (Z.pos m1 * 2 ^ 53 mod Z.pos m2)).
Proof.
  intros Hm1 Hm2 He1 He2. unfold SFdiv_core_binary.
  rewrite (digits2_pos_range (Z.pos m1) 52), (digits2_pos_range (Z.pos m2) 52) by lia.
  rewrite fexp_normal by lia.
  replace (Z.min (52 + 1 + e1 - (52 + 1 + e2) - 53) (e1 - e2)) with (e1 - e2 - 53) by lia.
  replace (e1 - e2 - (e1 - e2 - 53)) with 53 by lia. cbv zeta beta iota.
  rewrite Z.shiftl_mul_pow2 by lia.
  unfold Z.div, Z.modulo. by destruct (Z.div_eucl (Z.pos m1 * 2 ^ 53) (Z.pos m2)).
Qed.

(** The floats from one to two. *)
Definition one_to_two (x : f64) : Prop := SFleb f64_one x = true ∧ SFleb x (f64_of_uint 2) = true.

Lemma norm_one_to_two m : 2 ^ 52 ≤ m ≤ 2 ^ 53 → one_to_two (norm m (-52)).
Proof.
  intros Hm. unfold norm, one_to_two. change f64_one with (S754_finite false (Z.to_pos (2 ^ 52)) (-52)).
  change (f64_of_uint 2) with (S754_finite false (Z.to_pos (2 ^ 52)) (-51)).
  case_decide; [|assert (m = 2 ^ 53) as -> by lia; done].
  unfold SFleb. cbn [SFcompare]. change (-52 ?= -51) with Lt. cbv beta iota zeta. split; [|done].
  change (Pos.compare_cont Eq (Z.to_pos (2 ^ 52)) (Z.to_pos m)) with (Z.to_pos (2 ^ 52) ?= Z.to_pos m)%positive.
  rewrite <- Z2Pos.inj_compare by lia. by destruct (Z.compare_spec (2 ^ 52) m); [..|lia].
Qed.

(** One more bit of quotient than the mantissa has: shift once, then round. *)
Lemma round_aux_54 q e l :
  2 ^ 53 ≤ q < 2 ^ 54 → -1000 ≤ e ≤ 900 →
  ∃ m, q / 2 ≤ m ≤ q / 2 + 1 ∧ binary_round_aux 53 1024 false q e l = round_tail m (e + 1).
Proof.
  intros Hq He. rewrite (round_aux_tail _ _ _ (shr_1 (shr_record_of_loc q l)) (e + 1)).
  - eexists. split; [|done].
    assert (∃ r s, shr_record_of_loc q l = Build_shr_record q r s) as (r & s & ->)
      by (destruct l as [|[]]; eauto).
    rewrite shr_1_spec by lia. cbn [shr_m].
    destruct (loc_of_shr_record _) as [|[]]; cbn [round_nearest_even]; try destruct (Z.even _); lia.
  - unfold shr_fexp. rewrite (digits2_pos_range q 53), fexp_normal by lia.
    by replace (53 + 1 + e - 53 - e) with 1 by lia.
Qed.

Lemma div_one_to_two m1 e1 m2 e2 :
  2 ^ 52 ≤ Z.pos m1 < 2 ^ 53 → 2 ^ 52 ≤ Z.pos m2 < 2 ^ 53 → -53 ≤ e1 ≤ 100 → -53 ≤ e2 ≤ 100 →
  e1 = e2 ∧ Z.pos m2 ≤ Z.pos m1 ∨ e1 = e2 + 1 ∧ Z.pos m1 ≤ Z.pos m2 →
  one_to_two (f64_div (S754_finite false m1 e1) (S754_finite false m2 e2)).
Proof.
  intros Hm1 Hm2 He1 He2 Hcase. unfold f64_div, SFdiv. rewrite div_core_53 by done.
  cbn [xorb]. set (q := _ / _). set (r := _ mod _).
  assert (Hdm : Z.pos m1 * 2 ^ 53 = Z.pos m2 * q + r ∧ 0 ≤ r < Z.pos m2)
    by (split; [by apply Z.div_mod|by apply Z.mod_pos_bound]).
  clearbody q r. destruct Hcase as [[-> Hle]|[-> Hle]].
  - replace (e2 - e2 - 53) with (-53) by lia.
    assert (Hq : 2 ^ 53 ≤ q < 2 ^ 54) by nia.
    destruct (round_aux_54 q (-53) (new_location (Z.pos m2) r) Hq) as (m & Hm & ->); [lia|].
    assert (2 ^ 52 ≤ m ≤ 2 ^ 53) by (clear -Hq Hm; Z.div_mod_to_equations; lia).
    rewrite round_tail_norm by lia. by apply norm_one_to_two.
  - replace (e2 + 1 - e2 - 53) with (-52) by lia.
    destruct (decide (q < 2 ^ 53)).
    + assert (2 ^ 52 ≤ q) by nia. rewrite round_aux_53 by lia.
      destruct (round_location q (Z.pos m2) r) as [-> | ->];
        rewrite round_tail_norm by lia; apply norm_one_to_two; lia.
    + assert (q = 2 ^ 53 ∧ r = 0) as [-> ->] by nia. rewrite new_location_0. done.
Qed.

(** Normal floats whose values are at most a factor of two apart. *)
Lemma exponents_near m1 e1 m2 e2 v1 v2 :
  2 ^ 52 ≤ Z.pos m1 < 2 ^ 53 → 2 ^ 52 ≤ Z.pos m2 < 2 ^ 53 → -53 ≤ e1 → -53 ≤ e2 →
  Z.pos m1 * 2 ^ (e1 + 53) = v1 * 2 ^ 53 → Z.pos m2 * 2 ^ (e2 + 53) = v2 * 2 ^ 53 →
  v2 ≤ v1 → v1 ≤ 2 * v2 →
  e1 = e2 ∧ Z.pos m2 ≤ Z.pos m1 ∨ e1 = e2 + 1 ∧ Z.pos m1 ≤ Z.pos m2.
Proof.
  intros Hm1 Hm2 He1 He2 Hv1 Hv2 Hle Hle2.
  assert (Hlo : Z.pos m2 * 2 ^ (e2 + 53) ≤ Z.pos m1 * 2 ^ (e1 + 53)) by lia.
  assert (Hhi : Z.pos m1 * 2 ^ (e1 + 53) ≤ 2 * (Z.pos m2 * 2 ^ (e2 + 53))) by lia.
  clear Hv1 Hv2. destruct (decide (e1 < e2)) as [Hlt|Hge].
  - assert (2 ^ (e2 + 53) = 2 ^ (e2 - e1) * 2 ^ (e1 + 53)) as E
      by (rewrite <- Z.pow_add_r by lia; f_equal; lia).
    rewrite E in Hlo. pose proof (Z.pow_le_mono_r 2 1 (e2 - e1)).
    pose proof (Z.pow_pos_nonneg 2 (e1 + 53)). nia.
  - assert (2 ^ (e1 + 53) = 2 ^ (e1 - e2) * 2 ^ (e2 + 53)) as E
      by (rewrite <- Z.pow_add_r by lia; f_equal; lia).
    rewrite E in Hlo, Hhi. pose proof (Z.pow_pos_nonneg 2 (e2 + 53)).
    destruct (decide (e1 = e2)) as [->|]; [left; rewrite Z.sub_diag in *; split; [done|nia]|right].
    destruct (decide (e1 = e2 + 1)) as [->|].
    + replace (e2 + 1 - e2) with 1 in * by lia. split; [done|nia].
    + pose proof (Z.pow_le_mono_r 2 2 (e1 - e2)). nia.
Qed.
