(* ===== verification/StakeModel.v ===== *)
(** The scoring model [IpSignerStakeModel] ([model/src/models/ip_signer_stake.rs]): the
    score tables of [IpSignerModel] together with the stake behind each address.  The
    file translates all of its operations, relates them to those of [IpSignerModel] by
    a simulation, and bounds the multiplier the stake contributes to a score. *)
From Stdlib Require Import ZArith Lia SpecFloat.
From stdpp Require Import gmap list.
From S2P Require Import Prelude F64 OrdMap RedBlack ScoreTable ScoreTableFacts Model ModelProps Rounding.
Local Open Scope Z_scope.

(** [F64::from((stake + total_stake) as f64 / total_stake as f64)]. *)
Definition stake_score (stake total_stake : Z) : f64 :=
  f64_div (f64_of_uint (u64_add stake total_stake)) (f64_of_uint total_stake).

Section Code.
Context `{OrderedFloatOps} `{SokobanOps} {MAX_SIGNERS MAX_IPS : nat}.

Record IpSignerStakeModel : Type := mkStakeModel {
  stake_signer_score : rbt MAX_SIGNERS SignerKey f64;
  stake_ip_score : rbt MAX_IPS Ip4 f64;
  stake_signer_score_inverse : rbt MAX_SIGNERS (InverseScoreEntry SignerKey) ();
  stake_ip_score_inverse : rbt MAX_IPS (InverseScoreEntry Ip4) ();
  stake_lookup : gmap Ip4 Z;
  total_stake : Z;
}.

Definition stake_set_ip (m : IpSignerStakeModel) t : IpSignerStakeModel :=
  mkStakeModel (stake_signer_score m) t.1 (stake_signer_score_inverse m) t.2
    (stake_lookup m) (total_stake m).
Definition stake_set_signer (m : IpSignerStakeModel) t : IpSignerStakeModel :=
  mkStakeModel t.1 (stake_ip_score m) t.2 (stake_ip_score_inverse m)
    (stake_lookup m) (total_stake m).

(** [IpSignerStakeModel::new]. *)
Definition stake_model_new (ip_scores : list (Ip4 * f64)) (signer_scores : list (SignerKey * f64))
    (stake_lookup : gmap Ip4 Z) (total_stake : Z) : IpSignerStakeModel :=
  let '(signer_score, signer_score_inverse) := table_new SIGNER_PAD signer_scores in
  let '(ip_score, ip_score_inverse) := table_new IP_PAD ip_scores in
  mkStakeModel signer_score ip_score signer_score_inverse ip_score_inverse stake_lookup total_stake.

Definition stake_median_ip_score (m : IpSignerStakeModel) : f64 :=
  approximate_median (stake_ip_score_inverse m).
Definition stake_median_signer_score (m : IpSignerStakeModel) : f64 :=
  approximate_median (stake_signer_score_inverse m).

Definition stake_forward (m : IpSignerStakeModel) (ip : Ip4) (signer : SignerKey) : f64 :=
  let ip_score :=
    match rb_get ip (stake_ip_score m) with Some s => s | None => stake_median_ip_score m end in
  let signer_score :=
    match rb_get signer (stake_signer_score m) with
    | Some s => s
    | None => stake_median_signer_score m
    end in
  let stake_score := stake_score (default 0 (stake_lookup m !! ip)) (total_stake m) in
  of_mul (of_add ip_score signer_score) stake_score.

Definition stake_prune (num_ips num_signers : nat) (m : IpSignerStakeModel)
    : outcome IpSignerStakeModel :=
  ips ← table_prune num_ips (stake_ip_score m) (stake_ip_score_inverse m);
  let m := stake_set_ip m ips in
  signers ← table_prune num_signers (stake_signer_score m) (stake_signer_score_inverse m);
  Ret (stake_set_signer m signers).

Definition stake_add_ip_score (ip : Ip4) (score : f64) (m : IpSignerStakeModel)
    : IpSignerStakeModel :=
  stake_set_ip m (add_score IP_PAD ip score (stake_ip_score m) (stake_ip_score_inverse m)).

Definition stake_add_signer_score (signer : SignerKey) (score : f64) (m : IpSignerStakeModel)
    : IpSignerStakeModel :=
  stake_set_signer m
    (add_score SIGNER_PAD signer score (stake_signer_score m) (stake_signer_score_inverse m)).

Definition stake_ip_feedback (m : IpSignerStakeModel) (ip : Ip4) : IpSignerStakeModel :=
  stake_set_ip m (feedback IP_PAD ip (stake_ip_score m) (stake_ip_score_inverse m)).

(** [update_model]: tables, then pruning, then the new stakes. *)
Definition stake_update_model (transactions : list QoSTransactionMeta)
    (prune_signers prune_ips : nat) (update_meta : Z * gmap Ip4 Z) (m : IpSignerStakeModel)
    : outcome IpSignerStakeModel :=
  let '(total_stake, stake_lookup) := update_meta in
  let '(signer_score_candidates, ip_score_candidates) := collect_candidates transactions in
  let m := stake_set_ip m
    (table_update IP_PAD ip_score_candidates (stake_ip_score m) (stake_ip_score_inverse m)) in
  let m := stake_set_signer m
    (table_update SIGNER_PAD signer_score_candidates (stake_signer_score m)
       (stake_signer_score_inverse m)) in
  m ← stake_prune prune_ips prune_signers m;
  Ret (mkStakeModel (stake_signer_score m) (stake_ip_score m) (stake_signer_score_inverse m)
         (stake_ip_score_inverse m) stake_lookup total_stake).

#[export] Instance ip_signer_stake_qos_model : QoSModel IpSignerStakeModel := {|
  AdditionalArgs := ();
  AdditionalUpdateMeta := Z * gmap Ip4 Z;
  IpFeedback := Ip4;
  qm_forward m ip signer _ := stake_forward m ip signer;
  qm_update_model m transactions meta := stake_update_model transactions 5 5 meta m;
  qm_ip_feedback := stake_ip_feedback;
|}.
End Code.
Arguments IpSignerStakeModel {_} MAX_SIGNERS MAX_IPS.

(** ** Simulation of [IpSignerModel] *)
Section Simulation.
Context `{OrderedFloatLaws} `{SokobanLaws} {MAX_SIGNERS MAX_IPS : nat}.
Abbreviation model := (IpSignerModel MAX_SIGNERS MAX_IPS).
Abbreviation smodel := (IpSignerStakeModel MAX_SIGNERS MAX_IPS).
Implicit Types (m : smodel) (ip : Ip4) (signer : SignerKey).

(** The calls that change a model, those of [IpSignerModel] with the stakes an update
    brings. *)
Inductive stake_call : Type :=
| StakeUpdate (txs : list QoSTransactionMeta) (prune_signers prune_ips : nat)
    (total : Z) (lookup : gmap Ip4 Z)
| StakeFeedback (ip : Ip4)
| StakeAddIp (ip : Ip4) (score : f64)
| StakeAddSigner (signer : SignerKey) (score : f64)
| StakePrune (num_ips num_signers : nat).

Definition stake_exec m (c : stake_call) : outcome smodel :=
  match c with
  | StakeUpdate txs ps pi total lookup => stake_update_model txs ps pi (total, lookup) m
  | StakeFeedback ip => Ret (stake_ip_feedback m ip)
  | StakeAddIp ip s => Ret (stake_add_ip_score ip s m)
  | StakeAddSigner k s => Ret (stake_add_signer_score k s m)
  | StakePrune ni ns => stake_prune ni ns m
  end.

Fixpoint stake_run m (calls : list stake_call) : outcome smodel :=
  match calls with [] => Ret m | c :: calls => stake_exec m c ≫= λ m, stake_run m calls end.

Fixpoint model_run (t : model) (calls : list model_call) : outcome model :=
  match calls with [] => Ret t | c :: calls => model_exec t c ≫= λ t, model_run t calls end.

(** The call without its stakes, and the stakes without the call. *)
Definition erase_stakes (c : stake_call) : model_call :=
  match c with
  | StakeUpdate txs ps pi _ _ => CallUpdate txs ps pi
  | StakeFeedback ip => CallFeedback ip
  | StakeAddIp ip s => CallAddIp ip s
  | StakeAddSigner k s => CallAddSigner k s
  | StakePrune ni ns => CallPrune ni ns
  end.
Definition new_stakes (old : Z * gmap Ip4 Z) (c : stake_call) : Z * gmap Ip4 Z :=
  match c with StakeUpdate _ _ _ total lookup => (total, lookup) | _ => old end.

Definition tables m : model :=
  mkModel (stake_signer_score m) (stake_ip_score m) (stake_signer_score_inverse m)
    (stake_ip_score_inverse m).
Definition stakes m : Z * gmap Ip4 Z := (total_stake m, stake_lookup m).

Lemma stake_prune_tables ni ns m :
  (stake_prune ni ns m ≫= λ m', Ret (tables m', stakes m')) =
  (prune ni ns (tables m) ≫= λ t, Ret (t, stakes m)).
Proof.
  unfold stake_prune, prune. cbn [tables ip_score ip_score_inverse].
  destruct (table_prune ni _ _) as [ips| | |]; [|done..]. rewrite !bind_Ret.
  cbn [tables set_ip_table stake_set_ip signer_score signer_score_inverse stake_signer_score
       stake_signer_score_inverse].
  by destruct (table_prune ns _ _).
Qed.

(** Each call does to the tables what [IpSignerModel] does. *)
Lemma stake_exec_tables m c :
  (stake_exec m c ≫= λ m', Ret (tables m', stakes m')) =
  (model_exec (tables m) (erase_stakes c) ≫= λ t, Ret (t, new_stakes (stakes m) c)).
Proof.
  destruct c as [txs ps pi total lookup|ip|ip s|k s|ni ns];
    [|done|done|done|by apply stake_prune_tables].
  unfold stake_exec, model_exec, erase_stakes, stake_update_model, update_model.
  destruct (collect_candidates txs) as [sc ic]. set (m1 := stake_set_signer _ _).
  change (set_signer_table _ _) with (tables m1).
  pose proof (stake_prune_tables pi ps m1) as Hp.
  destruct (stake_prune pi ps m1), (prune pi ps (tables m1)); try done. by simplify_eq/=.
Qed.

Lemma stake_exec_run m c :
  model_wf (tables m) →
  ∃ m', stake_exec m c = Ret m' ∧ model_exec (tables m) (erase_stakes c) = Ret (tables m') ∧
    stakes m' = new_stakes (stakes m) c ∧ model_wf (tables m').
Proof.
  intros Hwf. pose proof (stake_exec_tables m c) as Hs.
  destruct (model_exec_wf _ (erase_stakes c) Hwf) as (t & Ht & Hwf'). rewrite Ht in Hs.
  destruct (stake_exec m c) as [m'| | |]; try done. simplify_eq/=. eauto.
Qed.

Lemma stake_run_tables calls : ∀ m,
  model_wf (tables m) →
  ∃ m', stake_run m calls = Ret m' ∧
    model_run (tables m) (erase_stakes <$> calls) = Ret (tables m') ∧
    stakes m' = fold_left new_stakes calls (stakes m) ∧ model_wf (tables m').
Proof.
  induction calls as [|c calls IH]; intros m Hwf; [by exists m|].
  destruct (stake_exec_run m c Hwf) as (m1 & Hm1 & Ht1 & Hs1 & Hwf1).
  destruct (IH m1 Hwf1) as (m' & Hm' & Ht' & Hs' & Hwf'). exists m'.
  cbn [stake_run model_run fmap list_fmap fold_left].
  rewrite Hm1, Ht1, !bind_Ret, <- Hs1. by split_and!.
Qed.

Lemma stake_new_tables ips signers lookup total :
  tables (stake_model_new ips signers lookup total) = model_new ips signers ∧
  stakes (stake_model_new ips signers lookup total) = (total, lookup).
Proof.
  unfold stake_model_new, model_new. by destruct (table_new SIGNER_PAD signers), (table_new IP_PAD ips).
Qed.

(** The score a model uses for a source: its own, or the one at the root of the inverse
    tree, which is one for an empty table. *)
Definition source_score {K} `{Ord K} {MAX : nat} (sc : rbt MAX K f64)
    (inv : rbt MAX (InverseScoreEntry K) ()) (id : K) : f64 :=
  default (approximate_median inv) (lookup_score id sc).

(** C24. The model with stakes refines the one without.  Started with distinct sources, it
    runs every sequence of score insertions, feedback, pruning and batch updates without a
    panic; its tables are at all times those [IpSignerModel] has after the same calls, so
    consistent with their inverses; its stakes are those of the last batch update; and it
    scores a packet with the sum of the scores of address and signer, times one plus the
    share of the stake of the address. *)
Theorem stake_model_refines ips signers lookup total (calls : list stake_call) :
  NoDup ips.*1 → NoDup signers.*1 →
  ∃ m, stake_run (stake_model_new ips signers lookup total) calls = Ret m ∧
    model_run (model_new ips signers) (erase_stakes <$> calls) = Ret (tables m) ∧
    model_wf (tables m) ∧
    stakes m = fold_left new_stakes calls (total, lookup) ∧
    ∀ ip signer, stake_forward m ip signer =
      f64_mul (f64_add (source_score (ip_score (tables m)) (ip_score_inverse (tables m)) ip)
                       (source_score (signer_score (tables m)) (signer_score_inverse (tables m)) signer))
        (stake_score (default 0 ((stakes m).2 !! ip)) (stakes m).1).
Proof.
  intros Hi Hs. destruct (stake_new_tables ips signers lookup total) as [Et Es].
  destruct (stake_run_tables calls (stake_model_new ips signers lookup total)) as (m & Hm & Ht & Hst & Hwf).
  { rewrite Et. by apply model_new_wf. }
  rewrite Et in Ht. rewrite Es in Hst. exists m. split_and!; [done..|].
  intros ip signer. unfold stake_forward. by rewrite of_mul_f64, of_add_f64, !get_elems.
Qed.
End Simulation.


(** ** Witnesses *)
Section Witnesses.
#[local] Existing Instance ref_ordered_float.
#[local] Existing Instance ref_ordered_float_laws.
#[local] Existing Instance ref_sokoban.
#[local] Existing Instance ref_sokoban_laws.

(** A model built without a total stake scores every packet NaN. *)
Lemma no_stake_nan ips signers ip signer :
  stake_forward (MAX_SIGNERS := 16) (MAX_IPS := 16) (stake_model_new ips signers ∅ 0) ip signer = S754_nan.
Proof.
  destruct (stake_new_tables (MAX_SIGNERS := 16) (MAX_IPS := 16) ips signers ∅ 0) as [_ Es].
  unfold stake_forward, stakes in *. injection Es as -> ->. rewrite lookup_empty.
  change (stake_score (default 0 None) 0) with S754_nan. set (x := of_add _ _). by destruct x.
Qed.

Lemma stake_model_refines_witness :
  ∃ m, stake_run (MAX_SIGNERS := 16) (MAX_IPS := 16) (stake_model_new [(1, f64_one); (2, f64_one)] [] ∅ 5)
         [StakeFeedback 1; StakeUpdate [] 10 10 8 {[ 2 := 8 ]}; StakeAddIp 2 f64_one; StakePrune 1 1] = Ret m ∧
    stakes m = (8, {[ 2 := 8 ]}).
Proof.
  destruct (stake_model_refines (MAX_SIGNERS := 16) (MAX_IPS := 16) [(1, f64_one); (2, f64_one)] [] ∅ 5
    [StakeFeedback 1; StakeUpdate [] 10 10 8 {[ 2 := 8 ]}; StakeAddIp 2 f64_one; StakePrune 1 1])
    as (m & Hm & _ & _ & Hs & _).
  - apply (bool_decide_unpack _). vm_compute. exact I.
  - constructor.
  - exists m. split; [exact Hm|exact Hs].
Defined.

End Witnesses.
