(* ===== verification/MinMax.v ===== *)
(** The bounded priority queue of [minmax/src/lib.rs]: a wrapper around the
    double-ended heap of the [min-max-heap] crate that drops the minimum as soon as
    the heap reaches [N] elements.

    [HeapOps] lists the operations the wrapper calls, [HeapLaws] what they promise:
    the contents are a multiset ([contents], up to permutation) from which
    [pop_min] and [pop_max] take a least and a greatest element. *)
From Stdlib Require Import ZArith Lia Sorting.Sorted.
From stdpp Require Import gmap list sorting.
From S2P Require Import Prelude.
Local Open Scope nat_scope.

Class HeapOps : Type := {
  heap : Type → Type;
  heap_with_capacity {T} : nat → heap T;
  heap_push {T} `{Ord T} : T → heap T → heap T;
  heap_pop_min {T} `{Ord T} : heap T → option T * heap T;
  heap_pop_max {T} `{Ord T} : heap T → option T * heap T;
  heap_len {T} : heap T → nat;
}.

(** [a] is not greater than [b]. *)
Definition cmp_le `{Ord T} (a b : T) : Prop := cmp a b ≠ Gt.

Class HeapLaws `{HeapOps} : Type := {
  contents {T} : heap T → list T;
  contents_new {T} n : contents (heap_with_capacity n : heap T) = [];
  contents_push {T} `{OrdLaws T} (x : T) h : contents (heap_push x h) ≡ₚ x :: contents h;
  len_contents {T} (h : heap T) : heap_len h = length (contents h);
  pop_min_contents {T} `{OrdLaws T} (h : heap T) :
    match heap_pop_min h with
    | (Some x, h') => contents h ≡ₚ x :: contents h' ∧ ∀ y, y ∈ contents h' → cmp_le x y
    | (None, h') => contents h = [] ∧ h' = h
    end;
  pop_max_contents {T} `{OrdLaws T} (h : heap T) :
    match heap_pop_max h with
    | (Some x, h') => contents h ≡ₚ x :: contents h' ∧ ∀ y, y ∈ contents h' → cmp_le y x
    | (None, h') => contents h = [] ∧ h' = h
    end;
}.

(** ** The wrapper *)
Section Code.
Context `{HeapOps} {T : Type} `{Ord T}.

(** [MinMaxHeap<T, N>]; the bound [N] is an argument of [push]. *)
Record MinMaxHeap : Type := mkHeap { inner : heap T }.

Definition mm_new (N : nat) : MinMaxHeap := mkHeap (heap_with_capacity N).

Definition mm_push (N : nat) (value : T) (h : MinMaxHeap) : outcome (option T * MinMaxHeap) :=
  let i := heap_push value (inner h) in
  if decide (heap_len i = N) then
    let '(o, i) := heap_pop_min i in
    min ← unwrap o;
    Ret (Some min, mkHeap i)
  else Ret (None, mkHeap i).

Definition mm_len (h : MinMaxHeap) : nat := heap_len (inner h).

(** [PopDesc::next], the step of the iterator [get_max_values] returns. *)
Definition pop_desc_next (h : MinMaxHeap) : option T * MinMaxHeap :=
  let '(o, i) := heap_pop_max (inner h) in (o, mkHeap i).

(** Pushing a sequence of values; the evicted ones, oldest first. *)
Fixpoint mm_push_all (N : nat) (l : list T) (h : MinMaxHeap) : outcome (list T * MinMaxHeap) :=
  match l with
  | [] => Ret ([], h)
  | x :: l =>
     '(o, h) ← mm_push N x h;
     '(ev, h) ← mm_push_all N l h;
     Ret (option_list o ++ ev, h)
  end.

(** Running the iterator to its end, with [fuel] calls of [next] at most; [None] when
    the fuel runs out first. *)
Fixpoint pop_desc_all (fuel : nat) (h : MinMaxHeap) : option (list T) :=
  match fuel with
  | 0 => None
  | S fuel =>
     match pop_desc_next h with
     | (Some x, h) => cons x <$> pop_desc_all fuel h
     | (None, _) => Some []
     end
  end.
End Code.
Arguments MinMaxHeap {_} T.

(** ** Facts *)
Section Facts.
Context `{HeapLaws} {T : Type} `{OrdLaws T}.
Implicit Types (h : MinMaxHeap T) (x y : T).

Definition mm_contents h : list T := contents (inner h).

Lemma cmp_le_trans x y z : cmp_le x y → cmp_le y z → cmp_le x z.
Proof.
  unfold cmp_le. destruct (cmp x y) eqn:E1; try done; intros _.
  - by rewrite (cmp_eq_l _ _ z E1).
  - destruct (cmp y z) eqn:E2; try done; intros _.
    + rewrite (cmp_flip z x), (cmp_eq_l z y x) by by apply cmp_eq_sym. by rewrite (cmp_flip x y), E1.
    + by rewrite (cmp_lt_trans _ _ _ E1 E2).
Qed.

Lemma cmp_le_refl x : cmp_le x x.
Proof. unfold cmp_le. by rewrite cmp_refl. Qed.

Lemma mm_push_run N x h :
  length (mm_contents h) < N →
  ∃ o h', mm_push N x h = Ret (o, h') ∧ length (mm_contents h') < N ∧
    option_list o ++ mm_contents h' ≡ₚ x :: mm_contents h ∧
    (∀ e y, o = Some e → y ∈ mm_contents h' → cmp_le e y) ∧
    (o = None ↔ S (length (mm_contents h)) < N) ∧
    (is_Some o → length (mm_contents h') = N - 1).
Proof.
  intros HN. unfold mm_push. pose proof (contents_push x (inner h)) as Hp.
  pose proof (Permutation_length Hp) as Hlen. rewrite len_contents. simpl in Hlen.
  fold (mm_contents h) in *. case_decide as Hfull.
  - pose proof (pop_min_contents (heap_push x (inner h))) as Hmin.
    destruct (heap_pop_min (heap_push x (inner h))) as [[e|] i]; [|by rewrite (proj1 Hmin) in Hlen].
    destruct Hmin as [Hc Hle]. pose proof (Permutation_length Hc) as Hlen'. simpl in Hlen'.
    exists (Some e), (mkHeap i). unfold mm_contents. simpl. split_and!; [done|lia| | | |lia].
    + etransitivity; [symmetry; exact Hc|exact Hp].
    + intros ? y [= <-] Hy. by apply Hle.
    + split; [done|]. unfold mm_contents in *. lia.
  - exists None, (mkHeap (heap_push x (inner h))). unfold mm_contents in *. simpl.
    split_and!; [done|lia|done|done| |by intros []]. split; [|done]. lia.
Qed.

(** Once an element has been evicted the heap stays full and every element kept is
    at least as great as every element evicted. *)
Lemma mm_push_all_run N l h (low : list T) :
  length (mm_contents h) < N →
  (∀ e y, e ∈ low → y ∈ mm_contents h → cmp_le e y) →
  (low ≠ [] → length (mm_contents h) = N - 1) →
  ∃ ev h', mm_push_all N l h = Ret (ev, h') ∧ length (mm_contents h') < N ∧
    ev ++ mm_contents h' ≡ₚ l ++ mm_contents h ∧
    (∀ e y, e ∈ low ++ ev → y ∈ mm_contents h' → cmp_le e y) ∧
    length (mm_contents h') = (length l + length (mm_contents h)) `min` (N - 1).
Proof.
  revert h low. induction l as [|x l IH]; intros h low HN Hlow Hfull; cbn [mm_push_all].
  { exists [], h. rewrite app_nil_r. cbn [length app]. split_and!; [done..|lia]. }
  destruct (mm_push_run N x h HN) as (o & h1 & -> & HN1 & Hp & Hle & Hnone & Hsome).
  rewrite bind_Ret. pose proof (Permutation_length Hp) as Hlen. rewrite length_app in Hlen. simpl in Hlen.
  destruct (IH h1 (low ++ option_list o) HN1) as (ev & h' & -> & HN' & Hp' & Hle' & Hlen').
  - intros e y [He|He]%elem_of_app Hy.
    + assert (Hin : y ∈ x :: mm_contents h) by (rewrite <- Hp; set_solver).
      apply elem_of_cons in Hin as [->|Hin]; [|by apply Hlow].
      assert (Hl : length (mm_contents h) = N - 1) by (apply Hfull; intros ->; by apply not_elem_of_nil in He).
      destruct o as [m|]; [|exfalso; pose proof (proj1 Hnone eq_refl); lia].
      assert (Hm : m ∈ x :: mm_contents h) by (rewrite <- Hp; set_solver).
      apply elem_of_cons in Hm as [->|Hm].
      * apply Hlow; [done|]. apply Permutation_cons_inv in Hp. by rewrite <- Hp.
      * apply (cmp_le_trans e m x); [by apply Hlow|by apply Hle].
    + destruct o as [m|]; [|set_solver]. apply Hle; [|done]. simpl in He. f_equal. set_solver.
  - intros Hne. destruct o as [m|]; [by apply Hsome|]. simpl in Hne. rewrite app_nil_r in Hne.
    pose proof (proj1 Hnone eq_refl). specialize (Hfull Hne). lia.
  - exists (option_list o ++ ev), h'. split_and!; [done|done| | |].
    + rewrite <- app_assoc, Hp', Permutation_app_comm, <- app_assoc, (Permutation_app_comm _ (option_list o)), Hp.
      by rewrite <- Permutation_middle.
    + intros e y He Hy. apply Hle'; [|done]. by rewrite <- app_assoc.
    + rewrite Hlen'. cbn [length]. destruct o as [m|].
      * pose proof (Hsome ltac:(by eexists)). change (1 + length (mm_contents h1) = S (length (mm_contents h))) in Hlen. lia.
      * change (0 + length (mm_contents h1) = S (length (mm_contents h))) in Hlen. lia.
Qed.

Lemma pop_desc_all_run fuel h :
  length (mm_contents h) < fuel →
  ∃ l, pop_desc_all fuel h = Some l ∧ l ≡ₚ mm_contents h ∧ StronglySorted (flip cmp_le) l.
Proof.
  revert h. induction fuel as [|fuel IH]; intros h Hf; [lia|]. simpl. unfold pop_desc_next.
  pose proof (pop_max_contents (inner h)) as Hmax. destruct (heap_pop_max (inner h)) as [[x|] i].
  - destruct Hmax as [Hp Hle]. pose proof (Permutation_length Hp) as Hlen. simpl in Hlen.
    destruct (IH (mkHeap i)) as (l & -> & Hl & Hs); [unfold mm_contents in *; simpl; lia|].
    exists (x :: l). split_and!; [done|unfold mm_contents in *; by rewrite Hp, Hl|].
    constructor; [done|]. apply Forall_forall. intros y Hy. apply Hle.
    change (contents i) with (mm_contents (mkHeap i)). by rewrite <- Hl.
  - destruct Hmax as [Hnil ->]. exists []. unfold mm_contents. rewrite Hnil. repeat constructor.
Qed.
End Facts.

(** ** Properties *)
Section Props.
Context `{HeapLaws} {T : Type} `{OrdLaws T}.
Implicit Types (h : MinMaxHeap T) (x y : T).

(** C22. Pushing any sequence of values into a fresh queue never panics; the queue
    never holds more than [N - 1] of them; what it has evicted and what it holds are
    together exactly the values pushed; it holds as many as it can, and none of them
    is smaller than an evicted one: it keeps the [N - 1] greatest values. *)
Theorem queue_keeps_greatest (N : nat) (l : list T) :
  0 < N →
  ∃ evicted h, mm_push_all N l (mm_new N) = Ret (evicted, h) ∧
    evicted ++ mm_contents h ≡ₚ l ∧
    length (mm_contents h) = length l `min` (N - 1) ∧
    ∀ e y, e ∈ evicted → y ∈ mm_contents h → cmp_le e y.
Proof.
  intros HN. assert (Hnil : mm_contents (mm_new N : MinMaxHeap T) = []) by apply contents_new.
  destruct (mm_push_all_run N l (mm_new N) []) as (ev & h & Hr & _ & Hp & Hle & Hlen).
  - rewrite Hnil. simpl. lia.
  - set_solver.
  - done.
  - rewrite Hnil, app_nil_r in Hp. rewrite Hnil in Hlen. simpl in Hlen. rewrite Nat.add_0_r in Hlen. eauto 10.
Qed.

(** The iterator [get_max_values] terminates after one call of [next] per
    element and one more, and yields the contents of the queue in descending
    order. *)
Theorem drain_descending h :
  ∃ l, pop_desc_all (S (mm_len h)) h = Some l ∧ l ≡ₚ mm_contents h ∧
    StronglySorted (λ a b, cmp_le b a) l.
Proof. apply pop_desc_all_run. unfold mm_len, mm_contents. rewrite len_contents. lia. Qed.
End Props.

(** ** A concrete heap: a list searched for its extremes *)
Section Reference.
Context {T : Type} `{Ord T}.

(** Splits off an element that no other one beats. *)
Fixpoint extract (better : T → T → bool) (x : T) (l : list T) : T * list T :=
  match l with
  | [] => (x, [])
  | y :: l =>
     if better y x
     then let '(m, r) := extract better y l in (m, x :: r)
     else let '(m, r) := extract better x l in (m, y :: r)
  end.
End Reference.

Definition is_gt (c : comparison) : bool := match c with Gt => true | _ => false end.

Definition ref_heap : HeapOps := {|
  heap T := list T;
  heap_with_capacity T n := [];
  heap_push T _ x h := x :: h;
  heap_pop_min T _ h :=
    match h with
    | [] => (None, [])
    | x :: l => let '(m, r) := extract (λ a b, is_gt (cmp b a)) x l in (Some m, r)
    end;
  heap_pop_max T _ h :=
    match h with
    | [] => (None, [])
    | x :: l => let '(m, r) := extract (λ a b, is_gt (cmp a b)) x l in (Some m, r)
    end;
  heap_len T h := length h;
|}.

Lemma extract_perm {T} (better : T → T → bool) x l :
  let '(m, r) := extract better x l in x :: l ≡ₚ m :: r.
Proof.
  revert x. induction l as [|y l IH]; intros x; simpl; [done|]. destruct (better y x).
  - specialize (IH y). destruct (extract better y l) as [m r]. rewrite IH. constructor.
  - specialize (IH x). destruct (extract better x l) as [m r].
    rewrite (Permutation_swap y x l), IH. constructor.
Qed.

Lemma extract_best {T} (better : T → T → bool) (le : T → T → Prop) x l :
  (∀ a, le a a) → (∀ a b c, le a b → le b c → le a c) →
  (∀ a b, if better a b then le a b else le b a) →
  let '(m, r) := extract better x l in ∀ y, y ∈ x :: l → le m y.
Proof.
  intros Hrefl Htrans Hb. revert x. induction l as [|z l IH]; intros x; simpl.
  { intros y ->%list_elem_of_singleton. apply Hrefl. }
  specialize (Hb z x). destruct (better z x).
  - specialize (IH z). destruct (extract better z l) as [m r].
    intros y [->|Hy]%elem_of_cons; [|by apply IH]. eapply Htrans; [apply IH; by left|done].
  - specialize (IH x). destruct (extract better x l) as [m r].
    intros y [->|[->|Hy]%elem_of_cons]%elem_of_cons.
    + apply IH. by left.
    + eapply Htrans; [apply IH; by left|done].
    + apply IH. by right.
Qed.

Definition ref_heap_laws : @HeapLaws ref_heap.
Proof.
  unshelve esplit; [exact (λ _ h, h)|..]; try (intros; reflexivity).
  - intros T O L [|x l]; simpl; [done|].
    pose proof (extract_perm (λ a b, is_gt (cmp b a)) x l) as Hp.
    pose proof (extract_best (λ a b, is_gt (cmp b a)) cmp_le x l cmp_le_refl cmp_le_trans) as Hb.
    destruct (extract _ x l) as [m r]. split; [done|]. intros y Hy. apply Hb; [|rewrite Hp; by right].
    intros a b. unfold cmp_le. rewrite (cmp_flip a b). by destruct (cmp a b).
  - intros T O L [|x l]; simpl; [done|].
    pose proof (extract_perm (λ a b, is_gt (cmp a b)) x l) as Hp.
    pose proof (extract_best (λ a b, is_gt (cmp a b)) (flip cmp_le) x l cmp_le_refl) as Hb.
    destruct (extract _ x l) as [m r]. split; [done|]. intros y Hy. apply Hb; [..|rewrite Hp; by right].
    + intros a b c ? ?. by eapply cmp_le_trans.
    + intros a b. simpl. unfold cmp_le. rewrite (cmp_flip a b). by destruct (cmp a b).
Defined.

Section Witnesses.
#[local] Existing Instance ref_heap.
#[local] Existing Instance ref_heap_laws.
Local Open Scope Z_scope.

Lemma queue_keeps_greatest_witness :
  ∃ evicted h, mm_push_all 4 [3; 1; 2; 4; 0] (mm_new 4) = Ret (evicted, h) ∧
    evicted = [1; 0] ∧ length (mm_contents h) = 3%nat.
Proof.
  destruct (queue_keeps_greatest 4 [3; 1; 2; 4; 0]) as (ev & h & Hr & _ & Hl & _); [lia|].
  exists ev, h. split; [exact Hr|]. split; [|exact Hl].
  vm_compute in Hr. injection Hr as <- _. reflexivity.
Defined.

Definition sample_heap : MinMaxHeap Z := @mkHeap ref_heap Z [3; 1; 2].

Lemma drain_descending_witness :
  ∃ l, pop_desc_all 4 sample_heap = Some l ∧ l = [3; 2; 1].
Proof.
  destruct (drain_descending sample_heap) as (l & Hl & _).
  exists l. split; [exact Hl|]. vm_compute in Hl. by injection Hl as <-.
Defined.
End Witnesses.
