(* ===== verification/Wire.v ===== *)
(** What travels through the service: packets and their bytes
    ([common/src/packet_bytes.rs], [internal-common/src/packet_bytes.rs]), the hash
    that identifies a packet ([common/src/xxhash.rs], [internal-common/src/xxhash.rs]),
    the key of a signature ([internal-common/src/signature_bytes.rs]), the metadata
    records ([common/src/remaining_meta.rs], [internal-common/src/partial_meta.rs])
    and scored transactions ([internal-common/src/scored_transaction.rs]).

    [PacketOps] stands for the [Packet] type of [solana_sdk], [HashOps] for the
    [xxhash_rust] crate. *)
From Stdlib Require Import ZArith Lia SpecFloat.
From stdpp Require Import gmap list.
From S2P Require Import Prelude F64 ScoreTable.
Local Open Scope Z_scope.

(** ** Addresses ([std::net]) *)
Record Ipv4Addr : Type := mkIpv4 { oct0 : Z; oct1 : Z; oct2 : Z; oct3 : Z }.
Definition octets (ip : Ipv4Addr) : list Z := [oct0 ip; oct1 ip; oct2 ip; oct3 ip].
Definition ipv4_ok (ip : Ipv4Addr) : Prop := Forall u8_ok (octets ip).

(** [Ipv4Addr::to_bits]: the first octet is the most significant one. *)
Definition to_bits (ip : Ipv4Addr) : Z := from_le_bytes (reverse (octets ip)).

(** [u32::from_le_bytes(ip.octets())], the key of an address in the model. *)
Definition ip_key (ip : Ipv4Addr) : Z := from_le_bytes (octets ip).

Inductive IpAddr : Type :=
| V4 (ip : Ipv4Addr)
| V6 (octets6 : list Z).

(** ** Packets

    [Meta] has the fields that [write_packet_meta_bytes] destructures; a packet is
    its data buffer, an array of [PACKET_DATA_SIZE] bytes, and its metadata. *)
Record Meta : Type := mkPacketMeta {
  pkt_size : Z;
  pkt_addr : IpAddr;
  pkt_port : Z;
  pkt_flags : Z;
}.
Record Packet : Type := mkPacket { pkt_buffer : list Z; pkt_meta : Meta }.

Class PacketOps : Type := {
  PACKET_DATA_SIZE : nat;
  (** [packet.data(..)]: the payload, or nothing for a packet to be discarded. *)
  packet_data : Packet → option (list Z);
  (** The representation of a packet in memory; not all bytes represent one. *)
  bytes_of_packet : Packet → list Z;
  packet_of_bytes : list Z → option Packet;
}.

(** What the types promise of a packet. *)
Definition addr_ok (a : IpAddr) : Prop :=
  match a with V4 ip => ipv4_ok ip | V6 o => length o = 16%nat ∧ Forall u8_ok o end.
Record packet_ok `{PacketOps} (p : Packet) : Prop := {
  ok_buffer_len : length (pkt_buffer p) = PACKET_DATA_SIZE;
  ok_buffer : Forall u8_ok (pkt_buffer p);
  ok_size : u64_ok (pkt_size (pkt_meta p));
  ok_addr : addr_ok (pkt_addr (pkt_meta p));
  ok_port : in_u 16 (pkt_port (pkt_meta p));
  ok_flags : u8_ok (pkt_flags (pkt_meta p));
}.

Definition PACKET_SIZE : nat := 1264.
Class PacketLaws `{PacketOps} : Prop := {
  bytes_of_packet_len p : packet_ok p → length (bytes_of_packet p) = PACKET_SIZE;
  packet_bytes_round p : packet_ok p → packet_of_bytes (bytes_of_packet p) = Some p;
}.

(** [PacketBytes], what the channels carry. *)
Record PacketBytes : Type := mkPacketBytes { raw_bytes : list Z }.
Definition PacketBytes_new (bytes : list Z) : PacketBytes := mkPacketBytes bytes.
Definition PacketBytes_default : PacketBytes := mkPacketBytes (replicate PACKET_SIZE 0).

(** The two transmutations; bytes that represent no packet are undefined
    behaviour. *)
Definition from_packet `{PacketOps} (p : Packet) : PacketBytes := mkPacketBytes (bytes_of_packet p).
Definition as_packet `{PacketOps} (b : PacketBytes) : outcome Packet :=
  unwrap_unchecked (packet_of_bytes (raw_bytes b)).

Lemma as_packet_from_packet `{PacketLaws} p : packet_ok p → as_packet (from_packet p) = Ret p.
Proof. intros Hp. unfold as_packet, from_packet. simpl. by rewrite packet_bytes_round. Qed.

(** ** Hashing *)
Class HashOps : Type := {
  const_custom_default_secret : Z → list Z;
  xxh3_64_with_secret : list Z → list Z → Z;
}.

Record xxHasher : Type := mkHasher { secret : list Z }.
Definition initialize_with_seed `{HashOps} (seed : Z) : xxHasher :=
  mkHasher (const_custom_default_secret seed).
Definition hash `{HashOps} (h : xxHasher) (input : list Z) : Z := xxh3_64_with_secret input (secret h).

(** [slice.get_unchecked(..n)]. *)
Definition slice_to (l : list Z) (n : Z) : outcome (list Z) :=
  if decide (n ≤ Z.of_nat (length l)) then Ret (take (Z.to_nat n) l) else UB.

(** Writing [bytes] through a pointer to the byte [off] of the array [mem]. *)
Definition write_at (mem : list Z) (off : Z) (bytes : list Z) : outcome (list Z) :=
  if decide (off + Z.of_nat (length bytes) ≤ Z.of_nat (length mem))
  then Ret (take (Z.to_nat off) mem ++ bytes ++ drop (Z.to_nat off + length bytes) mem)
  else UB.

Definition write_packet_meta_bytes (mem : list Z) (meta_ptr : Z) (meta : Meta) : outcome (list Z) :=
  match pkt_addr meta with
  | V4 ipv4 =>
     mem ← write_at mem meta_ptr (to_le_bytes 8 (pkt_size meta));
     write_at mem (meta_ptr + 8) (octets ipv4)
  | V6 _ => Panic
  end.

(** The bytes [packet_hash] hashes. *)
Definition packet_preimage `{PacketOps} (packet : Packet) : outcome (list Z) :=
  let preimage := replicate (PACKET_DATA_SIZE + 12) 0 in
  let packet_data_size := pkt_size (pkt_meta packet) in
  _ ← slice_to preimage packet_data_size;
  payload ← slice_to (pkt_buffer packet) packet_data_size;
  preimage ← write_at preimage 0 payload;
  preimage ← write_packet_meta_bytes preimage packet_data_size (pkt_meta packet);
  slice_to preimage (packet_data_size + 12).

Definition packet_hash `{PacketOps} `{HashOps} (hasher : xxHasher) (packet : Packet) : outcome Z :=
  preimage ← packet_preimage packet;
  Ret (hash hasher preimage).

(** ** Signature keys *)
Definition xor_group (s : list Z) (i : nat) : Z :=
  let b j := nth (8 * i + j) s 0 in
  Z.lxor (Z.lxor (Z.lxor (Z.lxor (Z.lxor (Z.lxor (Z.lxor
    (b 0%nat) (b 1%nat)) (b 2%nat)) (b 3%nat)) (b 4%nat)) (b 5%nat)) (b 6%nat)) (b 7%nat).

Definition u64_key (signature : list Z) : Z :=
  from_le_bytes
    [xor_group signature 0; xor_group signature 1; xor_group signature 2; xor_group signature 3;
     xor_group signature 4; xor_group signature 5; xor_group signature 6; xor_group signature 7].

(** [Signature] is a transparent wrapper of its 64 bytes. *)
Definition sig_bytes (s : list Z) : list Z := s.
Definition sig_ok (s : list Z) : Prop := length s = 64%nat ∧ Forall u8_ok s.

(** ** Metadata *)
Record QoSPartialMeta : Type := mkPartialMeta {
  pm_ip : Z;
  pm_signer : list Z;
  pm_total_fee : Z;
  pm_cus : Z;
}.
Definition partial_meta_new (ip : Ipv4Addr) (signer : list Z) (total_fee cus : Z) : QoSPartialMeta :=
  mkPartialMeta (ip_key ip) signer total_fee cus.

Record QoSRemainingMeta (A : Type) : Type := mkRemainingMeta {
  rm_packet_hash : Z;
  rm_execution_nanos : Z;
  rm_additional : A;
}.
Arguments mkRemainingMeta {A}.
Arguments rm_packet_hash {A}.
Arguments rm_execution_nanos {A}.
Arguments rm_additional {A}.

Definition merge {A} (self : QoSPartialMeta) (remaining_meta : QoSRemainingMeta A) : QoSTransactionMeta :=
  let execution_nanos :=
    if decide (rm_execution_nanos remaining_meta = 0) then 100000
    else rm_execution_nanos remaining_meta in
  mkMeta (pm_ip self) (pm_signer self)
    (f64_div (f64_of_uint (pm_total_fee self)) (f64_of_uint execution_nanos)).

(** [QoSTransactionMeta::new_for_tests]. *)
Definition new_for_tests (ip : Z) (signer : list Z) (fee execution_nanos : Z) : QoSTransactionMeta :=
  mkMeta ip signer (f64_div (f64_of_uint fee) (f64_of_uint execution_nanos)).

(** A [Pod] type: a fixed number of bytes, any of which make a value. *)
Class Pod (A : Type) : Type := {
  pod_size : nat;
  pod_bytes : A → list Z;
  pod_of_bytes : list Z → A;
  pod_bytes_len a : length (pod_bytes a) = pod_size;
  pod_round a : pod_of_bytes (pod_bytes a) = a;
}.

(** The struct is aligned to eight bytes, so its size is a multiple of eight; [pad]
    stands for the bytes after the last field, whose values are unspecified. *)
Section RemainingMeta.
Context {A : Type} `{Pod A}.

Definition remaining_meta_size : nat := 8 * ((16 + pod_size + 7) / 8).
Definition remaining_meta_pad : nat := remaining_meta_size - (16 + pod_size).
Definition as_bytes (m : QoSRemainingMeta A) (pad : list Z) : list Z :=
  to_le_bytes 8 (rm_packet_hash m) ++ to_le_bytes 8 (rm_execution_nanos m) ++
  pod_bytes (rm_additional m) ++ take remaining_meta_pad pad.
Definition from_bytes_unchecked (bytes : list Z) : outcome (QoSRemainingMeta A) :=
  if decide (remaining_meta_size ≤ length bytes)%nat
  then Ret (mkRemainingMeta (from_le_bytes (take 8 bytes))
              (from_le_bytes (take 8 (drop 8 bytes)))
              (pod_of_bytes (take pod_size (drop 16 bytes))))
  else UB.
End RemainingMeta.

(** ** Scored transactions: compared by their score only. *)
Record ScoredTransaction : Type := mkScored {
  st_score : f64;
  st_sig_key : Z;
  st_packet : Packet;
  st_ipv4 : Z;
}.
#[global] Instance scored_ord `{OrderedFloatOps} : Ord ScoredTransaction := λ a b,
  of_cmp (st_score a) (st_score b).
#[global] Instance scored_ord_laws `{OrderedFloatLaws} : OrdLaws ScoredTransaction.
Proof.
  split; unfold cmp, scored_ord; intros *.
  - apply (cmp_refl (K := f64)).
  - apply (cmp_flip (K := f64)).
  - apply (cmp_lt_trans (K := f64)).
  - apply (cmp_eq_l (K := f64)).
Qed.
Definition packet_bytes `{PacketOps} (t : ScoredTransaction) : PacketBytes := from_packet (st_packet t).

(** ** Facts *)
Section Facts.
Context `{PacketOps}.

Lemma write_at_run mem (off : nat) bytes :
  (off + length bytes ≤ length mem)%nat →
  write_at mem (Z.of_nat off) bytes = Ret (take off mem ++ bytes ++ drop (off + length bytes) mem).
Proof. intros ?. unfold write_at. rewrite decide_True by lia. by rewrite Nat2Z.id. Qed.

Lemma slice_to_run l (n : nat) : (n ≤ length l)%nat → slice_to l (Z.of_nat n) = Ret (take n l).
Proof. intros ?. unfold slice_to. rewrite decide_True by lia. by rewrite Nat2Z.id. Qed.

(** The size has been checked and the address is an IPv4 one: the preimage is the
    payload, the eight bytes of its size and the four octets. *)
Lemma packet_preimage_run p ip (n : nat) :
  packet_ok p → pkt_size (pkt_meta p) = Z.of_nat n → (n ≤ PACKET_DATA_SIZE)%nat →
  pkt_addr (pkt_meta p) = V4 ip →
  packet_preimage p =
  Ret (take n (pkt_buffer p) ++ to_le_bytes 8 (pkt_size (pkt_meta p)) ++ octets ip).
Proof.
  intros Hok Hsize Hn Haddr. pose proof (ok_buffer_len _ Hok) as Hlen.
  unfold packet_preimage, write_packet_meta_bytes. rewrite Haddr, Hsize.
  assert (Hpay : length (take n (pkt_buffer p)) = n) by (rewrite length_take; lia).
  rewrite (slice_to_run (replicate _ _)) by (rewrite length_replicate; lia). rewrite bind_Ret.
  rewrite slice_to_run by lia. rewrite bind_Ret.
  rewrite (write_at_run _ 0) by (rewrite ?length_replicate; lia). rewrite bind_Ret.
  rewrite Nat.add_0_l, Hpay, take_0. cbn [app].
  rewrite drop_replicate. set (pay := take n (pkt_buffer p)) in *.
  rewrite write_at_run by (rewrite ?length_app, ?length_replicate, ?length_to_le_bytes, ?Hpay; lia).
  rewrite bind_Ret, length_to_le_bytes.
  rewrite take_app_length' by done. rewrite (drop_app_ge pay) by lia. rewrite Hpay, drop_replicate.
  replace (n + 8 - n)%nat with 8%nat by lia.
  set (zs := replicate _ 0).
  assert (Hzs : (4 ≤ length zs)%nat) by (unfold zs; rewrite length_replicate; lia).
  set (le := to_le_bytes 8 (Z.of_nat n)).
  assert (Hm : length (pay ++ le) = (n + 8)%nat) by (unfold le; by rewrite length_app, length_to_le_bytes, Hpay).
  replace (Z.of_nat n + 8) with (Z.of_nat (n + 8)) by lia.
  replace (Z.of_nat n + 12) with (Z.of_nat (n + 12)) by lia.
  rewrite app_assoc, write_at_run by (rewrite length_app, Hm; cbn [octets length]; lia).
  rewrite bind_Ret, take_app_length', app_assoc by done.
  assert (Hl : length ((pay ++ le) ++ octets ip) = (n + 12)%nat) by (rewrite length_app, Hm; cbn [octets length]; lia).
  rewrite slice_to_run by (rewrite length_app, Hl; lia).
  rewrite take_app_length' by done. by rewrite <- app_assoc.
Qed.
End Facts.

Lemma lxor_bound w a b : 0 ≤ w → in_u w a → in_u w b → in_u w (Z.lxor a b).
Proof.
  intros Hw [Ha1 Ha2] [Hb1 Hb2]. assert (Hnn : 0 ≤ Z.lxor a b) by (apply Z.lxor_nonneg; tauto).
  split; [done|]. destruct (decide (Z.lxor a b = 0)) as [->|Hne]; [lia|].
  apply Z.log2_lt_pow2; [lia|]. pose proof (Z.log2_lxor a b Ha1 Hb1) as Hlog.
  destruct (decide (Z.max (Z.log2 a) (Z.log2 b) = 0)) as [Hz|Hz].
  - rewrite Hz in Hlog. destruct (decide (w = 0)) as [->|]; [|lia].
    assert (a = 0 ∧ b = 0) as [-> ->] by lia. done.
  - eapply Z.le_lt_trans; [exact Hlog|]. apply Z.max_case_strong; intros Hmax.
    + apply Z.log2_lt_pow2; [|done]. destruct (decide (a = 0)) as [->|]; [cbn in *; lia|lia].
    + apply Z.log2_lt_pow2; [|done]. destruct (decide (b = 0)) as [->|]; [cbn in *; lia|lia].
Qed.

Lemma nth_u8 s i : Forall u8_ok s → u8_ok (nth i s 0).
Proof.
  intros Hs. revert i. induction Hs as [|b s Hb _ IH]; intros [|i]; simpl; try done; unfold u8_ok, in_u; lia.
Qed.

Lemma xor_group_u8 s i : Forall u8_ok s → u8_ok (xor_group s i).
Proof. intros Hs. unfold xor_group, u8_ok. repeat apply lxor_bound; try lia; by apply nth_u8. Qed.

(** The key determines, and is determined by, the eight groups. *)
Lemma u64_key_groups s1 s2 :
  Forall u8_ok s1 → Forall u8_ok s2 →
  u64_key s1 = u64_key s2 ↔ ∀ i, (i < 8)%nat → xor_group s1 i = xor_group s2 i.
Proof.
  intros H1 H2. split.
  - intros Heq%from_le_bytes_inj; [|done|repeat constructor; by apply xor_group_u8..].
    injection Heq as ????????. intros i Hi. do 8 (destruct i as [|i]; [done|]). lia.
  - intros Hg. unfold u64_key. by rewrite !Hg by lia.
Qed.

(** A value of one byte is determined by its xor with others. *)
Lemma lxor_inj_r a b c : Z.lxor a b = Z.lxor a c ↔ b = c.
Proof.
  split; [|by intros ->]. intros Heq. apply (f_equal (Z.lxor a)) in Heq.
  by rewrite <- !Z.lxor_assoc, !Z.lxor_nilpotent, !Z.lxor_0_l in Heq.
Qed.
Lemma lxor_inj_l a b c : Z.lxor b a = Z.lxor c a ↔ b = c.
Proof. rewrite (Z.lxor_comm b), (Z.lxor_comm c). apply lxor_inj_r. Qed.

Lemma nth_insert (s : list Z) (j k : nat) b :
  (j < length s)%nat → nth k (<[j := b]> s) 0 = if decide (k = j) then b else nth k s 0.
Proof.
  intros Hj. rewrite !nth_lookup. case_decide as Hk.
  - subst k. by rewrite list_lookup_insert_eq.
  - by rewrite list_lookup_insert_ne.
Qed.

(** Changing one byte of a group changes its xor. *)
Lemma xor_group_insert s (i j : nat) b :
  (j < 8)%nat → (8 * i + j < length s)%nat →
  xor_group (<[8 * i + j := b]> s)%nat i = xor_group s i → b = nth (8 * i + j) s 0.
Proof.
  intros Hj Hlen. unfold xor_group. rewrite !nth_insert by done.
  do 8 (destruct j as [|j];
    [repeat (destruct (decide _) as [Hd|Hd]; [first [lia|clear Hd]|first [lia|clear Hd]]);
     by rewrite ?lxor_inj_l, ?lxor_inj_r|]).
  lia.
Qed.

Definition payload (p : Packet) : list Z := take (Z.to_nat (pkt_size (pkt_meta p))) (pkt_buffer p).

Lemma octets_inj ip1 ip2 : octets ip1 = octets ip2 → ip1 = ip2.
Proof. destruct ip1, ip2. by intros [= -> -> -> ->]. Qed.

(** ** Properties *)
Section Props.
Context `{PacketOps} `{HashOps}.

(** C28. The hash that identifies a packet is computed without a panic or an access
    out of range from bytes that two packets share exactly when they have the same
    payload and come from the same address: the port, the flags and what the buffer
    holds behind the payload do not count. *)
Theorem packet_hash_identity hasher p1 p2 ip1 ip2 :
  packet_ok p1 → packet_ok p2 →
  pkt_size (pkt_meta p1) ≤ Z.of_nat PACKET_DATA_SIZE → pkt_size (pkt_meta p2) ≤ Z.of_nat PACKET_DATA_SIZE →
  pkt_addr (pkt_meta p1) = V4 ip1 → pkt_addr (pkt_meta p2) = V4 ip2 →
  ∃ b1 b2, packet_hash hasher p1 = Ret (hash hasher b1) ∧ packet_hash hasher p2 = Ret (hash hasher b2) ∧
    packet_preimage p1 = Ret b1 ∧ packet_preimage p2 = Ret b2 ∧
    (b1 = b2 ↔ payload p1 = payload p2 ∧ ip1 = ip2).
Proof.
  intros Hok1 Hok2 Hs1 Hs2 Ha1 Ha2. destruct (ok_size _ Hok1) as [Hp1 _], (ok_size _ Hok2) as [Hp2 _].
  unfold packet_hash, payload.
  pose proof (packet_preimage_run p1 ip1 (Z.to_nat (pkt_size (pkt_meta p1))) Hok1 ltac:(lia) ltac:(lia) Ha1) as ->.
  pose proof (packet_preimage_run p2 ip2 (Z.to_nat (pkt_size (pkt_meta p2))) Hok2 ltac:(lia) ltac:(lia) Ha2) as ->.
  do 2 eexists. split_and!; [done..|].
  pose proof (ok_buffer_len _ Hok1). pose proof (ok_buffer_len _ Hok2). split.
  - intros Heq. pose proof (f_equal length Heq) as Hlen.
    rewrite !length_app, !length_take, !length_to_le_bytes in Hlen. cbn [octets length] in Hlen.
    apply app_inj_1 in Heq as [Hpay Hrest]; [|rewrite !length_take; lia].
    apply app_inj_1 in Hrest as [_ Hip]; [|by rewrite !length_to_le_bytes].
    split; [done|by apply octets_inj].
  - intros [Hpay ->]. pose proof (f_equal length Hpay) as Hlen. rewrite !length_take in Hlen.
    rewrite Hpay. by replace (pkt_size (pkt_meta p1)) with (pkt_size (pkt_meta p2)) by lia.
Qed.

(** Both checks the callers make before hashing are needed: a size beyond the
    buffer is an access out of range, and an IPv6 source a panic. *)
Theorem packet_hash_guards hasher p :
  packet_ok p →
  (Z.of_nat PACKET_DATA_SIZE < pkt_size (pkt_meta p) → packet_hash hasher p = UB) ∧
  (pkt_size (pkt_meta p) ≤ Z.of_nat PACKET_DATA_SIZE → ∀ o, pkt_addr (pkt_meta p) = V6 o →
   packet_hash hasher p = Panic).
Proof.
  intros Hok. pose proof (ok_buffer_len _ Hok) as Hlen. destruct (ok_size _ Hok) as [Hpos _].
  unfold packet_hash, packet_preimage. split.
  - intros Hs. destruct (slice_to (replicate _ _) _) eqn:E; unfold slice_to in E; case_decide; simplify_eq;
      rewrite ?bind_Ret; [|done]. unfold slice_to. by rewrite decide_False by lia.
  - intros Hs o Ho. rewrite <- (Z2Nat.id (pkt_size (pkt_meta p))) by done.
    rewrite (slice_to_run (replicate _ _)), bind_Ret by (rewrite length_replicate; lia).
    rewrite slice_to_run, bind_Ret by lia. rewrite (write_at_run _ 0), bind_Ret by
      (rewrite length_take, length_replicate; lia).
    unfold write_packet_meta_bytes. by rewrite Ho.
Qed.
End Props.

(** The key of a signature is a [u64] whose bytes are the xors of the eight
    groups of eight bytes: two signatures share a key exactly when all their groups
    have the same xor, and signatures that differ in one byte never do. *)
Theorem u64_key_collisions s1 s2 :
  sig_ok s1 → sig_ok s2 →
  u64_ok (u64_key s1) ∧ to_le_bytes 8 (u64_key s1) = xor_group s1 <$> seq 0 8 ∧
  (u64_key s1 = u64_key s2 ↔ ∀ i, (i < 8)%nat → xor_group s1 i = xor_group s2 i) ∧
  (∀ (j : nat) b, (j < 64)%nat → u8_ok b → b ≠ nth j s1 0 → u64_key (<[j := b]> s1) ≠ u64_key s1).
Proof.
  intros [Hl1 H1] [Hl2 H2].
  assert (Hg : Forall u8_ok (xor_group s1 <$> seq 0 8)) by (apply Forall_fmap, Forall_true; intros; by apply xor_group_u8).
  split_and!.
  - apply (from_le_bytes_bound _ Hg).
  - apply (to_from_le_bytes _ Hg).
  - by apply u64_key_groups.
  - intros j b Hj Hb Hne Heq. apply Hne. pose proof (Nat.div_mod_eq j 8) as Hj8.
    pose proof (Nat.mod_upper_bound j 8 ltac:(lia)). rewrite Hj8.
    apply xor_group_insert; [done|lia|]. rewrite <- Hj8.
    apply u64_key_groups; [by apply Forall_insert|done|done|].
    apply Nat.Div0.div_lt_upper_bound. lia.
Qed.

(** The metadata the scheduler sends back survives the channel: whatever the
    padding bytes hold, the bytes of a record have its fixed size and read back as
    the record. *)
Theorem remaining_meta_round_trip {A} `{Pod A} (m : QoSRemainingMeta A) pad :
  u64_ok (rm_packet_hash m) → u64_ok (rm_execution_nanos m) → (remaining_meta_pad (A := A) ≤ length pad)%nat →
  length (as_bytes m pad) = remaining_meta_size (A := A) ∧ from_bytes_unchecked (as_bytes m pad) = Ret m.
Proof.
  intros Hh Hn Hpad.
  assert (Hsz : (16 + pod_size ≤ remaining_meta_size (A := A))%nat) by
    (unfold remaining_meta_size; pose proof (Nat.div_mod_eq (16 + pod_size + 7) 8);
     pose proof (Nat.mod_upper_bound (16 + pod_size + 7) 8 ltac:(lia)); lia).
  assert (Hlen : length (as_bytes m pad) = remaining_meta_size (A := A)).
  { unfold as_bytes. rewrite !length_app, !length_to_le_bytes, pod_bytes_len, length_take.
    unfold remaining_meta_pad in *. lia. }
  split; [done|]. unfold from_bytes_unchecked. rewrite decide_True by lia. unfold as_bytes.
  rewrite (take_app_length' (to_le_bytes 8 (rm_packet_hash m))) by by rewrite length_to_le_bytes.
  rewrite (drop_app_length' (to_le_bytes 8 (rm_packet_hash m))) by by rewrite length_to_le_bytes.
  rewrite (take_app_length' (to_le_bytes 8 (rm_execution_nanos m))) by by rewrite length_to_le_bytes.
  rewrite app_assoc, (drop_app_length' (to_le_bytes _ _ ++ to_le_bytes _ _)) by
    by rewrite length_app, !length_to_le_bytes.
  rewrite (take_app_length' (pod_bytes _)) by by rewrite pod_bytes_len.
  rewrite !from_to_le_bytes, pod_round, !Z.mod_small by done. by destruct m.
Qed.

(** ** A concrete layout: the buffer, then the fields of the metadata, then padding *)
Definition addr_bytes (a : IpAddr) : list Z :=
  match a with V4 ip => 0 :: octets ip ++ replicate 12 0 | V6 o => 1 :: o end.
Definition addr_of_bytes (l : list Z) : option IpAddr :=
  match l with
  | 0 :: a :: b :: c :: d :: _ => Some (V4 (mkIpv4 a b c d))
  | 1 :: o => Some (V6 o)
  | _ => None
  end.
Definition layout (fields : list Z * list Z * list Z * list Z * list Z) : list Z :=
  let '(buf, size, addr, port, rest) := fields in buf ++ size ++ addr ++ port ++ rest.
Definition unlayout (n : nat) (l : list Z) : list Z * list Z * list Z * list Z * list Z :=
  let r1 := drop n l in let r2 := drop 8 r1 in let r3 := drop 17 r2 in
  (take n l, take 8 r1, take 17 r2, take 2 r3, drop 2 r3).

Lemma unlayout_layout n buf size addr port rest :
  length buf = n → length size = 8%nat → length addr = 17%nat → length port = 2%nat →
  unlayout n (layout (buf, size, addr, port, rest)) = (buf, size, addr, port, rest).
Proof.
  intros H1 H2 H3 H4. unfold unlayout, layout. cbv zeta.
  by rewrite !(take_app_length' buf), !(drop_app_length' buf), !(take_app_length' size), !(drop_app_length' size),
    !(take_app_length' addr), !(drop_app_length' addr), !(take_app_length' port), !(drop_app_length' port) by done.
Qed.

Lemma addr_bytes_round a : addr_ok a → addr_of_bytes (addr_bytes a) = Some a ∧ length (addr_bytes a) = 17%nat.
Proof. destruct a as [[]|o]; simpl; [done|]. intros [-> _]. done. Qed.

#[local] Instance ref_packet : PacketOps := {|
  PACKET_DATA_SIZE := 1232;
  packet_data p :=
    if Z.testbit (pkt_flags (pkt_meta p)) 0 then None
    else if decide (pkt_size (pkt_meta p) ≤ 1232) then Some (payload p) else None;
  bytes_of_packet p :=
    layout (pkt_buffer p, to_le_bytes 8 (pkt_size (pkt_meta p)), addr_bytes (pkt_addr (pkt_meta p)),
            to_le_bytes 2 (pkt_port (pkt_meta p)), [pkt_flags (pkt_meta p); 0; 0; 0; 0]);
  packet_of_bytes l :=
    let '(buf, size, addr, port, rest) := unlayout 1232 l in
    a ← addr_of_bytes addr;
    Some (mkPacket buf (mkPacketMeta (from_le_bytes size) a (from_le_bytes port) (nth 0 rest 0)));
|}.

#[local] Instance ref_packet_laws : PacketLaws.
Proof.
  split; intros p Hp; destruct (addr_bytes_round _ (ok_addr _ Hp)) as [Ha Hal]; pose proof (ok_buffer_len _ Hp) as Hb.
  - cbn [bytes_of_packet ref_packet layout]. rewrite !length_app, Hal, Hb. reflexivity.
  - cbn [packet_of_bytes bytes_of_packet ref_packet].
    rewrite unlayout_layout, Ha by (done || by rewrite length_to_le_bytes).
    rewrite !from_to_le_bytes, !Z.mod_small by apply Hp. by destruct p as [? []].
Qed.

#[local] Instance ref_hash : HashOps := {|
  const_custom_default_secret seed := to_le_bytes 192 seed;
  xxh3_64_with_secret input secret := wrap 64 (from_le_bytes (input ++ secret));
|}.

#[global] Instance pod_unit : Pod () := {|
  pod_size := 0; pod_bytes _ := []; pod_of_bytes _ := (); pod_bytes_len _ := eq_refl;
  pod_round u := match u with () => eq_refl end |}.

Section Witnesses.
Definition sample_meta (size : Z) (a : IpAddr) (port : Z) : Meta := mkPacketMeta size a port 0.
Definition sample_packet (size : Z) (a : IpAddr) (port : Z) : Packet :=
  mkPacket (replicate 1232 7) (sample_meta size a port).
Definition home : Ipv4Addr := mkIpv4 127 0 0 1.

Lemma sample_packet_ok size a port :
  u64_ok size → addr_ok a → in_u 16 port → packet_ok (sample_packet size a port).
Proof.
  intros ???. split; try done. apply Forall_replicate. unfold u8_ok, in_u. lia.
Qed.
Lemma home_ok : addr_ok (V4 home).
Proof. repeat constructor; simpl; lia. Qed.

(** The same payload from the same address through two ports. *)
Lemma packet_hash_identity_witness :
  ∃ b, packet_preimage (sample_packet 3 (V4 home) 80) = Ret b ∧
       packet_preimage (sample_packet 3 (V4 home) 81) = Ret b.
Proof.
  destruct (packet_hash_identity (initialize_with_seed 1)
    (sample_packet 3 (V4 home) 80) (sample_packet 3 (V4 home) 81) home home) as (b1 & b2 & _ & _ & E1 & E2 & Heq);
    try (apply sample_packet_ok; [unfold u64_ok, in_u; lia|apply home_ok|unfold in_u; lia]);
    try (apply Z.leb_le; reflexivity); try reflexivity.
  exists b1. split; [exact E1|]. destruct Heq as [_ ->]; [exact E2|]. split; reflexivity.
Defined.

Lemma packet_hash_guards_witness :
  packet_hash (initialize_with_seed 1) (sample_packet 2000 (V4 home) 80) = UB ∧
  packet_hash (initialize_with_seed 1) (sample_packet 3 (V6 (replicate 16 0)) 80) = Panic.
Proof.
  split.
  - apply (packet_hash_guards (initialize_with_seed 1) (sample_packet 2000 (V4 home) 80));
      [apply sample_packet_ok; [unfold u64_ok, in_u; lia|apply home_ok|unfold in_u; lia]|apply Z.ltb_lt; reflexivity].
  - apply (packet_hash_guards (initialize_with_seed 1) (sample_packet 3 (V6 (replicate 16 0)) 80) ) with (o := replicate 16 0);
      [apply sample_packet_ok; [unfold u64_ok, in_u; lia| |unfold in_u; lia]|apply Z.leb_le; reflexivity|reflexivity].
    split; [reflexivity|]. apply Forall_replicate. unfold u8_ok, in_u. lia.
Defined.

(** Signatures that differ in the order of two bytes of a group share a key. *)
Lemma u64_key_collisions_witness :
  u64_key (1 :: 2 :: replicate 62 0) = u64_key (2 :: 1 :: replicate 62 0).
Proof.
  apply (u64_key_collisions (1 :: 2 :: replicate 62 0) (2 :: 1 :: replicate 62 0)).
  - split; [reflexivity|]. repeat constructor; unfold u8_ok, in_u; lia.
  - split; [reflexivity|]. repeat constructor; unfold u8_ok, in_u; lia.
  - intros i Hi. do 8 (destruct i as [|i]; [reflexivity|]). exfalso. lia.
Defined.

Lemma remaining_meta_round_trip_witness :
  from_bytes_unchecked (as_bytes (mkRemainingMeta 3 123 ()) []) = Ret (mkRemainingMeta 3 123 ()).
Proof.
  apply (remaining_meta_round_trip (mkRemainingMeta 3 123 ()) []); simpl; unfold u64_ok, in_u; try lia.
  vm_compute. lia.
Defined.
End Witnesses.
