(* ===== verification/Stats.v ===== *)
(** The counters of the service and the block of shared memory through which the
    monitor reads and resets them ([common/src/shared_stats.rs]).

    The memory is guarded by a spin lock.  Processes are sequences of atomic steps
    on it, one per compare-and-swap and one per counter copied, interleaved freely;
    the memory is sequentially consistent, as locked instructions make it on x86.
    The theorems show that the operations are linearizable nevertheless. *)
From Stdlib Require Import ZArith Lia.
From stdpp Require Import gmap list.
From S2P Require Import Prelude.
Local Open Scope Z_scope.

(** ** Counters *)
Record Stats : Type := mkStats {
  total_packets : Z;
  non_ipv4 : Z;
  non_transaction_packet : Z;
  recently_processed : Z;
  recently_processed_queued : Z;
  recent_signatures_received : Z;
  invalid_meta_size : Z;
  failed_sanitize : Z;
  failed_view : Z;
  invalid_packet_data : Z;
  leaked_priority : Z;
  duplicate_packets : Z;
  banking_transmissions : Z;
  zero_score : Z;
  completed : Z;
}.

(** The names of the counters, in the order of the fields. *)
Inductive counter : Type :=
| TotalPackets | NonIpv4 | NonTransactionPacket | RecentlyProcessed | RecentlyProcessedQueued
| RecentSignaturesReceived | InvalidMetaSize | FailedSanitize | FailedView | InvalidPacketData
| LeakedPriority | DuplicatePackets | BankingTransmissions | ZeroScore | Completed.
#[global] Instance counter_eq_dec : EqDecision counter.
Proof. solve_decision. Defined.

Definition stat (c : counter) (s : Stats) : Z :=
  match c with
  | TotalPackets => total_packets s | NonIpv4 => non_ipv4 s
  | NonTransactionPacket => non_transaction_packet s | RecentlyProcessed => recently_processed s
  | RecentlyProcessedQueued => recently_processed_queued s
  | RecentSignaturesReceived => recent_signatures_received s
  | InvalidMetaSize => invalid_meta_size s | FailedSanitize => failed_sanitize s
  | FailedView => failed_view s | InvalidPacketData => invalid_packet_data s
  | LeakedPriority => leaked_priority s | DuplicatePackets => duplicate_packets s
  | BankingTransmissions => banking_transmissions s | ZeroScore => zero_score s
  | Completed => completed s
  end.

Definition stats_of (f : counter → Z) : Stats :=
  mkStats (f TotalPackets) (f NonIpv4) (f NonTransactionPacket) (f RecentlyProcessed)
    (f RecentlyProcessedQueued) (f RecentSignaturesReceived) (f InvalidMetaSize) (f FailedSanitize)
    (f FailedView) (f InvalidPacketData) (f LeakedPriority) (f DuplicatePackets)
    (f BankingTransmissions) (f ZeroScore) (f Completed).

Definition stats_new : Stats := stats_of (λ _, 0).

(** Assignment to a counter, and [stats.c += n] on a [usize]. *)
Definition stat_set (c : counter) (v : Z) (s : Stats) : Stats :=
  stats_of (λ c', if decide (c' = c) then v else stat c' s).
Definition stat_add (c : counter) (n : Z) (s : Stats) : Stats :=
  stat_set c (u64_add (stat c s) n) s.
Definition stat_incr (c : counter) : Stats → Stats := stat_add c 1.

Lemma stat_of f c : stat c (stats_of f) = f c.
Proof. by destruct c. Qed.
Lemma stats_ext s1 s2 : (∀ c, stat c s1 = stat c s2) → s1 = s2.
Proof.
  intros Hc. destruct s1, s2.
  f_equal; [apply (Hc TotalPackets)|apply (Hc NonIpv4)|apply (Hc NonTransactionPacket)
    |apply (Hc RecentlyProcessed)|apply (Hc RecentlyProcessedQueued)
    |apply (Hc RecentSignaturesReceived)|apply (Hc InvalidMetaSize)|apply (Hc FailedSanitize)
    |apply (Hc FailedView)|apply (Hc InvalidPacketData)|apply (Hc LeakedPriority)
    |apply (Hc DuplicatePackets)|apply (Hc BankingTransmissions)|apply (Hc ZeroScore)|apply (Hc Completed)].
Qed.
Lemma stat_set_get c c' v s : stat c' (stat_set c v s) = if decide (c' = c) then v else stat c' s.
Proof. apply stat_of. Qed.
Lemma stat_add_get c c' n s :
  stat c' (stat_add c n s) = if decide (c' = c) then u64_add (stat c s) n else stat c' s.
Proof. apply stat_of. Qed.
Lemma stat_new_get c : stat c stats_new = 0.
Proof. apply (stat_of (λ _, 0)). Qed.

(** Every counter is a [usize]. *)
Definition stats_ok (s : Stats) : Prop := ∀ c, u64_ok (stat c s).
Lemma stats_ok_new : stats_ok stats_new.
Proof. intros c. rewrite stat_new_get. unfold u64_ok, in_u. lia. Qed.
Lemma stats_ok_add c n s : stats_ok s → stats_ok (stat_add c n s).
Proof. intros Hs c'. rewrite stat_add_get. case_decide; [by apply wrap_in_u|apply Hs]. Qed.
Lemma u64_add_0 x : u64_ok x → u64_add x 0 = x.
Proof. intros Hx. unfold u64_add. rewrite Z.add_0_r. by apply wrap_id. Qed.

Definition all_counters : list counter :=
  [TotalPackets; NonIpv4; NonTransactionPacket; RecentlyProcessed; RecentlyProcessedQueued;
   RecentSignaturesReceived; InvalidMetaSize; FailedSanitize; FailedView; InvalidPacketData;
   LeakedPriority; DuplicatePackets; BankingTransmissions; ZeroScore; Completed].
Lemma elem_of_all_counters c : c ∈ all_counters.
Proof. destruct c; unfold all_counters; set_solver. Qed.

(** The demo engine's counters. *)
Record EngineStats : Type := mkEngineStats {
  tpu_sends : Z; fwd_sends : Z; sigverify_recvs : Z; sigverify_sends : Z; scheduler_sends : Z }.
Definition engine_stats_load (s : EngineStats) : list Z :=
  [tpu_sends s; fwd_sends s; sigverify_recvs s; sigverify_sends s; scheduler_sends s].

(** ** The shared memory *)
Record SharedStats : Type := mkShared { lock : Z; shared_stats : Stats; should_reset : Z }.
Definition set_lock (m : SharedStats) l := mkShared l (shared_stats m) (should_reset m).
Definition set_stats (m : SharedStats) s := mkShared (lock m) s (should_reset m).
Definition set_reset (m : SharedStats) r := mkShared (lock m) (shared_stats m) r.

(** [compare_exchange] on the lock: the new memory if the lock held [old]. *)
Definition lock_cas (old new : Z) (m : SharedStats) : option SharedStats :=
  if decide (lock m = old) then Some (set_lock m new) else None.

(** The operations and their results. *)
Inductive shared_op : Type := OpReset | OpRead | OpUpdate (s : Stats).
Inductive shared_res : Type := ResUnit | ResStats (s : Stats) | ResBool (b : bool).

(** Where a process is: outside, in the loop of [Lock::take], somewhere in the
    critical section (in front of an access to the flag, or in the middle of copying
    the counters, with those still to be copied), or in the loop of
    [Lock::release]. *)
Inductive pc : Type :=
| Outside
| Taking (o : shared_op)
| ResetFlag
| Storing (o : shared_op) (src : Stats) (sr : Z) (rest : list counter)
| Loading (acc : Stats) (rest : list counter)
| UpdateFlag (s : Stats)
| UpdateClear (s : Stats) (sr : Z)
| Releasing (o : shared_op) (r : shared_res).

Definition enter (o : shared_op) : pc :=
  match o with
  | OpReset => ResetFlag
  | OpRead => Loading stats_new all_counters
  | OpUpdate s => UpdateFlag s
  end.

(** One atomic step of a process; the last component is the operation it completes. *)
Definition proc_step (m : SharedStats) (p : pc) : option (SharedStats * pc * option (shared_op * shared_res)) :=
  match p with
  | Outside => None
  | Taking o =>
     match lock_cas 0 1 m with Some m => Some (m, enter o, None) | None => Some (m, Taking o, None) end
  | ResetFlag => Some (set_reset m 1, Storing OpReset stats_new 0 all_counters, None)
  | Storing o src sr (c :: rest) =>
     Some (set_stats m (stat_set c (stat c src) (shared_stats m)), Storing o src sr rest, None)
  | Storing OpReset _ _ [] => Some (m, Releasing OpReset ResUnit, None)
  | Storing (OpUpdate s) _ sr [] => Some (m, UpdateClear s sr, None)
  | Storing OpRead _ _ [] => None
  | Loading acc (c :: rest) => Some (m, Loading (stat_set c (stat c (shared_stats m)) acc) rest, None)
  | Loading acc [] => Some (m, Releasing OpRead (ResStats acc), None)
  | UpdateFlag s =>
     let sr := should_reset m in
     if decide (sr = 0) then Some (m, Storing (OpUpdate s) s sr all_counters, None)
     else Some (m, UpdateClear s sr, None)
  | UpdateClear s sr => Some (set_reset m 0, Releasing (OpUpdate s) (ResBool (bool_decide (sr ≠ 0))), None)
  | Releasing o r =>
     match lock_cas 1 0 m with
     | Some m => Some (m, Outside, Some (o, r))
     | None => Some (m, Releasing o r, None)
     end
  end.

(** The system: the memory, the processes and the completed operations, in order. *)
Record system : Type := mkSystem { mem : SharedStats; procs : nat → pc; log : list (shared_op * shared_res) }.

Definition set_proc (p : nat) (x : pc) (ps : nat → pc) : nat → pc := λ q, if decide (q = p) then x else ps q.

Inductive sys_step : system → system → Prop :=
| step_call p o m ps l :
    ps p = Outside → sys_step (mkSystem m ps l) (mkSystem m (set_proc p (Taking o) ps) l)
| step_proc p m ps l m' x e :
    proc_step m (ps p) = Some (m', x, e) →
    sys_step (mkSystem m ps l) (mkSystem m' (set_proc p x ps) (l ++ option_list e)).

(** Zeroed shared memory, and every process outside. *)
Definition sys_init : system := mkSystem (mkShared 0 stats_new 0) (λ _, Outside) [].
Definition sys_reachable : system → Prop := rtc sys_step sys_init.

(** ** The specification: every operation happens at once. *)
Definition abs_state : Type := Stats * Z.
Definition spec_op (a : abs_state) (o : shared_op) : abs_state * shared_res :=
  match o with
  | OpReset => ((stats_new, 1), ResUnit)
  | OpRead => (a, ResStats a.1)
  | OpUpdate s => ((if decide (a.2 = 0) then s else a.1, 0), ResBool (bool_decide (a.2 ≠ 0)))
  end.

(** Running the operations of a log one after the other gives the recorded results. *)
Inductive replay (a : abs_state) : list (shared_op * shared_res) → abs_state → Prop :=
| replay_nil : replay a [] a
| replay_snoc l a1 o : replay a l a1 → replay a (l ++ [(o, (spec_op a1 o).2)]) (spec_op a1 o).1.
Definition abs_init : abs_state := (stats_new, 0).

(** ** The invariant *)
Definition outside (p : pc) : Prop := match p with Outside | Taking _ => True | _ => False end.

(** The counters of [s] outside [rest] are those of [src]. *)
Definition copied (src s : Stats) (rest : list counter) : Prop := ∀ c, c ∉ rest → stat c s = stat c src.

Definition view (m : SharedStats) : abs_state := (shared_stats m, should_reset m).

(** What is true of the memory [m] when the process in the critical section is at a
    given point and entered it in the abstract state [a]. *)
Definition critical (a : abs_state) (m : SharedStats) (p : pc) : Prop :=
  match p with
  | Outside | Taking _ => False
  | ResetFlag | UpdateFlag _ => view m = a
  | Storing OpReset src _ rest => src = stats_new ∧ should_reset m = 1 ∧ copied src (shared_stats m) rest
  | Storing (OpUpdate s) src sr rest =>
     src = s ∧ sr = 0 ∧ a.2 = 0 ∧ should_reset m = 0 ∧ copied src (shared_stats m) rest
  | Storing OpRead _ _ _ => False
  | Loading acc rest => view m = a ∧ copied a.1 acc rest
  | UpdateClear s sr => sr = a.2 ∧ shared_stats m = (if decide (a.2 = 0) then s else a.1)
  | Releasing o r => view m = (spec_op a o).1 ∧ r = (spec_op a o).2
  end.

Lemma copied_nil src s : copied src s [] → s = src.
Proof. intros Hc. apply stats_ext. intros c. apply Hc, not_elem_of_nil. Qed.
Lemma copied_all src s : copied src s all_counters.
Proof. intros c Hc. destruct Hc. apply elem_of_all_counters. Qed.
Lemma copied_cons src s c rest : copied src s (c :: rest) → copied src (stat_set c (stat c src) s) rest.
Proof.
  intros Hc c' Hc'. rewrite stat_set_get. case_decide as Hd; [by subst|]. apply Hc. set_solver.
Qed.

Lemma critical_enter a m o : view m = a → critical a m (enter o).
Proof. intros Ha. destruct o; simpl; eauto using copied_all. Qed.

Lemma critical_step a m x m' x' e :
  critical a m x → lock m = 1 → proc_step m x = Some (m', x', e) →
  (lock m' = 1 ∧ e = None ∧ critical a m' x') ∨
  (∃ o, lock m' = 0 ∧ x' = Outside ∧ e = Some (o, (spec_op a o).2) ∧ view m' = (spec_op a o).1).
Proof.
  intros Hc Hl Hs. destruct x as [|o| |o src sr rest|acc rest|s|s sr|o r]; simpl in Hs; try done.
  - injection Hs as <- <- <-. left. simpl. auto using copied_all.
  - left. destruct rest as [|c rest], o as [| |s]; simplify_eq; (split; [done|split; [done|]]); simpl in *.
    + destruct Hc as (-> & Hr & Hcp%copied_nil). unfold view. by rewrite Hcp, Hr.
    + destruct Hc as (-> & -> & Ha & Hr & Hcp%copied_nil). by rewrite Ha.
    + destruct Hc as (-> & Hr & Hcp). auto using copied_cons.
    + done.
    + destruct Hc as (-> & -> & Ha & Hr & Hcp). split_and!; auto using copied_cons.
  - left. destruct Hc as [Hv Hcp], rest as [|c rest]; simplify_eq; (split; [done|split; [done|]]); simpl.
    + by apply copied_nil in Hcp as ->.
    + split; [done|]. by apply copied_cons in Hcp.
  - left. simpl in Hc. subst a. case_decide as Hd; simplify_eq; (split; [done|split; [done|]]); simpl.
    + auto using copied_all.
    + by rewrite decide_False.
  - left. simplify_eq. split; [done|split; [done|]]. simpl in *. destruct Hc as [-> Hst].
    unfold view. simpl. by rewrite Hst.
  - right. unfold lock_cas in Hs. rewrite decide_True in Hs by done. simplify_eq.
    destruct Hc as [Hv ->]. exists o. done.
Qed.

Record sys_inv (σ : system) : Prop := {
  inv_state : ∃ a, replay abs_init (log σ) a ∧
    ((lock (mem σ) = 0 ∧ view (mem σ) = a ∧ ∀ p, outside (procs σ p)) ∨
     (lock (mem σ) = 1 ∧ ∃ h, critical a (mem σ) (procs σ h) ∧ ∀ p, p ≠ h → outside (procs σ p)));
}.

Lemma set_proc_eq p x ps : set_proc p x ps p = x.
Proof. unfold set_proc. by rewrite decide_True. Qed.
Lemma set_proc_ne p q x ps : q ≠ p → set_proc p x ps q = ps q.
Proof. intros. unfold set_proc. by rewrite decide_False. Qed.

(** A process outside can only try to take the lock. *)
Lemma outside_step m x m' x' e :
  outside x → proc_step m x = Some (m', x', e) →
  e = None ∧ ∃ o, x = Taking o ∧
    ((lock m = 0 ∧ m' = set_lock m 1 ∧ x' = enter o) ∨ (lock m ≠ 0 ∧ m' = m ∧ x' = Taking o)).
Proof.
  destruct x as [|o| | | | | |]; try done. intros _ Hs. simpl in Hs. unfold lock_cas in Hs.
  case_decide; simplify_eq; eauto 10.
Qed.

Lemma sys_step_inv σ σ' : sys_step σ σ' → sys_inv σ → sys_inv σ'.
Proof.
  intros Hstep [(a & Hl & Hcases)].
  destruct Hstep as [p o m ps l Hp|p m ps l m' x e Hs]; split; simpl in *.
  - exists a. split; [done|]. destruct Hcases as [(H0 & Hv & Ho)|(H1 & h & Hh & Ho)]; [left|right].
    + split_and!; [done..|]. intros q. unfold set_proc. by case_decide.
    + split; [done|]. exists h. rewrite set_proc_ne by (intros ->; by rewrite Hp in Hh).
      split; [done|]. intros q Hq. unfold set_proc. case_decide; [done|by apply Ho].
  - destruct Hcases as [(H0 & Hv & Ho)|(H1 & h & Hh & Ho)].
    + destruct (outside_step _ _ _ _ _ (Ho p) Hs) as (-> & o & Hp & [(_ & -> & ->)|(? & _)]); [|done].
      exists a. rewrite app_nil_r. split; [done|]. right. split; [done|]. exists p. rewrite set_proc_eq.
      split; [by apply critical_enter|]. intros q Hq. rewrite set_proc_ne by done. apply Ho.
    + destruct (decide (p = h)) as [->|Hne].
      * destruct (critical_step _ _ _ _ _ _ Hh H1 Hs) as [(Hl1 & -> & Hc)|(o & Hl0 & -> & -> & Hv)].
        -- exists a. rewrite app_nil_r. split; [done|]. right. split; [done|]. exists h. rewrite set_proc_eq.
           split; [done|]. intros q Hq. rewrite set_proc_ne by done. by apply Ho.
        -- exists (spec_op a o).1. split; [by constructor|]. left. split_and!; [done..|].
           intros q. unfold set_proc. case_decide; [done|by apply Ho].
      * destruct (outside_step _ _ _ _ _ (Ho p Hne) Hs) as (-> & o & Hp & [(? & _)|(_ & -> & ->)]); [lia|].
        exists a. rewrite app_nil_r. split; [done|]. right. split; [done|]. exists h.
        rewrite set_proc_ne by done. split; [done|]. intros q Hq. unfold set_proc. case_decide; [done|by apply Ho].
Qed.

Lemma reachable_inv σ : sys_reachable σ → sys_inv σ.
Proof.
  intros Hr. apply (rtc_ind_r (R := sys_step) sys_inv sys_init); [|by eauto using sys_step_inv|done].
  split. exists abs_init. split; [constructor|]. left. split_and!; done.
Qed.

(** ** Sequential facts *)
Lemma replay_snoc_inv a l o r c :
  replay a (l ++ [(o, r)]) c → ∃ b, replay a l b ∧ r = (spec_op b o).2 ∧ c = (spec_op b o).1.
Proof.
  intros Hr. inversion Hr as [Hnil|l' b o' Hr' Hl]; subst.
  - by destruct l.
  - apply app_inj_tail in Hl as [-> [= -> <-]]. eauto.
Qed.

Lemma replay_app a l1 l2 c : replay a (l1 ++ l2) c → ∃ b, replay a l1 b ∧ replay b l2 c.
Proof.
  revert c. induction l2 as [|[o r] l2 IH] using rev_ind; intros c Hr.
  - rewrite app_nil_r in Hr. eauto using replay_nil.
  - rewrite app_assoc in Hr. apply replay_snoc_inv in Hr as (b & Hr & -> & ->).
    destruct (IH _ Hr) as (b' & ? & ?). eauto using replay_snoc.
Qed.

(** Until the next update the counters stay cleared and the flag stays set. *)
Lemma replay_after_reset l c :
  replay (stats_new, 1) l c → (∀ s r, (OpUpdate s, r) ∉ l) →
  c = (stats_new, 1) ∧ ∀ r, (OpRead, r) ∈ l → r = ResStats stats_new.
Proof.
  revert c. induction l as [|[o r] l IH] using rev_ind; intros c Hr Hu.
  - inversion Hr as [|l' ? ? ? Hl]; subst; [set_solver|by destruct l'].
  - apply replay_snoc_inv in Hr as (b & Hr & -> & ->).
    destruct (IH _ Hr) as [-> Hread]; [set_solver|]. destruct o as [| |s]; simpl.
    + split; [done|]. set_solver.
    + split; [done|]. intros r' [Hin|Hin]%elem_of_app; [by apply Hread|]. by apply list_elem_of_singleton in Hin as [= ->].
    + exfalso. apply (Hu s (ResBool true)). set_solver.
Qed.

(** The steps the process in the critical section has left. *)
Definition steps_left (p : pc) : nat :=
  match p with
  | Outside | Taking _ => 0
  | ResetFlag => 3 + length all_counters
  | Storing OpReset _ _ rest => 2 + length rest
  | Storing _ _ _ rest => 3 + length rest
  | Loading _ rest => 2 + length rest
  | UpdateFlag _ => 4 + length all_counters
  | UpdateClear _ _ => 2
  | Releasing _ _ => 1
  end.

Lemma critical_progress a m x :
  critical a m x → lock m = 1 →
  ∃ m' x' e, proc_step m x = Some (m', x', e) ∧
    ((lock m' = 0 ∧ x' = Outside) ∨ (lock m' = 1 ∧ (steps_left x' < steps_left x)%nat ∧ critical a m' x')).
Proof.
  intros Hc Hl. destruct (proc_step m x) as [[[m' x'] e]|] eqn:Hs.
  - exists m', x', e. split; [done|].
    destruct (critical_step _ _ _ _ _ _ Hc Hl Hs) as [(Hl' & -> & Hc')|(o & Hl' & -> & _)]; [right|by left].
    split_and!; [done| |done]. destruct x as [|o| |o src sr rest|acc rest|s|s sr|o r]; simpl in Hs; try done.
    + simplify_eq. simpl. lia.
    + destruct o as [| |s], rest as [|c rest]; simplify_eq; simpl; lia.
    + destruct rest as [|c rest]; simplify_eq; simpl; lia.
    + case_decide; simplify_eq; simpl; lia.
    + simplify_eq. simpl. lia.
    + unfold lock_cas in Hs. rewrite decide_True in Hs by done. by simplify_eq.
  - exfalso. destruct x as [|o| |o src sr rest|acc rest|s|s sr|o r]; simpl in Hs; try done.
    + destruct o, rest; done.
    + by destruct rest.
    + by case_decide.
    + by destruct (lock_cas 1 0 m).
Qed.

(** ** Schedules *)
(** A schedule says which process acts next: by calling an operation, or by taking its
    next step. *)
Fixpoint sched_run (sched : list (nat * option shared_op)) (σ : system) : option system :=
  match sched with
  | [] => Some σ
  | (p, Some o) :: sched =>
     match procs σ p with
     | Outside => sched_run sched (mkSystem (mem σ) (set_proc p (Taking o) (procs σ)) (log σ))
     | _ => None
     end
  | (p, None) :: sched =>
     match proc_step (mem σ) (procs σ p) with
     | Some (m, x, e) => sched_run sched (mkSystem m (set_proc p x (procs σ)) (log σ ++ option_list e))
     | None => None
     end
  end.

Lemma sched_run_steps sched σ σ' : sched_run sched σ = Some σ' → rtc sys_step σ σ'.
Proof.
  revert σ. induction sched as [|[p [o|]] sched IH]; intros [m ps l] Hr; simpl in Hr.
  - by simplify_eq.
  - destruct (ps p) eqn:Hp; try done. eapply rtc_l; [by apply step_call|by apply IH].
  - destruct (proc_step m (ps p)) as [[[m' x] e]|] eqn:Hp; [|done].
    eapply rtc_l; [by apply step_proc|by apply IH].
Qed.

(** Nobody is ever far from the end of the critical section. *)
Lemma steps_left_step m x m' x' e :
  (steps_left x ≤ 19)%nat → proc_step m x = Some (m', x', e) → (steps_left x' ≤ 19)%nat.
Proof.
  intros Hx Hs. destruct x as [|o| |o src sr rest|acc rest|s|s sr|o r]; simpl in Hs; simpl in Hx; try done.
  - unfold lock_cas in Hs. case_decide; simplify_eq; [|simpl; lia]. destruct o; simpl; lia.
  - simplify_eq. simpl. lia.
  - destruct o as [| |s], rest as [|c rest]; simplify_eq; simpl in *; lia.
  - destruct rest as [|c rest]; simplify_eq; simpl in *; lia.
  - case_decide; simplify_eq; simpl; lia.
  - simplify_eq. simpl. lia.
  - destruct (lock_cas 1 0 m); simplify_eq; simpl; lia.
Qed.
Lemma steps_left_reachable σ p : sys_reachable σ → (steps_left (procs σ p) ≤ 19)%nat.
Proof.
  intros Hr. revert p. apply (rtc_ind_r (R := sys_step) (λ σ, ∀ p, (steps_left (procs σ p) ≤ 19)%nat) sys_init); [intros p; simpl; lia| |done].
  clear σ Hr. intros σ1 σ _ Hstep IH q. destruct Hstep as [p o m ps l Hp|p m ps l m' x e Hs]; simpl in *;
    unfold set_proc; (case_decide; [|apply IH]); [simpl; lia|]. by eapply steps_left_step.
Qed.

(** Process [h] is in the critical section and the others are outside. *)
Definition holds (h : nat) (σ : system) : Prop :=
  lock (mem σ) = 1 ∧ (∃ a, critical a (mem σ) (procs σ h)) ∧ ∀ p, p ≠ h → outside (procs σ p).

Lemma holds_steps_left h σ : holds h σ → (0 < steps_left (procs σ h))%nat.
Proof. intros (_ & [a Hc] & _). destruct (procs σ h) as [|o| |[] src sr rest|acc rest|s|s sr|o r]; simpl in *; done || lia. Qed.

(** A step of the holder brings it nearer to the release; one of another process does not
    matter to it. *)
Lemma holder_step h σ :
  holds h σ → ∃ m x e, proc_step (mem σ) (procs σ h) = Some (m, x, e) ∧
    let σ' := mkSystem m (set_proc h x (procs σ)) (log σ ++ option_list e) in
    (lock m = 0 ∧ x = Outside) ∨ (holds h σ' ∧ (steps_left x < steps_left (procs σ h))%nat).
Proof.
  intros (H1 & [a Hc] & Ho). destruct (critical_progress _ _ _ Hc H1) as (m & x & e & Hs & Hcases).
  exists m, x, e. split; [done|]. destruct Hcases as [|(H1' & Hlt & Hc')]; [by left|right]. split; [|done].
  split; [done|]. simpl. rewrite set_proc_eq. split; [by exists a|]. intros p Hp. rewrite set_proc_ne by done. by apply Ho.
Qed.
Lemma other_step h p σ m x e :
  holds h σ → p ≠ h → proc_step (mem σ) (procs σ p) = Some (m, x, e) →
  holds h (mkSystem m (set_proc p x (procs σ)) (log σ ++ option_list e)).
Proof.
  intros (H1 & Hc & Ho) Hp Hs. destruct (outside_step _ _ _ _ _ (Ho p Hp) Hs) as (-> & o & Ep & [(? & _)|(_ & -> & ->)]); [lia|].
  split; [done|]. simpl. rewrite set_proc_ne by done. split; [done|]. intros q Hq. unfold set_proc. case_decide; [done|by apply Ho].
Qed.
Lemma other_call h p o σ :
  holds h σ → p ≠ h → holds h (mkSystem (mem σ) (set_proc p (Taking o) (procs σ)) (log σ)).
Proof.
  intros (H1 & Hc & Ho) Hp. split; [done|]. simpl. rewrite set_proc_ne by done. split; [done|].
  intros q Hq. unfold set_proc. case_decide; [done|by apply Ho].
Qed.

(** Alone, the holder releases the lock. *)
Lemma holder_alone h σ :
  holds h σ → ∃ k σ', (k ≤ steps_left (procs σ h))%nat ∧ sched_run (replicate k (h, None)) σ = Some σ' ∧
    lock (mem σ') = 0 ∧ procs σ' h = Outside.
Proof.
  remember (steps_left (procs σ h)) as n eqn:Hn. revert σ Hn. induction n as [n IH] using lt_wf_ind; intros σ -> Hh.
  pose proof (holds_steps_left _ _ Hh) as Hpos. destruct (holder_step h σ Hh) as (m & x & e & Hs & [[H0 ->]|[Hh' Hlt]]).
  - exists 1%nat. eexists. split; [lia|]. cbn [replicate sched_run]. rewrite Hs. split; [done|]. simpl. by rewrite set_proc_eq.
  - set (σ1 := mkSystem _ _ _) in Hh'. assert (E1 : procs σ1 h = x) by apply set_proc_eq.
    destruct (IH (steps_left x) Hlt σ1) as (k & σ' & Hk & Hr & H0); [by rewrite E1|done|].
    exists (S k), σ'. split; [lia|]. cbn [replicate sched_run]. rewrite Hs. done.
Qed.

(** Under any schedule the lock has been free once the holder has had its steps. *)
Lemma holder_scheduled h sched σ σ' :
  holds h σ → sched_run sched σ = Some σ' →
  (steps_left (procs σ h) ≤ length (filter (λ e : nat * option shared_op, e.1 = h) sched))%nat →
  ∃ s1 s2 σ1, sched = s1 ++ s2 ∧ sched_run s1 σ = Some σ1 ∧ lock (mem σ1) = 0.
Proof.
  revert σ. induction sched as [|[p o] sched IH]; intros σ Hh Hr Hn.
  { pose proof (holds_steps_left _ _ Hh). simpl in Hn. lia. }
  assert (Hnext : ∀ σ2, sched_run ((p, o) :: sched) σ = sched_run sched σ2 →
    (∀ s, sched_run ((p, o) :: s) σ = sched_run s σ2) → holds h σ2 →
    (steps_left (procs σ2 h) ≤ length (filter (λ e : nat * option shared_op, e.1 = h) sched))%nat →
    ∃ s1 s2 σ1, (p, o) :: sched = s1 ++ s2 ∧ sched_run s1 σ = Some σ1 ∧ lock (mem σ1) = 0).
  { intros σ2 E Es Hh2 Hn2. rewrite E in Hr. destruct (IH σ2 Hh2 Hr Hn2) as (s1 & s2 & σ1 & -> & Hr1 & H0).
    exists ((p, o) :: s1), s2, σ1. split_and!; [done| |done]. by rewrite Es. }
  destruct (decide (p = h)) as [->|Hp].
  - rewrite filter_cons_True in Hn by done. cbn [length] in Hn. destruct o as [o|].
    + cbn [sched_run] in Hr. destruct Hh as (_ & [a Hc] & _). destruct (procs σ h); simpl in Hc; done.
    + destruct (holder_step h σ Hh) as (m & x & e & Hs & [[H0 _]|[Hh' Hlt]]).
      * exists [(h, None)], sched. eexists. split; [done|]. cbn [sched_run]. by rewrite Hs.
      * eapply Hnext; [cbn [sched_run]; by rewrite Hs|intros s; cbn [sched_run]; by rewrite Hs|exact Hh'|]. simpl. rewrite set_proc_eq. lia.
  - rewrite filter_cons_False in Hn by done. destruct o as [o|]; cbn [sched_run] in Hr.
    + destruct (procs σ p) eqn:Ep; try done.
      eapply Hnext; [cbn [sched_run]; by rewrite Ep|intros s; cbn [sched_run]; by rewrite Ep|by apply other_call|].
      simpl. by rewrite set_proc_ne.
    + destruct (proc_step (mem σ) (procs σ p)) as [[[m x] e]|] eqn:Es; [|done].
      eapply Hnext; [cbn [sched_run]; by rewrite Es|intros s; cbn [sched_run]; by rewrite Es|by eapply other_step|].
      simpl. by rewrite set_proc_ne.
Qed.

(** ** Properties *)

(** C20. The shared statistics are linearizable: however the steps of any number of
    processes are interleaved, two processes are never in the critical section at the
    same time, the results of the completed operations are those of running the
    operations one after the other, each at once, in the order in which they released
    the lock (so a read never sees a half-written set of counters), and a free lock
    guards exactly the state they lead to. *)
Theorem shared_stats_linearizable σ :
  sys_reachable σ →
  (∀ p q, ¬ outside (procs σ p) → ¬ outside (procs σ q) → p = q) ∧
  ∃ a, replay abs_init (log σ) a ∧ (lock (mem σ) = 0 → (shared_stats (mem σ), should_reset (mem σ)) = a).
Proof.
  intros [(a & Hl & [(H0 & Hv & Ho)|(H1 & h & _ & Ho)])]%reachable_inv; (split; [|exists a; split; [done|]]).
  - intros p q Hp _. by destruct (Hp (Ho p)).
  - done.
  - intros p q Hp Hq. destruct (decide (p = h)) as [->|Hph]; [|by destruct (Hp (Ho p Hph))].
    destruct (decide (q = h)) as [->|Hqh]; [done|by destruct (Hq (Ho q Hqh))].
  - intros. lia.
Qed.


(** C29. The lock is never stuck.  In every reachable state in which the lock is taken, one
    process holds it, with at most 19 steps to go: running alone it releases the lock after
    at most these; and under any schedule of all the processes, in which the others may
    call operations and spin on the lock as they like, the lock has been free at some
    moment by the time the holder has taken that many steps. *)
Theorem lock_released σ :
  sys_reachable σ → lock (mem σ) ≠ 0 →
  ∃ h, ¬ outside (procs σ h) ∧
    (∃ k σ', (k ≤ 19)%nat ∧ sched_run (replicate k (h, None)) σ = Some σ' ∧ lock (mem σ') = 0 ∧ procs σ' h = Outside) ∧
    (∀ sched σ', sched_run sched σ = Some σ' →
       (19 ≤ length (filter (λ e : nat * option shared_op, e.1 = h) sched))%nat →
       ∃ s1 s2 σ1, sched = s1 ++ s2 ∧ sched_run s1 σ = Some σ1 ∧ lock (mem σ1) = 0).
Proof.
  intros Hr Hl. pose proof (steps_left_reachable σ) as Hb.
  destruct (reachable_inv σ Hr) as [(a & _ & [(H0 & _)|(H1 & h & Hc & Ho)])]; [done|].
  assert (Hh : holds h σ) by (split_and!; [done|by exists a|done]). specialize (Hb h Hr). exists h. split_and!.
  - destruct (procs σ h); simpl in *; tauto.
  - destruct (holder_alone h σ Hh) as (k & σ' & Hk & ?). exists k, σ'. split; [lia|done].
  - intros sched σ' Hs Hn. eapply holder_scheduled; [done..|lia].
Qed.

(** ** Concrete runs *)

(** Process 0 resets while process 1 already waits with an update. *)
Definition demo_stats : Stats := stat_incr TotalPackets stats_new.
Definition demo_sched : list (nat * option shared_op) :=
  [(0, Some OpReset); (1, Some (OpUpdate demo_stats)); (0, None); (1, None)]%nat ++
  replicate 18 (0%nat, None) ++ replicate 4 (1%nat, None).
Definition demo_sys : option system := sched_run demo_sched sys_init.
Definition demo_log : list (shared_op * shared_res) :=
  [(OpReset, ResUnit); (OpUpdate demo_stats, ResBool true)].

Lemma demo_run : ∃ σ, sys_reachable σ ∧ log σ = demo_log ∧ lock (mem σ) = 0.
Proof.
  assert (Hl : (λ σ, (log σ, lock (mem σ))) <$> demo_sys = Some (demo_log, 0)) by (vm_compute; reflexivity).
  destruct demo_sys as [σ|] eqn:E; [|discriminate Hl]. injection Hl as Hlog H0.
  exists σ. split; [exact (sched_run_steps demo_sched sys_init σ E)|split; [exact Hlog|exact H0]].
Qed.

Lemma shared_stats_linearizable_witness : ∃ σ a, log σ = demo_log ∧ replay abs_init (log σ) a.
Proof.
  destruct demo_run as (σ & Hr & Hl & _).
  destruct (shared_stats_linearizable σ Hr) as (_ & a & Ha & _). exists σ, a. split; [exact Hl|exact Ha].
Defined.


(** Process 0 has the lock, process 1 waits for it: after some more steps it is free. *)
Lemma lock_released_witness :
  ∃ σ h k σ', sys_reachable σ ∧ lock (mem σ) = 1 ∧ procs σ 1%nat = Taking (OpUpdate demo_stats) ∧
    sched_run (replicate k (h, None)) σ = Some σ' ∧ lock (mem σ') = 0.
Proof.
  assert (Hl : (λ σ, (lock (mem σ), procs σ 1%nat)) <$> sched_run (take 4 demo_sched) sys_init =
    Some (1, Taking (OpUpdate demo_stats))) by (vm_compute; reflexivity).
  destruct (sched_run (take 4 demo_sched) sys_init) as [σ|] eqn:E; [|discriminate Hl]. injection Hl as H1 Hp.
  pose proof (sched_run_steps _ _ _ E) as Hr.
  destruct (lock_released σ Hr) as (h & _ & (k & σ' & _ & Hk & H0 & _) & _); [rewrite H1; discriminate|].
  exists σ, h, k, σ'. split; [exact Hr|]. split; [exact H1|]. split; [exact Hp|]. split; [exact Hk|exact H0].
Defined.
