(* ===== verification/Timer.v ===== *)
(** The timer of [timer/src/lib.rs]: milliseconds from the processor's time-stamp
    counter, calibrated once against the system clock.

    [Machine] is what the code reads: the contents of [/proc/cpuinfo], the successive
    values of the time-stamp counter and of the system clock (in nanoseconds), with the
    number of readings taken so far, and the two memoized values.  [spin_fuel] bounds
    the iterations of each calibration loop; it is not part of the code. *)
From Stdlib Require Import ZArith Lia SpecFloat String.
From stdpp Require Import gmap list.
From S2P Require Import Prelude F64.
Local Open Scope Z_scope.

(** [x as u64] for a float: truncates, saturates, and takes NaN to zero. *)
Definition f64_to_u64 (x : f64) : Z :=
  match x with
  | S754_finite false m e => Z.min u64_max (Z.shiftl (Z.pos m) e)
  | S754_infinity false => u64_max
  | _ => 0
  end.

Record Machine : Type := mkMachine {
  cpuinfo : option string;
  tsc : nat → Z;
  tsc_reads : nat;
  clock : nat → Z;
  clock_reads : nat;
  SUPPORTS_INVARIANT_TSC : option bool;
  TICKS_PER_MS : option Z;
  spin_fuel : nat;
}.
Definition rdtsc (w : Machine) : Z * Machine :=
  (tsc w (tsc_reads w),
   mkMachine (cpuinfo w) (tsc w) (S (tsc_reads w)) (clock w) (clock_reads w)
     (SUPPORTS_INVARIANT_TSC w) (TICKS_PER_MS w) (spin_fuel w)).
Definition instant_now (w : Machine) : Z * Machine :=
  (clock w (clock_reads w),
   mkMachine (cpuinfo w) (tsc w) (tsc_reads w) (clock w) (S (clock_reads w))
     (SUPPORTS_INVARIANT_TSC w) (TICKS_PER_MS w) (spin_fuel w)).
Definition set_supports (b : bool) (w : Machine) : Machine :=
  mkMachine (cpuinfo w) (tsc w) (tsc_reads w) (clock w) (clock_reads w) (Some b) (TICKS_PER_MS w) (spin_fuel w).
Definition set_ticks (t : Z) (w : Machine) : Machine :=
  mkMachine (cpuinfo w) (tsc w) (tsc_reads w) (clock w) (clock_reads w) (SUPPORTS_INVARIANT_TSC w) (Some t) (spin_fuel w).

(** [haystack.contains(needle)]. *)
Definition str_contains (needle haystack : string) : bool :=
  match String.index 0 needle haystack with Some _ => true | None => false end.

Definition check_cpu_supports_invariant_tsc (w : Machine) : bool * Machine :=
  match SUPPORTS_INVARIANT_TSC w with
  | Some b => (b, w)
  | None =>
     let b :=
       match cpuinfo w with
       | None => false
       | Some cpuinfo =>
          let has_constant_tsc := str_contains "constant_tsc" cpuinfo in
          let has_nonstop_tsc := str_contains "nonstop_tsc" cpuinfo in
          has_constant_tsc && has_nonstop_tsc
       end in
     (b, set_supports b w)
  end.

Definition MEASUREMENT_NANOS : Z := 1000000000.

(** [while start.elapsed() < duration {}]; a clock that runs backwards counts as
    elapsed time zero. *)
Fixpoint spin (fuel : nat) (start duration : Z) (w : Machine) : outcome Machine :=
  match fuel with
  | O => NoFuel
  | S fuel =>
     let '(now, w) := instant_now w in
     if decide (Z.max 0 (now - start) < duration) then spin fuel start duration w else Ret w
  end.

Definition calibrate (w : Machine) : outcome (Z * Machine) :=
  let '(warm_up_start, w) := instant_now w in
  w ← spin (spin_fuel w) warm_up_start MEASUREMENT_NANOS w;
  let '(start, w) := instant_now w in
  let '(start_tsc, w) := rdtsc w in
  w ← spin (spin_fuel w) start MEASUREMENT_NANOS w;
  let '(end_tsc, w) := rdtsc w in
  let elapsed_tsc := u64_sub end_tsc start_tsc in
  let duration_ms := f64_mul f64_one (f64_of_uint 1000) in
  let tsc_per_ms := f64_div (f64_of_uint elapsed_tsc) duration_ms in
  Ret (f64_to_u64 tsc_per_ms, w).

Definition ticks_per_ms (w : Machine) : outcome (Z * Machine) :=
  match TICKS_PER_MS w with
  | Some t => Ret (t, w)
  | None => '(t, w) ← calibrate w; Ret (t, set_ticks t w)
  end.

Definition memoize_ticks_per_ms_and_invariant_tsc_check (w : Machine) : outcome Machine :=
  let '(_, w) := check_cpu_supports_invariant_tsc w in
  '(_, w) ← ticks_per_ms w;
  Ret w.

Inductive Timer : Type :=
| RDTSC (t : Z)
| Instant (i : Z).

Definition timer_new (w : Machine) : Timer * Machine :=
  let '(supported, w) := check_cpu_supports_invariant_tsc w in
  if supported then let '(t, w) := rdtsc w in (RDTSC t, w)
  else let '(i, w) := instant_now w in (Instant i, w).

Definition elapsed_ms (timer : Timer) (w : Machine) : outcome (Z * Machine) :=
  match timer with
  | RDTSC t =>
     let '(now, w) := rdtsc w in
     let elapsed := u64_sub now t in
     '(ticks, w) ← ticks_per_ms w;
     if decide (ticks = 0) then Panic else Ret (elapsed / ticks, w)
  | Instant _ => Panic
  end.

(** ** Facts *)

(** The values of the counter are [u64] and never decrease. *)
Record tsc_ok (w : Machine) : Prop := {
  tsc_u64 i : u64_ok (tsc w i);
  tsc_mono i j : (i ≤ j)%nat → tsc w i ≤ tsc w j;
}.

(** What changes as the program runs: readings are taken, and nothing is forgotten. *)
Record advances (w w' : Machine) : Prop := {
  adv_cpuinfo : cpuinfo w' = cpuinfo w;
  adv_tsc : tsc w' = tsc w;
  adv_clock : clock w' = clock w;
  adv_fuel : spin_fuel w' = spin_fuel w;
  adv_reads : (tsc_reads w ≤ tsc_reads w')%nat;
  adv_supports b : SUPPORTS_INVARIANT_TSC w = Some b → SUPPORTS_INVARIANT_TSC w' = Some b;
  adv_ticks t : TICKS_PER_MS w = Some t → TICKS_PER_MS w' = Some t;
}.
#[global] Instance advances_po : PreOrder advances.
Proof.
  split; [by split|]. intros w1 w2 w3 [] []. split; [congruence..|lia|eauto|eauto].
Qed.

Lemma tsc_ok_advances w w' : advances w w' → tsc_ok w → tsc_ok w'.
Proof. intros [] [Hu Hm]. split; intros *; rewrite adv_tsc0; eauto. Qed.

(** A machine on which the timer has been set up: the counter is usable and has been
    calibrated. *)
Record tuned (ticks : Z) (w : Machine) : Prop := {
  tuned_tsc : tsc_ok w;
  tuned_supports : SUPPORTS_INVARIANT_TSC w = Some true;
  tuned_ticks : TICKS_PER_MS w = Some ticks;
  tuned_pos : 0 < ticks;
}.

Lemma tuned_advances ticks w w' : advances w w' → tuned ticks w → tuned ticks w'.
Proof. intros Ha []. split; eauto using tsc_ok_advances, adv_supports, adv_ticks. Qed.

Lemma timer_new_run ticks w :
  tuned ticks w → ∃ w', timer_new w = (RDTSC (tsc w (tsc_reads w)), w') ∧ advances w w' ∧
    tsc_reads w' = S (tsc_reads w).
Proof.
  intros []. unfold timer_new, check_cpu_supports_invariant_tsc. rewrite tuned_supports0.
  eexists. split; [done|]. split; [|done]. split; simpl; auto.
Qed.

Lemma elapsed_ms_run ticks w t :
  tuned ticks w → ∃ w', elapsed_ms (RDTSC t) w = Ret (u64_sub (tsc w (tsc_reads w)) t / ticks, w') ∧
    advances w w' ∧ tsc_reads w' = S (tsc_reads w).
Proof.
  intros []. unfold elapsed_ms, ticks_per_ms. simpl. rewrite tuned_ticks0, bind_Ret, decide_False by lia.
  eexists. split; [done|]. split; [|done]. split; simpl; auto. congruence.
Qed.

Lemma u64_sub_mono a b : u64_ok a → u64_ok b → b ≤ a → u64_sub a b = a - b.
Proof. intros [] [] ?. unfold u64_sub. apply wrap_id. unfold in_u. lia. Qed.

Lemma spin_run fuel start duration w k :
  0 ≤ duration → (k < fuel)%nat → start + duration ≤ clock w (clock_reads w + k)%nat →
  ∃ w', spin fuel start duration w = Ret w' ∧ advances w w'.
Proof.
  intros Hd. revert w k. induction fuel as [|fuel IH]; intros w k Hk Hc; [lia|]. simpl.
  case_decide as Hlt; [|eexists; split; [done|by split]].
  destruct k as [|k]; [rewrite Nat.add_0_r in Hc; lia|].
  set (w1 := mkMachine _ _ _ _ _ _ _ _). destruct (IH w1 k) as (w' & Hw' & Ha); [lia| |].
  { unfold w1. simpl. by rewrite <- Nat.add_succ_comm in Hc. }
  exists w'. split; [done|]. transitivity w1; [by split|done].
Qed.

(** The system clock reaches every time within [spin_fuel] readings, one second
    later than any reading. *)
Definition clock_advances (w : Machine) : Prop :=
  ∀ i j, (i ≤ j)%nat → ∃ k, (k < spin_fuel w)%nat ∧ clock w i + MEASUREMENT_NANOS ≤ clock w (j + k)%nat.

Lemma clock_advances_advances w w' : advances w w' → clock_advances w → clock_advances w'.
Proof. intros []. unfold clock_advances. by rewrite adv_clock0, adv_fuel0. Qed.

Lemma instant_now_run w s v :
  instant_now w = (s, v) → advances w v ∧ s = clock v (clock_reads w) ∧ clock_reads v = S (clock_reads w).
Proof. intros [= <- <-]. split; [by split|done]. Qed.

Lemma rdtsc_run w t v : rdtsc w = (t, v) → advances w v ∧ clock_reads v = clock_reads w.
Proof. intros [= <- <-]. split; [|done]. split; simpl; auto. Qed.

(** One calibration loop. *)
Lemma spin_second i w :
  clock_advances w → (i ≤ clock_reads w)%nat →
  ∃ w', spin (spin_fuel w) (clock w i) MEASUREMENT_NANOS w = Ret w' ∧ advances w w'.
Proof.
  intros Hc Hi. destruct (Hc i (clock_reads w) Hi) as (k & Hk & Hck). by apply (spin_run _ _ _ _ k).
Qed.

Lemma calibrate_run w : clock_advances w → ∃ t w', calibrate w = Ret (t, w') ∧ advances w w'.
Proof.
  intros Hc. unfold calibrate. destruct (instant_now w) as [s1 w1] eqn:E1.
  apply instant_now_run in E1 as (A1 & -> & R1). pose proof (clock_advances_advances _ _ A1 Hc) as Hc1.
  destruct (spin_second (clock_reads w) w1 Hc1 ltac:(lia)) as (w2 & -> & A2). rewrite bind_Ret.
  pose proof (clock_advances_advances _ _ A2 Hc1) as Hc2.
  destruct (instant_now w2) as [s3 w3] eqn:E3. apply instant_now_run in E3 as (A3 & -> & R3).
  destruct (rdtsc w3) as [t4 w4] eqn:E4. apply rdtsc_run in E4 as [A4 R4].
  assert (A34 : advances w2 w4) by by etransitivity.
  pose proof (clock_advances_advances _ _ A34 Hc2) as Hc4. rewrite <- (adv_clock _ _ A4).
  destruct (spin_second (clock_reads w2) w4 Hc4 ltac:(lia)) as (w5 & -> & A5). rewrite bind_Ret.
  destruct (rdtsc w5) as [t6 w6] eqn:E6. apply rdtsc_run in E6 as [A6 _].
  do 2 eexists. split; [done|]. do 4 (etransitivity; [done|]). done.
Qed.

(** Whatever a call of the set-up code returns, it has only taken readings. *)
Lemma spin_advances fuel start duration w w' : spin fuel start duration w = Ret w' → advances w w'.
Proof.
  revert w. induction fuel as [|fuel IH]; intros w Hs; [done|]. cbn [spin] in Hs.
  destruct (instant_now w) as [now w1] eqn:E. apply instant_now_run in E as (A1 & _).
  case_decide; [|by simplify_eq]. etransitivity; [done|]. by apply IH.
Qed.

Lemma calibrate_advances w t w' : calibrate w = Ret (t, w') → advances w w'.
Proof.
  unfold calibrate. intros Hc. destruct (instant_now w) as [s1 w1] eqn:E1. apply instant_now_run in E1 as (A1 & _).
  destruct (spin (spin_fuel w1) s1 MEASUREMENT_NANOS w1) as [w2| | |] eqn:E2; try done. apply spin_advances in E2.
  rewrite bind_Ret in Hc. destruct (instant_now w2) as [s3 w3] eqn:E3. apply instant_now_run in E3 as (A3 & _).
  destruct (rdtsc w3) as [t4 w4] eqn:E4. apply rdtsc_run in E4 as [A4 _].
  destruct (spin (spin_fuel w4) s3 MEASUREMENT_NANOS w4) as [w5| | |] eqn:E5; try done. apply spin_advances in E5.
  rewrite bind_Ret in Hc. destruct (rdtsc w5) as [t6 w6] eqn:E6. apply rdtsc_run in E6 as [A6 _].
  simplify_eq. do 5 (etransitivity; [done|]). done.
Qed.

Lemma supports_advances w b w' :
  check_cpu_supports_invariant_tsc w = (b, w') → advances w w' ∧ SUPPORTS_INVARIANT_TSC w' = Some b.
Proof.
  unfold check_cpu_supports_invariant_tsc. destruct (SUPPORTS_INVARIANT_TSC w) eqn:E; intros [= <- <-]; [done|].
  split; [|done]. split; simpl; congruence || auto.
Qed.

Lemma memoize_advances w w' : memoize_ticks_per_ms_and_invariant_tsc_check w = Ret w' → advances w w'.
Proof.
  unfold memoize_ticks_per_ms_and_invariant_tsc_check, ticks_per_ms. intros Hm.
  destruct (check_cpu_supports_invariant_tsc w) as [b w1] eqn:E. apply supports_advances in E as [A1 _].
  destruct (TICKS_PER_MS w1) as [t|] eqn:Et; [rewrite bind_Ret in Hm; by simplify_eq|].
  destruct (calibrate w1) as [[t w2]| | |] eqn:Ec; try done. apply calibrate_advances in Ec.
  rewrite !bind_Ret in Hm. simplify_eq. etransitivity; [exact A1|].
  destruct Ec. split; simpl; auto. congruence.
Qed.

(** ** Properties *)

(** On a machine whose counter is usable, calibrated and does not run backwards,
    a timer measures whole milliseconds: read after any amount of further activity
    [w'], it returns the rounded down quotient of the ticks that have passed by the
    ticks per millisecond, without a panic. *)
Theorem timer_measures ticks w timer w1 w' :
  tuned ticks w → timer_new w = (timer, w1) → advances w1 w' →
  ∃ w'', elapsed_ms timer w' = Ret ((tsc w (tsc_reads w') - tsc w (tsc_reads w)) / ticks, w'') ∧
    0 ≤ (tsc w (tsc_reads w') - tsc w (tsc_reads w)) / ticks.
Proof.
  intros Ht Hnew Ha. destruct (timer_new_run _ _ Ht) as (w0 & Hnew' & Ha0 & Hr).
  rewrite Hnew in Hnew'. injection Hnew' as -> <-. assert (Ha' : advances w w') by by etransitivity.
  destruct (elapsed_ms_run ticks w' (tsc w (tsc_reads w))) as (w'' & He & _); [by eapply tuned_advances|].
  exists w''. destruct Ht as [[Hu Hm] _ _ Hpos]. rewrite (adv_tsc _ _ Ha') in He.
  pose proof (Hm (tsc_reads w) (tsc_reads w') ltac:(apply Ha')) as Hle.
  rewrite u64_sub_mono in He by done. split; [done|]. apply Z.div_pos; lia.
Qed.

(** On a machine whose counter is not known to be invariant a timer can be
    created but not read: the first reading panics. *)
Theorem timer_without_tsc_panics w :
  (check_cpu_supports_invariant_tsc w).1 = false →
  ∀ w', elapsed_ms (timer_new w).1 w' = Panic.
Proof.
  intros Hs w'. unfold timer_new. destruct (check_cpu_supports_invariant_tsc w) as [b w1].
  simpl in Hs. by subst b.
Qed.

Lemma memoize_run w :
  clock_advances w → ∃ w' b t, memoize_ticks_per_ms_and_invariant_tsc_check w = Ret w' ∧
    check_cpu_supports_invariant_tsc w' = (b, w') ∧ ticks_per_ms w' = Ret (t, w').
Proof.
  intros Hc. unfold memoize_ticks_per_ms_and_invariant_tsc_check.
  assert (∃ b w1, check_cpu_supports_invariant_tsc w = (b, w1) ∧ SUPPORTS_INVARIANT_TSC w1 = Some b ∧
    clock w1 = clock w ∧ spin_fuel w1 = spin_fuel w) as (b & w1 & -> & Hb & Hclk & Hfuel).
  { unfold check_cpu_supports_invariant_tsc. destruct (SUPPORTS_INVARIANT_TSC w) eqn:E; eauto 10. }
  assert (Hc1 : clock_advances w1) by (unfold clock_advances; by rewrite Hclk, Hfuel).
  assert (∃ t w2, ticks_per_ms w1 = Ret (t, w2) ∧ TICKS_PER_MS w2 = Some t ∧
    SUPPORTS_INVARIANT_TSC w2 = Some b) as (t & w2 & -> & Ht & Hb2).
  { unfold ticks_per_ms. destruct (TICKS_PER_MS w1) as [t|] eqn:E; [eauto|].
    destruct (calibrate_run w1 Hc1) as (t & w2 & -> & Ha). rewrite bind_Ret.
    do 2 eexists. split; [done|]. split; [done|]. simpl. by apply Ha. }
  rewrite bind_Ret. exists w2, b, t. split; [done|].
  unfold check_cpu_supports_invariant_tsc, ticks_per_ms. by rewrite Hb2, Ht.
Qed.

(** C31. Setting the timer up terminates when the system clock advances, and leaves
    both answers memoized, so that later calls return them again. *)
Theorem calibration_terminates w :
  clock_advances w → ∃ w' b t, memoize_ticks_per_ms_and_invariant_tsc_check w = Ret w' ∧
    check_cpu_supports_invariant_tsc w' = (b, w') ∧ ticks_per_ms w' = Ret (t, w').
Proof. apply memoize_run. Qed.

(** ** A concrete machine: 1000 ticks and one second between readings *)
Section Witnesses.
Local Open Scope string_scope.
Definition demo_machine (flags : string) : Machine :=
  mkMachine (Some flags) (λ i, Z.min u64_max (1000 * Z.of_nat i)) 0
    (λ i, MEASUREMENT_NANOS * Z.of_nat i) 0 None None 2.
Definition demo_tuned : Machine :=
  set_ticks 10 (set_supports true (demo_machine "constant_tsc nonstop_tsc")).

Lemma demo_tuned_ok : tuned 10 demo_tuned.
Proof.
  split; [|done..]. split; simpl; [intros i|intros i j Hij]; unfold u64_ok, in_u, u64_max; lia.
Qed.
Lemma demo_clock flags : clock_advances (demo_machine flags).
Proof. intros i j Hij. exists 1%nat. cbn [spin_fuel clock demo_machine]. unfold MEASUREMENT_NANOS. lia. Qed.

Lemma timer_measures_witness :
  ∃ w'', elapsed_ms (timer_new demo_tuned).1 (timer_new demo_tuned).2 = Ret (100, w'').
Proof.
  destruct (timer_measures 10 demo_tuned (timer_new demo_tuned).1 (timer_new demo_tuned).2 (timer_new demo_tuned).2)
    as (w'' & E & _); [apply demo_tuned_ok|reflexivity|reflexivity|]. exists w''. exact E.
Defined.

Lemma timer_without_tsc_panics_witness :
  elapsed_ms (timer_new (demo_machine "constant_tsc")).1 demo_tuned = Panic.
Proof. apply (timer_without_tsc_panics (demo_machine "constant_tsc")). vm_compute. reflexivity. Defined.

Lemma calibration_terminates_witness :
  ∃ w', memoize_ticks_per_ms_and_invariant_tsc_check (demo_machine "constant_tsc nonstop_tsc") = Ret w'.
Proof.
  destruct (calibration_terminates (demo_machine "constant_tsc nonstop_tsc") (demo_clock _)) as (w' & _ & _ & E & _).
  exists w'. exact E.
Defined.
End Witnesses.
