(* ===== verification/Que.v ===== *)
(** The channels of the [que] crate, through which the service talks to the other
    processes: what the program calls, and what it relies on.

    A consumer yields the messages other processes have published; since these
    processes run on their own, nothing is assumed about the next message.  [yields]
    says which messages a consumer happens to deliver before it is found empty. *)
From stdpp Require Import gmap list.
From S2P Require Import Prelude.

Class QueOps : Type := {
  producer : Type → Type;
  prod_push {T} : T → producer T → producer T;
  prod_sync {T} : producer T → producer T;
  prod_beat {T} : producer T → producer T;
  (** Whether a consumer has shown a sign of life since the producer last asked. *)
  consumer_heartbeat {T} : producer T → bool * producer T;
  consumer : Type → Type;
  cons_pop {T} : consumer T → option T * consumer T;
  cons_beat {T} : consumer T → consumer T;
}.

(** [pushed] are the messages written so far, [published] those that are visible to the
    consumers: [sync] publishes everything, and a push may publish earlier messages. *)
Class QueLaws `{QueOps} : Type := {
  pushed {T} : producer T → list T;
  published {T} : producer T → list T;
  pushed_push {T} (x : T) p : pushed (prod_push x p) = pushed p ++ [x];
  published_pushed {T} (p : producer T) : published p `prefix_of` pushed p;
  published_push {T} (x : T) p : published p `prefix_of` published (prod_push x p);
  pushed_sync {T} (p : producer T) : pushed (prod_sync p) = pushed p;
  published_sync {T} (p : producer T) : published (prod_sync p) = pushed p;
  pushed_beat {T} (p : producer T) : pushed (prod_beat p) = pushed p;
  published_beat {T} (p : producer T) : published (prod_beat p) = published p;
  pushed_heartbeat {T} (p : producer T) : pushed (consumer_heartbeat p).2 = pushed p;
  published_heartbeat {T} (p : producer T) : published (consumer_heartbeat p).2 = published p;
}.

(** [c] delivers the messages [l], in this order, and is then [c']. *)
Inductive yields `{QueOps} {T} : consumer T → list T → consumer T → Prop :=
| yields_nil c : yields c [] c
| yields_cons c x c1 l c2 : cons_pop c = (Some x, c1) → yields c1 l c2 → yields c (x :: l) c2.

(** [c] delivers [l] and is then found empty, which leaves it as [c']. *)
Definition drains `{QueOps} {T} (c : consumer T) (l : list T) (c' : consumer T) : Prop :=
  ∃ c1, yields c l c1 ∧ cons_pop c1 = (None, c').

(** Every message [c] will ever deliver, now or after having been empty for a while,
    satisfies [P]; an invariant of the consumer says so. *)
Record keeps `{QueOps} {T} (P : T → Prop) (I : consumer T → Prop) : Prop := {
  keeps_some c x c' : I c → cons_pop c = (Some x, c') → P x ∧ I c';
  keeps_none c c' : I c → cons_pop c = (None, c') → I c';
  keeps_beat c : I c → I (cons_beat c);
}.
Definition safe `{QueOps} {T} (P : T → Prop) (c : consumer T) : Prop := ∃ I, keeps P I ∧ I c.

(** Moreover, whenever [c] is read it is found empty after fewer than [fuel]
    messages. *)
Definition served `{QueOps} {T} (P : T → Prop) (fuel : nat) (c : consumer T) : Prop :=
  ∃ I, keeps P I ∧ I c ∧ ∀ c, I c → ∃ l c', drains c l c' ∧ length l < fuel.

(** Other processes may write faster than [c] is read: it yields [fuel] messages in a
    row. *)
Definition overrun `{QueOps} {T} (fuel : nat) (c : consumer T) : Prop := ∃ l c', yields c l c' ∧ length l = fuel.

(** Both kinds of channels: [prompt] ones, which are found empty in time, and those of
    which only the messages are known. *)
Definition fed `{QueOps} {T} (prompt : bool) (P : T → Prop) (fuel : nat) (c : consumer T) : Prop :=
  if prompt then served P fuel c else safe P c.

Section Facts.
Context `{QueOps} {T : Type} (P : T → Prop).
Implicit Types (c : consumer T) (l : list T).

Lemma safe_some c x c' : safe P c → cons_pop c = (Some x, c') → P x ∧ safe P c'.
Proof. intros (I & HI & Hc) E. destruct (keeps_some _ _ HI _ _ _ Hc E) as [Hx Hc']. split; [done|]. by exists I. Qed.
Lemma safe_none c c' : safe P c → cons_pop c = (None, c') → safe P c'.
Proof. intros (I & HI & Hc) E. exists I. split; [done|]. by eapply keeps_none. Qed.
Lemma safe_beat c : safe P c → safe P (cons_beat c).
Proof. intros (I & HI & Hc). exists I. split; [done|]. by apply (keeps_beat P). Qed.

Lemma keeps_yields I c l c' : keeps P I → I c → yields c l c' → Forall P l ∧ I c'.
Proof.
  intros HI Hc Hy. induction Hy as [c|c x c1 l c2 E _ IH]; [by split; [constructor|]|].
  destruct (keeps_some _ _ HI _ _ _ Hc E) as [Hx Hc1]. destruct (IH Hc1). split; [by constructor|done].
Qed.

Lemma keeps_mono (Q : T → Prop) I : (∀ x, P x → Q x) → keeps P I → keeps Q I.
Proof. intros HPQ [Hs Hn Hb]. split; [|done|done]. intros c x c' Hc E. destruct (Hs _ _ _ Hc E). eauto. Qed.
Lemma safe_mono (Q : T → Prop) c : (∀ x, P x → Q x) → safe P c → safe Q c.
Proof. intros HPQ (I & HI & Hc). exists I. split; [by eapply keeps_mono|done]. Qed.
Lemma served_mono (Q : T → Prop) fuel c : (∀ x, P x → Q x) → served P fuel c → served Q fuel c.
Proof. intros HPQ (I & HI & Hc & Hd). exists I. split_and!; [by eapply keeps_mono|done|done]. Qed.

Lemma served_drains fuel c :
  served P fuel c → ∃ l c', drains c l c' ∧ length l < fuel ∧ Forall P l ∧ served P fuel c' ∧
    ∀ l1 c1, yields c l1 c1 → served P fuel c1.
Proof.
  intros (I & HI & Hc & Hd). destruct (Hd c Hc) as (l & c' & Hl & Hlen). exists l, c'.
  pose proof Hl as (c1 & Hy & E). destruct (keeps_yields _ _ _ _ HI Hc Hy) as [HP Hc1].
  split_and!; [done|done|done| |].
  - exists I. split_and!; [done|exact (keeps_none P I HI _ _ Hc1 E)|done].
  - intros l1 c2 Hy2. exists I. split_and!; [done|exact (proj2 (keeps_yields _ _ _ _ HI Hc Hy2))|done].
Qed.

Lemma safe_yields c l c' : safe P c → yields c l c' → Forall P l ∧ safe P c'.
Proof. intros (I & HI & Hc) Hy. destruct (keeps_yields _ _ _ _ HI Hc Hy). split; [done|]. by exists I. Qed.
Lemma served_safe fuel c : served P fuel c → safe P c.
Proof. intros (I & HI & Hc & _). by exists I. Qed.
(** A channel about whose messages nothing is known. *)
Lemma safe_any c : safe (λ _, True) c.
Proof. by exists (λ _, True). Qed.

Lemma fed_safe prompt fuel c : fed prompt P fuel c → safe P c.
Proof. destruct prompt; [apply served_safe|done]. Qed.
Lemma fed_mono (Q : T → Prop) prompt fuel c : (∀ x, P x → Q x) → fed prompt P fuel c → fed prompt Q fuel c.
Proof. destruct prompt; [apply served_mono|apply safe_mono]. Qed.
Lemma fed_yields prompt fuel c l c' : fed prompt P fuel c → yields c l c' → fed prompt P fuel c'.
Proof.
  destruct prompt; cbn.
  - intros Hc Hy. destruct (served_drains fuel c Hc) as (_ & _ & _ & _ & _ & _ & Hs). by eapply Hs.
  - intros Hc Hy. by eapply safe_yields.
Qed.

(** A channel is found empty in fewer than [fuel] messages, or yields as many. *)
Lemma drains_or_overrun fuel c : (∃ l c', drains c l c' ∧ length l < fuel) ∨ overrun fuel c.
Proof.
  revert c. induction fuel as [|fuel IH]; intros c; [right; exists [], c; split; [constructor|done]|].
  destruct (cons_pop c) as [[x|] c1] eqn:E; [|left; exists [], c1; split; [exists c; split; [constructor|done]|simpl; lia]].
  destruct (IH c1) as [(l & c' & (c2 & Hy & E') & Hl)|(l & c' & Hy & Hl)]; [left|right]; exists (x :: l), c'.
  - split; [|simpl; lia]. exists c2. split; [by econstructor|done].
  - split; [by econstructor|simpl; lia].
Qed.

Lemma fed_cases prompt fuel c :
  fed prompt P fuel c →
  (∃ l c', drains c l c' ∧ length l < fuel ∧ Forall P l ∧ fed prompt P fuel c') ∨
  (prompt = false ∧ ∃ l c', yields c l c' ∧ length l = fuel ∧ Forall P l).
Proof.
  intros Hc. destruct prompt.
  { left. destruct (served_drains fuel c Hc) as (l & c' & ? & ? & ? & ? & _). eauto 10. }
  destruct (drains_or_overrun fuel c) as [(l & c' & (c1 & Hy & E) & Hl)|(l & c' & Hy & Hl)]; [left|right].
  - destruct (safe_yields _ _ _ Hc Hy) as [HP Hc1]. exists l, c'. split_and!; try done; [by exists c1|by eapply safe_none].
  - destruct (safe_yields _ _ _ Hc Hy) as [HP _]. split; [done|]. eauto 10.
Qed.
End Facts.

(** Channels as lists: a concrete instance.  A producer is what it has published and
    the messages it has pushed since. *)
Definition ref_que : QueOps := {|
  producer T := (list T * list T)%type;
  prod_push T x p := (p.1, p.2 ++ [x]);
  prod_sync T p := (p.1 ++ p.2, []);
  prod_beat T p := p;
  consumer_heartbeat T p := (true, p);
  consumer T := list T;
  cons_pop T c := match c with [] => (None, []) | x :: c => (Some x, c) end;
  cons_beat T c := c;
|}.
Definition ref_que_laws : @QueLaws ref_que.
Proof.
  unshelve esplit; [exact (λ _ p, p.1 ++ p.2)|exact (λ _, fst)|..]; intros T; try done.
  - intros x p. apply app_assoc.
  - intros [l1 l2]. by exists l2.
  - intros [l1 l2]. apply app_nil_r.
Defined.

Lemma ref_yields {T} (l r : list T) : @yields ref_que T (l ++ r) l r.
Proof. induction l as [|x l IH]; simpl; econstructor; [done|exact IH]. Qed.
Lemma ref_drains {T} (l : list T) : @drains ref_que T l l [].
Proof. exists []. split; [|done]. pose proof (ref_yields l []) as Hy. by rewrite app_nil_r in Hy. Qed.

Lemma ref_safe {T} (P : T → Prop) (l : list T) : Forall P l → @safe ref_que T P l.
Proof.
  intros Hl. exists (Forall P). split; [|done].
  split; [intros [|y c] x c'|intros [|y c] c'|done]; simpl; intros Hc E; simplify_eq; [|done].
  by apply Forall_cons in Hc.
Qed.
Lemma ref_served {T} (P : T → Prop) (fuel : nat) (l : list T) :
  Forall P l → length l < fuel → @served ref_que T P fuel l.
Proof.
  intros Hl Hf. exists (λ c, Forall P c ∧ length c < fuel). split_and!; [|done|done|].
  - split; [intros [|y c] x c'|intros [|y c] c'|done]; simpl; intros [Hc Hlen] E; simplify_eq; [|done].
    apply Forall_cons in Hc as [??]. split_and!; [done|done|lia].
  - intros c [_ Hc]. exists c, []. split; [apply ref_drains|done].
Qed.
