(* ===== verification/Core.v ===== *)
(** Processing one packet ([qos-core/src/lib.rs], [qos-core/src/error.rs]): parsing,
    filtering, fee calculation, scoring and registration of its metadata.

    [ViewOps] stands for the transaction parser of the [agave_transaction_view] crate;
    [ViewLaws] is what a sanitized view guarantees: at least one signature, each of 64
    bytes, and an account key for each of them. *)
From Stdlib Require Import ZArith Lia SpecFloat.
From stdpp Require Import gmap list.
From S2P Require Import Prelude Lru F64 RedBlack ScoreTable Model Wire Stats.
Local Open Scope Z_scope.

Record Instruction : Type := mkInstruction { program_id_index : Z; ix_data : list Z }.

Class ViewOps : Type := {
  COMPUTE_BUDGET_ID : list Z;
  unsanitized_view : Type;
  sanitized_view : Type;
  try_new_unsanitized : list Z → option unsanitized_view;
  sanitize : unsanitized_view → option sanitized_view;
  signatures : sanitized_view → list (list Z);
  static_account_keys : sanitized_view → list (list Z);
  instructions_iter : sanitized_view → list Instruction;
}.
Class ViewLaws `{ViewOps} : Prop := {
  view_signed u v : sanitize u = Some v → signatures v ≠ [];
  view_signatures u v : sanitize u = Some v → Forall sig_ok (signatures v);
  view_keys u v : sanitize u = Some v → (length (signatures v) ≤ length (static_account_keys v))%nat;
}.

Inductive PacketProcessorError : Type :=
| AddrNotIpv4
| NonTransactionPacketError
| FailedTransactionView
| FailedSanitizeError
| InvalidMetadata
| DuplicatePacket
| RecentlyProcessedError.

Inductive result (A E : Type) : Type := Ok (a : A) | Err (e : E).
Arguments Ok {A E} a.
Arguments Err {A E} e.

(** [que]'s page sizes. *)
Inductive PageSize : Type := Standard | Huge.
Definition get_page_size (use_huge_pages : bool) : PageSize :=
  default Standard (if use_huge_pages then Some Huge else None).

Record CaveyTransactionFee : Type := mkFee { cu_price : Z; fee_total : Z; requested_cus : Z }.

Section Fee.
Context `{ViewOps}.

Definition fee_payer (view : sanitized_view) : option (list Z) := static_account_keys view !! 0%nat.

Definition SET_CU_LIMIT : Z := 2.
Definition SET_CU_PRICE : Z := 3.

Definition is_compute_budget (static_account_keys : list (list Z)) (ix : Instruction) : Prop :=
  static_account_keys !! Z.to_nat (program_id_index ix) = Some COMPUTE_BUDGET_ID.
#[global] Instance is_compute_budget_dec keys ix : Decision (is_compute_budget keys ix).
Proof. unfold is_compute_budget. apply _. Defined.

(** The variables the closure of [for_each] updates. *)
Record fee_scan : Type := mkScan { scan_cus : option Z; scan_price : option Z; scan_duplicate : bool }.

(** [read_unaligned] of the [n] bytes behind the discriminator. *)
Definition read_operand (n : nat) (data : list Z) : Z := from_le_bytes (take n (drop 1 data)).

Definition fee_scan_step (s : fee_scan) (cbi : Instruction) : fee_scan :=
  let data := ix_data cbi in
  if decide (length data = 5%nat ∧ nth 0 data 0 = SET_CU_LIMIT) then
    match scan_cus s with
    | Some _ => mkScan (scan_cus s) (scan_price s) true
    | None => mkScan (Some (read_operand 4 data)) (scan_price s) (scan_duplicate s)
    end
  else if decide (length data = 9%nat ∧ nth 0 data 0 = SET_CU_PRICE) then
    match scan_price s with
    | Some _ => mkScan (scan_cus s) (scan_price s) true
    | None => mkScan (scan_cus s) (Some (read_operand 8 data)) (scan_duplicate s)
    end
  else s.

Definition total_fee (view : sanitized_view) : CaveyTransactionFee :=
  let keys := static_account_keys view in
  let first_ixs := take 8 (instructions_iter view) in
  let s := fold_left fee_scan_step (filter (is_compute_budget keys) first_ixs) (mkScan None None false) in
  let signature_cost := u64_mul 5000 (Z.of_nat (length (signatures view))) in
  let requested_cus := default 200000 (scan_cus s) in
  let cu_price := default 0 (scan_price s) in
  let total_fee := u64_add signature_cost
    (Z.min (wrap 128 (requested_cus * cu_price) / 1000000) u64_max) in
  mkFee cu_price total_fee requested_cus.
End Fee.

Section Process.
Context `{OrderedFloatOps} `{SokobanOps} `{PacketOps} `{HashOps} `{ViewOps}.
Context {SIGNERS IPS : nat} (CACHE_SIZE : nat).

(** The state [try_process_packet] modifies. *)
Record proc_state : Type := mkProc {
  qos_model : IpSignerModel SIGNERS IPS;
  qos_tx_partial_metas : LRUCache Z QoSPartialMeta;
  stats : Stats;
}.
Definition set_model (st : proc_state) m := mkProc m (qos_tx_partial_metas st) (stats st).
Definition set_metas (st : proc_state) c := mkProc (qos_model st) c (stats st).
Definition count (c : counter) (st : proc_state) : proc_state :=
  mkProc (qos_model st) (qos_tx_partial_metas st) (stat_incr c (stats st)).

(** [recent_signatures.is_some_and(|rs| rs.contains(key))]. *)
Definition is_recent (recent_signatures : option (LRUCache Z ())) (key : Z) : bool :=
  match recent_signatures with Some rs => contains rs key | None => false end.

(** Parsing: the sanitized view, or the error with the state it leaves. *)
Definition parse_packet (packet : Packet) (ipv4 : Ipv4Addr) (st : proc_state)
    : sanitized_view + (PacketProcessorError * proc_state) :=
  match try_new_unsanitized <$> packet_data packet with
  | Some (Some unsanitized) =>
     match sanitize unsanitized with
     | Some sanitized => inl sanitized
     | None => inr (FailedSanitizeError, count FailedSanitize st)
     end
  | Some None =>
     let st := set_model st (ip_feedback (qos_model st) (to_bits ipv4)) in
     inr (FailedTransactionView, count FailedView st)
  | None => inr (NonTransactionPacketError, count InvalidPacketData st)
  end.

(** [forward(...) * (total_fee / max(cus, 1))]. *)
Definition packet_score (m : IpSignerModel SIGNERS IPS) (partial_meta : QoSPartialMeta) : f64 :=
  of_mul (qm_forward m (pm_ip partial_meta) (pm_signer partial_meta) ())
    (f64_div (f64_of_uint (pm_total_fee partial_meta)) (f64_of_uint (Z.max (pm_cus partial_meta) 1))).

Definition try_process_packet (packet : Packet) (recent_signatures : option (LRUCache Z ()))
    (xxhasher : xxHasher) (st : proc_state)
    : outcome (result ScoredTransaction PacketProcessorError * proc_state) :=
  let st := count TotalPackets st in
  let meta := pkt_meta packet in
  match pkt_addr meta with
  | V6 _ => Ret (Err AddrNotIpv4, count NonIpv4 st)
  | V4 ipv4 =>
  if decide (Z.of_nat PACKET_DATA_SIZE < pkt_size meta)
  then Ret (Err InvalidMetadata, count InvalidMetaSize st)
  else
  match parse_packet packet ipv4 st with
  | inr (e, st) => Ret (Err e, st)
  | inl transaction =>
  signature ← unwrap (signatures transaction !! 0%nat);
  let sig_key := u64_key (sig_bytes signature) in
  if is_recent recent_signatures sig_key
  then Ret (Err RecentlyProcessedError, count RecentlyProcessed st)
  else
  match fee_payer transaction with
  | None => Ret (Err InvalidMetadata, count InvalidPacketData st)
  | Some fee_payer =>
  let tx_fee := total_fee transaction in
  let partial_meta := partial_meta_new ipv4 fee_payer (fee_total tx_fee) (requested_cus tx_fee) in
  let score := packet_score (qos_model st) partial_meta in
  packet_key ← packet_hash xxhasher packet;
  '(r, metas) ← put CACHE_SIZE (qos_tx_partial_metas st) packet_key partial_meta;
  let st := set_metas st metas in
  match r with
  | (None, true) => Ret (Err DuplicatePacket, count DuplicatePackets st)
  | _ => Ret (Ok (mkScored score sig_key packet (ip_key ipv4)), st)
  end
  end
  end
  end.

(** Processing packets in order. *)
Fixpoint process_all (packets : list Packet) (recent_signatures : option (LRUCache Z ()))
    (xxhasher : xxHasher) (st : proc_state)
    : outcome (list (result ScoredTransaction PacketProcessorError) * proc_state) :=
  match packets with
  | [] => Ret ([], st)
  | p :: packets =>
     '(r, st) ← try_process_packet p recent_signatures xxhasher st;
     '(rs, st) ← process_all packets recent_signatures xxhasher st;
     Ret (r :: rs, st)
  end.
End Process.
Arguments proc_state {_} SIGNERS IPS.
