(* ===== verification/CoreProps.v ===== *)
(** Properties of packet processing: what the fee calculation computes, that every
    packet is processed without a panic and counted exactly once, when a packet is
    accepted and what is then recorded, that no packet is accepted twice while it is
    remembered, and where the feedback for unparsable packets goes.

    [classify] is the reference definition: it decides, without touching any state, at
    which check a packet stops. *)
From Stdlib Require Import ZArith Lia SpecFloat.
From stdpp Require Import gmap list.
From S2P Require Import Prelude Lru LruSpec F64 OrdMap RedBlack ScoreTable ScoreTableFacts Model ModelProps.
From S2P Require Import Wire Stats Core.
Local Open Scope Z_scope.

(** ** Fees *)
Section Fee.
Context `{ViewOps}.
Implicit Types (v : sanitized_view) (ix : Instruction).

Definition is_cu_limit ix : Prop := length (ix_data ix) = 5%nat ∧ nth 0 (ix_data ix) 0 = SET_CU_LIMIT.
Definition is_cu_price ix : Prop := length (ix_data ix) = 9%nat ∧ nth 0 (ix_data ix) 0 = SET_CU_PRICE.
#[global] Instance is_cu_limit_dec ix : Decision (is_cu_limit ix).
Proof. unfold is_cu_limit. apply _. Defined.
#[global] Instance is_cu_price_dec ix : Decision (is_cu_price ix).
Proof. unfold is_cu_price. apply _. Defined.

(** The compute budget instructions among the first eight. *)
Definition budget_ixs v : list Instruction :=
  filter (is_compute_budget (static_account_keys v)) (take 8 (instructions_iter v)).

(** The operand of the first instruction of a kind. *)
Definition limit_operand ix : Z := read_operand 4 (ix_data ix).
Definition price_operand ix : Z := read_operand 8 (ix_data ix).
Definition first_limit (l : list Instruction) : option Z := limit_operand <$> filter is_cu_limit l !! 0%nat.
Definition first_price (l : list Instruction) : option Z := price_operand <$> filter is_cu_price l !! 0%nat.

Lemma union_first {A} (f : A → Z) (l : list A) x :
  (f <$> (l ++ [x]) !! 0%nat) = match f <$> l !! 0%nat with Some y => Some y | None => Some (f x) end.
Proof. by destruct l. Qed.

Lemma fee_scan_first l :
  let s := fold_left fee_scan_step l (mkScan None None false) in
  scan_cus s = first_limit l ∧ scan_price s = first_price l.
Proof.
  induction l as [|ix l IH] using rev_ind; [done|]. rewrite fold_left_app. cbn zeta in *. cbn [fold_left].
  destruct IH as [IHc IHp]. unfold fee_scan_step at 1 3. unfold first_limit, first_price in *.
  change (length (ix_data ix) = 5%nat ∧ nth 0 (ix_data ix) 0 = SET_CU_LIMIT) with (is_cu_limit ix).
  change (length (ix_data ix) = 9%nat ∧ nth 0 (ix_data ix) 0 = SET_CU_PRICE) with (is_cu_price ix).
  rewrite !filter_app. destruct (decide (is_cu_limit ix)) as [Hl|Hl].
  - assert (¬ is_cu_price ix) by (unfold is_cu_limit, is_cu_price in *; intros []; lia).
    rewrite !filter_cons_True, (filter_cons_False is_cu_price), !filter_nil, app_nil_r, union_first, <- IHc, <- IHp by done.
    by destruct (scan_cus _) eqn:E; simpl; rewrite ?E.
  - rewrite (filter_cons_False is_cu_limit), filter_nil, app_nil_r, <- IHc by done.
    destruct (decide (is_cu_price ix)).
    + rewrite filter_cons_True, filter_nil, union_first, <- IHp by done.
      by destruct (scan_price _) eqn:E; simpl; rewrite ?E.
    + rewrite filter_cons_False, filter_nil, app_nil_r by done. done.
Qed.

Lemma read_operand_bound n data :
  Forall u8_ok data → (n < length data)%nat → 0 ≤ read_operand n data < 256 ^ Z.of_nat n.
Proof.
  intros Hd Hn. unfold read_operand.
  assert (Hl : length (take n (drop 1 data)) = n) by (rewrite length_take, length_drop; lia).
  rewrite <- Hl at 3. apply from_le_bytes_bound. by apply Forall_take, Forall_drop.
Qed.

Definition ix_ok ix : Prop := Forall u8_ok (ix_data ix).

Lemma first_operand_bound n (P : Instruction → Prop) `{!∀ ix, Decision (P ix)} (l : list Instruction) d x :
  Forall ix_ok l → (∀ ix, P ix → (n < length (ix_data ix))%nat) → 0 ≤ d < 256 ^ Z.of_nat n →
  default d ((λ ix, read_operand n (ix_data ix)) <$> filter P l !! 0%nat) = x → 0 ≤ x < 256 ^ Z.of_nat n.
Proof.
  intros Hl HP Hd <-. destruct (filter P l !! 0%nat) as [ix|] eqn:E; simpl; [|done].
  apply list_elem_of_lookup_2, list_elem_of_filter in E as [Hix Hin].
  apply read_operand_bound; [|by apply HP]. rewrite Forall_forall in Hl. by apply Hl.
Qed.

Lemma total_fee_run v :
  Forall ix_ok (instructions_iter v) →
  let c := default 200000 (first_limit (budget_ixs v)) in
  let p := default 0 (first_price (budget_ixs v)) in
  u32_ok c ∧ u64_ok p ∧
  total_fee v = mkFee p (wrap 64 (5000 * Z.of_nat (length (signatures v)) + Z.min (c * p / 1000000) u64_max)) c.
Proof.
  intros Hix c p. unfold total_fee. fold (budget_ixs v).
  destruct (fee_scan_first (budget_ixs v)) as [Hc Hp]. rewrite Hc, Hp. fold c p.
  assert (Hb : Forall ix_ok (budget_ixs v)) by
    (apply Forall_forall; intros ix [_ Hin]%list_elem_of_filter; apply elem_of_take in Hin as (i & Hin & _);
     rewrite Forall_lookup in Hix; by eapply Hix).
  assert (Hcb : 0 ≤ c < 2 ^ 32).
  { apply (first_operand_bound 4 is_cu_limit (budget_ixs v) 200000); [done| |lia|done]. intros ix [-> _]. lia. }
  assert (Hpb : 0 ≤ p < 2 ^ 64).
  { apply (first_operand_bound 8 is_cu_price (budget_ixs v) 0); [done| |lia|done]. intros ix [-> _]. lia. }
  assert (Hw : wrap 128 (c * p) = c * p) by (apply wrap_id; split; nia).
  rewrite Hw. unfold u64_add, u64_mul. by rewrite wrap_add_l.
Qed.

(** C26. The fee of a transaction: the limit and the price are the operands of the
    first such compute budget instruction among the first eight instructions, with
    200000 and 0 as defaults; the fee is 5000 per signature plus the product in
    millionths, capped at the greatest [u64], as a [u64] sum.  It is the exact sum
    whenever that fits, and then at least the cost of the signatures. *)
Theorem total_fee_spec v :
  Forall ix_ok (instructions_iter v) →
  let c := default 200000 (first_limit (budget_ixs v)) in
  let p := default 0 (first_price (budget_ixs v)) in
  let sigs := Z.of_nat (length (signatures v)) in
  requested_cus (total_fee v) = c ∧ u32_ok c ∧ cu_price (total_fee v) = p ∧ u64_ok p ∧
  fee_total (total_fee v) = wrap 64 (5000 * sigs + Z.min (c * p / 1000000) u64_max) ∧
  (5000 * sigs + c * p / 1000000 < 2 ^ 64 →
   fee_total (total_fee v) = 5000 * sigs + c * p / 1000000 ∧ 5000 * sigs ≤ fee_total (total_fee v)).
Proof.
  intros Hix c p sigs. destruct (total_fee_run v Hix) as (Hc & Hp & ->). fold c p sigs in Hc, Hp |- *.
  cbn [requested_cus cu_price fee_total]. split_and!; [done..|]. unfold u64_max. intros Hfit.
  assert (0 ≤ c * p / 1000000) by (apply Z.div_pos; [|lia]; unfold u32_ok, u64_ok, in_u in *; nia).
  rewrite Z.min_l, wrap_id by (unfold in_u; lia). lia.
Qed.

(** The sum is not capped, so it wraps: a transaction with one signature that asks
    for the greatest limit at the greatest price, and so offers the greatest fee, is
    taken to pay 4999 lamports, less than the cost of its signature. *)
Theorem greatest_fee_wraps v :
  Forall ix_ok (instructions_iter v) → length (signatures v) = 1%nat →
  first_limit (budget_ixs v) = Some (2 ^ 32 - 1) → first_price (budget_ixs v) = Some u64_max →
  fee_total (total_fee v) = 4999.
Proof.
  intros Hix Hsig Hl Hp. destruct (total_fee_run v Hix) as (_ & _ & ->). rewrite Hsig, Hl, Hp. reflexivity.
Qed.
End Fee.

(** ** Classification of packets *)
Inductive packet_class `{ViewOps} : Type :=
| Rejected (e : PacketProcessorError)
| Unparsable (ip : Ipv4Addr)
| Candidate (ip : Ipv4Addr) (v : sanitized_view) (sig payer : list Z).

Section Classify.
Context `{OrderedFloatLaws} `{SokobanLaws} `{PacketOps} `{HashOps} `{ViewLaws}.
Context {SIGNERS IPS : nat} (CACHE_SIZE : nat).
Abbreviation state := (proc_state SIGNERS IPS).
Implicit Types (p : Packet) (rs : option (LRUCache Z ())) (h : xxHasher) (st : state)
  (l : list (Z * QoSPartialMeta)).

Definition classify p rs : packet_class :=
  match pkt_addr (pkt_meta p) with
  | V6 _ => Rejected AddrNotIpv4
  | V4 ip =>
     if decide (Z.of_nat PACKET_DATA_SIZE < pkt_size (pkt_meta p)) then Rejected InvalidMetadata
     else match packet_data p with
     | None => Rejected NonTransactionPacketError
     | Some d =>
        match try_new_unsanitized d with
        | None => Unparsable ip
        | Some u =>
           match sanitize u with
           | None => Rejected FailedSanitizeError
           | Some v =>
              match signatures v !! 0%nat, static_account_keys v !! 0%nat with
              | Some sig, Some payer =>
                 if is_recent rs (u64_key sig) then Rejected RecentlyProcessedError
                 else Candidate ip v sig payer
              | _, _ => Rejected InvalidMetadata
              end
           end
        end
     end
  end.

(** The counter of each error. *)
Definition error_counter (e : PacketProcessorError) : counter :=
  match e with
  | AddrNotIpv4 => NonIpv4
  | NonTransactionPacketError => InvalidPacketData
  | FailedTransactionView => FailedView
  | FailedSanitizeError => FailedSanitize
  | InvalidMetadata => InvalidMetaSize
  | DuplicatePacket => DuplicatePackets
  | RecentlyProcessedError => RecentlyProcessed
  end.

Record proc_inv st l : Prop := {
  inv_model : model_wf (qos_model st);
  inv_metas : lru_inv CACHE_SIZE (qos_tx_partial_metas st) l;
  inv_stats : stats_ok (stats st);
}.

(** What is remembered of a candidate, and what is handed on. *)
Definition candidate_meta (ip : Ipv4Addr) (v : sanitized_view) (payer : list Z) : QoSPartialMeta :=
  partial_meta_new ip payer (fee_total (total_fee v)) (requested_cus (total_fee v)).
Definition candidate_scored st p ip v (sig payer : list Z) : ScoredTransaction :=
  mkScored (packet_score (qos_model st) (candidate_meta ip v payer)) (u64_key sig) p (ip_key ip).

Lemma classify_candidate p rs ip v sig payer :
  classify p rs = Candidate ip v sig payer →
  pkt_addr (pkt_meta p) = V4 ip ∧ pkt_size (pkt_meta p) ≤ Z.of_nat PACKET_DATA_SIZE ∧
  is_recent rs (u64_key sig) = false.
Proof. unfold classify. intros Hc. repeat case_match; simplify_eq; split_and!; (done || lia). Qed.

(** What sigverify can rely on: an IPv4 packet of a valid size whose data parse and
    pass the checks. *)
Record forwardable p : Prop := {
  fw_ok : packet_ok p;
  fw_addr : ∃ ip, pkt_addr (pkt_meta p) = V4 ip;
  fw_size : pkt_size (pkt_meta p) ≤ Z.of_nat PACKET_DATA_SIZE;
  fw_view : ∃ d u v, packet_data p = Some d ∧ try_new_unsanitized d = Some u ∧ sanitize u = Some v;
}.

Lemma candidate_forwardable p rs ip v sig payer :
  packet_ok p → classify p rs = Candidate ip v sig payer → forwardable p.
Proof.
  intros Hok Hc. destruct (classify_candidate _ _ _ _ _ _ Hc) as (Ha & Hs & _). split; [done|by eexists|done|].
  unfold classify in Hc. repeat case_match; simplify_eq; eauto 10.
Qed.

Lemma candidate_hash h p rs ip v sig payer :
  packet_ok p → classify p rs = Candidate ip v sig payer → ∃ key, packet_hash h p = Ret key.
Proof.
  intros Hok (Ha & Hs & _)%classify_candidate. pose proof (ok_size _ Hok) as [Hpos _]. unfold packet_hash.
  rewrite (packet_preimage_run p ip (Z.to_nat (pkt_size (pkt_meta p)))) by (done || lia). eauto.
Qed.

Lemma put_dup_flag N (c : LRUCache Z QoSPartialMeta) l k v :
  (0 < N)%nat → lru_inv N c l →
  (spec_put N k v l).1 = (None, true) ∧ k ∈ l.*1 ∨ (∃ o, (spec_put N k v l).1 = (o, false)) ∧ k ∉ l.*1.
Proof.
  intros HN Hi. unfold spec_put. destruct (assoc k l) eqn:E.
  - left. split; [done|]. destruct (decide (k ∈ l.*1)) as [|Hk]; [done|]. apply assoc_None in Hk. congruence.
  - right. apply assoc_None in E. split; [|done]. destruct (decide (length l = N)); eauto.
Qed.

(** The code agrees with the classification. *)
Lemma process_run p rs h st l :
  (0 < CACHE_SIZE)%nat → packet_ok p → proc_inv st l →
  match classify p rs with
  | Rejected e => try_process_packet CACHE_SIZE p rs h st = Ret (Err e, count (error_counter e) (count TotalPackets st))
  | Unparsable ip =>
     try_process_packet CACHE_SIZE p rs h st =
     Ret (Err FailedTransactionView,
          count FailedView (set_model (count TotalPackets st) (ip_feedback (qos_model st) (to_bits ip))))
  | Candidate ip v sig payer =>
     ∃ key c', packet_hash h p = Ret key ∧
       lru_inv CACHE_SIZE c' (spec_put CACHE_SIZE key (candidate_meta ip v payer) l).2 ∧
       try_process_packet CACHE_SIZE p rs h st =
       Ret (if decide (key ∈ l.*1)
            then (Err DuplicatePacket, count DuplicatePackets (set_metas (count TotalPackets st) c'))
            else (Ok (candidate_scored st p ip v sig payer), set_metas (count TotalPackets st) c'))
  end.
Proof.
  intros HN Hok [_ Hl _]. pose proof (candidate_hash h p rs) as Hhash. unfold classify, try_process_packet, parse_packet in *.
  destruct (pkt_addr (pkt_meta p)) as [ip|]; [|done]. case_decide as Hs; [done|].
  destruct (packet_data p) as [d|]; cbn [fmap option_fmap option_map]; [|done].
  destruct (try_new_unsanitized d) as [u|]; [|done]. destruct (sanitize u) as [v|] eqn:Hu; [|done].
  pose proof (view_signed _ _ Hu) as Hsig. pose proof (view_keys _ _ Hu) as Hkeys. unfold fee_payer.
  destruct (signatures v) as [|sig sigs]; [done|]. destruct (static_account_keys v) as [|payer keys]; [simpl in Hkeys; lia|].
  cbn [lookup list_lookup unwrap] in *. rewrite bind_Ret. unfold sig_bytes.
  destruct (is_recent rs (u64_key sig)); [done|].
  destruct (Hhash ip v sig payer Hok eq_refl) as (key & ->). rewrite bind_Ret. exists key.
  destruct (put_run CACHE_SIZE _ l key (candidate_meta ip v payer) HN Hl) as (c' & Hput & Hl').
  exists c'. split_and!; [done..|]. cbv zeta. fold (candidate_meta ip v payer).
  change (qos_tx_partial_metas (count TotalPackets st)) with (qos_tx_partial_metas st). rewrite Hput, bind_Ret.
  destruct (put_dup_flag CACHE_SIZE _ l key (candidate_meta ip v payer) HN Hl) as [[-> Hk]|[[o ->] Hk]].
  - by rewrite decide_True.
  - rewrite decide_False by done. by destruct o.
Qed.

(** Whatever is accepted can be forwarded, as it came. *)
Lemma process_forwardable p rs h st l t st' :
  (0 < CACHE_SIZE)%nat → packet_ok p → proc_inv st l →
  try_process_packet CACHE_SIZE p rs h st = Ret (Ok t, st') → forwardable (st_packet t) ∧ st_packet t = p.
Proof.
  intros HN Hok Hinv Hrun. pose proof (process_run p rs h st l HN Hok Hinv) as Hp.
  destruct (classify p rs) as [e|ip|ip v sig payer] eqn:Hc; [congruence..|].
  destruct Hp as (key & c' & _ & _ & E). rewrite E in Hrun. case_decide; [congruence|].
  injection Hrun as <- _. cbn [candidate_scored st_packet]. split; [|done]. by eapply candidate_forwardable.
Qed.

(** The counter a result is counted under, besides the total. *)
Definition result_counter {A} (r : result A PacketProcessorError) : option counter :=
  match r with Ok _ => None | Err e => Some (error_counter e) end.

Lemma process_counts p rs h st l :
  (0 < CACHE_SIZE)%nat → packet_ok p → proc_inv st l →
  ∃ r st' ops, try_process_packet CACHE_SIZE p rs h st = Ret (r, st') ∧
    proc_inv st' (spec_run CACHE_SIZE l ops).2 ∧ (length ops ≤ 1)%nat ∧ (∀ k, never_pops k ops) ∧
    ∀ c, stat c (stats st') =
      if decide (c = TotalPackets ∨ result_counter r = Some c)
      then u64_add (stat c (stats st)) 1 else stat c (stats st).
Proof.
  intros HN Hok Hinv. pose proof (process_run p rs h st l HN Hok Hinv) as Hrun. destruct Hinv as [Hm Hl Hs].
  assert (Hcnt : ∀ e c, stat c (stat_incr (error_counter e) (stat_incr TotalPackets (stats st))) =
    if decide (c = TotalPackets ∨ Some (error_counter e) = Some c)
    then u64_add (stat c (stats st)) 1 else stat c (stats st)).
  { intros e c. unfold stat_incr. rewrite stat_add_get, !stat_add_get.
    destruct (decide (c = error_counter e)) as [->|Hne].
    - rewrite (decide_False (P := error_counter e = TotalPackets)) by by destruct e. by rewrite decide_True by tauto.
    - destruct (decide (c = TotalPackets)) as [->|]; [by rewrite decide_True by tauto|].
      rewrite decide_False; [done|]. intros [|[=]]; congruence. }
  destruct (classify p rs) as [e|ip|ip v sig payer].
  - eexists _, _, []. split_and!; [exact Hrun|split; [done|done|by repeat apply stats_ok_add]|simpl; lia|intros k; constructor|apply Hcnt].
  - eexists _, _, []. split_and!; [exact Hrun| |simpl; lia|intros k; constructor|apply (Hcnt FailedTransactionView)].
    split; [|done|by repeat apply stats_ok_add]. simpl. split; [|apply Hm]. apply feedback_wf, Hm.
  - destruct Hrun as (key & c' & _ & Hl' & Hrun).
    exists (if decide (key ∈ l.*1) then Err DuplicatePacket else Ok (candidate_scored st p ip v sig payer)).
    eexists _, [OpPut key (candidate_meta ip v payer)]. split_and!.
    + etransitivity; [exact Hrun|]. instantiate (1 := if decide (key ∈ l.*1) then _ else _). by case_decide.
    + simpl. destruct (spec_put _ _ _ _) as [[] l']. case_decide; (split; [done|done|by repeat apply stats_ok_add]).
    + simpl. lia.
    + intros k. by repeat constructor.
    + case_decide; [apply (Hcnt DuplicatePacket)|]. intros c. simpl. unfold stat_incr. rewrite stat_add_get.
      destruct (decide (c = TotalPackets)) as [->|]; [by rewrite decide_True by tauto|].
      rewrite decide_False; [done|]. by intros [?|?].
Qed.

Lemma decide_if_same {A} (P : Prop) `{Decision P} (x : A) : (if decide P then x else x) = x.
Proof. by destruct (decide P). Qed.

Lemma process_all_run ps rs h st l :
  (0 < CACHE_SIZE)%nat → Forall packet_ok ps → proc_inv st l →
  ∃ res st' ops, process_all CACHE_SIZE ps rs h st = Ret (res, st') ∧
    proc_inv st' (spec_run CACHE_SIZE l ops).2 ∧ (length ops ≤ length ps)%nat ∧ (∀ k, never_pops k ops) ∧
    length res = length ps ∧
    ∀ c, stat c (stats st') = wrap 64 (stat c (stats st) +
      if decide (c = TotalPackets) then Z.of_nat (length ps)
      else Z.of_nat (length (filter (λ r, result_counter r = Some c) res))).
Proof.
  intros HN Hps. revert st l. induction Hps as [|p ps Hp Hps IH]; intros st l Hinv; cbn [process_all].
  { exists [], st, []. split_and!; [done..|intros k; constructor|done|].
    intros c. rewrite decide_if_same. symmetry. apply u64_add_0, Hinv. }
  destruct (process_counts p rs h st l HN Hp Hinv) as (r & st1 & ops1 & -> & Hinv1 & Hlen1 & Hpop1 & Hcnt1).
  rewrite bind_Ret. destruct (IH _ _ Hinv1) as (res & st' & ops & -> & Hinv' & Hlen & Hpop & Hres & Hcnt).
  rewrite bind_Ret. exists (r :: res), st', (ops1 ++ ops). split_and!; [done|by rewrite spec_run_app| | | |].
  - rewrite length_app. simpl. lia.
  - intros k. apply Forall_app. split; [apply Hpop1|apply Hpop].
  - simpl. lia.
  - intros c. rewrite Hcnt, Hcnt1. clear Hcnt Hcnt1.
    destruct (decide (c = TotalPackets)) as [->|Hc].
    + rewrite decide_True by tauto. unfold u64_add. cbn [length]. rewrite wrap_add_l. f_equal. lia.
    + destruct (decide (result_counter r = Some c)) as [Hr|Hr].
      * rewrite (decide_True (P := _ ∨ _)), filter_cons_True by tauto. unfold u64_add. cbn [length].
        rewrite wrap_add_l. f_equal. lia.
      * by rewrite (decide_False (P := _ ∨ _)), filter_cons_False by tauto.
Qed.

(** C5. Processing a packet always returns: whatever bytes a packet holds, it neither
    panics nor reaches undefined behaviour, it keeps the tables of the model and the
    cache consistent, and it is counted exactly once: in the total, and under the one
    counter of its error when it is not accepted; no other counter moves. *)
Theorem packet_counted_once p rs h st l :
  (0 < CACHE_SIZE)%nat → packet_ok p → proc_inv st l →
  ∃ r st' l', try_process_packet CACHE_SIZE p rs h st = Ret (r, st') ∧ proc_inv st' l' ∧
    ∀ c, stat c (stats st') =
      if decide (c = TotalPackets ∨ result_counter r = Some c)
      then u64_add (stat c (stats st)) 1 else stat c (stats st).
Proof.
  intros HN Hok Hinv. destruct (process_counts p rs h st l HN Hok Hinv) as (r & st' & ops & ? & ? & _ & _ & ?). eauto 10.
Qed.

(** C6. A packet is accepted exactly when it passes every check and its hash is not in
    the cache, and it is then handed on with its score; it is reported as a duplicate
    exactly when it passes every check and its hash is in the cache.  Either way the
    model is left alone and the cache holds its metadata under its hash. *)
Theorem packet_accepted p rs h st l ip v sig payer :
  (0 < CACHE_SIZE)%nat → packet_ok p → proc_inv st l → classify p rs = Candidate ip v sig payer →
  ∃ key st', packet_hash h p = Ret key ∧
    try_process_packet CACHE_SIZE p rs h st =
      Ret (if contains (qos_tx_partial_metas st) key then Err DuplicatePacket
           else Ok (mkScored (of_mul (_forward (qos_model st) (ip_key ip) payer)
                       (f64_div (f64_of_uint (fee_total (total_fee v)))
                                (f64_of_uint (Z.max (requested_cus (total_fee v)) 1))))
                     (u64_key sig) p (ip_key ip)), st') ∧
    qos_model st' = qos_model st ∧ contains (qos_tx_partial_metas st') key = true ∧
    ∃ c, get (qos_tx_partial_metas st') key = Ret (Some (candidate_meta ip v payer), c).
Proof.
  intros HN Hok Hinv Hc. pose proof (process_run p rs h st l HN Hok Hinv) as Hrun. rewrite Hc in Hrun.
  destruct Hrun as (key & c' & Hkey & Hl' & Hrun). exists key.
  rewrite (contains_run _ _ _ key (inv_metas _ _ Hinv)), bool_decide_decide. set (l' := (spec_put _ _ _ _).2) in *.
  assert (Hhead : ∃ l2, l' = (key, candidate_meta ip v payer) :: l2).
  { unfold l', spec_put. by destruct (assoc key l), (decide (length l = CACHE_SIZE)); eexists. }
  destruct Hhead as [l2 Hhead].
  assert (Hin : contains c' key = true) by
    (rewrite (contains_run _ _ _ key Hl'), Hhead; apply bool_decide_true; set_solver).
  destruct (get_run _ _ _ key Hl') as (c'' & Hget & _). rewrite Hhead in Hget. unfold spec_get in Hget.
  assert (Ha : assoc key ((key, candidate_meta ip v payer) :: l2) = Some (candidate_meta ip v payer)) by
    apply lookup_insert_eq. rewrite Ha in Hget.
  destruct (decide (key ∈ l.*1)); eexists; (split; [done|split; [exact Hrun|]]); eauto.
Qed.

(** C7. No packet is accepted twice while it is remembered: after it was accepted, and
    with fewer packets than the cache has room for in between, it is reported as a
    duplicate. *)
Theorem accepted_once p rs h st l t st1 ps :
  (0 < CACHE_SIZE)%nat → packet_ok p → Forall packet_ok ps → proc_inv st l → (length ps < CACHE_SIZE)%nat →
  try_process_packet CACHE_SIZE p rs h st = Ret (Ok t, st1) →
  ∃ res st2 st3, process_all CACHE_SIZE ps rs h st1 = Ret (res, st2) ∧
    try_process_packet CACHE_SIZE p rs h st2 = Ret (Err DuplicatePacket, st3).
Proof.
  intros HN Hok Hps Hinv Hlen Hacc.
  destruct (process_counts p rs h st l HN Hok Hinv) as (r & st1' & ops1 & Hrun1 & Hinv1 & _).
  rewrite Hacc in Hrun1. injection Hrun1 as <- <-.
  pose proof (process_run p rs h st l HN Hok Hinv) as Hrun. rewrite Hacc in Hrun.
  destruct (classify p rs) as [e|ip|ip v sig payer] eqn:Hc; [done|done|].
  destruct Hrun as (key & c' & Hkey & Hl' & Hrun). case_decide as Hnew; [done|]. injection Hrun as -> ->.
  set (l1 := (spec_put CACHE_SIZE key _ l).2) in *.
  destruct (process_all_run ps rs h (set_metas (count TotalPackets st) c') l1) as
    (res & st2 & ops & Hall & Hinv2 & Hops & Hpop & _); [done|done| |].
  { split; [apply Hinv|done|]. apply stats_ok_add, Hinv. }
  exists res, st2.
  assert (Hin : key ∈ (spec_run CACHE_SIZE l1 ops).2.*1) by
    (eapply put_stays; [done|apply Hinv|done|lia]).
  pose proof (process_run p rs h st2 _ HN Hok Hinv2) as Hrun2. rewrite Hc in Hrun2.
  destruct Hrun2 as (key2 & c2 & Hkey2 & _ & Hrun2). rewrite Hkey in Hkey2. injection Hkey2 as <-.
  rewrite decide_True in Hrun2 by done. eauto.
Qed.

Definition error_counters : list counter :=
  [NonIpv4; InvalidPacketData; FailedView; FailedSanitize; InvalidMetaSize; DuplicatePackets; RecentlyProcessed].
Abbreviation presult := (result ScoredTransaction PacketProcessorError).
Definition is_ok (r : presult) : Prop := match r with Ok _ => True | Err _ => False end.
#[global] Instance is_ok_dec r : Decision (is_ok r).
Proof. destruct r; apply _. Defined.
Definition tally (res : list presult) (c : counter) : Z :=
  Z.of_nat (length (filter (λ r, result_counter r = Some c) res)).
Definition accepted (res : list presult) : Z := Z.of_nat (length (filter is_ok res)).
Definition zsum : list Z → Z := foldr Z.add 0.

Lemma tally_cons r res c :
  tally (r :: res) c = (if decide (result_counter r = Some c) then 1 else 0) + tally res c.
Proof.
  unfold tally. case_decide; [rewrite filter_cons_True by done|rewrite filter_cons_False by done]; cbn [length]; lia.
Qed.

(** Every result is accepted or counted under one of the error counters. *)
Lemma tally_total res : Z.of_nat (length res) = accepted res + zsum (tally res <$> error_counters).
Proof.
  induction res as [|r res IH]; [done|]. unfold error_counters, zsum in *.
  cbn [fmap list_fmap foldr] in *. rewrite !tally_cons. unfold accepted in *.
  destruct r as [t|e].
  - rewrite filter_cons_True by done. cbn [length result_counter]. rewrite !decide_False by done. lia.
  - rewrite filter_cons_False by (intros []). cbn [length result_counter]. destruct e; simpl in *; lia.
Qed.

(** C19. Accounting over a run: starting from cleared counters, after any sequence of
    packets the total is their number, every error counter is the number of packets
    rejected for that reason, and the total is the number of accepted packets plus
    the sum of the seven error counters; the other counters, [non_transaction_packet]
    among them, are still zero. *)
Theorem stats_conservation ps rs h st l :
  (0 < CACHE_SIZE)%nat → Forall packet_ok ps → proc_inv st l → stats st = stats_new →
  Z.of_nat (length ps) < 2 ^ 64 →
  ∃ res st', process_all CACHE_SIZE ps rs h st = Ret (res, st') ∧
    stat TotalPackets (stats st') = Z.of_nat (length ps) ∧
    (∀ c, c ∈ error_counters → stat c (stats st') = tally res c) ∧
    stat TotalPackets (stats st') = accepted res + zsum ((λ c, stat c (stats st')) <$> error_counters) ∧
    (∀ c, c ≠ TotalPackets → c ∉ error_counters → stat c (stats st') = 0).
Proof.
  intros HN Hps Hinv Hnew Hlen.
  destruct (process_all_run ps rs h st l HN Hps Hinv) as (res & st' & ops & Hrun & _ & _ & _ & Hres & Hcnt).
  assert (Htot : stat TotalPackets (stats st') = Z.of_nat (length ps)).
  { rewrite Hcnt, Hnew, stat_new_get, decide_True, Z.add_0_l by done. apply wrap_id. unfold in_u. lia. }
  assert (Htally : ∀ c, c ≠ TotalPackets → stat c (stats st') = tally res c).
  { intros c Hc. rewrite Hcnt, Hnew, stat_new_get, decide_False, Z.add_0_l by done. apply wrap_id. unfold in_u, tally.
    pose proof (length_filter (λ r : presult, result_counter r = Some c) res). lia. }
  assert (Herr : ∀ c, c ∈ error_counters → c ≠ TotalPackets) by (intros ? Hc ->; unfold error_counters in Hc; set_solver).
  exists res, st'. split_and!; [done|done|auto| |].
  - rewrite Htot, <- Hres, tally_total. f_equal. unfold zsum. f_equal.
    apply list_fmap_ext. intros i c Hc%list_elem_of_lookup_2. symmetry. auto.
  - intros c Hc Hnin. rewrite Htally by done. unfold tally.
    destruct (filter _ res) as [|r rest] eqn:E; [done|]. exfalso. apply Hnin.
    assert (Hr : r ∈ r :: rest) by by left. rewrite <- E in Hr. apply list_elem_of_filter in Hr as [Hr _].
    destruct r as [|e]; [done|]. injection Hr as <-. unfold error_counters. destruct e; set_solver.
Qed.

(** C27. A packet whose data does not parse lowers the score of an address, but of the
    wrong one: the feedback is given for the big-endian number of the address, while
    the model knows it under the little-endian one.  The two agree only for addresses
    that read the same in both directions; for every other source the score is left
    as it was. *)
Theorem unparsable_feedback p rs h st l ip :
  (0 < CACHE_SIZE)%nat → packet_ok p → proc_inv st l → classify p rs = Unparsable ip → ipv4_ok ip →
  ∃ st', try_process_packet CACHE_SIZE p rs h st = Ret (Err FailedTransactionView, st') ∧
    qos_model st' = ip_feedback (qos_model st) (to_bits ip) ∧
    (to_bits ip = ip_key ip ↔ oct0 ip = oct3 ip ∧ oct1 ip = oct2 ip) ∧
    (¬ (oct0 ip = oct3 ip ∧ oct1 ip = oct2 ip) →
     lookup_score (ip_key ip) (ip_score (qos_model st')) = lookup_score (ip_key ip) (ip_score (qos_model st))).
Proof.
  intros HN Hok Hinv Hc Hip. pose proof (process_run p rs h st l HN Hok Hinv) as Hrun. rewrite Hc in Hrun.
  assert (Hbits : to_bits ip = ip_key ip ↔ oct0 ip = oct3 ip ∧ oct1 ip = oct2 ip).
  { unfold to_bits, ip_key. change (reverse (octets ip)) with [oct3 ip; oct2 ip; oct1 ip; oct0 ip]. split.
    - intros Heq%from_le_bytes_inj; [|done| |done].
      + injection Heq. auto.
      + by apply (Forall_reverse u8_ok (octets ip)).
    - intros [E1 E2]. unfold octets. by rewrite E1, E2. }
  eexists. split; [exact Hrun|]. split; [done|]. split; [done|]. intros Hne.
  destruct (feedback_wf _ _ _ (to_bits ip) (wf_ip _ (inv_model _ _ Hinv))) as [_ Hlk].
  cbn [count set_model qos_model ip_feedback set_ip_table ip_score]. rewrite Hlk.
  rewrite decide_False; [done|]. intros E. by apply Hne, Hbits.
Qed.
End Classify.

(** ** A concrete parser and the witnesses

    The data [7 ...] is the transaction [demo_view], [8 ...] fails to sanitize, and
    anything else does not parse. *)
Record demo_tx : Type := mkTx { tx_sigs : list (list Z); tx_keys : list (list Z); tx_ixs : list Instruction }.
Definition BUDGET : list Z := replicate 32 9.
Definition demo_view : demo_tx :=
  mkTx [replicate 64 1] [replicate 32 5; BUDGET]
    [mkInstruction 1 (2 :: replicate 4 255); mkInstruction 1 (3 :: replicate 8 255)].
#[local] Instance ref_view : ViewOps := {|
  COMPUTE_BUDGET_ID := BUDGET;
  unsanitized_view := Z;
  sanitized_view := demo_tx;
  try_new_unsanitized d := match d with 7 :: _ => Some 7 | 8 :: _ => Some 8 | _ => None end;
  sanitize b := if decide (b = 7) then Some demo_view else None;
  signatures := tx_sigs; static_account_keys := tx_keys; instructions_iter := tx_ixs;
|}.
#[local] Instance ref_view_laws : ViewLaws.
Proof.
  split; intros u v Hs; simpl in Hs; case_decide; simplify_eq; simpl; [done| |lia].
  repeat constructor; unfold u8_ok, in_u; lia.
Qed.

Section Witnesses.
#[local] Existing Instance ref_ordered_float.
#[local] Existing Instance ref_ordered_float_laws.
#[local] Existing Instance ref_sokoban.
#[local] Existing Instance ref_sokoban_laws.
#[local] Existing Instance ref_packet.
#[local] Existing Instance ref_packet_laws.
#[local] Existing Instance ref_hash.

Definition demo_sview : sanitized_view := demo_view.
Definition demo_state : proc_state 16 16 := mkProc demo_model (new 4) stats_new.
Definition demo_hasher : xxHasher := initialize_with_seed 1.
Definition good_packet (port : Z) : Packet := sample_packet 3 (V4 home) port.
Definition bad_packet : Packet := mkPacket (replicate 1232 0) (sample_meta 3 (V4 home) 80).

Lemma demo_inv : proc_inv 4 demo_state [].
Proof. split; [apply demo_wf|apply new_inv|apply stats_ok_new]. Qed.
Lemma good_packet_ok port : in_u 16 port → packet_ok (good_packet port).
Proof. intros Hp. apply sample_packet_ok; [unfold u64_ok, in_u; lia|apply home_ok|done]. Qed.
Lemma bad_packet_ok : packet_ok bad_packet.
Proof.
  split; try done; [|apply home_ok].
  apply Forall_replicate. unfold u8_ok, in_u. lia.
Qed.

Lemma demo_ixs_ok : Forall ix_ok (instructions_iter demo_sview).
Proof. repeat constructor; unfold u8_ok, in_u; lia. Qed.

Lemma total_fee_spec_witness : requested_cus (total_fee demo_sview) = 2 ^ 32 - 1 ∧ cu_price (total_fee demo_sview) = u64_max.
Proof.
  destruct (total_fee_spec demo_sview demo_ixs_ok) as (Hc & _ & Hp & _). split; [rewrite Hc|rewrite Hp]; vm_compute; reflexivity.
Defined.

Lemma greatest_fee_wraps_witness : fee_total (total_fee demo_sview) = 4999.
Proof.
  apply (greatest_fee_wraps demo_sview demo_ixs_ok); [reflexivity|vm_compute; reflexivity|vm_compute; reflexivity].
Defined.

Lemma packet_counted_once_witness :
  ∃ r st', try_process_packet 4 bad_packet None demo_hasher demo_state = Ret (r, st') ∧
    stat TotalPackets (stats st') = 1.
Proof.
  destruct (packet_counted_once 4 bad_packet None demo_hasher demo_state []) as (r & st' & l' & E & _ & Hc);
    [lia|apply bad_packet_ok|apply demo_inv|]. exists r, st'. split; [exact E|].
  rewrite Hc, decide_True by (left; reflexivity). reflexivity.
Defined.

Lemma packet_accepted_witness :
  ∃ t st', try_process_packet 4 (good_packet 80) None demo_hasher demo_state = Ret (Ok t, st') ∧ st_packet t = good_packet 80.
Proof.
  destruct (packet_accepted 4 (good_packet 80) None demo_hasher demo_state [] home demo_sview
    (replicate 64 1) (replicate 32 5)) as (key & st' & _ & E & _);
    [lia|apply good_packet_ok; unfold in_u; lia|apply demo_inv|reflexivity|].
  change (contains (qos_tx_partial_metas demo_state) key) with (contains (new 4 : LRUCache Z QoSPartialMeta) key) in E.
  rewrite (contains_run _ _ _ key (new_inv 4)) in E. eexists _, st'. split; [exact E|reflexivity].
Defined.

(** Accepted once, and then a duplicate although it comes through another port in
    between. *)
Lemma accepted_once_witness :
  ∃ t st1 res st2 st3, try_process_packet 4 (good_packet 80) None demo_hasher demo_state = Ret (Ok t, st1) ∧
    process_all 4 [good_packet 81; bad_packet] None demo_hasher st1 = Ret (res, st2) ∧
    try_process_packet 4 (good_packet 80) None demo_hasher st2 = Ret (Err DuplicatePacket, st3).
Proof.
  destruct (try_process_packet 4 (good_packet 80) None demo_hasher demo_state) as [[[t|e] st1]| | |] eqn:E;
    try (vm_compute in E; discriminate E).
  destruct (accepted_once 4 (good_packet 80) None demo_hasher demo_state [] t st1 [good_packet 81; bad_packet])
    as (res & st2 & st3 & E2 & E3);
    [lia|apply good_packet_ok; unfold in_u; lia| |apply demo_inv|simpl; lia|exact E|].
  { constructor; [apply good_packet_ok; unfold in_u; lia|]. constructor; [apply bad_packet_ok|constructor]. }
  exists t, st1, res, st2, st3. split; [reflexivity|split; [exact E2|exact E3]].
Defined.

Lemma stats_conservation_witness :
  ∃ res st', process_all 4 [good_packet 80; good_packet 81; bad_packet] None demo_hasher demo_state = Ret (res, st') ∧
    stat TotalPackets (stats st') = 3.
Proof.
  destruct (stats_conservation 4 [good_packet 80; good_packet 81; bad_packet] None demo_hasher demo_state [])
    as (res & st' & E & Ht & _); [lia| |apply demo_inv|reflexivity|simpl; lia|].
  { constructor; [apply good_packet_ok; unfold in_u; lia|].
    constructor; [apply good_packet_ok; unfold in_u; lia|]. constructor; [apply bad_packet_ok|constructor]. }
  exists res, st'. split; [exact E|exact Ht].
Defined.

Lemma unparsable_feedback_witness :
  ∃ st', try_process_packet 4 bad_packet None demo_hasher demo_state = Ret (Err FailedTransactionView, st') ∧
    qos_model st' = ip_feedback demo_model (to_bits home) ∧ to_bits home ≠ ip_key home.
Proof.
  destruct (unparsable_feedback 4 bad_packet None demo_hasher demo_state [] home) as (st' & E & Hm & Hb & _);
    [lia|apply bad_packet_ok|apply demo_inv|reflexivity|apply home_ok|].
  exists st'. split; [exact E|split; [exact Hm|]]. intros Heq. apply Hb in Heq as [Heq _]. vm_compute in Heq. discriminate Heq.
Defined.
End Witnesses.
