(* ===== verification/Wireformat.v ===== *)
(** The format of a transaction on the wire, as the documentation of Solana gives it: the
    signatures, then the message (header, account keys, recent blockhash, instructions),
    every vector preceded by its length in the variable-length encoding [short_vec].

    The crates that write and read this format ([solana_sdk], [bincode],
    [agave_transaction_view]) are not part of the program; what the program relies on is
    stated as laws over [encode] ([WireLaws]).  The file ends with a parser that satisfies
    them. *)
From Stdlib Require Import ZArith Lia.
From stdpp Require Import gmap list.
From S2P Require Import Prelude Wire Core.
Local Open Scope Z_scope.

(** ** The format *)
Record CompiledInstruction : Type := mkCompiled { ci_program : Z; ci_accounts : list Z; ci_data : list Z }.
Record Transaction : Type := mkTransaction {
  tx_signatures : list (list Z);
  tx_header : list Z;
  tx_account_keys : list (list Z);
  tx_blockhash : list Z;
  tx_instructions : list CompiledInstruction;
}.
#[global] Instance compiled_eq_dec : EqDecision CompiledInstruction.
Proof. solve_decision. Defined.
#[global] Instance transaction_eq_dec : EqDecision Transaction.
Proof. solve_decision. Defined.

(** Lengths up to [u16::MAX]: seven bits per byte, least significant first. *)
Definition short_len (n : nat) : list Z :=
  let x := Z.of_nat n in
  if decide (x < 128) then [x]
  else if decide (x < 16384) then [128 + x mod 128; x / 128]
  else [128 + x mod 128; 128 + x / 128 mod 128; x / 16384].

Definition short_vec {A} (enc : A → list Z) (l : list A) : list Z := short_len (length l) ++ concat (enc <$> l).
Definition raw (l : list Z) : list Z := l.
Definition byte (b : Z) : list Z := [b].

Definition encode_instruction (i : CompiledInstruction) : list Z :=
  [ci_program i] ++ short_vec byte (ci_accounts i) ++ short_vec byte (ci_data i).
Definition encode_message (t : Transaction) : list Z :=
  tx_header t ++ short_vec raw (tx_account_keys t) ++ tx_blockhash t ++
  short_vec encode_instruction (tx_instructions t).
Definition encode (t : Transaction) : list Z := short_vec raw (tx_signatures t) ++ encode_message t.

(** What the types promise: bytes, and fields of their fixed sizes. *)
Definition bytes_ok (n : nat) (l : list Z) : Prop := length l = n ∧ Forall u8_ok l.
Definition short {A} (l : list A) : Prop := Z.of_nat (length l) < 65536.
Record instruction_ok (i : CompiledInstruction) : Prop := {
  io_program : u8_ok (ci_program i);
  io_accounts : Forall u8_ok (ci_accounts i);
  io_data : Forall u8_ok (ci_data i);
  io_short : short (ci_accounts i) ∧ short (ci_data i);
}.
Record tx_ok (t : Transaction) : Prop := {
  to_signatures : Forall (bytes_ok 64) (tx_signatures t);
  to_header : bytes_ok 3 (tx_header t);
  to_keys : Forall (bytes_ok 32) (tx_account_keys t);
  to_blockhash : bytes_ok 32 (tx_blockhash t);
  to_instructions : Forall instruction_ok (tx_instructions t);
  to_short : short (tx_signatures t) ∧ short (tx_account_keys t) ∧ short (tx_instructions t);
}.

(** The checks of a sanitized transaction. *)
Definition index_ok (lo hi x : Z) : Prop := lo ≤ x < hi.
Definition tx_sane (t : Transaction) : Prop :=
  let keys := Z.of_nat (length (tx_account_keys t)) in
  match tx_header t with
  | [required; readonly_signed; readonly_unsigned] =>
     required = Z.of_nat (length (tx_signatures t)) ∧ required ≤ keys ∧ readonly_signed < required ∧
     readonly_unsigned ≤ keys - required ∧
     Forall (λ i, index_ok 1 keys (ci_program i) ∧ Forall (index_ok 0 keys) (ci_accounts i)) (tx_instructions t)
  | _ => False
  end.
#[global] Instance index_ok_dec lo hi x : Decision (index_ok lo hi x).
Proof. unfold index_ok. apply _. Defined.
#[global] Instance tx_sane_dec t : Decision (tx_sane t).
Proof. unfold tx_sane. repeat case_match; apply _. Defined.

(** ** What the crates promise *)
Definition view_of (i : CompiledInstruction) : Instruction := mkInstruction (ci_program i) (ci_data i).

(** [bincode::deserialize::<Transaction>]. *)
Class BincodeOps : Type := bincode_deserialize : list Z → option Transaction.

Class WireLaws `{ViewOps} `{BincodeOps} : Prop := {
  deserialize_encode t : tx_ok t → bincode_deserialize (encode t) = Some t;
  view_encode t :
    tx_ok t → tx_sane t →
    ∃ u v, try_new_unsanitized (encode t) = Some u ∧ sanitize u = Some v ∧
      signatures v = tx_signatures t ∧ static_account_keys v = tx_account_keys t ∧
      instructions_iter v = view_of <$> tx_instructions t;
  view_empty : try_new_unsanitized [] = None;
  compute_budget_bytes : bytes_ok 32 COMPUTE_BUDGET_ID;
}.

(** ** A parser of the format: what it reads and what is left *)
Definition reader (A : Type) : Type := list Z → option (A * list Z).
Definition read_byte : reader Z := λ l, match l with b :: l => Some (b, l) | [] => None end.
Definition read_raw (n : nat) : reader (list Z) := λ l,
  if decide (n ≤ length l)%nat then Some (take n l, drop n l) else None.
Definition read_len : reader nat := λ l,
  '(a, l) ← read_byte l;
  if decide (a < 128) then Some (Z.to_nat a, l) else
  '(b, l) ← read_byte l;
  if decide (b < 128) then Some (Z.to_nat (a - 128 + 128 * b), l) else
  '(c, l) ← read_byte l;
  Some (Z.to_nat (a - 128 + 128 * (b - 128) + 16384 * c), l).
Fixpoint read_n {A} (rd : reader A) (n : nat) : reader (list A) := λ l,
  match n with
  | O => Some ([], l)
  | S n => '(x, l) ← rd l; '(xs, l) ← read_n rd n l; Some (x :: xs, l)
  end.
Definition read_vec {A} (rd : reader A) : reader (list A) := λ l,
  '(n, l) ← read_len l; read_n rd n l.
Definition read_instruction : reader CompiledInstruction := λ l,
  '(p, l) ← read_byte l;
  '(a, l) ← read_vec read_byte l;
  '(d, l) ← read_vec read_byte l;
  Some (mkCompiled p a d, l).
Definition read_transaction : reader Transaction := λ l,
  '(sigs, l) ← read_vec (read_raw 64) l;
  '(h, l) ← read_raw 3 l;
  '(keys, l) ← read_vec (read_raw 32) l;
  '(bh, l) ← read_raw 32 l;
  '(ixs, l) ← read_vec read_instruction l;
  Some (mkTransaction sigs h keys bh ixs, l).

(** [rd] reads back what [enc] wrote, whatever follows. *)
Definition inverts {A} (ok : A → Prop) (enc : A → list Z) (rd : reader A) : Prop :=
  ∀ x rest, ok x → rd (enc x ++ rest) = Some (x, rest).

Lemma read_byte_inverts : inverts u8_ok byte read_byte.
Proof. by intros x rest _. Qed.

Lemma read_raw_inverts n : inverts (bytes_ok n) raw (read_raw n).
Proof.
  intros x rest [Hl _]. unfold read_raw, raw. rewrite decide_True by (rewrite length_app; lia).
  by rewrite take_app_length', drop_app_length'.
Qed.

Lemma read_len_inverts : inverts (λ n, Z.of_nat n < 65536) short_len read_len.
Proof.
  intros n rest Hn. unfold short_len, read_len. set (x := Z.of_nat n).
  pose proof (Z.mod_pos_bound x 128 ltac:(lia)). pose proof (Z.div_mod x 128 ltac:(lia)).
  case_decide as H1; [cbn [app read_byte mbind option_bind]; rewrite decide_True by done; unfold x; by rewrite Nat2Z.id|].
  case_decide as H2; cbn [app read_byte mbind option_bind].
  - rewrite decide_False, decide_True by (first [lia|apply Z.div_lt_upper_bound; lia]).
    f_equal. f_equal. unfold x in *. lia.
  - pose proof (Z.mod_pos_bound (x / 128) 128 ltac:(lia)). pose proof (Z.div_mod (x / 128) 128 ltac:(lia)).
    assert (x / 16384 = x / 128 / 128) by (rewrite Z.div_div by lia; done).
    rewrite !decide_False by lia. f_equal. f_equal. unfold x in *. lia.
Qed.

Lemma read_n_inverts {A} (ok : A → Prop) enc rd l rest :
  inverts ok enc rd → Forall ok l → read_n rd (length l) (concat (enc <$> l) ++ rest) = Some (l, rest).
Proof.
  intros Hi Hl. revert rest. induction Hl as [|x l Hx Hl IH]; intros rest; [done|].
  cbn [length read_n fmap list_fmap concat]. rewrite <- app_assoc, Hi by done. cbn [mbind option_bind]. by rewrite IH.
Qed.

Lemma read_vec_inverts {A} (ok : A → Prop) enc rd :
  inverts ok enc rd → inverts (λ l, Forall ok l ∧ short l) (short_vec enc) (read_vec rd).
Proof.
  intros Hi l rest [Hl Hs]. unfold short_vec, read_vec. rewrite <- app_assoc, read_len_inverts by exact Hs.
  cbn [mbind option_bind]. by eapply read_n_inverts.
Qed.

Lemma read_instruction_inverts : inverts instruction_ok encode_instruction read_instruction.
Proof.
  intros [p a d] rest [Hp Ha Hd [Hsa Hsd]]. unfold encode_instruction, read_instruction. cbn in *.
  rewrite <- app_assoc. rewrite (read_vec_inverts _ _ _ read_byte_inverts) by done. cbn [mbind option_bind].
  by rewrite (read_vec_inverts _ _ _ read_byte_inverts).
Qed.

Lemma read_transaction_inverts : inverts tx_ok encode read_transaction.
Proof.
  intros [sigs h keys bh ixs] rest [Hs Hh Hk Hb Hi (Hs1 & Hs2 & Hs3)].
  unfold encode, encode_message, read_transaction. cbn [tx_signatures tx_header tx_account_keys tx_blockhash tx_instructions] in *.
  rewrite <- !app_assoc.
  rewrite (read_vec_inverts _ _ _ (read_raw_inverts 64)) by done. cbn [mbind option_bind].
  rewrite (read_raw_inverts 3 h) by done. cbn [mbind option_bind].
  rewrite (read_vec_inverts _ _ _ (read_raw_inverts 32)) by done. cbn [mbind option_bind].
  rewrite (read_raw_inverts 32 bh) by done. cbn [mbind option_bind].
  by rewrite (read_vec_inverts _ _ _ read_instruction_inverts).
Qed.

#[global] Instance u8_ok_dec x : Decision (u8_ok x).
Proof. unfold u8_ok, in_u. apply _. Defined.
#[global] Instance bytes_ok_dec n l : Decision (bytes_ok n l).
Proof. unfold bytes_ok. apply _. Defined.
#[global] Instance short_dec {A} (l : list A) : Decision (short l).
Proof. unfold short. apply _. Defined.
#[global] Instance instruction_ok_dec i : Decision (instruction_ok i).
Proof.
  refine (cast_if (decide (u8_ok (ci_program i) ∧ Forall u8_ok (ci_accounts i) ∧ Forall u8_ok (ci_data i) ∧
    short (ci_accounts i) ∧ short (ci_data i)))); [abstract (split; tauto)|abstract (intros []; tauto)].
Defined.
#[global] Instance tx_ok_dec t : Decision (tx_ok t).
Proof.
  refine (cast_if (decide (Forall (bytes_ok 64) (tx_signatures t) ∧ bytes_ok 3 (tx_header t) ∧
    Forall (bytes_ok 32) (tx_account_keys t) ∧ bytes_ok 32 (tx_blockhash t) ∧
    Forall instruction_ok (tx_instructions t) ∧
    short (tx_signatures t) ∧ short (tx_account_keys t) ∧ short (tx_instructions t))));
    [abstract (split; tauto)|abstract (intros []; tauto)].
Defined.

(** The parser as a concrete instance: trailing bytes are refused, and sanitizing makes all
    checks. *)
Definition parse_all (l : list Z) : option Transaction :=
  match read_transaction l with Some (t, []) => Some t | _ => None end.
Definition ref_bincode : BincodeOps := parse_all.
Definition ref_wire_view : ViewOps := {|
  COMPUTE_BUDGET_ID :=
    [3; 6; 70; 111; 229; 33; 23; 50; 255; 236; 173; 186; 114; 195; 155; 231;
     188; 140; 229; 187; 197; 247; 18; 107; 44; 67; 155; 58; 64; 0; 0; 0];
  unsanitized_view := Transaction;
  sanitized_view := Transaction;
  try_new_unsanitized := parse_all;
  sanitize t := if decide (tx_ok t ∧ tx_sane t) then Some t else None;
  signatures := tx_signatures;
  static_account_keys := tx_account_keys;
  instructions_iter t := view_of <$> tx_instructions t;
|}.

Lemma parse_all_encode t : tx_ok t → parse_all (encode t) = Some t.
Proof.
  intros Ht. unfold parse_all. rewrite <- (app_nil_r (encode t)). by rewrite read_transaction_inverts.
Qed.

Lemma ref_wire_laws : @WireLaws ref_wire_view ref_bincode.
Proof.
  split.
  - exact parse_all_encode.
  - intros t Ht Hs. exists t, t. cbn. rewrite parse_all_encode by done. by rewrite decide_True.
  - done.
  - split; [done|]. by apply (bool_decide_unpack _).
Qed.

Lemma ref_wire_view_laws : @ViewLaws ref_wire_view.
Proof.
  assert (Hs : ∀ u v : Transaction, @sanitize ref_wire_view u = Some v → tx_ok v ∧ tx_sane v).
  { intros u v. cbn. case_decide; [|done]. by intros [= ->]. }
  split; intros u v Huv; destruct (Hs u v Huv) as [[Hsig Hh _ _ _ _] Hsane]; cbn.
  - unfold tx_sane in Hsane. destruct Hh as [_ Hh8]. destruct (tx_header v) as [|r [|s [|n [|]]]]; try done.
    destruct Hsane as (Hr & _ & Hlt & _). inversion Hh8 as [|? ? _ Hh8']. inversion Hh8' as [|? ? [Hs0 _] _]. subst.
    intros E. rewrite E in Hlt. simpl in Hlt. lia.
  - exact Hsig.
  - unfold tx_sane in Hsane. destruct (tx_header v) as [|r [|s [|n [|]]]]; try done. lia.
Qed.

(** Boundaries of the length encoding. *)
Example short_len_bounds :
  short_len 0 = [0] ∧ short_len 127 = [127] ∧ short_len 128 = [128; 1] ∧ short_len 259 = [131; 2] ∧
  short_len (Z.to_nat 16383) = [255; 127] ∧ short_len (Z.to_nat 16384) = [128; 128; 1] ∧
  short_len (Z.to_nat 65535) = [255; 255; 3].
Proof. vm_compute. done. Qed.
