(* ===== verification/Banking.v ===== *)
(** The priority queue in front of the sigverify stage ([qos-core/src/banking.rs]):
    [TransactionContainer] keeps the scored transactions and, every 100 milliseconds
    at most, hands the best ones to the channel to sigverify. *)
From Stdlib Require Import ZArith Lia Sorting.Sorted.
From stdpp Require Import gmap list sorting.
From S2P Require Import Prelude Lru F64 MinMax Wire Stats Timer Que Core.
Local Open Scope Z_scope.

Section Code.
Context `{OrderedFloatOps} `{HeapOps} `{QueOps} `{PacketOps}.

Definition HEAP_SIZE : nat := Z.to_nat 16384.
Definition SEND_INTERVAL_MS : Z := 100.

Record TransactionContainer : Type := mkContainer {
  priority_queue_heap : MinMaxHeap ScoredTransaction;
  transmitter : option (producer PacketBytes);
  last_send : Timer;
  max_send : Z;
}.
Definition set_heap (c : TransactionContainer) h := mkContainer h (transmitter c) (last_send c) (max_send c).
Definition set_transmitter (c : TransactionContainer) t := mkContainer (priority_queue_heap c) t (last_send c) (max_send c).
Definition set_last_send (c : TransactionContainer) t := mkContainer (priority_queue_heap c) (transmitter c) t (max_send c).

Definition container_new (transmitter : option (producer PacketBytes)) (target_pps : Z) (w : Machine)
    : TransactionContainer * Machine :=
  let '(last_send, w) := timer_new w in
  (mkContainer (mm_new HEAP_SIZE) transmitter last_send (u64_mul target_pps SEND_INTERVAL_MS / 1000), w).

Definition beat (c : TransactionContainer) : TransactionContainer :=
  match transmitter c with
  | Some transmitter => set_transmitter c (Some (prod_beat transmitter))
  | None => c
  end.

Definition queue (c : TransactionContainer) (scored_transaction : ScoredTransaction) (stats : Stats)
    : outcome (TransactionContainer * Stats) :=
  '(o, h) ← mm_push HEAP_SIZE scored_transaction (priority_queue_heap c);
  let is_full := bool_decide (is_Some o) in
  Ret (set_heap c h, if is_full then stat_incr LeakedPriority stats else stats).

(** [next] of [get_max_values().filter(...)]: transactions that were processed
    recently are counted and dropped. *)
Fixpoint filter_next (fuel : nat) (recent_signatures : option (LRUCache Z ()))
    (h : MinMaxHeap ScoredTransaction) (stats : Stats)
    : outcome (option ScoredTransaction * MinMaxHeap ScoredTransaction * Stats) :=
  match fuel with
  | O => NoFuel
  | S fuel =>
     match pop_desc_next h with
     | (None, h) => Ret (None, h, stats)
     | (Some tx, h) =>
        if is_recent recent_signatures (st_sig_key tx)
        then filter_next fuel recent_signatures h (stat_incr RecentlyProcessedQueued stats)
        else Ret (Some tx, h, stats)
     end
  end.

(** [next] of the whole iterator, [....take(n)]; the heap has as many elements as the
    filter can look at. *)
Definition high_prio_next (recent_signatures : option (LRUCache Z ())) (n : Z)
    (h : MinMaxHeap ScoredTransaction) (stats : Stats)
    : outcome (option ScoredTransaction * Z * MinMaxHeap ScoredTransaction * Stats) :=
  if decide (n = 0) then Ret (None, n, h, stats)
  else
    '(o, h, stats) ← filter_next (S (mm_len h)) recent_signatures h stats;
    Ret (o, n - 1, h, stats).

(** [for transaction in high_prio_iterator { push; sent += 1 }]. *)
Fixpoint send_loop (fuel : nat) (recent_signatures : option (LRUCache Z ())) (n : Z)
    (h : MinMaxHeap ScoredTransaction) (stats : Stats) (tx_mut : producer PacketBytes) (sent : Z)
    : outcome (MinMaxHeap ScoredTransaction * Stats * producer PacketBytes * Z) :=
  match fuel with
  | O => NoFuel
  | S fuel =>
     '(o, n, h, stats) ← high_prio_next recent_signatures n h stats;
     match o with
     | None => Ret (h, stats, tx_mut, sent)
     | Some transaction =>
        send_loop fuel recent_signatures n h stats (prod_push (packet_bytes transaction) tx_mut) (u64_add sent 1)
     end
  end.

Definition maybe_transmit (c : TransactionContainer) (stats : Stats) (recent_signatures : LRUCache Z ())
    (w : Machine) : outcome (TransactionContainer * Stats * Machine) :=
  match transmitter c with
  | None => Panic
  | Some tx_mut =>
     '(elapsed, w) ← elapsed_ms (last_send c) w;
     if decide (SEND_INTERVAL_MS ≤ elapsed) then
       '(h, stats, tx_mut, sent) ←
         send_loop (S (mm_len (priority_queue_heap c))) (Some recent_signatures) (max_send c)
           (priority_queue_heap c) stats tx_mut 0;
       let tx_mut := prod_sync tx_mut in
       let c := set_transmitter (set_heap c h) (Some tx_mut) in
       if decide (0 < sent) then
         let stats := stat_add BankingTransmissions sent stats in
         let '(t, w) := timer_new w in
         Ret (set_last_send c t, stats, w)
       else Ret (c, stats, w)
     else Ret (c, stats, w)
  end.

(** [maybe_retrieve] hands out the iterator, here the number of elements it may still
    yield; [retrieve_next] is its [next], which works on the borrowed heap and
    counters. *)
Definition maybe_retrieve (c : TransactionContainer) (w : Machine)
    : outcome (option Z * TransactionContainer * Machine) :=
  '(elapsed, w) ← elapsed_ms (last_send c) w;
  if decide (SEND_INTERVAL_MS ≤ elapsed) then
    let high_prio_iterator := max_send c in
    let '(t, w) := timer_new w in
    Ret (Some high_prio_iterator, set_last_send c t, w)
  else Ret (None, c, w).

Definition retrieve_next (recent_signatures : option (LRUCache Z ())) (n : Z)
    (c : TransactionContainer) (stats : Stats)
    : outcome (option ScoredTransaction * Z * TransactionContainer * Stats) :=
  '(o, n, h, stats) ← high_prio_next recent_signatures n (priority_queue_heap c) stats;
  Ret (o, n, set_heap c h, stats).

(** A caller that takes everything the iterator yields. *)
Fixpoint retrieve_all (fuel : nat) (recent_signatures : option (LRUCache Z ())) (n : Z)
    (c : TransactionContainer) (stats : Stats)
    : outcome (list ScoredTransaction * TransactionContainer * Stats) :=
  match fuel with
  | O => NoFuel
  | S fuel =>
     '(o, n, c, stats) ← retrieve_next recent_signatures n c stats;
     match o with
     | None => Ret ([], c, stats)
     | Some tx =>
        '(l, c, stats) ← retrieve_all fuel recent_signatures n c stats;
        Ret (tx :: l, c, stats)
     end
  end.
End Code.
