(* ===== verification/BankingProps.v ===== *)
(** Properties of the priority queue in front of sigverify: which transactions a batch
    consists of, that none is lost, when batches are sent, and the bounds on both. *)
From Stdlib Require Import ZArith Lia Sorting.Sorted.
From stdpp Require Import gmap list sorting.
From S2P Require Import Prelude Lru LruSpec F64 MinMax Wire Stats Timer Que Core Banking.
Local Open Scope Z_scope.

Section Facts.
Context `{OrderedFloatLaws} `{HeapLaws} `{QueLaws} `{PacketOps}.
Abbreviation heap_t := (MinMaxHeap ScoredTransaction).
Implicit Types (h : heap_t) (t : ScoredTransaction) (rs : option (LRUCache Z ())) (p : producer PacketBytes)
  (s : Stats) (full rest sent : list ScoredTransaction).

(** The transactions a heap yields, one [next] after the other. *)
Inductive drain : heap_t → list ScoredTransaction → Prop :=
| drain_nil h : pop_desc_next h = (None, h) → drain h []
| drain_cons h t h' l : pop_desc_next h = (Some t, h') → drain h' l → drain h (t :: l).

(** [a] comes before [b]: its score is not smaller. *)
Definition before (a b : ScoredTransaction) : Prop := of_cmp (st_score b) (st_score a) ≠ Gt.

Lemma pop_desc_next_run h :
  match pop_desc_next h with
  | (Some t, h') => mm_contents h ≡ₚ t :: mm_contents h' ∧ ∀ t', t' ∈ mm_contents h' → before t t'
  | (None, h') => mm_contents h = [] ∧ h' = h
  end.
Proof.
  unfold pop_desc_next, mm_contents. pose proof (pop_max_contents (inner h)) as Hmax.
  destruct (heap_pop_max (inner h)) as [[t|] i]; [exact Hmax|]. destruct Hmax as [? ->]. by destruct h.
Qed.

Lemma drain_exists h : ∃ full, drain h full ∧ full ≡ₚ mm_contents h ∧ StronglySorted before full.
Proof.
  remember (length (mm_contents h)) as n eqn:Hn. revert h Hn.
  induction n as [|n IH]; intros h Hn; pose proof (pop_desc_next_run h) as Hpop;
    destruct (pop_desc_next h) as [[t|] h'] eqn:E.
  - destruct Hpop as [Hp _]. apply Permutation_length in Hp. simpl in Hp. lia.
  - destruct Hpop as [Hc ->]. exists []. rewrite Hc. repeat constructor. done.
  - destruct Hpop as [Hp Hle]. pose proof (Permutation_length Hp) as Hl. simpl in Hl.
    destruct (IH h') as (l & Hd & Hlp & Hs); [lia|]. exists (t :: l). split_and!.
    + by econstructor.
    + by rewrite Hp, Hlp.
    + constructor; [done|]. apply Forall_forall. intros t' Ht'. apply Hle. by rewrite <- Hlp.
  - destruct Hpop as [Hc _]. rewrite Hc in Hn. done.
Qed.

Lemma drain_contents h full : drain h full → full ≡ₚ mm_contents h.
Proof.
  induction 1 as [h E|h t h' l E _ IH]; pose proof (pop_desc_next_run h) as Hpop; rewrite E in Hpop.
  - by destruct Hpop as [-> _].
  - destruct Hpop as [-> _]. by rewrite IH.
Qed.

Lemma drain_fun h l1 l2 : drain h l1 → drain h l2 → l1 = l2.
Proof.
  intros Hd1. revert l2. induction Hd1 as [h E|h t h' l E _ IH]; intros l2 Hd2;
    destruct Hd2 as [h E2|h t2 h2 l2 E2 Hd2]; rewrite E in E2; simplify_eq; [done|].
  f_equal. by apply IH.
Qed.

Lemma drain_len h full : drain h full → mm_len h = length full.
Proof. intros Hd%drain_contents%Permutation_length. unfold mm_len. rewrite len_contents. done. Qed.

(** Not processed recently. *)
Definition fresh rs t : Prop := is_recent rs (st_sig_key t) = false.
#[global] Instance fresh_dec rs t : Decision (fresh rs t).
Proof. unfold fresh. apply _. Defined.

(** The counter of dropped transactions after [k] more of them. *)
Definition dropped (k : nat) s : Stats := Nat.iter k (stat_incr RecentlyProcessedQueued) s.

Lemma dropped_S k s : dropped (S k) s = dropped k (stat_incr RecentlyProcessedQueued s).
Proof. unfold dropped. by rewrite Nat.iter_succ_r. Qed.
Lemma dropped_add j k s : dropped j (dropped k s) = dropped (j + k) s.
Proof. unfold dropped. symmetry. apply Nat.iter_add. Qed.

Lemma filter_next_run rs fuel h s full :
  drain h full → (length full < fuel)%nat →
  ∃ skipped o h' rest, filter_next fuel rs h s = Ret (o, h', dropped (length skipped) s) ∧
    drain h' rest ∧ Forall (λ t, ¬ fresh rs t) skipped ∧
    full = skipped ++ option_list o ++ rest ∧ (∀ t, o = Some t → fresh rs t) ∧ (o = None → rest = []).
Proof.
  revert h s full. induction fuel as [|fuel IH]; intros h s full Hd Hf; [lia|]. cbn [filter_next].
  destruct Hd as [h E|h t h' l E Hd]; rewrite E.
  { exists [], None, h, []. split_and!; by try constructor. }
  simpl in Hf. destruct (is_recent rs (st_sig_key t)) eqn:Hr.
  - destruct (IH h' (stat_incr RecentlyProcessedQueued s) l Hd) as (sk & o & h2 & rest & -> & ? & ? & -> & ? & ?); [lia|].
    exists (t :: sk), o, h2, rest. split_and!; [by rewrite <- dropped_S|done| |done..].
    constructor; [|done]. unfold fresh. by rewrite Hr.
  - exists [], (Some t), h', l. split_and!; [done|done|constructor|done| |done]. by intros ? [= <-].
Qed.

Lemma filter_skipped rs (l : list ScoredTransaction) :
  Forall (λ t, ¬ fresh rs t) l → filter (fresh rs) l = [].
Proof. induction 1; [done|]. by rewrite filter_cons_False. Qed.

(** What remains after a batch: [sent] are the first [n] fresh transactions, and no
    fresh one is lost. *)
Record batch rs (n : nat) full sent (k : nat) rest : Prop := {
  batch_sent : sent = take n (filter (fresh rs) full);
  batch_fresh : filter (fresh rs) full = sent ++ filter (fresh rs) rest;
  batch_count : length full = (length sent + k + length rest)%nat;
  batch_suffix : rest `suffix_of` full;
}.

Definition push_all (l : list ScoredTransaction) p : producer PacketBytes :=
  fold_left (λ p t, prod_push (packet_bytes t) p) l p.

(** One [next] of the bounded iterator. *)
Lemma high_prio_next_run rs (n : nat) h s full :
  drain h full →
  (∃ k h' rest, high_prio_next rs (Z.of_nat n) h s = Ret (None, Z.of_nat (n - 1), h', dropped k s) ∧
    drain h' rest ∧ batch rs n full [] k rest) ∨
  (∃ t k h' rest, high_prio_next rs (Z.of_nat n) h s = Ret (Some t, Z.of_nat (n - 1), h', dropped k s) ∧
    drain h' rest ∧ (0 < n)%nat ∧ (length rest < length full)%nat ∧
    ∀ k' sent rest', batch rs (n - 1) rest sent k' rest' → batch rs n full (t :: sent) (k + k') rest').
Proof.
  intros Hd. unfold high_prio_next. destruct n as [|n]; [|rewrite decide_False by lia].
  { rewrite decide_True by done. left. exists 0%nat, h, full. split_and!; [done|done|]. split; [by rewrite take_0|done|done|reflexivity]. }
  rewrite (drain_len _ _ Hd).
  destruct (filter_next_run rs (S (length full)) h s full Hd) as (sk & o & h' & rest & -> & Hd' & Hsk & Hfull & Ho & Hn); [lia|].
  rewrite bind_Ret. cbn beta iota. replace (Z.of_nat (S n) - 1) with (Z.of_nat (S n - 1)) by lia.
  assert (Hf : filter (fresh rs) full = filter (fresh rs) (option_list o ++ rest)) by
    by rewrite Hfull, filter_app, (filter_skipped _ _ Hsk).
  destruct o as [t|]; [right|left].
  - exists t, (length sk), h', rest. split_and!; [done|done|lia|rewrite Hfull, length_app; simpl; lia|].
    specialize (Ho _ eq_refl). simpl in Hf. rewrite filter_cons_True in Hf by done. intros k' sent rest' [-> Hfr Hc Hs].
    replace (S n - 1)%nat with n in * by lia. split.
    + by rewrite Hf.
    + rewrite Hf. cbn [app]. f_equal. exact Hfr.
    + rewrite Hfull, length_app. simpl. lia.
    + rewrite Hfull. etransitivity; [exact Hs|]. exists (sk ++ [t]). by rewrite <- app_assoc.
  - specialize (Hn eq_refl) as ->. exists (length sk), h', []. split_and!; [done|done|]. simpl in Hf.
    split; [by rewrite Hf|by rewrite Hf|rewrite Hfull, length_app; simpl; lia|apply suffix_nil].
Qed.

Lemma send_loop_run rs (n : nat) fuel h s p full (sent0 : Z) :
  drain h full → (length full < fuel)%nat → 0 ≤ sent0 → sent0 + Z.of_nat (length full) < 2 ^ 64 →
  ∃ sent k h' rest, send_loop fuel rs (Z.of_nat n) h s p sent0 =
      Ret (h', dropped k s, push_all sent p, sent0 + Z.of_nat (length sent)) ∧
    drain h' rest ∧ batch rs n full sent k rest.
Proof.
  revert n h s p full sent0. induction fuel as [|fuel IH]; intros n h s p full sent0 Hd Hf Hs0 Hs1; [lia|].
  cbn [send_loop]. destruct (high_prio_next_run rs n h s full Hd) as
    [(k & h' & rest & -> & Hd' & Hb)|(t & k & h' & rest & -> & Hd' & Hn & Hlt & Hb)]; rewrite bind_Ret; cbn beta iota.
  { exists [], k, h', rest. split_and!; [|done|done]. simpl. by rewrite Z.add_0_r. }
  assert (Hadd : u64_add sent0 1 = sent0 + 1) by (apply wrap_id; unfold in_u; lia). rewrite Hadd.
  destruct (IH (n - 1)%nat h' (dropped k s) (prod_push (packet_bytes t) p) rest (sent0 + 1))
    as (sent & k' & h2 & rest' & -> & Hd2 & Hb2); [done|lia..|].
  exists (t :: sent), (k + k')%nat, h2, rest'. split_and!; [|done|by apply Hb].
  rewrite dropped_add, (Nat.add_comm k'). cbn [length push_all fold_left]. do 2 f_equal. lia.
Qed.

Lemma retrieve_all_run rs (n : nat) fuel (c : TransactionContainer) s full :
  drain (priority_queue_heap c) full → (length full < fuel)%nat →
  ∃ sent k h' rest, retrieve_all fuel rs (Z.of_nat n) c s = Ret (sent, set_heap c h', dropped k s) ∧
    drain h' rest ∧ batch rs n full sent k rest.
Proof.
  revert n c s full. induction fuel as [|fuel IH]; intros n c s full Hd Hf; [lia|].
  cbn [retrieve_all]. unfold retrieve_next. destruct (high_prio_next_run rs n (priority_queue_heap c) s full Hd) as
    [(k & h' & rest & -> & Hd' & Hb)|(t & k & h' & rest & -> & Hd' & Hn & Hlt & Hb)]; rewrite !bind_Ret; cbn beta iota.
  { exists [], k, h', rest. by split_and!. }
  destruct (IH (n - 1)%nat (set_heap c h') (dropped k s) rest) as (sent & k' & h2 & rest' & -> & Hd2 & Hb2); [done|lia|].
  rewrite bind_Ret. cbn beta iota. exists (t :: sent), (k + k')%nat, h2, rest'. split_and!; [|done|by apply Hb].
  by rewrite dropped_add, (Nat.add_comm k').
Qed.

Lemma push_all_pushed l p : pushed (push_all l p) = pushed p ++ (packet_bytes <$> l).
Proof.
  revert p. induction l as [|t l IH]; intros p; simpl; [by rewrite app_nil_r|].
  change (fold_left _ l (prod_push (packet_bytes t) p)) with (push_all l (prod_push (packet_bytes t) p)).
  rewrite IH, pushed_push, <- app_assoc. done.
Qed.

Lemma dropped_get k s c :
  stats_ok s → stat c (dropped k s) =
    if decide (c = RecentlyProcessedQueued) then wrap 64 (stat c s + Z.of_nat k) else stat c s.
Proof.
  intros Hs. destruct (decide (c = RecentlyProcessedQueued)) as [->|Hc]; induction k as [|k IH].
  - symmetry. apply u64_add_0, Hs.
  - change (dropped (S k) s) with (stat_incr RecentlyProcessedQueued (dropped k s)).
    unfold stat_incr. rewrite stat_add_get, decide_True, IH by done.
    unfold u64_add. rewrite wrap_add_l. f_equal. lia.
  - done.
  - change (dropped (S k) s) with (stat_incr RecentlyProcessedQueued (dropped k s)).
    unfold stat_incr. by rewrite stat_add_get, decide_False.
Qed.
End Facts.

Section Props.
Context `{OrderedFloatLaws} `{HeapLaws} `{QueLaws} `{PacketOps}.
Implicit Types (c : TransactionContainer) (t : ScoredTransaction) (rs : LRUCache Z ()) (s : Stats) (w : Machine).

(** The queue has room for one more push, and the rate is a [usize]. *)
Record container_wf c : Prop := {
  wf_heap : (length (mm_contents (priority_queue_heap c)) < HEAP_SIZE)%nat;
  wf_max : 0 ≤ max_send c;
}.

(** The milliseconds [maybe_transmit] sees since the last batch, sent at [t0]. *)
Definition since_last (ticks : Z) w (t0 : Z) : Z := u64_sub (tsc w (tsc_reads w)) t0 / ticks.

Lemma transmit_run ticks c s rs w p (t0 : Z) :
  tuned ticks w → container_wf c → transmitter c = Some p → last_send c = RDTSC t0 →
  ∃ w1, advances w w1 ∧ tsc_reads w1 = S (tsc_reads w) ∧
    (since_last ticks w t0 < 100 → maybe_transmit c s rs w = Ret (c, s, w1)) ∧
    (100 ≤ since_last ticks w t0 →
     ∃ full sent k h' rest w2, drain (priority_queue_heap c) full ∧ drain h' rest ∧
       batch (Some rs) (Z.to_nat (max_send c)) full sent k rest ∧ advances w w2 ∧
       maybe_transmit c s rs w = Ret
         (mkContainer h' (Some (prod_sync (push_all sent p)))
            (if decide (sent = []) then RDTSC t0 else RDTSC (tsc w (tsc_reads w1))) (max_send c),
          (if decide (sent = []) then dropped k s
           else stat_add BankingTransmissions (Z.of_nat (length sent)) (dropped k s)), w2)).
Proof.
  intros Ht [Hlen Hmax] Hp Hl. unfold maybe_transmit. rewrite Hp, Hl.
  destruct (elapsed_ms_run ticks w t0 Ht) as (w1 & -> & Ha1 & Hr1). rewrite bind_Ret. cbn beta iota.
  fold (since_last ticks w t0). exists w1. split_and!; [done|done| |].
  { intros Hlt. unfold SEND_INTERVAL_MS. by rewrite decide_False by lia. }
  intros Hge. unfold SEND_INTERVAL_MS. rewrite decide_True by lia.
  destruct (drain_exists (priority_queue_heap c)) as (full & Hd & Hperm & _).
  pose proof (Permutation_length Hperm) as Hpl. unfold HEAP_SIZE in Hlen.
  rewrite (drain_len _ _ Hd).
  destruct (send_loop_run (Some rs) (Z.to_nat (max_send c)) (S (length full)) _ s p full 0 Hd)
    as (sent & k & h' & rest & Hloop & Hd' & Hb); [lia..|].
  rewrite Z2Nat.id in Hloop by done. rewrite Hloop, bind_Ret. cbn beta iota. rewrite Z.add_0_l. exists full, sent, k, h', rest.
  destruct sent as [|t sent].
  - rewrite decide_False by done. exists w1. split_and!; [done..|]. rewrite decide_True by done.
    rewrite <- Hl. by destruct c.
  - rewrite decide_True by (simpl; lia). destruct (timer_new_run ticks w1) as (w2 & -> & Ha2 & _);
      [by eapply tuned_advances|]. exists w2. rewrite (adv_tsc _ _ Ha1). split_and!; [done..|by etransitivity|done].
Qed.

(** C10. A batch: once 100 milliseconds have passed since the last one, [maybe_transmit]
    publishes exactly the first [max_send] transactions, in descending order of their
    scores, of those queued that were not processed in the meantime.  Every one of
    these is either sent or still queued afterwards, in the order of the queue; the
    others in front of the last one sent are dropped and counted, the batch is
    counted, and the timer restarts only when the batch is not empty. *)
Theorem transmit_batch ticks c s rs w p (t0 : Z) :
  tuned ticks w → container_wf c → stats_ok s → transmitter c = Some p → last_send c = RDTSC t0 →
  100 ≤ since_last ticks w t0 →
  ∃ full sent rest c' s' w' p', maybe_transmit c s rs w = Ret (c', s', w') ∧
    full ≡ₚ mm_contents (priority_queue_heap c) ∧ StronglySorted before full ∧
    sent = take (Z.to_nat (max_send c)) (filter (fresh (Some rs)) full) ∧
    filter (fresh (Some rs)) full = sent ++ filter (fresh (Some rs)) rest ∧
    rest `suffix_of` full ∧ mm_contents (priority_queue_heap c') ≡ₚ rest ∧
    transmitter c' = Some p' ∧ published p' = pushed p ++ (packet_bytes <$> sent) ∧ pushed p' = published p' ∧
    stat BankingTransmissions s' = wrap 64 (stat BankingTransmissions s + Z.of_nat (length sent)) ∧
    stat RecentlyProcessedQueued s' =
      wrap 64 (stat RecentlyProcessedQueued s + Z.of_nat (length full - length sent - length rest)) ∧
    (last_send c' = if decide (sent = []) then RDTSC t0 else RDTSC (tsc w (S (tsc_reads w)))).
Proof.
  intros Ht Hwf Hs Hp Hl Hge. destruct (transmit_run ticks c s rs w p t0 Ht Hwf Hp Hl) as (w1 & _ & Hr1 & _ & Hrun).
  destruct (Hrun Hge) as (full & sent & k & h' & rest & w2 & Hd & Hd' & [Hsent Hfr Hc Hsuf] & _ & Hmt).
  destruct (drain_exists (priority_queue_heap c)) as (full2 & Hd2 & _ & Hsort).
  pose proof (drain_fun _ _ _ Hd2 Hd) as ->.
  exists full, sent, rest. do 4 eexists. split; [exact Hmt|]. cbn [priority_queue_heap transmitter last_send].
  split_and!; [by apply drain_contents|done|done|done|done|by symmetry; apply drain_contents|done|..].
  - by rewrite published_sync, push_all_pushed.
  - by rewrite published_sync, pushed_sync.
  - destruct (decide (sent = [])) as [->|]; [|rewrite stat_add_get, decide_True by done]; rewrite dropped_get by done;
      rewrite decide_False by done; [|done]. symmetry. apply u64_add_0, Hs.
  - replace (length full - length sent - length rest)%nat with k by lia.
    destruct (decide (sent = [])); [|rewrite stat_add_get, decide_False by done]; by rewrite dropped_get, decide_True.
  - by rewrite Hr1.
Qed.

(** C15. The pace: a call that sends anything, drops anything or counts anything comes at
    least 100 milliseconds, that is [100 * ticks] ticks of the counter, after the last
    batch; and no batch has more than [max_send] transactions. *)
Theorem transmit_interval ticks c s rs w p (t0 : Z) :
  tuned ticks w → container_wf c → transmitter c = Some p → last_send c = RDTSC t0 →
  ∃ c' s' w', maybe_transmit c s rs w = Ret (c', s', w') ∧ container_wf c' ∧ max_send c' = max_send c ∧
    ((c', s') ≠ (c, s) → 100 * ticks ≤ u64_sub (tsc w (tsc_reads w)) t0) ∧
    ∃ p', transmitter c' = Some p' ∧ Z.of_nat (length (pushed p')) ≤ Z.of_nat (length (pushed p)) + max_send c.
Proof.
  intros Ht Hwf Hp Hl. destruct (transmit_run ticks c s rs w p t0 Ht Hwf Hp Hl) as (w1 & _ & _ & Hlt & Hge).
  pose proof (tuned_pos _ _ Ht). unfold since_last in *. destruct Hwf as [Hlen Hmax].
  destruct (Z.lt_ge_cases (u64_sub (tsc w (tsc_reads w)) t0 / ticks) 100) as [Hc|Hc].
  - exists c, s, w1. split_and!; [by apply Hlt|done|done|done|]. exists p. split; [done|lia].
  - destruct (Hge Hc) as (full & sent & k & h' & rest & w2 & Hd & Hd' & [Hsent _ _ Hsuf] & _ & Hmt).
    do 3 eexists. split; [exact Hmt|]. split_and!; [| done | |].
    + split; [|done]. cbn [priority_queue_heap]. rewrite <- (Permutation_length (drain_contents _ _ Hd')).
      apply suffix_length in Hsuf. rewrite <- (Permutation_length (drain_contents _ _ Hd)) in Hlen. lia.
    + intros _. assert (Hm : 100 * ticks ≤ ticks * (u64_sub (tsc w (tsc_reads w)) t0 / ticks)) by nia.
      etransitivity; [exact Hm|]. by apply Z.mul_div_le.
    + eexists. split; [done|]. rewrite pushed_sync, push_all_pushed, length_app, length_fmap, Hsent, length_take. lia.
Qed.

(** [maybe_retrieve] is the same selection for a caller without a channel: reading
    its iterator to the end yields the batch, and the queue keeps the rest. *)
Theorem retrieve_batch ticks c s (rs : option (LRUCache Z ())) w (t0 : Z) :
  tuned ticks w → container_wf c → last_send c = RDTSC t0 → 100 ≤ since_last ticks w t0 →
  ∃ n c1 w1 full sent k h' rest, maybe_retrieve c w = Ret (Some n, c1, w1) ∧ n = max_send c ∧
    retrieve_all (S (mm_len (priority_queue_heap c1))) rs n c1 s = Ret (sent, set_heap c1 h', dropped k s) ∧
    full ≡ₚ mm_contents (priority_queue_heap c) ∧ StronglySorted before full ∧
    sent = take (Z.to_nat n) (filter (fresh rs) full) ∧
    filter (fresh rs) full = sent ++ filter (fresh rs) rest ∧ mm_contents h' ≡ₚ rest.
Proof.
  intros Ht [Hlen Hmax] Hl Hge. unfold maybe_retrieve. rewrite Hl.
  destruct (elapsed_ms_run ticks w t0 Ht) as (w1 & -> & Ha1 & Hr1). rewrite bind_Ret. cbn beta iota.
  fold (since_last ticks w t0). unfold SEND_INTERVAL_MS. rewrite decide_True by lia.
  destruct (timer_new_run ticks w1) as (w2 & -> & _); [by eapply tuned_advances|].
  destruct (drain_exists (priority_queue_heap c)) as (full & Hd & Hperm & Hsort).
  set (c1 := set_last_send c _). destruct (retrieve_all_run rs (Z.to_nat (max_send c)) (S (length full)) c1 s full Hd)
    as (sent & k & h' & rest & Hr & Hd' & [Hsent Hfr _ _]); [lia|]. rewrite Z2Nat.id in Hr by done.
  rewrite <- (drain_len _ _ Hd) in Hr. exists (max_send c), c1, w2, full, sent, k, h', rest.
  split_and!; try done. by symmetry; apply drain_contents.
Qed.

Lemma queue_run c s t :
  container_wf c →
  ∃ o c', queue c t s = Ret (c', if bool_decide (is_Some o) then stat_incr LeakedPriority s else s) ∧
    container_wf c' ∧ option_list o ++ mm_contents (priority_queue_heap c') ≡ₚ t :: mm_contents (priority_queue_heap c) ∧
    (is_Some o ↔ length (mm_contents (priority_queue_heap c)) = (HEAP_SIZE - 1)%nat) ∧
    (∀ e y, o = Some e → y ∈ mm_contents (priority_queue_heap c') → before y e).
Proof.
  intros [Hlen Hmax]. unfold queue.
  destruct (mm_push_run HEAP_SIZE t (priority_queue_heap c) Hlen) as (o & h' & -> & Hlen' & Hperm & Hle & Hnone & Hsome).
  rewrite bind_Ret. cbn beta iota. exists o, (set_heap c h'). split_and!; [done|by split|done| |].
  - destruct o as [e|]; split; [intros _|by eexists|by intros []|].
    + assert (¬ (S (length (mm_contents (priority_queue_heap c))) < HEAP_SIZE)%nat) by (intros Hlt; by apply Hnone in Hlt). lia.
    + intros Hfull. pose proof (proj1 Hnone eq_refl). lia.
  - intros e y He Hy. exact (Hle e y He Hy).
Qed.

(** Queueing a transaction never fails: the queue keeps all transactions as long as
    it has room for them and otherwise drops one with the least score, which is
    counted; it never holds more than 16383. *)
Theorem queue_bounded c s t :
  container_wf c →
  ∃ o c', queue c t s = Ret (c', if bool_decide (is_Some o) then stat_incr LeakedPriority s else s) ∧
    container_wf c' ∧ option_list o ++ mm_contents (priority_queue_heap c') ≡ₚ t :: mm_contents (priority_queue_heap c) ∧
    (is_Some o ↔ length (mm_contents (priority_queue_heap c)) = (HEAP_SIZE - 1)%nat) ∧
    (∀ e y, o = Some e → y ∈ mm_contents (priority_queue_heap c') → before y e).
Proof. apply queue_run. Qed.

(** The rate is rounded down to a multiple of ten packets per second: a container
    built for fewer than ten never sends anything, however long it waits. *)
Theorem low_rate_never_sends ticks tr (target_pps : Z) w c w1 s rs w' :
  tuned ticks w → 0 ≤ target_pps < 10 → container_new (Some tr) target_pps w = (c, w1) → advances w1 w' →
  ∃ c' s' w'' p', maybe_transmit c s rs w' = Ret (c', s', w'') ∧ transmitter c' = Some p' ∧ pushed p' = pushed tr.
Proof.
  intros Ht Hpps Hnew Ha. unfold container_new in Hnew. destruct (timer_new_run ticks w Ht) as (w0 & Htn & Ha0 & _).
  rewrite Htn in Hnew. injection Hnew as <- <-.
  assert (Hz : u64_mul target_pps SEND_INTERVAL_MS / 1000 = 0).
  { unfold u64_mul, SEND_INTERVAL_MS. rewrite wrap_id by (unfold in_u; lia). apply Z.div_small. lia. }
  rewrite Hz. set (c := mkContainer _ _ _ 0).
  assert (Hwf : container_wf c).
  { split; [|done]. unfold c, mm_new, mm_contents, HEAP_SIZE. simpl. rewrite contents_new. simpl. lia. }
  assert (Ht' : tuned ticks w') by (apply (tuned_advances _ w); [by etransitivity|done]).
  destruct (transmit_run ticks c s rs w' tr _ Ht' Hwf eq_refl eq_refl) as (w2 & _ & _ & Hlt & Hge).
  destruct (Z.lt_ge_cases (since_last ticks w' (tsc w (tsc_reads w))) 100) as [Hc|Hc].
  - do 4 eexists. split; [by apply Hlt|done].
  - destruct (Hge Hc) as (full & sent & k & h' & rest & w3 & _ & _ & [Hsent _ _ _] & _ & ->).
    do 4 eexists. split; [done|]. split; [done|]. simpl in Hsent. rewrite take_0 in Hsent. subst sent.
    by rewrite pushed_sync.
Qed.

(** Without a channel, [maybe_transmit] panics. *)
Lemma transmit_without_channel c s rs w : transmitter c = None → maybe_transmit c s rs w = Panic.
Proof. intros Hn. unfold maybe_transmit. by rewrite Hn. Qed.
End Props.

(** ** A concrete container: three transactions, two to be sent, 100 ms after the last batch *)
Section Witnesses.
#[local] Existing Instance ref_ordered_float.
#[local] Existing Instance ref_ordered_float_laws.
#[local] Existing Instance ref_heap.
#[local] Existing Instance ref_heap_laws.
#[local] Existing Instance ref_que.
#[local] Existing Instance ref_que_laws.
#[local] Existing Instance ref_packet.

Definition demo_scored (score key : Z) : ScoredTransaction :=
  mkScored (f64_of_uint score) key (sample_packet 3 (V4 home) 80) (ip_key home).
Definition demo_heap : MinMaxHeap ScoredTransaction :=
  @mkHeap ref_heap ScoredTransaction [demo_scored 2 20; demo_scored 9 90; demo_scored 5 50].
Definition demo_producer : producer PacketBytes := ([], []).
Definition demo_container : TransactionContainer := mkContainer demo_heap (Some demo_producer) (RDTSC 0) 2.
Definition demo_later : Machine := (timer_new demo_tuned).2.
Definition no_recent : LRUCache Z () := new 4.

Lemma demo_later_tuned : tuned 10 demo_later.
Proof.
  destruct (timer_new_run 10 demo_tuned demo_tuned_ok) as (w' & E & Ha & _). unfold demo_later. rewrite E.
  by apply (tuned_advances _ _ _ Ha), demo_tuned_ok.
Qed.
Lemma demo_container_wf : container_wf demo_container.
Proof. split; [unfold HEAP_SIZE; simpl; lia|simpl; lia]. Qed.

Lemma no_recent_fresh (l : list ScoredTransaction) : filter (fresh (Some no_recent)) l = l.
Proof.
  induction l as [|t l IH]; [done|]. rewrite filter_cons_True, IH; [done|].
  unfold fresh, is_recent. by rewrite (contains_run 4 no_recent [] (st_sig_key t) (new_inv 4)).
Qed.

Lemma transmit_batch_witness :
  ∃ c' s' w' p', maybe_transmit demo_container stats_new no_recent demo_later = Ret (c', s', w') ∧
    transmitter c' = Some p' ∧ stat BankingTransmissions s' = 2.
Proof.
  destruct (transmit_batch 10 demo_container stats_new no_recent demo_later demo_producer 0) as
    (full & sent & rest & c' & s' & w' & p' & E & Hp & _ & Hsent & _ & _ & _ & Hp' & _ & _ & Hb & _);
    [apply demo_later_tuned|apply demo_container_wf|apply stats_ok_new|reflexivity|reflexivity|vm_compute; discriminate|].
  exists c', s', w', p'. split; [exact E|split; [exact Hp'|]]. rewrite Hb.
  rewrite Hsent, no_recent_fresh, length_take, Hp. reflexivity.
Defined.

Lemma transmit_interval_witness :
  ∃ c' s' w', maybe_transmit demo_container stats_new no_recent demo_later = Ret (c', s', w') ∧ max_send c' = 2.
Proof.
  destruct (transmit_interval 10 demo_container stats_new no_recent demo_later demo_producer 0) as (c' & s' & w' & E & _ & Hm & _);
    [apply demo_later_tuned|apply demo_container_wf|reflexivity|reflexivity|].
  exists c', s', w'. split; [exact E|exact Hm].
Defined.

Lemma retrieve_batch_witness : ∃ n c1 w1, maybe_retrieve demo_container demo_later = Ret (Some n, c1, w1) ∧ n = 2.
Proof.
  destruct (retrieve_batch 10 demo_container stats_new None demo_later 0) as (n & c1 & w1 & _ & _ & _ & _ & _ & E & Hn & _);
    [apply demo_later_tuned|apply demo_container_wf|reflexivity|vm_compute; discriminate|].
  exists n, c1, w1. split; [exact E|exact Hn].
Defined.

Lemma queue_bounded_witness : ∃ s' c', queue demo_container (demo_scored 7 70) stats_new = Ret (c', s') ∧ container_wf c'.
Proof.
  destruct (queue_bounded demo_container stats_new (demo_scored 7 70) demo_container_wf) as (o & c' & E & Hwf & _).
  eexists _, c'. split; [exact E|exact Hwf].
Defined.

Lemma low_rate_never_sends_witness :
  ∃ c' s' w' p', maybe_transmit (container_new (Some demo_producer) 9 demo_tuned).1 stats_new no_recent
    (container_new (Some demo_producer) 9 demo_tuned).2 = Ret (c', s', w') ∧ transmitter c' = Some p' ∧ pushed p' = pushed demo_producer.
Proof.
  apply (low_rate_never_sends 10 demo_producer 9 demo_tuned (container_new (Some demo_producer) 9 demo_tuned).1
    (container_new (Some demo_producer) 9 demo_tuned).2); [apply demo_tuned_ok|lia|reflexivity|reflexivity].
Defined.
End Witnesses.
