(* ===== verification/Mpsc.v ===== *)
(** The multi-producer channel of [mpsc/src/lib.rs]: several single-producer channels
    read by one consumer, which remembers where it stopped. *)
From stdpp Require Import gmap list strings pretty.
From S2P Require Import Prelude Que.

Section Code.
Context `{QueOps} {T : Type}.

Record Consumer : Type := mkConsumer { consumers : list (consumer T); last_idx : nat }.

(** [iter.find_map(|consumer| { visited += 1; consumer.pop() })]: the message, the
    channels, of which those visited have been popped, and the number of visits. *)
Fixpoint find_pop (cs : list (consumer T)) : option T * list (consumer T) * nat :=
  match cs with
  | [] => (None, [], 0)
  | c :: cs =>
     match cons_pop c with
     | (Some x, c) => (Some x, c :: cs, 1)
     | (None, c) => let '(o, cs, visited) := find_pop cs in (o, c :: cs, S visited)
     end
  end.

(** [split_at_mut] panics behind the end, [%] on an empty list of channels. *)
Definition mpsc_pop (m : Consumer) : outcome (option T * Consumer) :=
  let len := length (consumers m) in
  if decide (len < last_idx m) then Panic
  else
    let right := take (last_idx m) (consumers m) in
    let left := drop (last_idx m) (consumers m) in
    let '(opt, cs, visited) := find_pop (right ++ left) in
    if decide (len = 0) then Panic
    else Ret (opt, mkConsumer cs ((last_idx m + visited) mod len)).

(** [format!("{base_name}_{i:03}")]. *)
Definition shmem_id (base_name : string) (i : nat) : string :=
  (base_name +:+ "_" +:+ (if decide (i < 10) then "00" else if decide (i < 100) then "0" else "") +:+
   pretty (N.of_nat i))%string.

(** Joining the shared memory of channel [i]: producer first, then consumer. *)
Context (join_producer : string → option (producer T)) (join_consumer : string → option (consumer T)).

Fixpoint join_channels (base_name : string) (i n : nat) : option (list (producer T) * list (consumer T)) :=
  match n with
  | 0 => Some ([], [])
  | S n =>
     p ← join_producer (shmem_id base_name i);
     c ← join_consumer (shmem_id base_name i);
     '(ps, cs) ← join_channels base_name (S i) n;
     Some (p :: ps, c :: cs)
  end.

Definition bounded (senders : nat) (base_name : string) : option (list (producer T) * Consumer) :=
  '(producers, consumers) ← join_channels base_name 0 senders;
  Some (producers, mkConsumer consumers 0).
End Code.
Arguments Consumer {_} T.

Section Props.
Context `{QueOps} {T : Type}.
Implicit Types (m : Consumer T) (cs : list (consumer T)).

Lemma find_pop_run cs o cs' visited :
  find_pop cs = (o, cs', visited) →
  length cs' = length cs ∧ visited ≤ length cs ∧
  (o = None → Forall (λ c, fst (cons_pop c) = None) cs) ∧
  (∀ x, o = Some x → ∃ cs1 c cs2, cs = cs1 ++ c :: cs2 ∧ Forall (λ c, fst (cons_pop c) = None) cs1 ∧
     fst (cons_pop c) = Some x ∧ cs' = (snd ∘ cons_pop <$> cs1) ++ snd (cons_pop c) :: cs2 ∧ visited = S (length cs1)).
Proof.
  revert o cs' visited. induction cs as [|c cs IH]; intros o cs' visited Hf; simpl in Hf.
  { simplify_eq. split_and!; done. }
  destruct (cons_pop c) as [[x|] c'] eqn:Hc.
  - simplify_eq. simpl. split_and!; [done|lia|done|]. intros ? [= <-].
    exists [], c, cs. by rewrite Hc.
  - destruct (find_pop cs) as [[o1 cs1] v1] eqn:E. simplify_eq. simpl.
    destruct (IH _ _ _ eq_refl) as (Hl & Hv & Hn & Hs). split_and!; [lia|lia| |].
    + intros ->. constructor; [by rewrite Hc|by apply Hn].
    + intros x ->. destruct (Hs x eq_refl) as (l1 & c1 & l2 & -> & Hf1 & Hx & -> & ->).
      exists (c :: l1), c1, l2. rewrite fmap_cons. simpl. rewrite Hc. split_and!; try done.
      constructor; [by rewrite Hc|done].
Qed.

(** C30. The channels are served in a fixed order: [pop] always takes the message of the
    first channel, counted from the first one, that has any, whatever index the
    consumer stopped at before; it leaves the channels behind it alone and returns
    nothing only when every channel is empty.  The index stays within the list. *)
Theorem mpsc_pop_fixed_order m :
  consumers m ≠ [] → last_idx m ≤ length (consumers m) →
  ∃ o m', mpsc_pop m = Ret (o, m') ∧ length (consumers m') = length (consumers m) ∧
    last_idx m' < length (consumers m') ∧
    (o = None → Forall (λ c, fst (cons_pop c) = None) (consumers m)) ∧
    (∀ x, o = Some x → ∃ cs1 c cs2, consumers m = cs1 ++ c :: cs2 ∧
       Forall (λ c, fst (cons_pop c) = None) cs1 ∧ fst (cons_pop c) = Some x ∧
       consumers m' = (snd ∘ cons_pop <$> cs1) ++ snd (cons_pop c) :: cs2) ∧
    (∀ i, i ≤ length (consumers m) → ∃ j, mpsc_pop (mkConsumer (consumers m) i) = Ret (o, mkConsumer (consumers m') j)).
Proof.
  intros Hne Hi. assert (Hlen : length (consumers m) ≠ 0) by by destruct (consumers m).
  unfold mpsc_pop. cbn [consumers last_idx]. rewrite decide_False by lia. rewrite take_drop.
  destruct (find_pop (consumers m)) as [[o cs'] visited] eqn:E. rewrite decide_False by done.
  destruct (find_pop_run _ _ _ _ E) as (Hl & Hv & Hn & Hs). exists o. eexists. split; [done|]. cbn [consumers last_idx].
  split_and!; [done|rewrite Hl; by apply Nat.mod_upper_bound|done| |].
  - intros x Hx. destruct (Hs x Hx) as (cs1 & c & cs2 & ? & ? & ? & ? & _). eauto 10.
  - intros i Hi'. eexists. rewrite take_drop, E. rewrite decide_False by lia. by rewrite decide_False.
Qed.

(** With no channel at all [pop] divides by zero. *)
Lemma mpsc_pop_empty : mpsc_pop (mkConsumer [] 0 : Consumer T) = Panic.
Proof. done. Qed.

Lemma bounded_run (jp : string → option (producer T)) jc senders base :
  (∀ i, i < senders → is_Some (jp (shmem_id base i)) ∧ is_Some (jc (shmem_id base i))) →
  ∃ ps m, bounded jp jc senders base = Some (ps, m) ∧ length ps = senders ∧
    length (consumers m) = senders ∧ last_idx m = 0.
Proof.
  intros Hj. unfold bounded.
  assert (Hjoin : ∀ n i, (∀ k, i ≤ k < i + n → is_Some (jp (shmem_id base k)) ∧ is_Some (jc (shmem_id base k))) →
    ∃ ps cs, join_channels jp jc base i n = Some (ps, cs) ∧ length ps = n ∧ length cs = n).
  { induction n as [|n IH]; intros i Hk; [by exists [], []|]. cbn [join_channels].
    destruct (Hk i) as [[p Hp] [c Hc]]; [lia|]. rewrite Hp, Hc. cbn [mbind option_bind].
    destruct (IH (S i)) as (ps & cs & -> & Hp1 & Hc1); [intros k ?; apply Hk; lia|].
    exists (p :: ps), (c :: cs). simpl. split_and!; [done|lia|lia]. }
  destruct (Hjoin senders 0) as (ps & cs & -> & Hps & Hcs); [intros k ?; apply Hj; lia|].
  exists ps, (mkConsumer cs 0). done.
Qed.
End Props.

Section Witnesses.
#[local] Existing Instance ref_que.

(** The second channel is not served although the consumer stopped in front of it. *)
Definition demo_channels : Consumer nat := @mkConsumer ref_que nat [[1; 2]; [3]] 1.

Lemma mpsc_pop_fixed_order_witness : ∃ m', mpsc_pop demo_channels = Ret (Some 1, m').
Proof.
  destruct (mpsc_pop_fixed_order demo_channels) as (o & m' & E & _); [discriminate|simpl; lia|].
  exists m'. rewrite E. vm_compute in E. injection E as <- _. reflexivity.
Defined.
End Witnesses.
