(* ===== verification/Rng.v ===== *)
(** The random numbers of the traffic generator ([engine/src/rng.rs]): the state is
    hashed with xxh3 again and again.

    The crate [xxhash_rust] has the hash twice, as an ordinary and as a [const]
    function; [ConstHashOps] is the second one.  [HashLaws]: both yield a [u64]. *)
From Stdlib Require Import ZArith Lia.
From stdpp Require Import gmap list.
From S2P Require Import Prelude Wire.
Local Open Scope Z_scope.

Class ConstHashOps : Type := const_xxh3_64_with_secret : list Z → list Z → Z.
Class HashLaws `{HashOps} `{ConstHashOps} : Prop := {
  hash_u64 input secret : u64_ok (xxh3_64_with_secret input secret);
  const_hash_u64 input secret : u64_ok (const_xxh3_64_with_secret input secret);
}.

(** ** The code *)
Section Code.
Context `{HashOps} `{ConstHashOps}.

(** The bytes of the text xUNSAFEx, little-endian. *)
Definition UNSAFE_SECRET_SEED : Z := from_le_bytes [120; 85; 78; 83; 65; 70; 69; 120].
Definition UNSAFE_SECRET : list Z := const_custom_default_secret UNSAFE_SECRET_SEED.

Record FastxxHashRng : Type := mkRng { rng_state : Z }.

Definition rng_new (seed : Z) : FastxxHashRng :=
  mkRng (const_xxh3_64_with_secret (to_le_bytes 8 seed) UNSAFE_SECRET).

(** [x.rotate_right(32)] on a [u64]. *)
Definition rotate_right_32 (x : Z) : Z := Z.lor (Z.shiftr x 32) (wrap 64 (Z.shiftl x 32)).

Definition next_u32 (rng : FastxxHashRng) : Z * FastxxHashRng :=
  let old_state := rng_state rng in
  let state := xxh3_64_with_secret (to_le_bytes 8 (rng_state rng)) UNSAFE_SECRET in
  let state := if decide (old_state = state) then rotate_right_32 state else state in
  (wrap 32 state, mkRng state).

Definition next_u64 (rng : FastxxHashRng) : Z * FastxxHashRng :=
  let state := xxh3_64_with_secret (to_le_bytes 8 (rng_state rng)) UNSAFE_SECRET in
  (state, mkRng state).

(** The loop of [fill_bytes]; [copy_nonoverlapping] is a write at [bytes_written]. *)
Fixpoint fill_loop (fuel : nat) (rng : FastxxHashRng) (dest : list Z) (bytes_written bytes_remaining : nat)
    : outcome (FastxxHashRng * list Z) :=
  match fuel with
  | O => NoFuel
  | S fuel =>
     if decide (bytes_remaining = 0%nat) then Ret (rng, dest)
     else
       let bytes_to_write := (bytes_remaining `min` 8)%nat in
       let '(word, rng) := next_u64 rng in
       let new_bytes := to_le_bytes 8 word in
       dest ← write_at dest (Z.of_nat bytes_written) (take bytes_to_write new_bytes);
       fill_loop fuel rng dest (bytes_written + bytes_to_write) (bytes_remaining - bytes_to_write)
  end.

Definition fill_bytes (rng : FastxxHashRng) (dest : list Z) : outcome (FastxxHashRng * list Z) :=
  fill_loop (S (length dest)) rng dest 0 (length dest - 0).

(** The [Result] is always [Ok]. *)
Definition try_fill_bytes (rng : FastxxHashRng) (dest : list Z) : outcome (FastxxHashRng * list Z + ()) :=
  '(rng, dest) ← fill_bytes rng dest;
  Ret (inl (rng, dest)).
End Code.

(** ** The specification: a stream of words, cut into bytes *)
Section Spec.
Context `{HashOps}.

Fixpoint rng_words (n : nat) (rng : FastxxHashRng) : list Z * FastxxHashRng :=
  match n with
  | O => ([], rng)
  | S n =>
     let '(w, rng) := next_u64 rng in
     let '(ws, rng) := rng_words n rng in
     (w :: ws, rng)
  end.

(** [n] bytes take [⌈n/8⌉] words, little-endian, the last one truncated. *)
Definition words_for (n : nat) : nat := (n + 7) / 8.
Definition stream_bytes (n : nat) (rng : FastxxHashRng) : list Z :=
  take n (mjoin (to_le_bytes 8 <$> (rng_words (words_for n) rng).1)).

Lemma words_for_0 : words_for 0 = 0%nat.
Proof. done. Qed.
Lemma words_for_step n : (0 < n)%nat → words_for n = S (words_for (n - n `min` 8)).
Proof.
  intros Hn. unfold words_for. destruct (decide (n ≤ 8)%nat).
  - rewrite Nat.min_l, Nat.sub_diag by lia. change ((0 + 7) / 8)%nat with 0%nat.
    symmetry. apply Nat.div_unique with (r := (n - 1)%nat); lia.
  - rewrite Nat.min_r by lia. replace (n + 7)%nat with (n - 8 + 7 + 1 * 8)%nat by lia.
    rewrite Nat.div_add by lia. lia.
Qed.

Lemma stream_bytes_step n rng :
  (0 < n)%nat →
  stream_bytes n rng =
    take (n `min` 8) (to_le_bytes 8 (next_u64 rng).1) ++ stream_bytes (n - n `min` 8) (next_u64 rng).2.
Proof.
  intros Hn. unfold stream_bytes. rewrite (words_for_step n Hn). cbn [rng_words].
  destruct (next_u64 rng) as [w r]. cbn [fst snd].
  destruct (rng_words (words_for _) r) as [ws r']. cbn [fst]. rewrite fmap_cons. cbn [mjoin list_join].
  rewrite take_app, length_to_le_bytes. f_equal.
  - destruct (decide (n ≤ 8)%nat); [by rewrite Nat.min_l|].
    rewrite Nat.min_r by lia. by rewrite !take_ge by (rewrite length_to_le_bytes; lia).
  - destruct (decide (n ≤ 8)%nat); [|by rewrite Nat.min_r by lia].
    rewrite Nat.min_l by lia. by replace (n - 8)%nat with (n - n)%nat by lia.
Qed.

Lemma fill_loop_run fuel rng dest (written remaining : nat) :
  (remaining < fuel)%nat → (written + remaining)%nat = length dest →
  fill_loop fuel rng dest written remaining =
    Ret ((rng_words (words_for remaining) rng).2, take written dest ++ stream_bytes remaining rng).
Proof.
  revert rng dest written remaining. induction fuel as [|fuel IH]; intros rng dest written remaining Hf Hlen; [lia|].
  cbn [fill_loop]. case_decide as Hr.
  - subst remaining. rewrite words_for_0. unfold stream_bytes. cbn [rng_words fst snd take].
    by rewrite app_nil_r, take_ge by lia.
  - rewrite words_for_step, stream_bytes_step by lia. cbn [rng_words].
    destruct (next_u64 rng) as [w r]. cbn [fst snd].
    set (k := (remaining `min` 8)%nat). set (new := take k (to_le_bytes 8 w)).
    assert (Hk : length new = k) by (unfold new; rewrite length_take, length_to_le_bytes; lia).
    assert (Hlw : length (take written dest) = written) by (rewrite length_take; lia).
    rewrite write_at_run by lia. rewrite bind_Ret, IH; [|lia|].
    + destruct (rng_words (words_for (remaining - k)) r) as [ws r'] eqn:E. cbn [snd]. do 2 f_equal.
      by rewrite Hk, app_assoc, take_app_length', <- app_assoc by (rewrite length_app; lia).
    + rewrite !length_app, length_drop. lia.
Qed.

(** C36. [fill_bytes] terminates and overwrites exactly the destination, without an
    access out of range, with the little-endian bytes of successive [next_u64] words,
    the last one cut off; the generator is left as after that many words.  It makes no
    difference what the destination held before. *)
Theorem fill_bytes_stream rng dest :
  fill_bytes rng dest = Ret ((rng_words (words_for (length dest)) rng).2, stream_bytes (length dest) rng) ∧
  length (stream_bytes (length dest) rng) = length dest ∧
  Forall u8_ok (stream_bytes (length dest) rng).
Proof.
  unfold fill_bytes. rewrite fill_loop_run by lia. rewrite Nat.sub_0_r. split_and!; [done| |].
  - generalize (length dest). intros n. revert rng. induction (lt_wf n) as [n _ IH]. intros rng.
    destruct (decide (n = 0)%nat) as [->|]; [done|]. rewrite stream_bytes_step by lia.
    rewrite length_app, length_take, length_to_le_bytes, IH by lia. lia.
  - apply Forall_take. apply Forall_forall. intros b Hb.
    apply list_elem_of_join in Hb as (l & Hb & (w & -> & _)%list_elem_of_fmap).
    by eapply Forall_forall; [apply to_le_bytes_u8|].
Qed.
End Spec.

(** ** Short cycles *)
Lemma rotate_right_32_run x :
  u64_ok x → rotate_right_32 x = x mod 2 ^ 32 * 2 ^ 32 + x / 2 ^ 32.
Proof.
  intros [H0 H1]. unfold rotate_right_32, wrap.
  rewrite Z.shiftr_div_pow2, Z.shiftl_mul_pow2 by lia.
  change (2 ^ 64) with (2 ^ 32 * 2 ^ 32) in *. rewrite Zmult_mod_distr_r.
  pose proof (Z.mod_pos_bound x (2 ^ 32) ltac:(lia)) as Hm.
  assert (Hd : 0 ≤ x / 2 ^ 32 < 2 ^ 32) by (split; [apply Z.div_pos; lia|apply Z.div_lt_upper_bound; lia]).
  rewrite Z.lor_comm, <- Z.add_lor_land.
  replace (Z.land _ _) with 0; [lia|]. symmetry. apply Z.bits_inj'. intros n Hn.
  rewrite Z.land_spec, Z.bits_0. destruct (decide (n < 32)) as [Hlt|Hge].
  - by rewrite Z.mul_pow2_bits_low by lia.
  - rewrite (Z.bits_above_log2 (x / 2 ^ 32) n); [apply andb_false_r|lia|].
    destruct (decide (x / 2 ^ 32 = 0)) as [->|]; [cbn; lia|]. apply Z.log2_lt_pow2; [lia|].
    eapply Z.lt_le_trans; [apply Hd|]. apply Z.pow_le_mono_r; lia.
Qed.

(** Rotating by half a word changes it unless its halves are equal. *)
Lemma rotate_fixed x : u64_ok x → rotate_right_32 x = x ↔ x mod 2 ^ 32 = x / 2 ^ 32.
Proof.
  intros Hx. rewrite rotate_right_32_run by done. destruct Hx as [H0 H1].
  pose proof (Z.div_mod x (2 ^ 32) ltac:(lia)) as Hdm.
  pose proof (Z.mod_pos_bound x (2 ^ 32) ltac:(lia)). split; [|lia]. intros Heq.
  assert (Hmul : (x mod 2 ^ 32 - x / 2 ^ 32) * (2 ^ 32 - 1) = 0) by lia.
  apply Z.mul_eq_0 in Hmul. lia.
Qed.

Lemma rotate_u64 x : u64_ok x → u64_ok (rotate_right_32 x).
Proof.
  intros Hx. rewrite rotate_right_32_run by done. destruct Hx as [H0 H1].
  pose proof (Z.mod_pos_bound x (2 ^ 32) ltac:(lia)).
  assert (0 ≤ x / 2 ^ 32 < 2 ^ 32) by (split; [apply Z.div_pos; lia|apply Z.div_lt_upper_bound; lia]).
  unfold u64_ok, in_u. lia.
Qed.

Section Cycles.
Context `{HashLaws}.

(** The word the state is replaced by. *)
Definition rng_hash (s : Z) : Z := xxh3_64_with_secret (to_le_bytes 8 s) UNSAFE_SECRET.

Lemma words_stuck n s : rng_hash s = s → rng_words n (mkRng s) = (replicate n s, mkRng s).
Proof.
  intros Hs. induction n as [|n IH]; [done|]. cbn [rng_words]. unfold next_u64. cbn [rng_state].
  change (xxh3_64_with_secret (to_le_bytes 8 s) UNSAFE_SECRET) with (rng_hash s). by rewrite Hs, IH.
Qed.

(** Where the generator can get stuck.  The state stays a [u64] and [next_u32] yields a [u32].
    [next_u32] leaves a state the hash maps to itself by exchanging its halves, so it
    stays there only when the halves are equal; [next_u64], which has no such test,
    returns the same word for ever once it is there. *)
Theorem rng_cycles s :
  u64_ok s →
  u32_ok (next_u32 (mkRng s)).1 ∧ u64_ok (rng_state (next_u32 (mkRng s)).2) ∧
  u64_ok (next_u64 (mkRng s)).1 ∧
  ((next_u32 (mkRng s)).2 = mkRng s ↔ rng_hash s = s ∧ s mod 2 ^ 32 = s / 2 ^ 32) ∧
  ((next_u64 (mkRng s)).2 = mkRng s ↔ rng_hash s = s) ∧
  (rng_hash s = s → ∀ n, rng_words n (mkRng s) = (replicate n s, mkRng s)).
Proof.
  intros Hs. unfold next_u32, next_u64. cbn [rng_state fst snd]. fold (rng_hash s).
  assert (Hh : u64_ok (rng_hash s)) by apply hash_u64. split_and!.
  - by apply wrap_in_u.
  - case_decide; [by apply rotate_u64|done].
  - done.
  - case_decide as Heq.
    + rewrite <- Heq. rewrite <- (rotate_fixed s) by done.
      split; [by intros [= Hx]|by intros [_ ->]].
    + split; [intros [= Hx]; congruence|intros [Hx _]; congruence].
  - split; [by intros [= ->]|by intros ->].
  - intros Hx n. by apply words_stuck.
Qed.
End Cycles.

Section Witnesses.
#[local] Existing Instance ref_hash.
#[local] Instance ref_const_hash : ConstHashOps := xxh3_64_with_secret.
#[local] Instance ref_hash_laws : HashLaws.
Proof. split; intros; by apply wrap_in_u. Qed.

(** Under the reference hash, which begins with its input, every state is a fixed
    point; the halves of 7 differ. *)
Lemma rng_cycles_witness :
  (next_u32 (mkRng 7)).2 ≠ mkRng 7 ∧ rng_words 3 (mkRng 7) = ([7; 7; 7], mkRng 7).
Proof.
  assert (Hs : u64_ok 7) by (unfold u64_ok, in_u; lia).
  destruct (rng_cycles 7 Hs) as (_ & _ & _ & [H1 _] & _ & H2). split.
  - intros Hx. destruct (H1 Hx) as [_ Hy]. vm_compute in Hy. discriminate Hy.
  - apply H2. vm_compute. reflexivity.
Defined.
End Witnesses.
