(* ===== verification/Agent.v ===== *)
(** The agents of the traffic generator ([engine/src/agent.rs]): each overwrites parts
    of a prepared transaction in place and stamps it with its address.

    Type classes stand for the crates the file calls: [KeyOps] for key pairs, [EntropyOps]
    for what [rand::random] and the [new_unique] functions draw, [TxOps] for the
    construction of a transaction ([solana_sdk]); [DistOps] for the distributions of
    [rand] and [rand_distr] and for the functions on [f32] whose precision Rust leaves
    open.  An [f32] is an IEEE 754 binary32 number. *)
From Stdlib Require Import ZArith Lia SpecFloat.
From stdpp Require Import gmap list.
From S2P Require Import Prelude F64 Timer Wire Rng.
Local Open Scope Z_scope.

Abbreviation f32 := spec_float.
Definition f32_of_uint (x : Z) : f32 := binary_normalize 24 128 x 0 false.
(** A decimal literal [n/d] with small [n] and [d]. *)
Definition f32_lit (n d : Z) : f32 := SFdiv 24 128 (f32_of_uint n) (f32_of_uint d).
(** [x.min(y)]: the other argument if one is NaN. *)
Definition f32_min (x y : f32) : f32 :=
  match x, y with
  | S754_nan, _ => y
  | _, S754_nan => x
  | _, _ => if SFltb y x then y else x
  end.
Definition f32_ok (x : f32) : Prop := valid_binary 24 128 x = true.

(** ** The crates *)
Class KeyOps : Type := {
  keypair : Type;
  kp_pubkey : keypair → list Z;
  kp_sign_message : keypair → list Z → list Z;
}.
Class KeyLaws `{KeyOps} : Prop := {
  pubkey_bytes k : length (kp_pubkey k) = 32%nat ∧ Forall u8_ok (kp_pubkey k);
  sign_bytes k m : sig_ok (kp_sign_message k m);
}.

Class EntropyOps `{KeyOps} : Type := {
  entropy : Type;
  random_u64 : entropy → Z * entropy;
  random_u8 : entropy → Z * entropy;
  hash_new_unique : entropy → list Z * entropy;
  pubkey_new_unique : entropy → list Z * entropy;
  keypair_new : entropy → keypair * entropy;
}.
Class EntropyLaws `{EntropyOps} : Prop := {
  random_u64_ok e : u64_ok (random_u64 e).1;
  random_u8_ok e : u8_ok (random_u8 e).1;
  unique_hash_bytes e : length (hash_new_unique e).1 = 32%nat ∧ Forall u8_ok (hash_new_unique e).1;
}.

Class DistOps : Type := {
  LogNormal : Type;
  lognormal_new : f32 → f32 → option LogNormal;
  lognormal_sample : LogNormal → FastxxHashRng → f32 * FastxxHashRng;
  gen_f32 : FastxxHashRng → f32 * FastxxHashRng;
  f32_powi : f32 → Z → f32;
  f32_exp : f32 → f32;
  f32_ln : f32 → f32;
}.
(** Samples are [f32] numbers, and a standard deviation of two is accepted. *)
Class DistLaws `{DistOps} : Prop := {
  lognormal_sample_ok d rng : f32_ok (lognormal_sample d rng).1;
  lognormal_new_two mu : is_Some (lognormal_new mu (f32_of_uint 2));
}.

Class TxOps : Type := {
  instruction : Type;
  transaction : Type;
  set_compute_unit_price : Z → instruction;
  system_transfer : list Z → list Z → Z → instruction;
  new_with_payer : list instruction → option (list Z) → transaction;
  set_recent_blockhash : list Z → transaction → transaction;
  packet_from_data : transaction → option Packet;
}.

(** The transaction with a compute unit price and a transfer fills 259 bytes of its
    packet. *)
Class TxLaws `{PacketOps} `{TxOps} : Prop := {
  price_and_transfer_packet price from to lamports hash :
    ∃ p, packet_from_data (set_recent_blockhash hash
           (new_with_payer [set_compute_unit_price price; system_transfer from to lamports] None)) = Some p ∧
         packet_ok p ∧ pkt_size (pkt_meta p) = 259;
}.

(** ** Offsets *)
Definition PRICE_AND_TRANSFER_TX_PRICE_U64_OFFSET : nat := 234.
Definition PRICE_AND_TRANSFER_TX_BLOCKHASH_OFFSET : nat := 197.
Definition PRICE_AND_TRANSFER_TX_SIGNATURE_OFFSET : nat := 1.
Definition PRICE_AND_TRANSFER_TX_MESSAGE_OFFSET : nat := 65.
Definition PRICE_AND_TRANSFER_TX_PAYER_OFFSET : nat := 69.
Definition PRICE_AND_TRANSFER_TX_MESSAGE_LEN : nat := 162.
Definition PRICE_AND_TRANSFER_TX_TX_LEN : nat := 259.

(** ** Updates of a transaction in place *)
Definition update_compute_unit_price (transaction_bytes : list Z) (new_price : Z) : outcome (list Z) :=
  write_at transaction_bytes (Z.of_nat PRICE_AND_TRANSFER_TX_PRICE_U64_OFFSET) (to_le_bytes 8 new_price).

Definition update_blockhash (transaction_bytes new_blockhash : list Z) : outcome (list Z) :=
  write_at transaction_bytes (Z.of_nat PRICE_AND_TRANSFER_TX_BLOCKHASH_OFFSET) new_blockhash.

(** [read_unaligned] of eight bytes. *)
Definition read_price (packet : Packet) : outcome Z :=
  if decide (PRICE_AND_TRANSFER_TX_PRICE_U64_OFFSET + 8 ≤ length (pkt_buffer packet))%nat
  then Ret (from_le_bytes (take 8 (drop PRICE_AND_TRANSFER_TX_PRICE_U64_OFFSET (pkt_buffer packet))))
  else UB.

Section Updates.
Context `{EntropyOps}.

(** The slice of the message panics when it starts behind the end. *)
Definition update_payer_and_signature (transaction_bytes : list Z) (k : keypair) : outcome (list Z) :=
  let new_payer := kp_pubkey k in
  transaction_bytes ← write_at transaction_bytes (Z.of_nat PRICE_AND_TRANSFER_TX_PAYER_OFFSET) new_payer;
  if decide (length transaction_bytes < PRICE_AND_TRANSFER_TX_MESSAGE_OFFSET)%nat then Panic
  else
    let new_signature := kp_sign_message k (drop PRICE_AND_TRANSFER_TX_MESSAGE_OFFSET transaction_bytes) in
    write_at transaction_bytes (Z.of_nat PRICE_AND_TRANSFER_TX_SIGNATURE_OFFSET) new_signature.

(** [core::array::from_fn(|_| rand::random())]. *)
Fixpoint random_array (n : nat) (e : entropy) : list Z * entropy :=
  match n with
  | O => ([], e)
  | S n =>
     let '(b, e) := random_u8 e in
     let '(l, e) := random_array n e in
     (b :: l, e)
  end.

Definition update_signature_invalid (transaction_bytes : list Z) (e : entropy) : outcome (list Z * entropy) :=
  let '(sig_bytes, e) := random_array 64 e in
  transaction_bytes ← write_at transaction_bytes (Z.of_nat PRICE_AND_TRANSFER_TX_SIGNATURE_OFFSET) sig_bytes;
  Ret (transaction_bytes, e).

Definition null_transfer_transaction_with_compute_unit_price `{TxOps} (e : entropy) : outcome (Packet * entropy) :=
  let compute_unit_price_ix := set_compute_unit_price 115 in
  let '(from, e) := pubkey_new_unique e in
  let '(to, e) := pubkey_new_unique e in
  let transfer := system_transfer from to 0 in
  let tx := new_with_payer [compute_unit_price_ix; transfer] None in
  let tx := set_recent_blockhash (replicate 32 42) tx in
  packet ← unwrap (packet_from_data tx);
  Ret (packet, e).
End Updates.

(** ** Signers and agents *)
Definition set_buffer (p : Packet) (b : list Z) : Packet := mkPacket b (pkt_meta p).
Definition set_size (p : Packet) (n : Z) : Packet :=
  mkPacket (pkt_buffer p) (mkPacketMeta n (pkt_addr (pkt_meta p)) (pkt_port (pkt_meta p)) (pkt_flags (pkt_meta p))).
Definition set_addr (p : Packet) (a : IpAddr) : Packet :=
  mkPacket (pkt_buffer p) (mkPacketMeta (pkt_size (pkt_meta p)) a (pkt_port (pkt_meta p)) (pkt_flags (pkt_meta p))).
(** [*buffer.last_mut().unwrap() = b]. *)
Definition set_last (l : list Z) (b : Z) : outcome (list Z) :=
  match l with [] => Panic | _ => Ret (<[length l - 1 := b]> l)%nat end.

Section Agents.
Context `{EntropyOps} `{DistOps} `{HashOps} `{ConstHashOps}.

Record Signer : Type := mkSigner {
  sg_keypair : keypair;
  sg_log_mean : f32;
  sg_std : f32;
  cu_price_distribution : LogNormal;
}.
Record Ip : Type := mkIp { ip_bytes : list Z; ip_signer : Signer; ip_rng : FastxxHashRng; ip_bad : bool }.

Definition signer_new (log_mean std : f32) (e : entropy) : outcome (Signer * entropy) :=
  let '(k, e) := keypair_new e in
  d ← unwrap (lognormal_new log_mean std);
  Ret (mkSigner k log_mean std d, e).

Definition mean_price (s : Signer) : Z :=
  f64_to_u64 (f32_exp (SFadd 24 128 (sg_log_mean s) (SFdiv 24 128 (f32_powi (sg_std s) 2) (f32_of_uint 2)))).
Definition log_mean (s : Signer) : f32 := sg_log_mean s.
Definition std (s : Signer) : f32 := sg_std s.
Definition pubkey (s : Signer) : list Z := kp_pubkey (sg_keypair s).

Definition sample_cu_price (s : Signer) (rng : FastxxHashRng) : Z * FastxxHashRng :=
  let '(x, rng) := lognormal_sample (cu_price_distribution s) rng in
  (f64_to_u64 (f32_min x (f32_of_uint 1000000000)), rng).

(** The two constructors differ in the flag. *)
Definition ip_make (bad : bool) (ip : list Z) (log_mean std : f32) (e : entropy) : outcome (Ip * entropy) :=
  let '(seed, e) := random_u64 e in
  let rng := rng_new seed in
  '(s, e) ← signer_new log_mean std e;
  Ret (mkIp ip s rng bad, e).
Definition ip_new : list Z → f32 → f32 → entropy → outcome (Ip * entropy) := ip_make false.
Definition ip_new_bad : list Z → f32 → f32 → entropy → outcome (Ip * entropy) := ip_make true.

Definition ip_addr (self : Ip) : Ipv4Addr :=
  mkIpv4 (nth 0 (ip_bytes self) 0) (nth 1 (ip_bytes self) 0) (nth 2 (ip_bytes self) 0) (nth 3 (ip_bytes self) 0).

(** What a bad agent makes of the packet, by the sample; otherwise the size and the
    last byte are left as they are. *)
Definition spoil (sample : f32) (packet : Packet) : outcome Packet :=
  if SFltb sample (f32_lit 25 100) then
    let packet := set_size packet 0 in
    buf ← set_last (pkt_buffer packet) 0;
    Ret (set_buffer packet buf)
  else if SFltb sample (f32_lit 3 10) then
    buf ← set_last (pkt_buffer packet) 1;
    Ret (set_size (set_buffer packet buf) (Z.of_nat PRICE_AND_TRANSFER_TX_TX_LEN))
  else Ret packet.

Definition update_transfer_with_priority (self : Ip) (packet : Packet) (e : entropy)
    : outcome (Ip * Packet * entropy) :=
  let '(lamports_per_megacu, rng) := sample_cu_price (ip_signer self) (ip_rng self) in
  buf ← update_compute_unit_price (pkt_buffer packet) lamports_per_megacu;
  let '(blockhash, e) := hash_new_unique e in
  buf ← update_blockhash buf blockhash;
  '(buf, e) ← update_signature_invalid buf e;
  let packet := set_buffer packet buf in
  '(packet, rng) ←
    (if ip_bad self then
       let '(sample, rng) := gen_f32 rng in
       packet ← spoil sample packet;
       Ret (packet, rng)
     else
       let packet := set_size packet (Z.of_nat PRICE_AND_TRANSFER_TX_TX_LEN) in
       buf ← set_last (pkt_buffer packet) 0;
       Ret (set_buffer packet buf, rng));
  Ret (mkIp (ip_bytes self) (ip_signer self) rng (ip_bad self), set_addr packet (V4 (ip_addr self)), e).
End Agents.
