(* ===== verification/AgentProps.v ===== *)
(** Properties of the agents: what each update does to the bytes of the transaction,
    and what kinds of packets the agents produce. *)
From Stdlib Require Import ZArith Lia SpecFloat.
From stdpp Require Import gmap list.
From S2P Require Import Prelude F64 Timer Wire Rng Agent.
Local Open Scope Z_scope.

(** ** Overwriting a region of a list *)
Definition splice (off : nat) (bytes mem : list Z) : list Z :=
  take off mem ++ bytes ++ drop (off + length bytes) mem.
Definition region (off n : nat) (l : list Z) : list Z := take n (drop off l).

Section Splice.
Implicit Types (bytes mem : list Z) (off n i : nat).
Local Open Scope nat_scope.

Lemma write_at_splice mem off bytes :
  off + length bytes ≤ length mem → write_at mem (Z.of_nat off) bytes = Ret (splice off bytes mem).
Proof. apply write_at_run. Qed.

Lemma length_splice mem off bytes : off + length bytes ≤ length mem → length (splice off bytes mem) = length mem.
Proof. intros ?. unfold splice. rewrite !length_app, length_take, length_drop. lia. Qed.

Lemma splice_lookup mem off bytes i :
  off + length bytes ≤ length mem →
  splice off bytes mem !! i = if decide (off ≤ i < off + length bytes) then bytes !! (i - off) else mem !! i.
Proof.
  intros Hl. unfold splice. assert (Ht : length (take off mem) = off) by (rewrite length_take; lia).
  destruct (decide (i < off)).
  { rewrite lookup_app_l by lia. rewrite lookup_take_lt by lia. by rewrite decide_False by lia. }
  rewrite lookup_app_r, Ht by lia. destruct (decide (i < off + length bytes)).
  - rewrite lookup_app_l by lia. by rewrite decide_True by lia.
  - rewrite lookup_app_r, lookup_drop by lia. rewrite decide_False by lia. f_equal. lia.
Qed.

Lemma region_lookup off n l i : region off n l !! i = if decide (i < n) then l !! (off + i) else None.
Proof.
  unfold region. case_decide.
  - by rewrite lookup_take_lt, lookup_drop by lia.
  - by rewrite lookup_take_ge by lia.
Qed.

Lemma region_same mem off bytes n :
  off + length bytes ≤ length mem → length bytes = n → region off n (splice off bytes mem) = bytes.
Proof.
  intros Hl <-. apply list_eq. intros i. rewrite region_lookup. case_decide.
  - rewrite splice_lookup, decide_True by lia. f_equal. lia.
  - symmetry. apply lookup_ge_None_2. lia.
Qed.

Lemma region_other mem off bytes off' n :
  off + length bytes ≤ length mem → off' + n ≤ off ∨ off + length bytes ≤ off' →
  region off' n (splice off bytes mem) = region off' n mem.
Proof.
  intros Hl Hd. apply list_eq. intros i. rewrite !region_lookup. case_decide; [|done].
  by rewrite splice_lookup, decide_False by lia.
Qed.

Lemma splice_u8 mem off bytes : Forall u8_ok mem → Forall u8_ok bytes → Forall u8_ok (splice off bytes mem).
Proof.
  intros. unfold splice. apply Forall_app_2; [by apply Forall_take|]. apply Forall_app_2; [done|by apply Forall_drop].
Qed.
End Splice.

(** ** Prices *)
Lemma digits2_bound m : Z.pos m < 2 ^ Z.pos (digits2_pos m).
Proof.
  induction m as [m IH|m IH|]; cbn [digits2_pos]; [| |done];
    rewrite Pos2Z.inj_succ, Z.pow_succ_r by lia; lia.
Qed.

Lemma f32_mantissa m e : f32_ok (S754_finite false m e) → Z.pos m < 2 ^ 24.
Proof.
  unfold f32_ok. cbn [valid_binary]. unfold bounded. rewrite andb_true_iff. intros [Hc _].
  unfold canonical_mantissa in Hc. apply Z.eqb_eq in Hc. unfold fexp in Hc.
  eapply Z.lt_le_trans; [apply digits2_bound|]. apply Z.pow_le_mono_r; lia.
Qed.

(** Whatever the distribution yields, the price is at most 1e9. *)
Lemma capped_price x : f32_ok x → 0 ≤ f64_to_u64 (f32_min x (f32_of_uint 1000000000)) ≤ 1000000000.
Proof.
  intros Hx. change (f32_of_uint 1000000000) with (S754_finite false 15625000 6).
  destruct x as [s|s| |s m e]; [done|by destruct s|by cbn|].
  cbn [f32_min]. unfold SFltb. cbn [SFcompare]. destruct s; [done|].
  pose proof (f32_mantissa _ _ Hx) as Hm. destruct (Z.compare_spec 6 e) as [He|He|He]; [|done|].
  - subst e. change (Pos.compare_cont Eq 15625000 m) with (15625000 ?= m)%positive.
    destruct (Pos.compare_spec 15625000 m) as [Hp|Hp|Hp]; [| done |]; unfold f64_to_u64, u64_max;
      rewrite Z.shiftl_mul_pow2 by lia; subst; lia.
  - unfold f64_to_u64. assert (0 ≤ Z.shiftl (Z.pos m) e ≤ 2 ^ 29); [|unfold u64_max; lia].
    split; [by apply Z.shiftl_nonneg|]. destruct (decide (0 ≤ e)) as [He0|He0].
    + rewrite Z.shiftl_mul_pow2 by done. assert (2 ^ e ≤ 2 ^ 5) by (apply Z.pow_le_mono_r; lia). nia.
    + rewrite Z.shiftl_div_pow2 by lia. assert (0 < 2 ^ (- e)) by (apply Z.pow_pos_nonneg; lia).
      apply Z.div_le_upper_bound; [done|]. nia.
Qed.

Lemma set_last_run l b : (0 < length l)%nat → set_last l b = Ret (splice (length l - 1) [b] l).
Proof.
  intros Hl. unfold set_last. destruct l as [|x l]; [simpl in Hl; lia|]. f_equal. apply list_eq. intros i.
  rewrite splice_lookup by (cbn [length]; lia). cbn [length].
  destruct (decide (i = length l)) as [->|Hne].
  - rewrite decide_True by lia. replace (S (length l) - 1)%nat with (length l) by lia.
    rewrite list_lookup_insert_eq by (cbn [length]; lia). by rewrite Nat.sub_diag.
  - rewrite decide_False by lia. rewrite list_lookup_insert_ne by lia. done.
Qed.

(** ** The agents *)
Section Agents.
Context `{EntropyLaws} `{DistLaws} `{HashOps} `{ConstHashOps} `{PacketOps}.
Implicit Types (self : Ip) (p : Packet) (e : entropy).

Lemma random_array_ok n e : length (random_array n e).1 = n ∧ Forall u8_ok (random_array n e).1.
Proof.
  revert e. induction n as [|n IH]; intros e; [done|]. cbn [random_array].
  pose proof (random_u8_ok e) as Hb. destruct (random_u8 e) as [b e1].
  destruct (IH e1) as [Hl Hf], (random_array n e1) as [l e2]. cbn [fst] in *. split; [by simpl; f_equal|by constructor].
Qed.

(** The three writes every agent makes. *)
Definition stamped (price : Z) (blockhash sig buf : list Z) : list Z :=
  splice PRICE_AND_TRANSFER_TX_SIGNATURE_OFFSET sig
    (splice PRICE_AND_TRANSFER_TX_BLOCKHASH_OFFSET blockhash
      (splice PRICE_AND_TRANSFER_TX_PRICE_U64_OFFSET (to_le_bytes 8 price) buf)).

Definition PRICE_REGION : list Z → list Z := region PRICE_AND_TRANSFER_TX_PRICE_U64_OFFSET 8.
Definition BLOCKHASH_REGION : list Z → list Z := region PRICE_AND_TRANSFER_TX_BLOCKHASH_OFFSET 32.
Definition SIGNATURE_REGION : list Z → list Z := region PRICE_AND_TRANSFER_TX_SIGNATURE_OFFSET 64.
Definition in_regions (i : nat) : Prop :=
  (1 ≤ i < 65 ∨ 197 ≤ i < 229 ∨ 234 ≤ i < 242)%nat.

Lemma stamped_spec price bh sig buf :
  (PRICE_AND_TRANSFER_TX_TX_LEN ≤ length buf)%nat → length bh = 32%nat → length sig = 64%nat →
  let buf' := stamped price bh sig buf in
  length buf' = length buf ∧ PRICE_REGION buf' = to_le_bytes 8 price ∧ BLOCKHASH_REGION buf' = bh ∧
  SIGNATURE_REGION buf' = sig ∧ (∀ i, ¬ in_regions i → buf' !! i = buf !! i).
Proof.
  unfold stamped, PRICE_REGION, BLOCKHASH_REGION, SIGNATURE_REGION, in_regions, PRICE_AND_TRANSFER_TX_TX_LEN,
    PRICE_AND_TRANSFER_TX_PRICE_U64_OFFSET, PRICE_AND_TRANSFER_TX_BLOCKHASH_OFFSET,
    PRICE_AND_TRANSFER_TX_SIGNATURE_OFFSET. intros Hl Hb Hs.
  pose proof (length_to_le_bytes 8 price) as Hp. set (le := to_le_bytes 8 price) in *.
  assert (Hw1 : length (splice 234 le buf) = length buf) by (apply length_splice; lia).
  assert (Hw2 : length (splice 197 bh (splice 234 le buf)) = length buf) by (rewrite length_splice; lia).
  split_and!.
  - rewrite length_splice; lia.
  - rewrite !region_other, region_same by lia. done.
  - rewrite region_other, region_same by lia. done.
  - rewrite region_same by lia. done.
  - intros i Hi. rewrite !splice_lookup by lia. by rewrite !decide_False by lia.
Qed.

(** The kinds of packets. *)
Inductive traffic : Type := Clean | Unparsable | BadSignature | Untouched.
Definition traffic_of self : traffic :=
  if ip_bad self then
    let sample := (gen_f32 (sample_cu_price (ip_signer self) (ip_rng self)).2).1 in
    if SFltb sample (f32_lit 25 100) then Unparsable
    else if SFltb sample (f32_lit 3 10) then BadSignature else Untouched
  else Clean.

(** Size and last byte by kind. *)
Definition traffic_size (k : traffic) p : Z :=
  match k with
  | Clean | BadSignature => Z.of_nat PRICE_AND_TRANSFER_TX_TX_LEN
  | Unparsable => 0
  | Untouched => pkt_size (pkt_meta p)
  end.
Definition traffic_last (k : traffic) p : Z :=
  match k with
  | Clean | Unparsable => 0
  | BadSignature => 1
  | Untouched => default 0 (last (pkt_buffer p))
  end.

(** The packet with the buffer, size and address replaced. *)
Definition repacked (buf : list Z) (size : Z) (a : IpAddr) p : Packet :=
  mkPacket buf (mkPacketMeta size a (pkt_port (pkt_meta p)) (pkt_flags (pkt_meta p))).

Definition price_of self : Z := (sample_cu_price (ip_signer self) (ip_rng self)).1.
Definition stamp_of self p e : list Z :=
  stamped (price_of self) (hash_new_unique e).1 (random_array 64 (hash_new_unique e).2).1 (pkt_buffer p).
Definition traffic_buffer (k : traffic) (buf : list Z) : list Z :=
  match k with
  | Clean | Unparsable => splice (length buf - 1) [0] buf
  | BadSignature => splice (length buf - 1) [1] buf
  | Untouched => buf
  end.

Lemma traffic_buffer_spec k buf :
  (0 < length buf)%nat →
  length (traffic_buffer k buf) = length buf ∧
  (∀ i, (S i < length buf)%nat → traffic_buffer k buf !! i = buf !! i) ∧
  last (traffic_buffer k buf) = match k with
    | Clean | Unparsable => Some 0 | BadSignature => Some 1 | Untouched => last buf end.
Proof.
  intros Hl. assert (Hb : ∀ b, (length buf - 1 + length [b : Z] ≤ length buf)%nat) by (intros; cbn [length]; lia).
  assert (Hsp : ∀ b, length (splice (length buf - 1) [b] buf) = length buf ∧
    (∀ i, (S i < length buf)%nat → splice (length buf - 1) [b] buf !! i = buf !! i) ∧
    last (splice (length buf - 1) [b] buf) = Some b).
  { intros b. split_and!; [by rewrite length_splice| |].
    - intros i Hi. rewrite splice_lookup by done. by rewrite decide_False by (cbn [length]; lia).
    - rewrite last_lookup, length_splice, splice_lookup by done. rewrite decide_True by (cbn [length]; lia).
      by replace (pred (length buf) - (length buf - 1))%nat with 0%nat by lia. }
  destruct k; cbn [traffic_buffer]; auto.
Qed.

Lemma traffic_buffer_region k buf off n :
  (off + n < length buf)%nat → region off n (traffic_buffer k buf) = region off n buf.
Proof.
  intros Hl. destruct (traffic_buffer_spec k buf ltac:(lia)) as (_ & Hs & _). apply list_eq. intros i.
  rewrite !region_lookup. case_decide; [|done]. apply Hs. lia.
Qed.

Lemma traffic_buffer_u8 k buf : Forall u8_ok buf → Forall u8_ok (traffic_buffer k buf).
Proof.
  intros Hb. assert (∀ b, b = 0 ∨ b = 1 → Forall u8_ok [b]) by
    (intros b Hb1; repeat constructor; destruct Hb1; subst; unfold u8_ok, in_u; lia).
  destruct k; cbn [traffic_buffer]; try apply splice_u8; auto.
Qed.

Lemma read_price_region p price :
  (PRICE_AND_TRANSFER_TX_TX_LEN ≤ length (pkt_buffer p))%nat → u64_ok price →
  PRICE_REGION (pkt_buffer p) = to_le_bytes 8 price → read_price p = Ret price.
Proof.
  intros Hl Hp Hr. unfold read_price. rewrite decide_True by
    (unfold PRICE_AND_TRANSFER_TX_TX_LEN, PRICE_AND_TRANSFER_TX_PRICE_U64_OFFSET in *; lia).
  unfold PRICE_REGION, region in Hr. rewrite Hr, from_to_le_bytes. by rewrite Z.mod_small.
Qed.

Lemma update_transfer_run self p e :
  (PRICE_AND_TRANSFER_TX_TX_LEN ≤ length (pkt_buffer p))%nat →
  ∃ rng', update_transfer_with_priority self p e =
    Ret (mkIp (ip_bytes self) (ip_signer self) rng' (ip_bad self),
         repacked (traffic_buffer (traffic_of self) (stamp_of self p e)) (traffic_size (traffic_of self) p)
           (V4 (ip_addr self)) p,
         (random_array 64 (hash_new_unique e).2).2).
Proof.
  intros Hl. unfold update_transfer_with_priority, stamp_of, price_of, traffic_of.
  destruct (sample_cu_price (ip_signer self) (ip_rng self)) as [price rng]. cbn [fst snd].
  pose proof (unique_hash_bytes e) as [Hb _]. destruct (hash_new_unique e) as [bh e1]. cbn [fst snd] in *.
  pose proof (random_array_ok 64 e1) as [Hs _].
  pose proof (stamped_spec price bh (random_array 64 e1).1 (pkt_buffer p) Hl Hb Hs) as (Hsl & _).
  unfold stamped, PRICE_AND_TRANSFER_TX_TX_LEN in *.
  unfold update_compute_unit_price, update_blockhash, update_signature_invalid.
  destruct (random_array 64 e1) as [sig e2]. cbn [fst snd] in *.
  unfold PRICE_AND_TRANSFER_TX_PRICE_U64_OFFSET, PRICE_AND_TRANSFER_TX_BLOCKHASH_OFFSET,
    PRICE_AND_TRANSFER_TX_SIGNATURE_OFFSET in *.
  pose proof (length_to_le_bytes 8 price) as Hp. set (le := to_le_bytes 8 price) in *.
  assert (Hw1 : length (splice 234 le (pkt_buffer p)) = length (pkt_buffer p)) by (apply length_splice; lia).
  assert (Hw2 : length (splice 197 bh (splice 234 le (pkt_buffer p))) = length (pkt_buffer p)) by (rewrite length_splice; lia).
  rewrite write_at_splice, bind_Ret by lia. cbn beta iota.
  rewrite write_at_splice, bind_Ret by lia. cbn beta iota.
  rewrite write_at_splice, bind_Ret by lia. rewrite bind_Ret. cbn beta iota.
  set (buf := splice 1 sig _) in *. assert (Hbl : (0 < length buf)%nat) by lia.
  unfold spoil. cbn [pkt_buffer set_size set_buffer]. rewrite !set_last_run by done.
  destruct (ip_bad self).
  - destruct (gen_f32 rng) as [sample rng']. cbn [fst]. destruct (SFltb sample (f32_lit 25 100)), (SFltb sample (f32_lit 3 10));
      cbn; eexists; reflexivity.
  - cbn. eexists. reflexivity.
Qed.

Lemma price_of_bound self : 0 ≤ price_of self ≤ 1000000000.
Proof.
  unfold price_of, sample_cu_price. pose proof (lognormal_sample_ok (cu_price_distribution (ip_signer self)) (ip_rng self)) as Hx.
  destruct (lognormal_sample _ _) as [x r]. by apply capped_price.
Qed.

Lemma ip_addr_octets self : length (ip_bytes self) = 4%nat → octets (ip_addr self) = ip_bytes self.
Proof.
  unfold ip_addr, octets. cbn. destruct (ip_bytes self) as [|?[|?[|?[|?[|]]]]]; simpl; congruence || lia.
Qed.

(** The packet of a step is well-formed, and its price can be read. *)
Lemma update_transfer_parts self p e :
  (PRICE_AND_TRANSFER_TX_TX_LEN < PACKET_DATA_SIZE)%nat → packet_ok p →
  length (ip_bytes self) = 4%nat → Forall u8_ok (ip_bytes self) →
  let p' := repacked (traffic_buffer (traffic_of self) (stamp_of self p e)) (traffic_size (traffic_of self) p)
              (V4 (ip_addr self)) p in
  packet_ok p' ∧ octets (ip_addr self) = ip_bytes self ∧ read_price p' = Ret (price_of self).
Proof.
  intros Hlen Hok Hip Hip8. cbv zeta. pose proof (ok_buffer_len _ Hok) as Hbl.
  pose proof (price_of_bound self) as Hpr. destruct (unique_hash_bytes e) as [Hb Hb8].
  destruct (random_array_ok 64 (hash_new_unique e).2) as [Hs Hs8].
  destruct (stamped_spec (price_of self) _ _ (pkt_buffer p) ltac:(lia) Hb Hs) as (Hsl & HP & _).
  pose proof (ip_addr_octets self Hip) as Hoct.
  destruct (traffic_buffer_spec (traffic_of self) (stamp_of self p e)) as (Htl & _);
    [unfold stamp_of, PRICE_AND_TRANSFER_TX_TX_LEN in *; lia|].
  unfold stamp_of in *. set (buf := stamped _ _ _ _) in *. split_and!; [|done|].
  - split; cbn [repacked pkt_meta pkt_buffer pkt_size pkt_addr pkt_port pkt_flags addr_ok]; [lia| | | |apply Hok|apply Hok].
    + apply traffic_buffer_u8. unfold buf, stamped. by repeat apply splice_u8; [apply Hok|apply to_le_bytes_u8|..].
    + unfold traffic_size. destruct (traffic_of self); try apply Hok; unfold u64_ok, in_u, PRICE_AND_TRANSFER_TX_TX_LEN; lia.
    + unfold ipv4_ok. by rewrite Hoct.
  - unfold PRICE_AND_TRANSFER_TX_TX_LEN in *.
    apply read_price_region; cbn [repacked pkt_buffer]; [unfold PRICE_AND_TRANSFER_TX_TX_LEN; lia|unfold u64_ok, in_u; lia|].
    rewrite <- HP. apply traffic_buffer_region. unfold PRICE_AND_TRANSFER_TX_PRICE_U64_OFFSET. lia.
Qed.

(** C34. One step of an agent.  For any packet it returns without an access out of
    range, yields a well-formed packet with the agent's address and a price of at most
    1e9 that [read_price] reads back, a new blockhash and a new signature; no other
    byte but the last changes.  Size and last byte depend on the kind of traffic: an
    agent that is not bad always sends a whole, clean transaction; a bad one empties
    the packet, or marks its signature as invalid, or leaves size and last byte as the
    packet before had them. *)
Theorem update_transfer_effect self p e :
  (PRICE_AND_TRANSFER_TX_TX_LEN < PACKET_DATA_SIZE)%nat → packet_ok p →
  length (ip_bytes self) = 4%nat → Forall u8_ok (ip_bytes self) →
  ∃ self' p' e', update_transfer_with_priority self p e = Ret (self', p', e') ∧ packet_ok p' ∧
    pkt_addr (pkt_meta p') = V4 (ip_addr self) ∧ octets (ip_addr self) = ip_bytes self ∧
    0 ≤ price_of self ≤ 1000000000 ∧ read_price p' = Ret (price_of self) ∧
    BLOCKHASH_REGION (pkt_buffer p') = (hash_new_unique e).1 ∧
    SIGNATURE_REGION (pkt_buffer p') = (random_array 64 (hash_new_unique e).2).1 ∧
    (∀ i, ¬ in_regions i → (S i < PACKET_DATA_SIZE)%nat → pkt_buffer p' !! i = pkt_buffer p !! i) ∧
    pkt_size (pkt_meta p') = traffic_size (traffic_of self) p ∧
    last (pkt_buffer p') = Some (traffic_last (traffic_of self) p) ∧
    (ip_bad self = false → traffic_of self = Clean).
Proof.
  intros Hlen Hok Hip Hip8. pose proof (ok_buffer_len _ Hok) as Hbl.
  destruct (update_transfer_run self p e ltac:(lia)) as [rng' ->]. do 3 eexists. split; [done|].
  destruct (update_transfer_parts self p e Hlen Hok Hip Hip8) as (Hok' & Hoct & Hprice).
  pose proof (price_of_bound self) as Hpr. destruct (unique_hash_bytes e) as [Hb _].
  destruct (random_array_ok 64 (hash_new_unique e).2) as [Hs _].
  destruct (stamped_spec (price_of self) _ _ (pkt_buffer p) ltac:(lia) Hb Hs) as (Hsl & _ & HB & HS & Hrest).
  unfold PRICE_AND_TRANSFER_TX_TX_LEN in *.
  destruct (traffic_buffer_spec (traffic_of self) (stamp_of self p e)) as (Htl & Htr & Htlast); [unfold stamp_of; lia|].
  cbn [repacked pkt_meta pkt_addr pkt_size pkt_buffer pkt_port pkt_flags]. unfold stamp_of in *.
  set (buf := stamped _ _ _ _) in *. split_and!; try done; try lia.
  - rewrite <- HB. apply traffic_buffer_region. unfold PRICE_AND_TRANSFER_TX_BLOCKHASH_OFFSET. lia.
  - rewrite <- HS. apply traffic_buffer_region. unfold PRICE_AND_TRANSFER_TX_SIGNATURE_OFFSET. lia.
  - intros i Hi Hil. rewrite Htr by lia. by apply Hrest.
  - rewrite Htlast. unfold traffic_last. destruct (traffic_of self); try done.
    rewrite !last_lookup, Hsl, Hrest; [|unfold in_regions; lia].
    destruct (lookup_lt_is_Some_2 (pkt_buffer p) (pred (length (pkt_buffer p)))) as [x ->]; [lia|done].
  - intros E. unfold traffic_of. by rewrite E.
Qed.
End Agents.

(** Signing in place: the payer is replaced by the key of the pair, and the
    signature that is written signs the message as it then stands, up to the end of
    the slice; blockhash, price and every byte outside these two fields are left alone. *)
Theorem payer_and_signature_effect `{KeyLaws} buf k :
  (PRICE_AND_TRANSFER_TX_TX_LEN ≤ length buf)%nat →
  ∃ buf', update_payer_and_signature buf k = Ret buf' ∧ length buf' = length buf ∧
    region PRICE_AND_TRANSFER_TX_PAYER_OFFSET 32 buf' = kp_pubkey k ∧
    SIGNATURE_REGION buf' = kp_sign_message k (drop PRICE_AND_TRANSFER_TX_MESSAGE_OFFSET buf') ∧
    PRICE_REGION buf' = PRICE_REGION buf ∧ BLOCKHASH_REGION buf' = BLOCKHASH_REGION buf ∧
    (∀ i, ¬ (1 ≤ i < 65 ∨ 69 ≤ i < 101)%nat → buf' !! i = buf !! i).
Proof.
  intros Hl. destruct (pubkey_bytes k) as [Hk _].
  unfold update_payer_and_signature, SIGNATURE_REGION, PRICE_REGION, BLOCKHASH_REGION, PRICE_AND_TRANSFER_TX_TX_LEN,
    PRICE_AND_TRANSFER_TX_PRICE_U64_OFFSET, PRICE_AND_TRANSFER_TX_BLOCKHASH_OFFSET, PRICE_AND_TRANSFER_TX_PAYER_OFFSET,
    PRICE_AND_TRANSFER_TX_SIGNATURE_OFFSET, PRICE_AND_TRANSFER_TX_MESSAGE_OFFSET in *.
  rewrite write_at_splice, bind_Ret by lia. cbn beta iota.
  assert (Hw1 : length (splice 69 (kp_pubkey k) buf) = length buf) by (apply length_splice; lia).
  set (buf1 := splice 69 _ buf) in *. rewrite decide_False by lia.
  destruct (sign_bytes k (drop 65 buf1)) as [Hs _]. rewrite write_at_splice by lia. eexists. split; [done|].
  split_and!.
  - rewrite length_splice; lia.
  - rewrite region_other by lia. by apply region_same; lia.
  - rewrite region_same by lia. f_equal. apply list_eq. intros i. rewrite !lookup_drop, splice_lookup by lia.
    by rewrite decide_False by lia.
  - rewrite region_other by lia. by apply region_other; lia.
  - rewrite region_other by lia. by apply region_other; lia.
  - intros i Hi. rewrite splice_lookup, decide_False by lia. unfold buf1.
    by rewrite splice_lookup, decide_False by lia.
Qed.

(** ** Reference instances: keys, entropy and distributions that can be computed *)
Definition ref_keys : KeyOps := {|
  keypair := Z; kp_pubkey k := to_le_bytes 32 k; kp_sign_message k m := to_le_bytes 64 (k + from_le_bytes m) |}.
Definition ref_entropy : @EntropyOps ref_keys := {|
  entropy := Z;
  random_u64 e := (wrap 64 e, e + 1);
  random_u8 e := (wrap 8 e, e + 1);
  hash_new_unique e := (to_le_bytes 32 e, e + 1);
  pubkey_new_unique e := (255 :: to_le_bytes 31 e, e + 1);
  keypair_new e := (e : @keypair ref_keys, e + 1);
|}.
(** Samples of the price are 5; the uniform sample is 0 or 1. *)
Definition ref_dist : DistOps := {|
  LogNormal := ();
  lognormal_new _ _ := Some ();
  lognormal_sample _ rng := (f32_of_uint 5, rng);
  gen_f32 rng := (if Z.even (rng_state rng) then f32_of_uint 0 else f32_of_uint 1, rng);
  f32_powi x _ := x;
  f32_exp x := x;
  f32_ln x := x;
|}.
(** A transaction is its price; its packet has zeros behind it. *)
Definition ref_tx : TxOps := {|
  instruction := Z;
  transaction := Z;
  set_compute_unit_price price := price;
  system_transfer _ _ lamports := lamports;
  new_with_payer ixs _ := nth 0 ixs 0;
  set_recent_blockhash _ tx := tx;
  packet_from_data tx := Some (mkPacket (splice 234 (to_le_bytes 8 tx) (replicate 1232 0))
                                        (mkPacketMeta 259 (V4 (mkIpv4 0 0 0 0)) 0 0));
|}.
Lemma ref_tx_laws : @TxLaws ref_packet ref_tx.
Proof.
  split. intros price from to lamports hash. eexists. split; [reflexivity|]. split; [|done].
  split; cbn [pkt_buffer pkt_meta pkt_size pkt_addr pkt_port pkt_flags]; unfold u8_ok, u64_ok, in_u; try lia.
  - rewrite length_splice; [apply length_replicate|]. rewrite length_to_le_bytes, length_replicate. lia.
  - apply splice_u8; [apply Forall_replicate; unfold u8_ok, in_u; lia|apply to_le_bytes_u8].
  - repeat constructor; simpl; lia.
Qed.
Lemma ref_keys_laws : @KeyLaws ref_keys.
Proof. split; intros; (split; [apply length_to_le_bytes|apply to_le_bytes_u8]). Qed.
Lemma ref_entropy_laws : @EntropyLaws ref_keys ref_entropy.
Proof.
  split; intros; try by apply wrap_in_u. split; [apply length_to_le_bytes|apply to_le_bytes_u8].
Qed.
Lemma ref_dist_laws : @DistLaws ref_dist.
Proof. split; intros; [reflexivity|by eexists]. Qed.

Section Witnesses.
#[local] Existing Instance ref_keys.
#[local] Existing Instance ref_entropy.
#[local] Existing Instance ref_dist.
#[local] Existing Instance ref_keys_laws.
#[local] Existing Instance ref_entropy_laws.
#[local] Existing Instance ref_dist_laws.
#[local] Existing Instance ref_packet.

Definition demo_entropy : entropy := (9 : Z).
Definition demo_key : keypair := (3 : Z).
Definition demo_signer : Signer := @mkSigner ref_keys ref_dist demo_key (f32_of_uint 1) (f32_of_uint 1) ().
Definition demo_agent (state : Z) (bad : bool) : Ip := mkIp [7; 7; 7; 7] demo_signer (mkRng state) bad.

(** A bad agent empties a packet, and with another sample leaves an empty one empty. *)
Lemma update_transfer_effect_witness :
  ∃ self' p' e', update_transfer_with_priority (demo_agent 1 true) (sample_packet 0 (V4 home) 80) demo_entropy = Ret (self', p', e') ∧
    pkt_size (pkt_meta p') = 0 ∧ read_price p' = Ret 5.
Proof.
  destruct (update_transfer_effect (demo_agent 1 true) (sample_packet 0 (V4 home) 80) demo_entropy)
    as (self' & p' & e' & E & _ & _ & _ & _ & Hp & _ & _ & _ & Hs & _).
  - apply Nat.ltb_lt. reflexivity.
  - apply sample_packet_ok; [unfold u64_ok, in_u; lia|apply home_ok|unfold in_u; lia].
  - reflexivity.
  - repeat constructor; unfold u8_ok, in_u; simpl; lia.
  - exists self', p', e'. split; [exact E|]. split; [exact Hs|exact Hp].
Defined.

Lemma payer_and_signature_effect_witness :
  ∃ buf', update_payer_and_signature (replicate 259 0) demo_key = Ret buf' ∧ PRICE_REGION buf' = replicate 8 0.
Proof.
  destruct (payer_and_signature_effect (replicate 259 0) demo_key) as (buf' & E & _ & _ & _ & Hp & _); [vm_compute; lia|].
  exists buf'. split; [exact E|]. rewrite Hp. reflexivity.
Defined.
End Witnesses.
