(* ===== verification/TxPatch.v ===== *)
(** The transactions of the agents, on the wire: a compute unit price and a transfer.  The
    functions of [engine/src/agent.rs] overwrite fixed ranges of their bytes; here each is
    shown to do what it means to, to change one field of the transaction.

    [transfer] lists the fields that vary, [transfer_tx] is the transaction the SDK compiles:
    four keys (payer, destination, system program, compute budget program) and two
    instructions ([CompileLaws] in [Traffic] says so of the SDK). *)
From Stdlib Require Import ZArith Lia.
From stdpp Require Import gmap list.
From S2P Require Import Prelude F64 Wire Core Rng Agent AgentProps Wireformat.
Local Open Scope Z_scope.

Record transfer : Type := mkTransfer {
  tr_signature : list Z;
  tr_payer : list Z;
  tr_to : list Z;
  tr_blockhash : list Z;
  tr_price : Z;
  tr_lamports : Z;
}.
Record transfer_ok (t : transfer) : Prop := {
  tk_signature : bytes_ok 64 (tr_signature t);
  tk_payer : bytes_ok 32 (tr_payer t);
  tk_to : bytes_ok 32 (tr_to t);
  tk_blockhash : bytes_ok 32 (tr_blockhash t);
  tk_price : u64_ok (tr_price t);
  tk_lamports : u64_ok (tr_lamports t);
}.

Definition with_signature (s : list Z) (t : transfer) : transfer :=
  mkTransfer s (tr_payer t) (tr_to t) (tr_blockhash t) (tr_price t) (tr_lamports t).
Definition with_payer (k : list Z) (t : transfer) : transfer :=
  mkTransfer (tr_signature t) k (tr_to t) (tr_blockhash t) (tr_price t) (tr_lamports t).
Definition with_blockhash (h : list Z) (t : transfer) : transfer :=
  mkTransfer (tr_signature t) (tr_payer t) (tr_to t) h (tr_price t) (tr_lamports t).
Definition with_price (p : Z) (t : transfer) : transfer :=
  mkTransfer (tr_signature t) (tr_payer t) (tr_to t) (tr_blockhash t) p (tr_lamports t).

Definition SYSTEM_PROGRAM_ID : list Z := replicate 32 0.
(** [ComputeBudgetInstruction::SetComputeUnitPrice] and [SystemInstruction::Transfer], the
    latter with a four-byte tag. *)
Definition price_data (price : Z) : list Z := 3 :: to_le_bytes 8 price.
Definition transfer_data (lamports : Z) : list Z := to_le_bytes 4 2 ++ to_le_bytes 8 lamports.

Section Shape.
Context `{ViewOps}.

Definition transfer_tx (t : transfer) : Transaction :=
  mkTransaction [tr_signature t] [1; 0; 2] [tr_payer t; tr_to t; SYSTEM_PROGRAM_ID; COMPUTE_BUDGET_ID] (tr_blockhash t)
    [mkCompiled 3 [] (price_data (tr_price t)); mkCompiled 2 [0; 1] (transfer_data (tr_lamports t))].
Definition wire (t : transfer) : list Z := encode (transfer_tx t).

Lemma concat_byte l : concat (byte <$> l) = l.
Proof. induction l as [|x l IH]; [done|]. cbn. by rewrite <- IH at 2. Qed.

Lemma wire_eq t :
  wire t = [1] ++ tr_signature t ++ [1; 0; 2; 4] ++ tr_payer t ++ tr_to t ++ SYSTEM_PROGRAM_ID ++ COMPUTE_BUDGET_ID ++
    tr_blockhash t ++ [2; 3; 0; 9; 3] ++ to_le_bytes 8 (tr_price t) ++ [2; 2; 0; 1; 12] ++ transfer_data (tr_lamports t).
Proof.
  unfold wire, encode, encode_message, transfer_tx, short_vec, encode_instruction, raw.
  cbn [tx_signatures tx_header tx_account_keys tx_blockhash tx_instructions fmap list_fmap concat ci_program ci_accounts ci_data].
  unfold short_vec. rewrite !concat_byte, !app_nil_r.
  change (length (price_data (tr_price t))) with 9%nat. change (length (transfer_data (tr_lamports t))) with 12%nat.
  unfold price_data, short_len. cbn [length]. cbn -[transfer_data to_le_bytes SYSTEM_PROGRAM_ID].
  by rewrite <- !app_assoc.
Qed.

Lemma message_eq t : encode_message (transfer_tx t) = drop (1 + length (tr_signature t)) (wire t).
Proof.
  unfold wire, encode, short_vec, raw. cbn [tx_signatures transfer_tx fmap list_fmap concat length].
  rewrite app_nil_r. change (short_len 1) with [1]. rewrite <- app_assoc.
  cbn [app]. cbn [Nat.add drop]. by rewrite drop_app_length.
Qed.
End Shape.

(** Overwriting a field in the middle. *)
Lemma write_at_mid (a old b new : list Z) off :
  off = Z.of_nat (length a) → length new = length old → write_at (a ++ old ++ b) off new = Ret (a ++ new ++ b).
Proof.
  intros -> Hl. rewrite write_at_run by (rewrite !length_app; lia). f_equal. f_equal.
  - by rewrite take_app_length.
  - f_equal. rewrite Hl, (app_assoc a), drop_app_length' by (rewrite length_app; done). done.
Qed.

Section Patches.
Context `{WireLaws}.
Implicit Types (t : transfer) (rest : list Z).

Lemma wire_length t : transfer_ok t → length (wire t) = PRICE_AND_TRANSFER_TX_TX_LEN.
Proof.
  intros [[Hs _] [Hp _] [Ht _] [Hb _] _ _]. rewrite wire_eq. rewrite !length_app, Hs, Hp, Ht, Hb, length_to_le_bytes.
  rewrite (proj1 compute_budget_bytes). reflexivity.
Qed.

Lemma transfer_tx_ok t : transfer_ok t → tx_ok (transfer_tx t) ∧ tx_sane (transfer_tx t).
Proof.
  intros [Hs Hp Ht Hb _ _]. split.
  - assert (Hsys : bytes_ok 32 SYSTEM_PROGRAM_ID) by by apply (bool_decide_unpack _).
    assert (Hd : ∀ n x, Forall u8_ok (to_le_bytes n x)) by apply to_le_bytes_u8. pose proof compute_budget_bytes.
    split; cbn [transfer_tx tx_signatures tx_header tx_account_keys tx_blockhash tx_instructions].
    + by apply Forall_singleton.
    + by apply (bool_decide_unpack _).
    + by repeat apply Forall_cons_2.
    + done.
    + apply Forall_cons_2; [|apply Forall_singleton]; split; cbn [ci_program ci_accounts ci_data]; try done;
        try by apply (bool_decide_unpack _).
      * by apply Forall_cons_2; [apply (bool_decide_unpack _)|].
      * by apply Forall_app_2.
    + done.
  - cbn. split_and!; try lia. repeat constructor; unfold index_ok; cbn; lia.
Qed.
(** The wire around each field that is overwritten. *)
Lemma wire_signature sig t rest :
  wire (with_signature sig t) ++ rest = [1] ++ sig ++ drop (1 + length (tr_signature t)) (wire t ++ rest).
Proof.
  rewrite !wire_eq. cbn [tr_signature tr_payer tr_to tr_blockhash tr_price tr_lamports with_signature].
  rewrite <- !app_assoc. cbn [app Nat.add drop]. by rewrite drop_app_length.
Qed.
Lemma wire_blockhash h t rest :
  wire (with_blockhash h t) ++ rest =
  ([1] ++ tr_signature t ++ [1; 0; 2; 4] ++ tr_payer t ++ tr_to t ++ SYSTEM_PROGRAM_ID ++ COMPUTE_BUDGET_ID) ++ h ++
  ([2; 3; 0; 9; 3] ++ to_le_bytes 8 (tr_price t) ++ [2; 2; 0; 1; 12] ++ transfer_data (tr_lamports t) ++ rest).
Proof. rewrite wire_eq. cbn [tr_signature tr_payer tr_to tr_blockhash tr_price tr_lamports with_blockhash]. by rewrite <- !app_assoc. Qed.
Lemma wire_price p t rest :
  wire (with_price p t) ++ rest =
  ([1] ++ tr_signature t ++ [1; 0; 2; 4] ++ tr_payer t ++ tr_to t ++ SYSTEM_PROGRAM_ID ++ COMPUTE_BUDGET_ID ++ tr_blockhash t ++
   [2; 3; 0; 9; 3]) ++ to_le_bytes 8 p ++ ([2; 2; 0; 1; 12] ++ transfer_data (tr_lamports t) ++ rest).
Proof. rewrite wire_eq. cbn [tr_signature tr_payer tr_to tr_blockhash tr_price tr_lamports with_price]. by rewrite <- !app_assoc. Qed.
Lemma wire_payer k t rest :
  wire (with_payer k t) ++ rest =
  ([1] ++ tr_signature t ++ [1; 0; 2; 4]) ++ k ++ (tr_to t ++ SYSTEM_PROGRAM_ID ++ COMPUTE_BUDGET_ID ++ tr_blockhash t ++
   [2; 3; 0; 9; 3] ++ to_le_bytes 8 (tr_price t) ++ [2; 2; 0; 1; 12] ++ transfer_data (tr_lamports t) ++ rest).
Proof. rewrite wire_eq. cbn [tr_signature tr_payer tr_to tr_blockhash tr_price tr_lamports with_payer]. by rewrite <- !app_assoc. Qed.

(** Overwriting the bytes of a field changes the field. *)
Lemma patch_price t rest price :
  transfer_ok t → update_compute_unit_price (wire t ++ rest) price = Ret (wire (with_price price t) ++ rest).
Proof.
  intros [[Hs _] [Hp _] [Ht _] [Hb _] _ _].
  replace (wire t) with (wire (with_price (tr_price t) t)) by by destruct t.
  rewrite !wire_price. apply write_at_mid; [|by rewrite !length_to_le_bytes].
  by rewrite !length_app, Hs, Hp, Ht, Hb, (proj1 compute_budget_bytes).
Qed.
Lemma patch_blockhash t rest h :
  transfer_ok t → length h = 32%nat → update_blockhash (wire t ++ rest) h = Ret (wire (with_blockhash h t) ++ rest).
Proof.
  intros [[Hs _] [Hp _] [Ht _] [Hb _] _ _] Hh.
  replace (wire t) with (wire (with_blockhash (tr_blockhash t) t)) by by destruct t.
  rewrite !wire_blockhash. apply write_at_mid; [|lia].
  by rewrite !length_app, Hs, Hp, Ht, (proj1 compute_budget_bytes).
Qed.
Lemma patch_signature t rest sig :
  transfer_ok t → length sig = 64%nat →
  write_at (wire t ++ rest) (Z.of_nat PRICE_AND_TRANSFER_TX_SIGNATURE_OFFSET) sig = Ret (wire (with_signature sig t) ++ rest).
Proof.
  intros [[Hs _] _ _ _ _ _] Hsig.
  replace (wire t ++ rest) with (wire (with_signature (tr_signature t) t) ++ rest) at 1 by by destruct t.
  rewrite !wire_signature. apply write_at_mid; [done|lia].
Qed.
Lemma patch_payer t rest k :
  transfer_ok t → length k = 32%nat →
  write_at (wire t ++ rest) (Z.of_nat PRICE_AND_TRANSFER_TX_PAYER_OFFSET) k = Ret (wire (with_payer k t) ++ rest).
Proof.
  intros [[Hs _] [Hp _] _ _ _ _] Hk.
  replace (wire t) with (wire (with_payer (tr_payer t) t)) by by destruct t.
  rewrite !wire_payer. apply write_at_mid; [|lia]. by rewrite !length_app, Hs.
Qed.

(** The price an agent's packet carries is the one [read_price] reads. *)
Lemma wire_read_price t rest m :
  transfer_ok t → read_price (mkPacket (wire t ++ rest) m) = Ret (tr_price t).
Proof.
  intros Hok. pose proof Hok as [[Hs _] [Hp _] [Ht _] [Hb _] Hpr _]. unfold read_price. cbn [pkt_buffer].
  rewrite decide_True by (rewrite length_app, wire_length by done; unfold PRICE_AND_TRANSFER_TX_PRICE_U64_OFFSET,
    PRICE_AND_TRANSFER_TX_TX_LEN; lia).
  replace (wire t) with (wire (with_price (tr_price t) t)) by by destruct t. rewrite wire_price.
  rewrite drop_app_length' by (by rewrite !length_app, Hs, Hp, Ht, Hb, (proj1 compute_budget_bytes)).
  rewrite take_app_length' by by rewrite length_to_le_bytes. rewrite from_to_le_bytes. f_equal. by apply Z.mod_small.
Qed.
End Patches.

(** ** Properties *)
Section Props.
Context `{WireLaws} `{KeyLaws} `{!EntropyOps} `{!EntropyLaws}.

(** The transaction with a new payer, signed by it. *)
Definition signed_by (k : keypair) (t : transfer) : transfer :=
  let t := with_payer (kp_pubkey k) t in
  with_signature (kp_sign_message k (encode_message (transfer_tx t))) t.

Lemma patch_payer_and_signature t k :
  transfer_ok t → update_payer_and_signature (wire t) k = Ret (wire (signed_by k t)).
Proof.
  intros Hok. unfold update_payer_and_signature. destruct (pubkey_bytes k) as [Hk Hk8].
  rewrite <- (app_nil_r (wire t)), patch_payer, bind_Ret, app_nil_r by done.
  set (t' := with_payer (kp_pubkey k) t). assert (Hok' : transfer_ok t') by (destruct Hok; by split).
  rewrite decide_False by (rewrite wire_length by done; unfold PRICE_AND_TRANSFER_TX_MESSAGE_OFFSET,
    PRICE_AND_TRANSFER_TX_TX_LEN; lia).
  replace (drop PRICE_AND_TRANSFER_TX_MESSAGE_OFFSET (wire t')) with (encode_message (transfer_tx t')) by
    (rewrite message_eq, (proj1 (tk_signature _ Hok')); done).
  rewrite <- (app_nil_r (wire t')), patch_signature, app_nil_r by (done || apply sign_bytes). done.
Qed.

(** C9. The functions that overwrite parts of a serialized transaction in place, at offsets
    written as constants, change exactly the field they are named after: on the bytes of
    any price-and-transfer transaction, whatever follows them in the buffer, each yields
    the bytes of that transaction with the field replaced.  The new signature of
    [update_payer_and_signature] is the payer's, over the message with the new payer. *)
Theorem patches_change_fields (t : transfer) (rest : list Z) :
  transfer_ok t →
  length (wire t) = PRICE_AND_TRANSFER_TX_TX_LEN ∧
  (∀ price, update_compute_unit_price (wire t ++ rest) price = Ret (wire (with_price price t) ++ rest)) ∧
  (∀ h, length h = 32%nat → update_blockhash (wire t ++ rest) h = Ret (wire (with_blockhash h t) ++ rest)) ∧
  (∀ e, update_signature_invalid (wire t ++ rest) e =
     Ret (wire (with_signature (random_array 64 e).1 t) ++ rest, (random_array 64 e).2)) ∧
  (∀ k, update_payer_and_signature (wire t) k = Ret (wire (signed_by k t))).
Proof.
  intros Hok. split_and!.
  - by apply wire_length.
  - intros price. by apply patch_price.
  - intros h. by apply patch_blockhash.
  - intros e. unfold update_signature_invalid. pose proof (random_array_ok 64 e) as [Hl _].
    destruct (random_array 64 e) as [sig e']. by rewrite patch_signature.
  - intros k. by apply patch_payer_and_signature.
Qed.
End Props.

Section Witnesses.
#[local] Existing Instance ref_wire_view.
#[local] Existing Instance ref_bincode.
#[local] Existing Instance ref_wire_laws.
#[local] Existing Instance ref_keys.
#[local] Existing Instance ref_keys_laws.
#[local] Existing Instance ref_entropy.
#[local] Existing Instance ref_entropy_laws.

Definition demo_transfer : transfer := mkTransfer (replicate 64 0) (replicate 32 1) (replicate 32 2) (replicate 32 42) 115 0.
Lemma demo_transfer_ok : transfer_ok demo_transfer.
Proof. split; try (unfold bytes_ok; cbn; split; [reflexivity|repeat constructor; unfold in_u; lia]); unfold u64_ok, in_u; cbn; lia. Qed.

Lemma patches_change_fields_witness :
  update_compute_unit_price (wire demo_transfer ++ [7]) 139 = Ret (wire (with_price 139 demo_transfer) ++ [7]) ∧
  update_payer_and_signature (wire demo_transfer) demo_key = Ret (wire (signed_by demo_key demo_transfer)).
Proof.
  destruct (patches_change_fields demo_transfer [7] demo_transfer_ok) as (_ & Hp & _ & _ & Hs).
  split; [apply Hp|apply Hs].
Defined.
End Witnesses.
