(* ===== verification/Text.v ===== *)
(** Text as the tools write and read it: the parts of the standard library that format
    numbers and addresses, write them through a buffer to a file, split a file into lines
    and words, and parse numbers.  Writing to a file can fail.

    A file is a list of bytes; a [str] is the list of its Unicode scalar values, which
    for ASCII text are its bytes. *)
From Stdlib Require Import ZArith Lia String.
From stdpp Require Import gmap list strings.
From S2P Require Import Prelude Wire.
Local Open Scope Z_scope.

Abbreviation str := (list Z).

(** The text of a string literal; characters outside ASCII appear as the bytes of their
    encoding. *)
Definition text (s : string) : str := (λ a, Z.of_N (Ascii.N_of_ascii a)) <$> list_ascii_of_string s.

#[global] Instance ipv4_eq_dec : EqDecision Ipv4Addr.
Proof. solve_decision. Defined.
#[global] Instance addr_eq_dec : EqDecision IpAddr.
Proof. solve_decision. Defined.

(** ** Formatting *)
Fixpoint dec_digits (fuel : nat) (x : Z) : str :=
  match fuel with
  | O => []
  | S fuel => if decide (x < 10) then [48 + x] else dec_digits fuel (x / 10) ++ [48 + x mod 10]
  end.
(** [Display] for [u64]: at most twenty digits. *)
Definition display_u64 (x : Z) : str := dec_digits 20 x.

Fixpoint hex_digits (fuel : nat) (x : Z) : str :=
  let digit d := if decide (d < 10) then 48 + d else 87 + d in
  match fuel with
  | O => []
  | S fuel => if decide (x < 16) then [digit x] else hex_digits fuel (x / 16) ++ [digit (x mod 16)]
  end.

Definition display_ipv4 (ip : Ipv4Addr) : str :=
  display_u64 (oct0 ip) ++ [46] ++ display_u64 (oct1 ip) ++ [46] ++ display_u64 (oct2 ip) ++ [46] ++ display_u64 (oct3 ip).

(** [Display] for [Ipv6Addr]: an IPv4 address if it is mapped, otherwise the segments in
    hexadecimal, with the first longest run of at least two zeros left out. *)
Fixpoint segments (o : list Z) : list Z :=
  match o with h :: l :: o => h * 256 + l :: segments o | _ => [] end.
Fixpoint zero_run (i : nat) (cur best : nat * nat) (s : list Z) : nat * nat :=
  match s with
  | [] => best
  | x :: s =>
     if decide (x = 0) then
       let cur := if decide (cur.2 = 0%nat) then (i, 1%nat) else (cur.1, S cur.2) in
       zero_run (S i) cur (if decide (best.2 < cur.2)%nat then cur else best) s
     else zero_run (S i) (0%nat, 0%nat) best s
  end.
Fixpoint display_segments (s : list Z) : str :=
  match s with
  | [] => []
  | [x] => hex_digits 4 x
  | x :: s => hex_digits 4 x ++ [58] ++ display_segments s
  end.
Definition display_ipv6 (o : list Z) : str :=
  if decide (take 12 o = replicate 10 0 ++ [255; 255]) then
    [58; 58; 102; 102; 102; 102; 58] ++ display_ipv4 (mkIpv4 (nth 12 o 0) (nth 13 o 0) (nth 14 o 0) (nth 15 o 0))
  else
    let s := segments o in
    let '(start, len) := zero_run 0 (0, 0)%nat (0, 0)%nat s in
    if decide (1 < len)%nat
    then display_segments (take start s) ++ [58; 58] ++ display_segments (drop (start + len) s)
    else display_segments s.
Definition display_addr (a : IpAddr) : str :=
  match a with V4 ip => display_ipv4 ip | V6 o => display_ipv6 o end.

(** [writeln!(file, "{} {}", price, addr)]: the text, and the pieces in which the
    formatter hands it to the writer, one for each number and each separator. *)
Definition text_line (price : Z) (addr : IpAddr) : list Z := display_u64 price ++ [32] ++ display_addr addr ++ [10].

Definition ipv4_pieces (ip : Ipv4Addr) : list str :=
  [display_u64 (oct0 ip); [46]; display_u64 (oct1 ip); [46]; display_u64 (oct2 ip); [46]; display_u64 (oct3 ip)].
Fixpoint segment_pieces (s : list Z) : list str :=
  match s with
  | [] => []
  | [x] => [hex_digits 4 x]
  | x :: s => hex_digits 4 x :: [58] :: segment_pieces s
  end.
Definition ipv6_pieces (o : list Z) : list str :=
  if decide (take 12 o = replicate 10 0 ++ [255; 255]) then
    [58; 58; 102; 102; 102; 102; 58] :: ipv4_pieces (mkIpv4 (nth 12 o 0) (nth 13 o 0) (nth 14 o 0) (nth 15 o 0))
  else
    let s := segments o in
    let '(start, len) := zero_run 0 (0, 0)%nat (0, 0)%nat s in
    if decide (1 < len)%nat
    then segment_pieces (take start s) ++ [58; 58] :: segment_pieces (drop (start + len) s)
    else segment_pieces s.
Definition addr_pieces (a : IpAddr) : list str :=
  match a with V4 ip => ipv4_pieces ip | V6 o => ipv6_pieces o end.
Definition line_pieces (price : Z) (addr : IpAddr) : list str :=
  [display_u64 price; [32]] ++ addr_pieces addr ++ [[10]].

(** ** Writing *)
(** A file opened for writing: its bytes, the number of times it was written to, and
    which of these writes fail: [Some n] is an I/O error after [n] of the bytes. *)
Record File : Type := mkFile { fl_bytes : list Z; fl_writes : nat; fl_fault : nat → option nat }.
Definition file_put (l : list Z) (f : File) : File := mkFile (fl_bytes f ++ l) (S (fl_writes f)) (fl_fault f).

(** A [BufWriter] keeps what it has not yet written to its file; only the file survives
    the process.  The operations return whether they succeed. *)
Record BufWriter : Type := mkWriter { bw_file : File; bw_buf : list Z }.
Definition BW_CAPACITY : nat := 8 * 1024.
Definition bw_new (f : File) : BufWriter := mkWriter f [].

(** [flush_buf], [flush]: an empty buffer writes nothing; after an error the bytes that
    were written leave the buffer. *)
Definition bw_flush (w : BufWriter) : bool * BufWriter :=
  match bw_buf w with
  | [] => (true, w)
  | buf =>
     match fl_fault (bw_file w) (fl_writes (bw_file w)) with
     | None => (true, mkWriter (file_put buf (bw_file w)) [])
     | Some n => (false, mkWriter (file_put (take n buf) (bw_file w)) (drop n buf))
     end
  end.

(** [write_all] when there is room, or when the buffer is empty: what does not fit into
    an empty buffer goes straight to the file. *)
Definition bw_put (l : list Z) (w : BufWriter) : bool * BufWriter :=
  if decide (BW_CAPACITY ≤ length l)%nat then
    match fl_fault (bw_file w) (fl_writes (bw_file w)) with
    | None => (true, mkWriter (file_put l (bw_file w)) (bw_buf w))
    | Some n => (false, mkWriter (file_put (take n l) (bw_file w)) (bw_buf w))
    end
  else (true, mkWriter (bw_file w) (bw_buf w ++ l)).
Definition bw_write_all (l : list Z) (w : BufWriter) : bool * BufWriter :=
  let spare := (BW_CAPACITY - length (bw_buf w))%nat in
  if decide (length l < spare)%nat then (true, mkWriter (bw_file w) (bw_buf w ++ l))
  else if decide (spare < length l)%nat then
    let '(ok, w) := bw_flush w in if ok : bool then bw_put l w else (false, w)
  else bw_put l w.

(** [write_fmt]: the pieces in order, up to the first error. *)
Fixpoint bw_write_fmt (pieces : list str) (w : BufWriter) : bool * BufWriter :=
  match pieces with
  | [] => (true, w)
  | l :: pieces => let '(ok, w) := bw_write_all l w in if ok : bool then bw_write_fmt pieces w else (false, w)
  end.
Definition bw_writeln (w : BufWriter) (price : Z) (addr : IpAddr) : bool * BufWriter :=
  bw_write_fmt (line_pieces price addr) w.

(** [io_result.unwrap()]. *)
Definition io_unwrap {A} (r : bool * A) : outcome A := if r.1 then Ret r.2 else Panic.

(** ** Reading *)
(** [str::from_utf8]: no overlong forms, no surrogates, nothing above [0x10FFFF]. *)
Definition utf8_cont (b : Z) : bool := (128 <=? b) && (b <? 192).
Fixpoint utf8_decode (l : list Z) : option str :=
  match l with
  | [] => Some []
  | b0 :: l1 =>
     if b0 <? 128 then cons b0 <$> utf8_decode l1
     else
     match l1 with
     | [] => None
     | b1 :: l2 =>
        if (192 <=? b0) && (b0 <? 224) then
          let c := (b0 - 192) * 64 + (b1 - 128) in
          if utf8_cont b1 && (128 <=? c) then cons c <$> utf8_decode l2 else None
        else
        match l2 with
        | [] => None
        | b2 :: l3 =>
           if (224 <=? b0) && (b0 <? 240) then
             let c := (b0 - 224) * 4096 + (b1 - 128) * 64 + (b2 - 128) in
             if utf8_cont b1 && utf8_cont b2 && (2048 <=? c) && negb ((55296 <=? c) && (c <? 57344))
             then cons c <$> utf8_decode l3 else None
           else
           match l3 with
           | [] => None
           | b3 :: l4 =>
              let c := (b0 - 240) * 262144 + (b1 - 128) * 4096 + (b2 - 128) * 64 + (b3 - 128) in
              if (240 <=? b0) && (b0 <? 248) && utf8_cont b1 && utf8_cont b2 && utf8_cont b3 &&
                 (65536 <=? c) && (c <=? 1114111)
              then cons c <$> utf8_decode l4 else None
           end
        end
     end
  end.

(** [BufRead::lines]: a line ends with a newline, which is removed together with a
    carriage return in front of it, or with the file. *)
Definition strip_cr (l : list Z) : list Z :=
  if decide (last l = Some 13) then take (length l - 1) l else l.
Fixpoint raw_lines (cur l : list Z) : list (list Z) :=
  match l with
  | [] => match cur with [] => [] | _ => [cur] end
  | c :: l => if decide (c = 10) then strip_cr cur :: raw_lines [] l else raw_lines (cur ++ [c]) l
  end.
Definition lines (file : list Z) : list (option str) := utf8_decode <$> raw_lines [] file.

(** [char::is_whitespace]. *)
Definition is_whitespace (c : Z) : bool :=
  ((9 <=? c) && (c <=? 13)) || (c =? 32) || (c =? 133) || (c =? 160) || (c =? 5760) ||
  ((8192 <=? c) && (c <=? 8202)) || (c =? 8232) || (c =? 8233) || (c =? 8239) || (c =? 8287) || (c =? 12288).

Fixpoint split_words (cur l : str) : list str :=
  match l with
  | [] => match cur with [] => [] | _ => [cur] end
  | c :: l =>
     if is_whitespace c
     then match cur with [] => split_words [] l | _ => cur :: split_words [] l end
     else split_words (cur ++ [c]) l
  end.
Definition split_whitespace (l : str) : list str := split_words [] l.

(** [str::parse::<u64>]: digits, after an optional plus sign; overflow is an error. *)
Fixpoint parse_digits (acc : Z) (l : str) : option Z :=
  match l with
  | [] => Some acc
  | c :: l =>
     if decide (48 ≤ c ≤ 57 ∧ acc * 10 + (c - 48) < 2 ^ 64) then parse_digits (acc * 10 + (c - 48)) l else None
  end.
Definition parse_u64 (l : str) : option Z :=
  match l with
  | [] => None
  | c :: r => if decide (c = 43 ∧ r ≠ []) then parse_digits 0 r else parse_digits 0 l
  end.

(** [s.contains(pattern)]. *)
Fixpoint contains_str (pattern s : str) : bool :=
  bool_decide (pattern `prefix_of` s) || match s with [] => false | _ :: s => contains_str pattern s end.

(** ** Facts *)
Definition digit (c : Z) : Prop := 48 ≤ c ≤ 57.
(** Characters that end neither a word nor a line and are one byte. *)
Definition plain (c : Z) : Prop := 33 ≤ c < 127.

Lemma plain_word c : plain c → is_whitespace c = false.
Proof. unfold plain, is_whitespace. intros Hc. repeat (apply orb_false_intro); lia. Qed.

Lemma dec_digits_spec fuel x : 0 ≤ x → Forall digit (dec_digits fuel x) ∧ (fuel ≠ 0%nat → dec_digits fuel x ≠ []).
Proof.
  revert x. induction fuel as [|fuel IH]; intros x Hx; [done|]. cbn [dec_digits]. unfold digit in *. case_decide.
  - split; [|done]. repeat constructor; lia.
  - pose proof (Z.mod_pos_bound x 10 ltac:(lia)). destruct (IH (x / 10)) as [Hf _]; [by apply Z.div_pos|].
    split; [|intros _; by destruct (dec_digits fuel (x / 10))].
    apply Forall_app_2; [done|]. repeat constructor; lia.
Qed.

Lemma parse_digits_app acc l1 l2 : parse_digits acc (l1 ++ l2) = parse_digits acc l1 ≫= λ a, parse_digits a l2.
Proof. revert acc. induction l1 as [|c l1 IH]; intros acc; [done|]. cbn. case_decide; [apply IH|done]. Qed.

Lemma parse_dec_digits fuel x : 0 ≤ x < 10 ^ Z.of_nat fuel → x < 2 ^ 64 → parse_digits 0 (dec_digits fuel x) = Some x.
Proof.
  revert x. induction fuel as [|fuel IH]; intros x Hx Hu.
  { change (10 ^ Z.of_nat 0) with 1 in Hx. assert (x = 0) as -> by lia. done. }
  rewrite Nat2Z.inj_succ, Z.pow_succ_r in Hx by lia. cbn [dec_digits]. case_decide.
  - cbn [parse_digits]. rewrite decide_True by lia. f_equal. lia.
  - assert (Hd : x / 10 < 10 ^ Z.of_nat fuel) by (apply Z.div_lt_upper_bound; lia).
    assert (0 ≤ x / 10) by (apply Z.div_pos; lia).
    assert (x / 10 < 2 ^ 64) by (apply Z.div_lt_upper_bound; lia).
    rewrite parse_digits_app, IH by lia. cbn [mbind option_bind parse_digits].
    pose proof (Z.div_mod x 10 ltac:(lia)). pose proof (Z.mod_pos_bound x 10 ltac:(lia)).
    rewrite decide_True by lia. f_equal. lia.
Qed.

Lemma parse_display x : u64_ok x → parse_u64 (display_u64 x) = Some x.
Proof.
  intros [Hx Hu]. destruct (dec_digits_spec 20 x Hx) as [Hd Hne]. specialize (Hne ltac:(lia)).
  unfold parse_u64. pose proof (parse_dec_digits 20 x) as Hp. unfold display_u64.
  destruct (dec_digits 20 x) as [|c r]; [done|]. apply Forall_cons in Hd as [Hc _]. unfold digit in Hc.
  rewrite decide_False by lia. apply Hp; [|done]. split; [done|]. eapply Z.lt_trans; [exact Hu|]. done.
Qed.

Lemma display_u64_plain x : 0 ≤ x → Forall plain (display_u64 x) ∧ display_u64 x ≠ [].
Proof.
  intros Hx. destruct (dec_digits_spec 20 x Hx) as [Hd Hne]. split; [|by apply Hne].
  eapply Forall_impl; [exact Hd|]. unfold digit, plain. lia.
Qed.
Lemma display_ipv4_plain ip : ipv4_ok ip → Forall plain (display_ipv4 ip) ∧ display_ipv4 ip ≠ [].
Proof.
  unfold ipv4_ok, octets, u8_ok, in_u, display_ipv4. rewrite !Forall_cons. intros ([]&[]&[]&[]&_).
  assert (Hdot : Forall plain [46]) by (repeat constructor; unfold plain; lia). split.
  - repeat (apply Forall_app_2; try exact Hdot); by apply display_u64_plain.
  - destruct (display_u64_plain (oct0 ip)) as [_ Hne]; [done|]. by destruct (display_u64 (oct0 ip)).
Qed.

Lemma hex_digits_plain fuel x : 0 ≤ x → Forall plain (hex_digits fuel x) ∧ (fuel ≠ 0%nat → hex_digits fuel x ≠ []).
Proof.
  assert (Hdig : ∀ d, 0 ≤ d < 16 → plain (if decide (d < 10) then 48 + d else 87 + d)) by
    (intros d Hd; unfold plain; case_decide; lia).
  revert x. induction fuel as [|fuel IH]; intros x Hx; [done|]. cbn [hex_digits]. destruct (decide (x < 16)).
  - split; [|done]. constructor; [by apply Hdig|done].
  - destruct (IH (x / 16)) as [Hf _]; [by apply Z.div_pos|].
    split; [|intros _; by destruct (hex_digits fuel (x / 16))].
    apply Forall_app_2; [done|]. constructor; [|done]. apply Hdig. by apply Z.mod_pos_bound.
Qed.
Lemma display_segments_plain s : Forall (λ x, 0 ≤ x) s → Forall plain (display_segments s) ∧ (s ≠ [] → display_segments s ≠ []).
Proof.
  induction 1 as [|x s Hx Hs [IH _]]; [done|]. destruct (hex_digits_plain 4 x Hx) as [Hp Hne].
  specialize (Hne ltac:(lia)). cbn [display_segments]. destruct s as [|y s]; [done|]. split.
  - apply Forall_app_2; [done|]. constructor; [unfold plain; lia|done].
  - intros _. by destruct (hex_digits 4 x).
Qed.
Lemma segments_nonneg o : Forall u8_ok o → Forall (λ x, 0 ≤ x) (segments o).
Proof.
  unfold u8_ok, in_u. intros Ho. remember (length o) as n eqn:Hn. revert o Ho Hn.
  induction (lt_wf n) as [n _ IH]. intros o Ho ->. destruct o as [|h [|l o]]; [constructor..|].
  apply Forall_cons in Ho as [? Ho]. apply Forall_cons in Ho as [? Ho]. cbn [segments]. constructor; [lia|].
  eapply IH; [|exact Ho|done]. cbn [length]. lia.
Qed.

Lemma display_addr_plain a : addr_ok a → Forall plain (display_addr a) ∧ display_addr a ≠ [].
Proof.
  destruct a as [ip|o]; [apply display_ipv4_plain|]. intros [Hl Ho].
  assert (Hcolon : Forall plain [58; 58]) by (repeat constructor; unfold plain; lia).
  cbn [display_addr]. unfold display_ipv6. case_decide.
  { split; [|done]. apply Forall_app_2; [repeat constructor; unfold plain; lia|].
    apply display_ipv4_plain. by repeat constructor; apply nth_u8. }
  cbv zeta. destruct (zero_run _ _ _ _) as [start len]. pose proof (segments_nonneg _ Ho) as Hs. case_decide.
  - split; [|by destruct (display_segments (take start (segments o)))].
    apply Forall_app_2; [by apply display_segments_plain, Forall_take|].
    apply Forall_app_2; [done|by apply display_segments_plain, Forall_drop].
  - split; [by apply display_segments_plain|]. apply display_segments_plain; [done|].
    do 2 (destruct o as [|? o]; [done|]). done.
Qed.

(** Splitting at a separator that the left part does not contain. *)
Lemma app_sep_inj (c : Z) (l1 l2 r1 r2 : list Z) :
  c ∉ l1 → c ∉ l2 → l1 ++ c :: r1 = l2 ++ c :: r2 → l1 = l2 ∧ r1 = r2.
Proof.
  revert l2. induction l1 as [|x l1 IH]; intros [|y l2] H1 H2; simpl.
  - by intros [= ->].
  - intros [= -> _]. destruct H2. by left.
  - intros [= <- _]. destruct H1. by left.
  - rewrite not_elem_of_cons in H1, H2. intros [= <- Heq]. by apply IH in Heq as [-> ->]; [|apply H1|apply H2].
Qed.

Lemma digits_no_dot x : 0 ≤ x → 46 ∉ display_u64 x.
Proof.
  intros Hx Hin. destruct (dec_digits_spec 20 x Hx) as [Hd _]. rewrite Forall_forall in Hd.
  specialize (Hd _ Hin). unfold digit in Hd. lia.
Qed.
Lemma display_u64_inj x y : u64_ok x → u64_ok y → display_u64 x = display_u64 y → x = y.
Proof. intros Hx Hy Heq. pose proof (parse_display x Hx) as H1. rewrite Heq, parse_display in H1 by done. congruence. Qed.

(** Different addresses are written differently. *)
Lemma display_ipv4_inj ip1 ip2 : ipv4_ok ip1 → ipv4_ok ip2 → display_ipv4 ip1 = display_ipv4 ip2 → ip1 = ip2.
Proof.
  destruct ip1 as [a b c d], ip2 as [a' b' c' d'].
  unfold ipv4_ok, octets, display_ipv4. cbn [oct0 oct1 oct2 oct3]. rewrite !Forall_cons.
  intros (Ha & Hb & Hc & Hd & _) (Ha' & Hb' & Hc' & Hd' & _) Heq.
  assert (Hu : ∀ x, u8_ok x → u64_ok x ∧ 0 ≤ x) by (unfold u8_ok, u64_ok, in_u; lia).
  assert (Hstep : ∀ x y r1 r2, u8_ok x → u8_ok y →
    display_u64 x ++ 46 :: r1 = display_u64 y ++ 46 :: r2 → x = y ∧ r1 = r2).
  { intros x y r1 r2 Hx Hy E. apply app_sep_inj in E as [E ->]; [|by apply digits_no_dot, Hu..].
    split; [|done]. by apply display_u64_inj; [apply Hu..|]. }
  cbn [app] in Heq. apply Hstep in Heq as [-> Heq]; [|done..]. apply Hstep in Heq as [-> Heq]; [|done..].
  apply Hstep in Heq as [-> Heq]; [|done..]. apply display_u64_inj in Heq; [|by apply Hu..]. by subst.
Qed.

(** ** Lines and words of plain text *)
Lemma utf8_plain l : Forall (λ c, 0 ≤ c < 128) l → utf8_decode l = Some l.
Proof.
  induction 1 as [|c l Hc _ IH]; [done|]. cbn [utf8_decode]. destruct (Z.ltb_spec c 128); [|lia]. by rewrite IH.
Qed.

Lemma raw_lines_line cur l rest :
  10 ∉ l → raw_lines cur (l ++ 10 :: rest) = strip_cr (cur ++ l) :: raw_lines [] rest.
Proof.
  revert cur. induction l as [|c l IH]; intros cur Hl; cbn [app raw_lines].
  - rewrite decide_True by done. by rewrite app_nil_r.
  - rewrite decide_False by set_solver. rewrite IH by set_solver. by rewrite <- app_assoc.
Qed.

Lemma split_words_plain cur l rest :
  Forall plain l → split_words cur (l ++ rest) = split_words (cur ++ l) rest.
Proof.
  revert cur. induction l as [|c l IH]; intros cur Hl; [by rewrite app_nil_r|].
  apply Forall_cons in Hl as [Hc Hl]. cbn [app split_words]. rewrite (plain_word c Hc), IH by done.
  by rewrite <- app_assoc.
Qed.

Lemma split_two a b :
  Forall plain a → Forall plain b → a ≠ [] → b ≠ [] → split_whitespace (a ++ 32 :: b) = [a; b].
Proof.
  intros Ha Hb Hna Hnb. unfold split_whitespace. rewrite split_words_plain by done. cbn [app split_words].
  change (is_whitespace 32) with true. cbv iota. destruct a; [done|].
  pose proof (split_words_plain [] b [] Hb) as Hs. rewrite app_nil_r in Hs. rewrite Hs. by destruct b.
Qed.

(** ** Buffered writing *)
Lemma segment_pieces_join s : mjoin (segment_pieces s) = display_segments s.
Proof.
  induction s as [|x s IH]; [done|]. destruct s as [|y s]; [cbn; by rewrite app_nil_r|].
  transitivity (hex_digits 4 x ++ [58] ++ mjoin (segment_pieces (y :: s))); [done|]. by rewrite IH.
Qed.
Lemma ipv4_pieces_join ip : mjoin (ipv4_pieces ip) = display_ipv4 ip.
Proof. unfold ipv4_pieces, display_ipv4. cbn [mjoin list_join]. by rewrite app_nil_r. Qed.
Lemma ipv6_pieces_join o : mjoin (ipv6_pieces o) = display_ipv6 o.
Proof.
  unfold ipv6_pieces, display_ipv6. case_decide.
  { cbn [mjoin list_join]. by rewrite ipv4_pieces_join. }
  cbv zeta. destruct (zero_run _ _ _ _) as [start len]. case_decide; [|apply segment_pieces_join].
  rewrite join_app, segment_pieces_join. cbn [mjoin list_join]. by rewrite segment_pieces_join.
Qed.

(** The pieces make up the line. *)
Lemma line_pieces_join price addr : mjoin (line_pieces price addr) = text_line price addr.
Proof.
  unfold line_pieces, text_line. rewrite !join_app.
  change (mjoin [display_u64 price; [32]]) with (display_u64 price ++ [32]). change (mjoin [[10]]) with [10].
  rewrite <- app_assoc. do 3 f_equal.
  destruct addr as [ip|o]; [apply ipv4_pieces_join|apply ipv6_pieces_join].
Qed.

(** What has been handed to a writer and not been lost; the file is a prefix of it. *)
Definition bw_contents (w : BufWriter) : list Z := fl_bytes (bw_file w) ++ bw_buf w.

(** Writing [l] to [w] with the result [r]: a prefix of it is added, all of it on success. *)
Record wrote (l : list Z) (w : BufWriter) (r : bool * BufWriter) : Prop := {
  wrote_fault : fl_fault (bw_file r.2) = fl_fault (bw_file w);
  wrote_some : ∃ d, d `prefix_of` l ∧ bw_contents r.2 = bw_contents w ++ d ∧ (r.1 = true → d = l);
}.

Lemma bw_flush_run w : wrote [] w (bw_flush w) ∧ ((bw_flush w).1 = true → bw_buf (bw_flush w).2 = []).
Proof.
  unfold bw_flush. destruct (bw_buf w) as [|c buf] eqn:Eb.
  { split; [|done]. split; [done|]. exists []. by rewrite app_nil_r. }
  destruct (fl_fault (bw_file w) (fl_writes (bw_file w))) as [n|] eqn:Ef; (split; [|done]); split; try done; exists [];
    unfold bw_contents; cbn [bw_file fl_bytes file_put bw_buf snd fst].
  - rewrite <- app_assoc, take_drop, Eb, app_nil_r. done.
  - by rewrite Eb, !app_nil_r.
Qed.

Lemma bw_put_run l w : (length l < BW_CAPACITY)%nat ∨ bw_buf w = [] → wrote l w (bw_put l w).
Proof.
  intros Hb. unfold bw_put. case_decide as Hl.
  - destruct Hb as [|Hb]; [lia|].
    destruct (fl_fault (bw_file w) (fl_writes (bw_file w))) as [n|] eqn:Ef; split; try done.
    + exists (take n l). split; [apply prefix_take|]. unfold bw_contents. cbn. by rewrite Hb, !app_nil_r.
    + exists l. unfold bw_contents. cbn. by rewrite Hb, !app_nil_r.
  - split; try done. exists l. unfold bw_contents. cbn. by rewrite <- app_assoc.
Qed.

Lemma wrote_trans l1 l2 w w1 r : wrote l1 w (true, w1) → wrote l2 w1 r → wrote (l1 ++ l2) w r.
Proof.
  intros [Hf1 (d1 & _ & Hc1 & Hd1)] [Hf2 (d2 & Hp2 & Hc2 & Hd2)]. cbn [fst snd] in *. rewrite Hd1 in Hc1 by done.
  split; [congruence|]. exists (l1 ++ d2). split; [by apply prefix_app|]. rewrite Hc2, Hc1, app_assoc. split; [done|].
  intros Hr. by rewrite Hd2.
Qed.
Lemma wrote_stop l1 l2 w w1 : wrote l1 w (false, w1) → wrote (l1 ++ l2) w (false, w1).
Proof. intros [Hf (d & Hp & Hc & _)]. split; [done|]. exists d. split_and!; [by apply prefix_app_r|done|done]. Qed.

Lemma bw_write_all_run l w : wrote l w (bw_write_all l w).
Proof.
  unfold bw_write_all. cbv zeta. case_decide as H1.
  { split; try done. exists l. unfold bw_contents. cbn. by rewrite <- app_assoc. }
  case_decide as H2.
  - destruct (bw_flush_run w) as [Hw Hb]. destruct (bw_flush w) as [[] w1]; [|by apply (wrote_stop [])].
    apply (wrote_trans [] l w w1); [done|]. apply bw_put_run. right. by apply Hb.
  - apply bw_put_run. destruct (decide (length l < BW_CAPACITY)%nat); [by left|right].
    apply nil_length_inv. unfold BW_CAPACITY in *. lia.
Qed.

Lemma bw_write_fmt_run pieces w : wrote (mjoin pieces) w (bw_write_fmt pieces w).
Proof.
  revert w. induction pieces as [|l pieces IH]; intros w; cbn [bw_write_fmt].
  { split; try done. exists []. by rewrite app_nil_r. }
  pose proof (bw_write_all_run l w) as Hl. cbn [mjoin list_join].
  destruct (bw_write_all l w) as [[] w1]; [by eapply wrote_trans|by apply wrote_stop].
Qed.

Lemma bw_writeln_run w price addr : wrote (text_line price addr) w (bw_writeln w price addr).
Proof. rewrite <- line_pieces_join. apply bw_write_fmt_run. Qed.

(** *** Errors

    An operation writes to the file at most once, and fails only if that write does. *)
Definition next_fails (w : BufWriter) : Prop := ∃ n, fl_fault (bw_file w) (fl_writes (bw_file w)) = Some n.
Record one_write (w : BufWriter) (r : bool * BufWriter) : Prop := {
  ow_count : (fl_writes (bw_file w) ≤ fl_writes (bw_file r.2) ≤ S (fl_writes (bw_file w)))%nat;
  ow_error : r.1 = false → next_fails w;
}.

Lemma bw_flush_once w : one_write w (bw_flush w).
Proof.
  unfold bw_flush. destruct (bw_buf w); [split; cbn; [lia|done]|].
  destruct (fl_fault (bw_file w) (fl_writes (bw_file w))) as [n|] eqn:Ef; split; cbn; try lia; try done. intros _. by exists n.
Qed.

(** What fits the buffer is not written yet. *)
Lemma bw_write_all_fits l w :
  (length l < BW_CAPACITY)%nat → (length l = 0 ∨ length (bw_buf w) + length l ≤ BW_CAPACITY)%nat →
  bw_write_all l w = (true, mkWriter (bw_file w) (bw_buf w ++ l)).
Proof. intros Hl Hw. unfold bw_write_all, bw_put. cbv zeta. repeat (case_decide; try lia); done. Qed.

Lemma bw_write_fmt_fits pieces w :
  (length (mjoin pieces) < BW_CAPACITY)%nat → (length (bw_buf w) + length (mjoin pieces) ≤ BW_CAPACITY)%nat →
  ∃ w', bw_write_fmt pieces w = (true, w') ∧ bw_file w' = bw_file w.
Proof.
  revert w. induction pieces as [|l pieces IH]; intros w Hl Hw; [by exists w|]. cbn [bw_write_fmt].
  change (mjoin (l :: pieces)) with (l ++ mjoin pieces) in *. rewrite length_app in Hl, Hw.
  rewrite bw_write_all_fits by lia. cbv iota beta. destruct (IH (mkWriter (bw_file w) (bw_buf w ++ l))) as (w' & -> & Hf);
    [lia|cbn [bw_buf]; rewrite length_app; lia|]. by exists w'.
Qed.

Lemma bw_write_fmt_once pieces w : (length (mjoin pieces) < BW_CAPACITY)%nat → one_write w (bw_write_fmt pieces w).
Proof.
  revert w. induction pieces as [|l pieces IH]; intros w Hl; [split; cbn; [lia|done]|]. cbn [bw_write_fmt].
  change (mjoin (l :: pieces)) with (l ++ mjoin pieces) in *. rewrite length_app in Hl.
  destruct (decide (length l = 0 ∨ length (bw_buf w) + length l ≤ BW_CAPACITY)%nat) as [Hw|Hw].
  { rewrite bw_write_all_fits by lia. cbv iota beta. destruct (IH (mkWriter (bw_file w) (bw_buf w ++ l))) as [Hc He]; [lia|]. by split. }
  unfold bw_write_all. cbv zeta. rewrite decide_False, decide_True by lia.
  destruct (bw_flush_once w) as [Hc He]. destruct (bw_flush_run w) as [_ Hb].
  destruct (bw_flush w) as [[] w1]; cbn [fst snd] in *; [|by split]. unfold bw_put. rewrite decide_False by lia.
  destruct (bw_write_fmt_fits pieces (mkWriter (bw_file w1) (bw_buf w1 ++ l))) as (w' & -> & Hf);
    [lia|cbn [bw_buf]; rewrite Hb by done; cbn [app length]; lia|]. split; cbn [fst snd]; [by rewrite Hf|done].
Qed.

(** A line is much shorter than the buffer. *)
Lemma dec_digits_length fuel x : (length (dec_digits fuel x) ≤ fuel)%nat.
Proof. revert x. induction fuel as [|fuel IH]; intros x; cbn; [lia|]. case_decide; cbn; [lia|]. rewrite length_app. specialize (IH (x / 10)). cbn. lia. Qed.
Lemma hex_digits_length fuel x : (length (hex_digits fuel x) ≤ fuel)%nat.
Proof. revert x. induction fuel as [|fuel IH]; intros x; cbn; [lia|]. case_decide; cbn; [lia|]. rewrite length_app. specialize (IH (x / 16)). cbn. lia. Qed.
Lemma display_segments_length s : (length (display_segments s) ≤ 5 * length s)%nat.
Proof.
  induction s as [|x s IH]; [done|]. pose proof (hex_digits_length 4 x). cbn [display_segments]. destruct s as [|y s]; [cbn [length]; lia|].
  rewrite !length_app. cbn [length] in *. lia.
Qed.
Lemma segments_length o : (length (segments o) ≤ length o)%nat.
Proof.
  remember (length o) as n eqn:Hn. revert o Hn. induction (lt_wf n) as [n _ IH]. intros o ->.
  destruct o as [|h [|l o]]; cbn; [lia..|]. specialize (IH (length o) ltac:(cbn; lia) o eq_refl). lia.
Qed.
Lemma display_ipv4_length ip : (length (display_ipv4 ip) ≤ 83)%nat.
Proof.
  unfold display_ipv4, display_u64. rewrite !length_app. cbn [length].
  pose proof (dec_digits_length 20 (oct0 ip)). pose proof (dec_digits_length 20 (oct1 ip)).
  pose proof (dec_digits_length 20 (oct2 ip)). pose proof (dec_digits_length 20 (oct3 ip)). lia.
Qed.

Lemma text_line_length price addr : addr_ok addr → (length (text_line price addr) < BW_CAPACITY)%nat.
Proof.
  intros Ha. unfold text_line, display_u64. rewrite !length_app. pose proof (dec_digits_length 20 price). cbn [length].
  assert (length (display_addr addr) ≤ 200)%nat; [|unfold BW_CAPACITY; lia].
  destruct addr as [ip|o]; cbn [display_addr]; [pose proof (display_ipv4_length ip); lia|]. destruct Ha as [Hl _].
  unfold display_ipv6. case_decide; [rewrite length_app; pose proof (display_ipv4_length (mkIpv4 (nth 12 o 0) (nth 13 o 0) (nth 14 o 0) (nth 15 o 0))); cbn [length] in *; lia|].
  cbv zeta. destruct (zero_run _ _ _ _) as [start len]. pose proof (segments_length o).
  pose proof (display_segments_length (segments o)). pose proof (display_segments_length (take start (segments o))) as Ht.
  pose proof (display_segments_length (drop (start + len) (segments o))) as Hd. rewrite length_take in Ht. rewrite length_drop in Hd.
  case_decide; [rewrite !length_app; cbn [length]|]; lia.
Qed.

Lemma bw_writeln_once w price addr : addr_ok addr → one_write w (bw_writeln w price addr).
Proof. intros Ha. apply bw_write_fmt_once. rewrite line_pieces_join. by apply text_line_length. Qed.
