(* ===== verification/Display.v ===== *)
(** What the terminal programs have in common: the formatting of floats with a fixed number
    of decimals ([format!] with a precision) and the loop that draws a frame, waits for a
    key and stops on [q] or on an error. *)
From Stdlib Require Import ZArith Lia SpecFloat String.
From stdpp Require Import gmap list strings.
From S2P Require Import Prelude F64 Rounding Wire Text Core.
Local Open Scope Z_scope.

(** ** Floats in text

    The magnitude of a finite float in units of the last decimal, rounded to the nearest
    integer, ties to even; the exact value is rounded, not a decimal approximation. *)
Definition fixed_units (decimals : nat) (m : positive) (e : Z) : Z :=
  let scaled := Z.pos m * 10 ^ Z.of_nat decimals in
  if decide (0 ≤ e) then scaled * 2 ^ e else rne scaled (- e).

(** Exactly [n] digits, with zeros in front. *)
Fixpoint fixed_digits (n : nat) (x : Z) : str :=
  match n with O => [] | S n => fixed_digits n (x / 10) ++ [48 + x mod 10] end.

(** The integer part needs at most 310 digits. *)
Definition fixed_text (decimals : nat) (units : Z) : str :=
  dec_digits 310 (units / 10 ^ Z.of_nat decimals) ++
  (if decide (decimals = 0%nat) then [] else 46 :: fixed_digits decimals (units mod 10 ^ Z.of_nat decimals)).

(** [format!("{:.n}", x)]. *)
Definition format_fixed (decimals : nat) (x : f64) : str :=
  let sign (s : bool) : str := if s then [45] else [] in
  match x with
  | S754_zero s => sign s ++ fixed_text decimals 0
  | S754_infinity s => sign s ++ [105; 110; 102]
  | S754_nan => [78; 97; 78]
  | S754_finite s m e => sign s ++ fixed_text decimals (fixed_units decimals m e)
  end.

(** ** The text is the nearest decimal *)

(** The number a text of digits stands for, in units of the last digit. *)
Definition units_of (l : str) : Z := foldl (λ a c, if decide (c = 46) then a else a * 10 + (c - 48)) 0 l.
Abbreviation units_from a l := (foldl (λ a c, if decide (c = 46) then a else a * 10 + (c - 48)) a l).

Lemma units_fixed_digits n a x :
  0 ≤ x < 10 ^ Z.of_nat n → units_from a (fixed_digits n x) = a * 10 ^ Z.of_nat n + x.
Proof.
  revert a x. induction n as [|n IH]; intros a x Hx.
  { change (10 ^ Z.of_nat 0) with 1 in *. cbn. lia. }
  rewrite Nat2Z.inj_succ, Z.pow_succ_r in * by lia. cbn [fixed_digits]. rewrite foldl_app.
  pose proof (Z.div_mod x 10 ltac:(lia)). pose proof (Z.mod_pos_bound x 10 ltac:(lia)).
  rewrite IH by (split; [apply Z.div_pos; lia|apply Z.div_lt_upper_bound; lia]). cbn [foldl].
  rewrite decide_False by lia. lia.
Qed.

Lemma units_dec_digits n x : 0 ≤ x < 10 ^ Z.of_nat n → units_of (dec_digits n x) = x.
Proof.
  unfold units_of. revert x. induction n as [|n IH]; intros x Hx.
  { change (10 ^ Z.of_nat 0) with 1 in *. cbn. lia. }
  rewrite Nat2Z.inj_succ, Z.pow_succ_r in * by lia. cbn [dec_digits]. case_decide.
  - cbn [foldl]. rewrite decide_False by lia. lia.
  - pose proof (Z.div_mod x 10 ltac:(lia)). pose proof (Z.mod_pos_bound x 10 ltac:(lia)).
    rewrite foldl_app, IH by (split; [apply Z.div_pos; lia|apply Z.div_lt_upper_bound; lia]). cbn [foldl].
    rewrite decide_False by lia. lia.
Qed.

Lemma units_fixed_text d u :
  0 ≤ u → u / 10 ^ Z.of_nat d < 10 ^ 310 → units_of (fixed_text d u) = u.
Proof.
  intros Hu Hlt. unfold fixed_text, units_of. rewrite foldl_app.
  pose proof (Z.pow_pos_nonneg 10 (Z.of_nat d) ltac:(lia) ltac:(lia)) as Hp.
  pose proof (units_dec_digits 310 (u / 10 ^ Z.of_nat d)) as Hi. unfold units_of in Hi.
  rewrite Hi by (split; [apply Z.div_pos; lia|exact Hlt]). clear Hi.
  pose proof (Z.div_mod u (10 ^ Z.of_nat d) ltac:(lia)) as Hdm.
  pose proof (Z.mod_pos_bound u (10 ^ Z.of_nat d) ltac:(lia)) as Hm.
  destruct (decide (d = 0%nat)) as [->|Hd].
  - change (10 ^ Z.of_nat 0) with 1 in *. cbn [foldl]. lia.
  - cbn [foldl]. rewrite decide_True by done. rewrite units_fixed_digits by done. lia.
Qed.

(** A multiple of [2 ^ k] nearest to [x]. *)
Lemma rne_nearest x k : 0 ≤ k → 2 * Z.abs (rne x k * 2 ^ k - x) ≤ 2 ^ k.
Proof.
  intros Hk. pose proof (Z.pow_pos_nonneg 2 k ltac:(lia) Hk) as Hp.
  pose proof (Z.div_mod x (2 ^ k) ltac:(lia)). pose proof (Z.mod_pos_bound x (2 ^ k) Hp). unfold rne.
  destruct (Z.compare_spec (2 * (x mod 2 ^ k)) (2 ^ k)); [destruct (Z.even _)|..]; lia.
Qed.

(** A float is at most [2 ^ 1024], so its integer part has at most 309 digits. *)
Lemma fixed_units_bound d m e :
  Z.pos m < 2 ^ 53 → e ≤ 971 → 0 ≤ fixed_units d m e ∧ fixed_units d m e / 10 ^ Z.of_nat d < 10 ^ 310.
Proof.
  intros Hm He. pose proof (Z.pow_pos_nonneg 10 (Z.of_nat d) ltac:(lia) ltac:(lia)) as Hp. unfold fixed_units.
  set (u := 10 ^ Z.of_nat d) in *. case_decide as H0.
  - pose proof (Z.pow_pos_nonneg 2 e ltac:(lia) H0). split; [nia|].
    replace (Z.pos m * u * 2 ^ e) with (Z.pos m * 2 ^ e * u) by lia. rewrite Z.div_mul by lia.
    apply Z.lt_trans with (2 ^ 53 * 2 ^ 971); [|by vm_compute].
    apply Z.lt_le_trans with (2 ^ 53 * 2 ^ e); [nia|]. pose proof (Z.pow_le_mono_r 2 e 971). nia.
  - pose proof (rne_bounds (Z.pos m * u) (- e) ltac:(lia)) as Hr. pose proof (Z.pow_pos_nonneg 2 (- e) ltac:(lia) ltac:(lia)).
    assert (0 ≤ Z.pos m * u / 2 ^ (- e)) by (apply Z.div_pos; lia).
    assert (Z.pos m * u / 2 ^ (- e) ≤ Z.pos m * u) by (apply Z.div_le_upper_bound; nia).
    split; [lia|]. apply Z.div_lt_upper_bound; [lia|].
    assert (2 ^ 53 + 1 < 10 ^ 310) by by vm_compute. nia.
Qed.

(** ** The loop of the terminal programs *)
Inductive KeyCode : Type := KeyChar (c : Z) | KeyOther.
Inductive Event : Type := EventKey (code : KeyCode) | EventOther.
#[global] Instance keycode_eq_dec : EqDecision KeyCode.
Proof. solve_decision. Defined.

(** What happens in one round: whether drawing works, whether an event arrives within
    100 milliseconds, and which. *)
Record Round (E : Type) : Type := mkRound { rd_draw : result () E; rd_poll : result bool E; rd_read : result Event E }.
Arguments mkRound {E} _ _ _.
Arguments rd_draw {E} _.
Arguments rd_poll {E} _.
Arguments rd_read {E} _.

(** [should_quit], the same in all programs. *)
Definition quit {E} (poll : result bool E) (read : result Event E) : result bool E :=
  match poll with
  | Err e => Err e
  | Ok true =>
     match read with
     | Err e => Err e
     | Ok (EventKey code) => Ok (bool_decide (KeyChar 113 = code))
     | Ok EventOther => Ok false
     end
  | Ok false => Ok false
  end.

(** The loop: [frame] computes the text from what the program reads in this round ([I]) and
    its state.  It ends with the first error or the key, and never by itself. *)
Section Loop.
Context {E I S : Type} (frame : I → S → outcome (str * S)).

Fixpoint event_loop (rounds : list (I * Round E)) (s : S) : outcome (result () E * list str * S) :=
  match rounds with
  | [] => NoFuel
  | (i, r) :: rounds =>
     '(screen, s) ← frame i s;
     match rd_draw r with
     | Err e => Ret (Err e, [], s)
     | Ok _ =>
        match quit (rd_poll r) (rd_read r) with
        | Err e => Ret (Err e, [screen], s)
        | Ok true => Ret (Ok (), [screen], s)
        | Ok false => '(res, screens, s) ← event_loop rounds s; Ret (res, screen :: screens, s)
        end
     end
  end.

(** How a round ends the loop, if it does: with an error of the terminal, or with the key
    [q], whose code is 113. *)
Definition round_end (r : Round E) : option (result () E) :=
  match rd_draw r, rd_poll r, rd_read r with
  | Err e, _, _ | Ok _, Err e, _ | Ok _, Ok true, Err e => Some (Err e)
  | Ok _, Ok true, Ok (EventKey (KeyChar c)) => if decide (c = 113) then Some (Ok ()) else None
  | _, _, _ => None
  end.

Lemma round_end_quit r :
  round_end r =
  match rd_draw r, quit (rd_poll r) (rd_read r) with
  | Err e, _ => Some (Err e)
  | Ok _, Err e => Some (Err e)
  | Ok _, Ok true => Some (Ok ())
  | Ok _, Ok false => None
  end.
Proof.
  unfold round_end, quit. destruct (rd_draw r), (rd_poll r) as [[]|], (rd_read r) as [[[c|]|]|]; try done.
  case_decide as Hc; [subst; by rewrite bool_decide_true|]. rewrite bool_decide_false; [done|]. intros [=]. congruence.
Qed.

(** If a frame can always be computed, the loop ends with the first round that ends it,
    and has drawn every frame up to it. *)
Lemma event_loop_run (ok : S → Prop) pre i r post s res :
  (∀ i s, ok s → returns (frame i s) (λ o, ok o.2)) → ok s →
  Forall (λ x, round_end x.2 = None) pre → round_end r = Some res →
  returns (event_loop (pre ++ (i, r) :: post) s) (λ o, ok o.2 ∧ o.1.1 = res ∧
    length o.1.2 = (length pre + match rd_draw r with Ok _ => 1 | Err _ => 0 end)%nat).
Proof.
  intros Hframe Hs Hpre Hr. revert s Hs. induction Hpre as [|[j q] pre Hq _ IH]; intros s Hs; cbn [event_loop app length].
  - destruct (Hframe i s Hs) as ([screen s1] & -> & Hs1). rewrite bind_Ret. cbn in Hs1. rewrite round_end_quit in Hr.
    destruct (rd_draw r) as [[]|e].
    + destruct (quit _ _) as [[]|e]; simplify_eq; by eexists.
    + simplify_eq. by eexists.
  - destruct (Hframe j s Hs) as ([screen s1] & -> & Hs1). rewrite bind_Ret. cbn [snd] in Hq. cbn in Hs1. rewrite round_end_quit in Hq.
    destruct (rd_draw q) as [[]|e]; [|done]. destruct (quit (rd_poll q) (rd_read q)) as [[]|e]; try done.
    destruct (IH s1 Hs1) as ([[res' screens] s2] & -> & Hok & Hres & Hlen). rewrite bind_Ret. eexists. split; [done|].
    cbn in *. split_and!; [done|done|]. by rewrite Hlen.
Qed.
End Loop.

(** [display]: [run(terminal).unwrap()] and then [ratatui::restore()]; what is drawn. *)
Definition restore_after {E S} (m : outcome (result () E * list str * S)) : outcome (list str * S) :=
  '(res, screens, s) ← m;
  match res with Ok _ => Ret (screens, s) | Err _ => Panic end.

(** What the terminal programs print of a rate is its nearest decimal.  For every finite
    non-negative float and any number of decimals, the digits, read back, are the value
    itself in units of the last digit if it is an integer, and otherwise differ from the
    exact value by at most half a unit. *)
Theorem display_nearest (d : nat) (m : positive) (e : Z) :
  bounded 53 1024 m e = true →
  let n := units_of (format_fixed d (S754_finite false m e)) in
  (0 ≤ e → n = Z.pos m * 2 ^ e * 10 ^ Z.of_nat d) ∧
  (e < 0 → 2 * Z.abs (n * 2 ^ (- e) - Z.pos m * 10 ^ Z.of_nat d) ≤ 2 ^ (- e)).
Proof.
  intros Hb%andb_prop. destruct Hb as [Hc%Z.eqb_eq He%Z.leb_le]. cbn zeta. cbn [format_fixed app].
  assert (Hm : Z.pos m < 2 ^ 53).
  { pose proof (digits2_log2 m) as Hd. unfold Zdigits2 in Hd. unfold fexp, emin in Hc.
    apply Z.log2_lt_cancel. rewrite Z.log2_pow2 by lia. lia. }
  destruct (fixed_units_bound d m e Hm He) as [H0 Hlt]. rewrite units_fixed_text by done. unfold fixed_units. split; intros Hs.
  - rewrite decide_True by done. lia.
  - rewrite decide_False by lia. apply rne_nearest. lia.
Qed.

Lemma display_nearest_witness : units_of (format_fixed 3 (f64_lit 5 2)) = 2500 ∧
  let n := units_of (format_fixed 3 (S754_finite false (Z.to_pos (5 * 2 ^ 50)) (-51))) in
  2 * Z.abs (n * 2 ^ 51 - 5 * 2 ^ 50 * 1000) ≤ 2 ^ 51.
Proof.
  split; [vm_compute; reflexivity|]. apply (display_nearest 3 (Z.to_pos (5 * 2 ^ 50)) (-51)); [vm_compute; reflexivity|lia].
Defined.

Example format_rates :
  format_fixed 3 (f64_lit 1 8) = text "0.125" ∧ format_fixed 1 (f64_lit 1 4) = text "0.2" ∧
  format_fixed 1 (f64_lit 3 4) = text "0.8" ∧ format_fixed 3 (f64_lit 1 3) = text "0.333" ∧
  format_fixed 3 (f64_of_uint 12) = text "12.000" ∧ format_fixed 3 S754_nan = text "NaN".
Proof. vm_compute. done. Qed.
