(* ===== verification/Engine.v ===== *)
(** The traffic engine ([engine/src/lib.rs]): threads that generate packets, each into
    its own channel, and a funnel that moves what they send into one shared-memory
    channel to the service.

    [ChooseOps] is the choice of an element of a slice ([rand::seq::SliceRandom]): the
    index it takes. *)
From Stdlib Require Import ZArith Lia SpecFloat String.
From stdpp Require Import gmap list strings.
From S2P Require Import Prelude F64 Timer Wire Stats Que Mpsc Core Rng Agent Text.
Local Open Scope Z_scope.

Class ChooseOps : Type := choose_index : nat → FastxxHashRng → option nat * FastxxHashRng.
Class ChooseLaws `{ChooseOps} : Prop :=
  choose_some n rng : (0 < n)%nat → ∃ i, (choose_index n rng).1 = Some i ∧ (i < n)%nat.

Definition STATS : EngineStats := mkEngineStats 0 0 0 0 0.

(** [STATS.tpu_sends.fetch_add(n)] and the others. *)
Definition add_tpu_sends (n : Z) (s : EngineStats) : EngineStats :=
  mkEngineStats (u64_add (tpu_sends s) n) (fwd_sends s) (sigverify_recvs s) (sigverify_sends s) (scheduler_sends s).
Definition add_fwd_sends (n : Z) (s : EngineStats) : EngineStats :=
  mkEngineStats (tpu_sends s) (u64_add (fwd_sends s) n) (sigverify_recvs s) (sigverify_sends s) (scheduler_sends s).

(** A file can be created or not; which of the writes to it fail is part of the
    environment. *)
Abbreviation file_system := (str → option (nat → option nat)).
Definition LOGGED : Z := 4000000.
Definition file_create (fs : file_system) (path : str) : outcome BufWriter :=
  match fs path with Some fault => Ret (bw_new (mkFile [] 0 fault)) | None => Panic end.
(** [write_to_file.then(|| ...)]. *)
Definition log_open (fs : file_system) (write_to_file : bool) (path : str) : outcome (option BufWriter) :=
  if write_to_file then w ← file_create fs path; Ret (Some w) else Ret None.

(** The price and the address of the first packets go to the file; an I/O error panics. *)
Definition log_packet `{PacketOps} (write_to_file : bool) (i : Z) (packet : Packet) (file : option BufWriter)
    : outcome (option BufWriter) :=
  if decide (write_to_file = true ∧ i < LOGGED) then
    price ← read_price packet;
    let addr := pkt_addr (pkt_meta packet) in
    w ← unwrap file;
    w ← io_unwrap (bw_writeln w price addr);
    w ← (if decide (i = LOGGED - 1) then io_unwrap (bw_flush w) else Ret w);
    Ret (Some w)
  else Ret file.

(** ** Generators *)
Section Generator.
Context `{EntropyOps} `{DistOps} `{HashOps} `{ConstHashOps} `{TxOps} `{ChooseOps} `{PacketOps} `{QueOps}.

Record Generator : Type := mkGen {
  gen_ips : list Ip;
  gen_rng : FastxxHashRng;
  gen_packet : Packet;
  gen_file : option BufWriter;
  gen_producer : producer PacketBytes;
  gen_i : Z;
  gen_entropy : entropy;
}.

Definition generator_path (file : str) (id : Z) : str := text "packet-data/" ++ file ++ display_u64 id.

(** What a thread sets up once the start flag is set. *)
Definition generator_new (fs : file_system) (write_to_file : bool) (file : str) (p : producer PacketBytes) (id : Z)
    (e : entropy) : outcome Generator :=
  '(ip1, e) ← ip_new [1; 1; 1; 1] (f32_ln (f32_of_uint 400000)) (f32_of_uint 2) e;
  '(ip2, e) ← ip_new [2; 2; 2; 2] (f32_ln (f32_of_uint 100000)) (f32_of_uint 2) e;
  '(ip3, e) ← ip_new_bad [7; 7; 7; 7] (f32_ln (f32_of_uint 100000)) (f32_of_uint 2) e;
  let rng := rng_new (u64_add 1192227 id) in
  '(packet, e) ← null_transfer_transaction_with_compute_unit_price e;
  f ← log_open fs write_to_file (generator_path file id);
  Ret (mkGen [ip1; ip2; ip3] rng packet f p 0 e).

(** One round of its loop: the same packet is pushed twice. *)
Definition gen_step (write_to_file : bool) (g : Generator) : outcome Generator :=
  let '(choice, rng) := choose_index (length (gen_ips g)) (gen_rng g) in
  k ← unwrap choice;
  ip ← unwrap (gen_ips g !! k);
  '(ip, packet, e) ← update_transfer_with_priority ip (gen_packet g) (gen_entropy g);
  file ← log_packet write_to_file (gen_i g) packet (gen_file g);
  let p := prod_push (from_packet packet) (gen_producer g) in
  let p := prod_push (from_packet packet) p in
  Ret (mkGen (<[k := ip]> (gen_ips g)) rng packet file p (u64_add (gen_i g) 1) e).

Fixpoint gen_run (n : nat) (write_to_file : bool) (g : Generator) : outcome Generator :=
  match n with
  | O => Ret g
  | S n => g ← gen_step write_to_file g; gen_run n write_to_file g
  end.

(** [producers.into_iter().zip(1..)]: the threads, by their producer and number, and the
    consumer; all engines use the same name for their channels. *)
Definition initialize_generator_threads (generators : nat)
    (join_producer : string → option (producer PacketBytes)) (join_consumer : string → option (consumer PacketBytes))
    : option (list (producer PacketBytes * Z) * Consumer PacketBytes) :=
  '(producers, c) ← bounded join_producer join_consumer generators "tpu_engine"%string;
  Some (zip producers (Z.of_nat <$> seq 1 (length producers)), c).
End Generator.

(** ** The engine *)
Inductive EngineError : Type := EngineQueError.

Section Engine.
Context `{PacketOps} `{QueOps}.

Record Engine : Type := mkEngine { eng_consumer : Consumer PacketBytes; spsc : producer PacketBytes }.

(** The threads are started before the channel to the service is joined. *)
Definition engine_initialize (shmem_id : string) (use_huge_pages : bool) (generators : nat)
    (join_producer : string → option (producer PacketBytes)) (join_consumer : string → option (consumer PacketBytes))
    (join_or_create : string → PageSize → option (producer PacketBytes))
    : list (producer PacketBytes * Z) * result Engine EngineError :=
  let page_size := get_page_size use_huge_pages in
  match initialize_generator_threads generators join_producer join_consumer with
  | None => ([], Err EngineQueError)
  | Some (threads, c) =>
     match join_or_create shmem_id page_size with
     | None => (threads, Err EngineQueError)
     | Some p => (threads, Ok (mkEngine c p))
     end
  end.

(** ** The funnel *)
(** [while !self.spsc.consumer_heartbeat() {}]. *)
Fixpoint wait_consumer (fuel : nat) (p : producer PacketBytes) : outcome (producer PacketBytes) :=
  match fuel with
  | O => NoFuel
  | S fuel => let '(alive, p) := consumer_heartbeat p in if alive then Ret p else wait_consumer fuel p
  end.

(** [for _ in 0..n { if let Some(x) = consumer.pop() { spsc.push(&x); sends += 1 } }]. *)
Fixpoint funnel_pops (n : nat) (en : Engine) (sends : Z) : outcome (Engine * Z) :=
  match n with
  | O => Ret (en, sends)
  | S n =>
     '(o, c) ← mpsc_pop (eng_consumer en);
     match o with
     | Some packet_bytes => funnel_pops n (mkEngine c (prod_push packet_bytes (spsc en))) (u64_add sends 1)
     | None => funnel_pops n (mkEngine c (spsc en)) sends
     end
  end.

Record Funnel : Type := mkFunnel {
  fn_engine : Engine;
  fn_last_check : Z;
  fn_stats : EngineStats;
  fn_machine : Machine;
}.

(** The check every five seconds: the flag says whether the loop goes on. *)
Definition funnel_check (timer : Timer) (f : Funnel) : outcome (bool * Funnel) :=
  '(elapsed, w) ← elapsed_ms timer (fn_machine f);
  if decide (fn_last_check f < elapsed / 5000) then
    '(elapsed, w) ← elapsed_ms timer w;
    let '(alive, p) := consumer_heartbeat (spsc (fn_engine f)) in
    Ret (alive, mkFunnel (mkEngine (eng_consumer (fn_engine f)) p) (elapsed / 5000) (fn_stats f) w)
  else Ret (true, mkFunnel (fn_engine f) (fn_last_check f) (fn_stats f) w).

Definition FUNNEL_BURST : nat := 16.

(** One iteration; [inr] when the loop ends. *)
Definition funnel_step (fwd : bool) (timer : Timer) (f : Funnel) : outcome (Funnel + Funnel) :=
  '(alive, f) ← funnel_check timer f;
  if alive : bool then
    '(en, sends) ← funnel_pops FUNNEL_BURST (fn_engine f) 0;
    let p := prod_beat (prod_sync (spsc en)) in
    let stats := if fwd then add_fwd_sends sends (fn_stats f) else add_tpu_sends sends (fn_stats f) in
    Ret (inl (mkFunnel (mkEngine (eng_consumer en) p) (fn_last_check f) stats (fn_machine f)))
  else Ret (inr f).

Fixpoint funnel_loop (n : nat) (fwd : bool) (timer : Timer) (f : Funnel) : outcome (Funnel + Funnel) :=
  match n with
  | O => Ret (inl f)
  | S n =>
     r ← funnel_step fwd timer f;
     match r with inl f => funnel_loop n fwd timer f | inr f => Ret (inr f) end
  end.

Definition funnel_into_ipc (fuel n : nat) (fwd : bool) (en : Engine) (stats : EngineStats) (w : Machine)
    : outcome (Funnel + Funnel) :=
  p ← wait_consumer fuel (spsc en);
  let '(timer, w) := timer_new w in
  funnel_loop n fwd timer (mkFunnel (mkEngine (eng_consumer en) p) 0 stats w).
End Engine.
