(* ===== verification/EngineProps.v ===== *)
(** Properties of the traffic engine: what the generators send and log, and that the
    funnel moves it on without loss, change or reordering. *)
From Stdlib Require Import ZArith Lia SpecFloat String.
From stdpp Require Import gmap list strings.
From S2P Require Import Prelude F64 Timer Wire Stats Que Mpsc Core Rng Agent AgentProps Text Engine.
Local Open Scope Z_scope.

(** ** Generators *)
Section Generator.
Context `{EntropyLaws} `{DistLaws} `{HashOps} `{ConstHashOps} `{TxLaws} `{ChooseLaws} `{QueLaws}.
Implicit Types (g : Generator) (p : Packet) (e : entropy).

Definition agent_ok (self : Ip) : Prop := length (ip_bytes self) = 4%nat ∧ Forall u8_ok (ip_bytes self).

(** A whole transaction or an empty packet. *)
Definition size_ok p : Prop := pkt_size (pkt_meta p) = 259 ∨ pkt_size (pkt_meta p) = 0.

(** The addresses of the agents never change. *)
Record gen_ok (addrs : list (list Z)) (write_to_file : bool) g : Prop := {
  go_ips : ip_bytes <$> gen_ips g = addrs;
  go_some : gen_ips g ≠ [];
  go_agents : Forall agent_ok (gen_ips g);
  go_packet : packet_ok (gen_packet g) ∧ size_ok (gen_packet g);
  go_file : write_to_file = true → is_Some (gen_file g);
  go_i : u64_ok (gen_i g);
}.

(** What a generator sends: packets of its agents, with a price. *)
Record sent_by (addrs : list (list Z)) p : Prop := {
  sb_ok : packet_ok p;
  sb_size : size_ok p;
  sb_addr : ∃ ip, pkt_addr (pkt_meta p) = V4 ip ∧ octets ip ∈ addrs;
  sb_price : ∃ price, read_price p = Ret price ∧ 0 ≤ price ≤ 1000000000;
}.

(** The line of a packet in the file. *)
Definition packet_line p : list Z :=
  match read_price p with Ret price => text_line price (pkt_addr (pkt_meta p)) | _ => [] end.

(** How the packets [ps], counted from [i], change a log: a line for each of the first
    four million, in order; it is flushed with the last of them, and left alone after. *)
Record log_grows (i : Z) (ps : list Packet) (w w' : BufWriter) : Prop := {
  lg_fault : fl_fault (bw_file w') = fl_fault (bw_file w);
  lg_contents : bw_contents w' = bw_contents w ++ mjoin (packet_line <$> take (Z.to_nat (LOGGED - i)) ps);
  lg_flushed : i < LOGGED → LOGGED ≤ i + Z.of_nat (length ps) → bw_buf w' = [];
  lg_after : LOGGED ≤ i → w' = w;
}.
(** The same for the log of a generator, which may be turned off. *)
Definition logs (write_to_file : bool) (i : Z) (ps : list Packet) (file file' : option BufWriter) : Prop :=
  if write_to_file then ∃ w w', file = Some w ∧ file' = Some w' ∧ log_grows i ps w w' else file' = file.
(** One of the next two writes to the log fails: a line makes at most one, and the flush
    after the last line another. *)
Definition file_fails (file : option BufWriter) : Prop :=
  ∃ w k n, file = Some w ∧ (fl_writes (bw_file w) ≤ k ≤ S (fl_writes (bw_file w)))%nat ∧ fl_fault (bw_file w) k = Some n.

Lemma file_fails_next w : next_fails w → file_fails (Some w).
Proof. intros [n Hn]. exists w, (fl_writes (bw_file w)), n. split_and!; [done|lia|lia|done]. Qed.
Lemma file_fails_flush w r :
  fl_fault (bw_file r.2) = fl_fault (bw_file w) → one_write w r → next_fails r.2 → file_fails (Some w).
Proof. intros Hf [Hc _] [n Hn]. rewrite Hf in Hn. exists w, (fl_writes (bw_file r.2)), n. split; [done|]. by split. Qed.

Lemma log_grows_nil i w : log_grows i [] w w.
Proof. split; try done; [by rewrite take_nil, app_nil_r|cbn; lia]. Qed.

Lemma log_grows_cons i p ps w w1 w2 :
  0 ≤ i → log_grows i [p] w w1 → log_grows (i + 1) ps w1 w2 → log_grows i (p :: ps) w w2.
Proof.
  intros Hi [Hf1 Hc1 Hd1 Ha1] [Hf2 Hc2 Hd2 Ha2]. split.
  - congruence.
  - rewrite Hc2, Hc1, <- app_assoc. f_equal. destruct (decide (i < LOGGED)).
    + replace (Z.to_nat (LOGGED - i)) with (S (Z.to_nat (LOGGED - (i + 1)))) by lia. cbn [take]. rewrite take_nil.
      change (mjoin (packet_line <$> [p])) with (packet_line p ++ []). by rewrite app_nil_r.
    + by replace (Z.to_nat (LOGGED - i)) with 0%nat by lia; replace (Z.to_nat (LOGGED - (i + 1))) with 0%nat by lia.
  - intros Hl Hle. cbn [length] in *. destruct (decide (LOGGED ≤ i + 1)) as [H'|H']; [rewrite Ha2 by done; apply Hd1|apply Hd2]; lia.
  - intros Hl. rewrite Ha2 by lia. auto.
Qed.

Lemma logs_nil (write_to_file : bool) i file : (write_to_file = true → is_Some file) → logs write_to_file i [] file file.
Proof. intros Hf. destruct write_to_file; [|done]. destruct Hf as [w ->]; [done|]. exists w, w. split_and!; [done..|apply log_grows_nil]. Qed.
Lemma logs_cons (write_to_file : bool) i p ps file file1 file2 :
  0 ≤ i → logs write_to_file i [p] file file1 → logs write_to_file (i + 1) ps file1 file2 →
  logs write_to_file i (p :: ps) file file2.
Proof.
  intros Hi. destruct write_to_file; cbn; [|congruence]. intros (w & w1 & -> & -> & H1') (? & w2 & [= <-] & -> & H2').
  exists w, w2. split_and!; [done|done|by eapply log_grows_cons].
Qed.

(** Logging a packet fails only if a write to the file does. *)
Lemma log_packet_run (write_to_file : bool) i p price file :
  0 ≤ i → addr_ok (pkt_addr (pkt_meta p)) → read_price p = Ret price → (write_to_file = true → is_Some file) →
  (∃ file', log_packet write_to_file i p file = Ret file' ∧ logs write_to_file i [p] file file') ∨
  (log_packet write_to_file i p file = Panic ∧ write_to_file = true ∧ file_fails file).
Proof.
  intros Hi Haddr Hp Hf. unfold log_packet, logs. destruct write_to_file; cycle 1.
  { left. rewrite decide_False by (intros [? _]; done). eauto. }
  destruct Hf as [w ->]; [done|]. destruct (decide (i < LOGGED)) as [Hl|Hl]; cycle 1.
  { left. rewrite decide_False by tauto. do 2 eexists; [done|]. exists w, w. split_and!; [done..|].
    split; try done; [by replace (Z.to_nat (LOGGED - i)) with 0%nat by lia; cbn; rewrite app_nil_r]. }
  rewrite decide_True by done. rewrite Hp, bind_Ret. cbn [unwrap]. rewrite bind_Ret.
  destruct (bw_writeln_run w price (pkt_addr (pkt_meta p))) as [Hf1 (d & _ & Hc & Hd)].
  pose proof (bw_writeln_once w price _ Haddr) as Hone.
  destruct (bw_writeln w price (pkt_addr (pkt_meta p))) as [[] w1]; cbn [fst snd] in *; cycle 1.
  { right. split_and!; [done|done|]. by apply file_fails_next, (ow_error _ _ Hone). }
  change (io_unwrap (true, w1)) with (Ret w1). rewrite bind_Ret. rewrite Hd in Hc by done.
  assert (Hline : bw_contents w1 = bw_contents w ++ mjoin (packet_line <$> take (Z.to_nat (LOGGED - i)) [p])).
  { replace (Z.to_nat (LOGGED - i)) with (S (Z.to_nat (LOGGED - (i + 1)))) by lia. cbn [take]. rewrite take_nil.
    unfold packet_line at 1. cbn. rewrite Hp, app_nil_r. exact Hc. }
  case_decide as Hlast.
  - destruct (bw_flush_run w1) as [[Hf2 (d2 & Hd2 & Hc2 & _)] Hb2]. pose proof (bw_flush_once w1) as [_ He2].
    destruct (bw_flush w1) as [[] w2]; cbn [fst snd] in *.
    + left. change (io_unwrap (true, w2)) with (Ret w2). rewrite bind_Ret. do 2 eexists; [done|].
      exists w, w2. split_and!; [done..|]. apply prefix_nil_inv in Hd2. subst d2. rewrite app_nil_r in Hc2.
      split; [congruence|by rewrite Hc2|by intros; apply Hb2|lia].
    + right. split_and!; [done|done|]. apply (file_fails_flush w (true, w1)); [done|done|by apply He2].
  - left. rewrite bind_Ret. do 2 eexists; [done|]. exists w, w1. split_and!; [done..|].
    split; [done|done|cbn; lia|lia].
Qed.

Lemma update_sent addrs self p e :
  (PRICE_AND_TRANSFER_TX_TX_LEN < PACKET_DATA_SIZE)%nat → agent_ok self → ip_bytes self ∈ addrs →
  packet_ok p → size_ok p →
  ∃ self' p' e', update_transfer_with_priority self p e = Ret (self', p', e') ∧
    ip_bytes self' = ip_bytes self ∧ sent_by addrs p'.
Proof.
  intros Hlen [Hip Hip8] Hin Hok Hsz.
  destruct (update_transfer_run self p e) as [rng' E]; [rewrite (ok_buffer_len _ Hok); lia|].
  destruct (update_transfer_parts self p e Hlen Hok Hip Hip8) as (Hok' & Hoct & Hpr).
  do 3 eexists. split; [exact E|]. split; [done|]. split; [done| | |].
  - unfold size_ok in *. cbn [repacked pkt_meta pkt_size]. unfold traffic_size, PRICE_AND_TRANSFER_TX_TX_LEN.
    destruct (traffic_of self); [by left|by right|by left|done].
  - exists (ip_addr self). cbn [repacked pkt_meta pkt_addr]. by rewrite Hoct.
  - exists (price_of self). split; [done|apply price_of_bound].
Qed.

Lemma gen_step_run addrs (write_to_file : bool) g :
  (PRICE_AND_TRANSFER_TX_TX_LEN < PACKET_DATA_SIZE)%nat → gen_ok addrs write_to_file g →
  (∃ g' p, gen_step write_to_file g = Ret g' ∧ gen_ok addrs write_to_file g' ∧ sent_by addrs p ∧
    pushed (gen_producer g') = pushed (gen_producer g) ++ [from_packet p; from_packet p] ∧
    logs write_to_file (gen_i g) [p] (gen_file g) (gen_file g') ∧
    gen_i g' = u64_add (gen_i g) 1 ∧ gen_packet g' = p ∧
    ∃ self self' e', self ∈ gen_ips g ∧ update_transfer_with_priority self (gen_packet g) (gen_entropy g) = Ret (self', p, e')) ∨
  (gen_step write_to_file g = Panic ∧ write_to_file = true ∧ file_fails (gen_file g)).
Proof.
  intros Hlen [Hips Hne Hag [Hp Hsz] Hf Hi]. unfold gen_step.
  destruct (choose_some (length (gen_ips g)) (gen_rng g)) as (k & Hk & Hkl); [destruct (gen_ips g); [done|simpl; lia]|].
  destruct (choose_index _ _) as [choice rng]. cbn [fst] in Hk. subst choice. cbn [unwrap]. rewrite bind_Ret. cbn beta.
  destruct (lookup_lt_is_Some_2 (gen_ips g) k Hkl) as [ip Hip]. rewrite Hip. cbn [unwrap]. rewrite bind_Ret. cbn beta.
  assert (Hin : ip_bytes ip ∈ addrs) by (rewrite <- Hips; apply list_elem_of_fmap_2; by eapply list_elem_of_lookup_2).
  destruct (update_sent addrs ip (gen_packet g) (gen_entropy g) Hlen) as (ip' & p & e' & Hup & Hb & Hsent);
    [by eapply Forall_lookup_1|done..|]. rewrite Hup, bind_Ret. cbn beta iota.
  destruct (sb_price _ _ Hsent) as (price & Hprice & _).
  destruct (log_packet_run write_to_file (gen_i g) p price (gen_file g) (proj1 Hi) (ok_addr _ (sb_ok _ _ Hsent)) Hprice Hf) as [(file' & -> & Hlog)|(-> & Hfail)];
    [left|by right]. rewrite bind_Ret. cbn beta iota.
  eexists _, p. split; [done|]. cbn [gen_producer gen_file gen_i gen_packet].
  split_and!; [|done| |done|done|done|exists ip, ip', e'; split; [by eapply list_elem_of_lookup_2|done]].
  - split; cbn [gen_ips gen_packet gen_file gen_i].
    + rewrite list_fmap_insert, Hb. rewrite <- Hips. apply list_insert_id. by rewrite list_lookup_fmap, Hip.
    + destruct (gen_ips g) as [|x l]; [done|]. by destruct k.
    + apply Forall_insert; [done|]. unfold agent_ok. rewrite Hb. by apply (Forall_lookup_1 _ _ _ _ Hag Hip).
    + split; apply Hsent.
    + intros ->. destruct Hlog as (_ & w' & _ & -> & _). by eexists.
    + by apply wrap_in_u.
  - by rewrite !pushed_push, <- app_assoc.
Qed.

(** Any number of rounds, as long as the counter of rounds does not wrap; or fewer, up to
    one in which writing the log fails. *)
Lemma gen_run_spec addrs n (write_to_file : bool) g :
  (PRICE_AND_TRANSFER_TX_TX_LEN < PACKET_DATA_SIZE)%nat → gen_ok addrs write_to_file g → gen_i g + Z.of_nat n < 2 ^ 64 →
  (∃ g' ps, gen_run n write_to_file g = Ret g' ∧ gen_ok addrs write_to_file g' ∧ length ps = n ∧
    Forall (sent_by addrs) ps ∧
    pushed (gen_producer g') = pushed (gen_producer g) ++ (ps ≫= λ p, [from_packet p; from_packet p]) ∧
    logs write_to_file (gen_i g) ps (gen_file g) (gen_file g')) ∨
  (gen_run n write_to_file g = Panic ∧ write_to_file = true ∧ ∃ j g' ps, (j < n)%nat ∧ gen_run j true g = Ret g' ∧ gen_step true g' = Panic ∧
    logs true (gen_i g) ps (gen_file g) (gen_file g') ∧ file_fails (gen_file g')).
Proof.
  intros Hlen. revert g. induction n as [|n IH]; intros g Hg Hn; cbn [gen_run].
  { left. exists g, []. rewrite app_nil_r. split_and!; try done. by apply logs_nil, (go_file _ _ _ Hg). }
  pose proof (go_i _ _ _ Hg) as [Hi _].
  destruct (gen_step_run addrs write_to_file g Hlen Hg) as [(g1 & p & Estep & Hg1 & Hp & Hpush & Hlog & Hi1 & _)|(Estep & -> & Hfail)]; cycle 1.
  { right. rewrite Estep. split_and!; [done..|]. exists 0%nat, g, []. split_and!; [lia|done|done|by apply logs_nil, (go_file _ _ _ Hg)|done]. }
  rewrite Estep, bind_Ret. rewrite u64_add_small in Hi1 by (unfold in_u; lia).
  destruct (IH g1 Hg1) as [(g' & ps & -> & Hg' & Hl & Hps & Hpush' & Hlog')|(-> & -> & j & g' & ps & Hj & Hrun & Hstep & Hlog' & Hfail)]; [lia| |].
  - left. exists g', (p :: ps). split_and!; [done|done|simpl; lia|by constructor| |].
    + rewrite Hpush', Hpush. cbn [mbind list_bind]. by rewrite <- app_assoc.
    + rewrite Hi1 in Hlog'. by eapply logs_cons.
  - right. split_and!; [done|done|]. exists (S j), g', (p :: ps). rewrite Hi1 in Hlog'.
    split_and!; [lia|cbn [gen_run]; by rewrite Estep, bind_Ret|done|by eapply logs_cons|done].
Qed.

Definition AGENTS : list (list Z) := [[1; 1; 1; 1]; [2; 2; 2; 2]; [7; 7; 7; 7]].

Lemma ip_make_run bad ip log_mean e :
  ∃ self e', ip_make bad ip log_mean (f32_of_uint 2) e = Ret (self, e') ∧ ip_bytes self = ip.
Proof.
  unfold ip_make, signer_new. destruct (random_u64 e) as [seed e1], (keypair_new e1) as [k e2].
  destruct (lognormal_new_two log_mean) as [d ->]. cbn. by do 2 eexists.
Qed.

(** The file a generator writes to, if it logs and the file can be created. *)
Definition log_file fs (write_to_file : bool) (path : str) : option BufWriter :=
  if write_to_file then (λ fault, bw_new (mkFile [] 0 fault)) <$> fs path else None.

Lemma generator_new_run (fs : file_system) (write_to_file : bool) file (p0 : producer PacketBytes) id e :
  (write_to_file = true → is_Some (fs (generator_path file id))) →
  ∃ g, generator_new fs write_to_file file p0 id e = Ret g ∧ gen_ok AGENTS write_to_file g ∧
    gen_producer g = p0 ∧ gen_i g = 0 ∧ gen_file g = log_file fs write_to_file (generator_path file id).
Proof.
  intros Hfs. unfold generator_new, ip_new, ip_new_bad.
  destruct (ip_make_run false [1; 1; 1; 1] (f32_ln (f32_of_uint 400000)) e) as (ip1 & e1 & -> & H1'). rewrite bind_Ret. cbn beta iota.
  destruct (ip_make_run false [2; 2; 2; 2] (f32_ln (f32_of_uint 100000)) e1) as (ip2 & e2 & -> & H2'). rewrite bind_Ret. cbn beta iota.
  destruct (ip_make_run true [7; 7; 7; 7] (f32_ln (f32_of_uint 100000)) e2) as (ip3 & e3 & -> & H3'). rewrite bind_Ret. cbn beta iota.
  unfold null_transfer_transaction_with_compute_unit_price.
  destruct (pubkey_new_unique e3) as [from e4], (pubkey_new_unique e4) as [to e5].
  destruct (price_and_transfer_packet 115 from to 0 (replicate 32 42)) as (pk & -> & Hok & Hsz).
  cbn [unwrap]. rewrite !bind_Ret. cbn beta iota. unfold log_open, file_create, log_file.
  assert (Hips : ip_bytes <$> [ip1; ip2; ip3] = AGENTS) by (cbn; by rewrite H1', H2', H3').
  assert (Hag : Forall agent_ok [ip1; ip2; ip3]).
  { unfold agent_ok. repeat constructor; rewrite ?H1', ?H2', ?H3'; repeat constructor; unfold u8_ok, in_u; lia. }
  destruct write_to_file; [destruct Hfs as [fault ->]; [done|]; rewrite !bind_Ret|rewrite bind_Ret]; cbn beta iota; eexists;
    (split; [done|]); (split; [|done]); split; cbn [gen_ips gen_packet gen_file gen_i]; try done; split; try done; by left.
Qed.

(** C32. What a generator thread sends.  If it logs, let its file be creatable.  Then it
    starts, and runs for any number of rounds (below 2^64) without an access out of range;
    it panics only when it logs, and then only in a round in which one of the next two
    writes to its log fails.  Otherwise every packet it makes is well-formed, comes from
    one of its three agents and has a price of at most 1e9; it is either a whole
    transaction or empty.  Each is pushed exactly twice in a row, and nothing else is
    pushed.  With logging on, what was written to the log is one
    line for each of the first four million packets, in order, and after four million
    rounds all of it is in the file and none in the buffer. *)
Theorem generator_traffic (fs : file_system) (write_to_file : bool) file (p0 : producer PacketBytes) id e n :
  (PRICE_AND_TRANSFER_TX_TX_LEN < PACKET_DATA_SIZE)%nat →
  (write_to_file = true → is_Some (fs (generator_path file id))) → Z.of_nat n < 2 ^ 64 →
  ∃ g0, generator_new fs write_to_file file p0 id e = Ret g0 ∧
    ((∃ g ps, gen_run n write_to_file g0 = Ret g ∧
        length ps = n ∧ Forall (sent_by AGENTS) ps ∧
        pushed (gen_producer g) = pushed p0 ++ (ps ≫= λ p, [from_packet p; from_packet p]) ∧
        (write_to_file = false → gen_file g = None) ∧
        (write_to_file = true → ∃ w, gen_file g = Some w ∧
           fl_bytes (bw_file w) ++ bw_buf w = mjoin (packet_line <$> take (Z.to_nat LOGGED) ps) ∧
           (LOGGED ≤ Z.of_nat n → bw_buf w = []))) ∨
     (gen_run n write_to_file g0 = Panic ∧ write_to_file = true ∧
        ∃ fault j g w k m, fs (generator_path file id) = Some fault ∧ (j < n)%nat ∧ gen_run j true g0 = Ret g ∧
          gen_step true g = Panic ∧ gen_file g = Some w ∧ (fl_writes (bw_file w) ≤ k ≤ S (fl_writes (bw_file w)))%nat ∧ fault k = Some m)).
Proof.
  intros Hlen Hfs Hn. destruct (generator_new_run fs write_to_file file p0 id e Hfs) as (g0 & Hnew & Hg0 & Hp & Hi & Hf).
  exists g0. split; [done|]. rewrite <- Hp.
  destruct (gen_run_spec AGENTS n write_to_file g0 Hlen Hg0) as [(g & ps & Hrun & _ & Hl & Hps & Hpush & Hlog)|(Hrun & -> & j & g & ps & Hj & Hrunj & Hstep & Hlog & w & k & m & Hw & Hk & Hm)];
    [lia|left|right].
  - exists g, ps. rewrite Hf, Hi in Hlog. split_and!; try done; intros ->; [done|].
    destruct Hlog as (w0 & w & Hw0 & Hw & [_ Hc Hb _]). exists w. rewrite Z.sub_0_r in Hc. unfold log_file in Hw0.
    destruct (fs _) as [fault|]; [|done]. injection Hw0 as <-. split_and!; [done|exact Hc|].
    intros Hle. apply Hb; unfold LOGGED in *; lia.
  - split_and!; [done|done|]. destruct Hlog as (w0 & w' & Hw0 & Hw' & [Hfl _ _ _]). rewrite Hf in Hw0. rewrite Hw in Hw'.
    injection Hw' as <-. unfold log_file in Hw0. destruct (fs _) as [fault|]; [|done]. injection Hw0 as <-.
    rewrite Hfl in Hm. exists fault, j, g, w, k, m. split_and!; done || apply Hk.
Qed.
End Generator.

(** ** The funnel *)
Section Funnel.
Context `{PacketOps} `{QueLaws} (P : PacketBytes → Prop).
Implicit Types (m : Consumer PacketBytes) (l : list PacketBytes) (en : Engine) (f : Funnel) (p : producer PacketBytes).

(** Popping [m] a number of times yields the messages [l]; some pops may find
    nothing. *)
Inductive delivers : Consumer PacketBytes → list PacketBytes → Consumer PacketBytes → Prop :=
| delivers_nil m : delivers m [] m
| delivers_some m x m1 l m2 : mpsc_pop m = Ret (Some x, m1) → delivers m1 l m2 → delivers m (x :: l) m2
| delivers_none m m1 l m2 : mpsc_pop m = Ret (None, m1) → delivers m1 l m2 → delivers m l m2.

Lemma delivers_app m1 l1 m2 l2 m3 : delivers m1 l1 m2 → delivers m2 l2 m3 → delivers m1 (l1 ++ l2) m3.
Proof. induction 1; intros; [done|econstructor; eauto|eapply delivers_none; eauto]. Qed.

(** There are channels, and every message they will ever yield satisfies [P]. *)
Record feed_ok m : Prop := {
  feed_some : consumers m ≠ [];
  feed_idx : (last_idx m ≤ length (consumers m))%nat;
  feed_safe : Forall (safe P) (consumers m);
}.

Lemma find_pop_safe (cs cs' : list (consumer PacketBytes)) o v :
  Forall (safe P) cs → find_pop cs = (o, cs', v) → Forall (safe P) cs' ∧ ∀ x, o = Some x → P x.
Proof.
  intros Hcs. revert o cs' v. induction Hcs as [|c cs Hc Hcs IH]; intros o cs' v Hf; cbn [find_pop] in Hf; [by simplify_eq|].
  destruct (cons_pop c) as [[x|] c1] eqn:E.
  - simplify_eq. destruct (safe_some _ _ _ _ Hc E). split; [by constructor|]. by intros ? [= <-].
  - destruct (find_pop cs) as [[o1 cs1] v1] eqn:E1. simplify_eq. destruct (IH _ _ _ eq_refl).
    split; [constructor; [by eapply safe_none|done]|done].
Qed.

Lemma mpsc_pop_feed m :
  feed_ok m → ∃ o m', mpsc_pop m = Ret (o, m') ∧ feed_ok m' ∧ ∀ x, o = Some x → P x.
Proof.
  intros [Hne Hi Hs]. assert (Hlen : length (consumers m) ≠ 0%nat) by by destruct (consumers m).
  unfold mpsc_pop. rewrite decide_False by lia. rewrite take_drop.
  destruct (find_pop (consumers m)) as [[o cs'] v] eqn:E. rewrite decide_False by done.
  destruct (find_pop_run _ _ _ _ E) as (Hl & _). destruct (find_pop_safe _ _ _ _ Hs E) as [Hs' Ho].
  do 2 eexists. split; [done|]. split; [|done]. split; cbn [consumers last_idx]; [by destruct cs'| |done].
  rewrite Hl. apply Nat.lt_le_incl, Nat.mod_upper_bound. done.
Qed.

Lemma funnel_pops_run n en sends :
  feed_ok (eng_consumer en) → u64_ok sends →
  ∃ en' l, funnel_pops n en sends = Ret (en', u64_add sends (Z.of_nat (length l))) ∧ feed_ok (eng_consumer en') ∧
    delivers (eng_consumer en) l (eng_consumer en') ∧ Forall P l ∧ (length l ≤ n)%nat ∧
    pushed (spsc en') = pushed (spsc en) ++ l.
Proof.
  revert en sends. induction n as [|n IH]; intros en sends Hen Hs; cbn [funnel_pops].
  { exists en, []. rewrite u64_add_0, app_nil_r by done. split_and!; try done. constructor. }
  destruct (mpsc_pop_feed _ Hen) as (o & m' & Hpop & Hm' & Ho). rewrite Hpop, bind_Ret. cbn beta iota.
  destruct o as [x|].
  - destruct (IH (mkEngine m' (prod_push x (spsc en))) (u64_add sends 1)) as (en' & l & -> & Hen' & Hd & HP & Hl & Hp);
      [done|by apply wrap_in_u|]. exists en', (x :: l). split_and!; try done.
    + do 2 f_equal. unfold u64_add. rewrite wrap_add_l. f_equal. cbn [length]. lia.
    + by econstructor.
    + constructor; [by apply Ho|done].
    + cbn [length]. lia.
    + rewrite Hp. cbn [spsc]. by rewrite pushed_push, <- app_assoc.
  - destruct (IH (mkEngine m' (spsc en)) sends) as (en' & l & -> & Hen' & Hd & HP & Hl & Hp); [done|done|].
    exists en', l. split_and!; try done; [by eapply delivers_none|lia].
Qed.

Lemma funnel_check_run ticks t0 f :
  tuned ticks (fn_machine f) →
  ∃ alive f', funnel_check (RDTSC t0) f = Ret (alive, f') ∧ tuned ticks (fn_machine f') ∧
    eng_consumer (fn_engine f') = eng_consumer (fn_engine f) ∧ fn_stats f' = fn_stats f ∧
    pushed (spsc (fn_engine f')) = pushed (spsc (fn_engine f)) ∧
    published (spsc (fn_engine f')) = published (spsc (fn_engine f)) ∧
    (alive = false → consumer_heartbeat (spsc (fn_engine f)) = (false, spsc (fn_engine f'))).
Proof.
  intros Ht. unfold funnel_check. destruct (elapsed_ms_run ticks (fn_machine f) t0 Ht) as (w1 & -> & A1 & _).
  rewrite bind_Ret. cbn beta iota. pose proof (tuned_advances _ _ _ A1 Ht) as Ht1. case_decide.
  - destruct (elapsed_ms_run ticks w1 t0 Ht1) as (w2 & -> & A2 & _). rewrite bind_Ret. cbn beta iota.
    pose proof (pushed_heartbeat (spsc (fn_engine f))) as Hp. pose proof (published_heartbeat (spsc (fn_engine f))) as Hq.
    destruct (consumer_heartbeat (spsc (fn_engine f))) as [alive p] eqn:E. cbn [snd] in *. do 2 eexists. split; [done|].
    cbn. split_and!; try done; [by eapply tuned_advances|by intros ->].
  - do 2 eexists. split; [done|]. cbn. split_and!; done.
Qed.

Definition funnel_of (r : Funnel + Funnel) : Funnel := match r with inl f | inr f => f end.
Definition add_sends (fwd : bool) (n : Z) (s : EngineStats) : EngineStats :=
  if fwd then add_fwd_sends n s else add_tpu_sends n s.
Definition engine_stats_ok (s : EngineStats) : Prop := Forall u64_ok (engine_stats_load s).

Lemma add_sends_0 fwd s : engine_stats_ok s → add_sends fwd 0 s = s.
Proof.
  unfold engine_stats_ok, engine_stats_load. rewrite !Forall_cons. intros (Ht & Hf & _).
  destruct s, fwd; unfold add_sends, add_fwd_sends, add_tpu_sends; cbn in *; by rewrite u64_add_0.
Qed.
Lemma add_sends_add fwd a b s : add_sends fwd b (add_sends fwd a s) = add_sends fwd (a + b) s.
Proof.
  assert (Hadd : ∀ x, u64_add (u64_add x a) b = u64_add x (a + b)).
  { intros x. unfold u64_add. rewrite wrap_add_l. f_equal. lia. }
  destruct s, fwd; unfold add_sends, add_fwd_sends, add_tpu_sends; cbn; by rewrite Hadd.
Qed.
Lemma add_sends_ok fwd n s : engine_stats_ok s → engine_stats_ok (add_sends fwd n s).
Proof.
  unfold engine_stats_ok, engine_stats_load. rewrite !Forall_cons. intros (?&?&?&?&?&_).
  destruct s, fwd; unfold add_sends, add_fwd_sends, add_tpu_sends; cbn in *; split_and!; try done; by apply wrap_in_u.
Qed.

(** What an iteration that goes on does: it moves the messages [b]. *)
Record moves (fwd : bool) f (b : list PacketBytes) f' : Prop := {
  mv_popped : delivers (eng_consumer (fn_engine f)) b (eng_consumer (fn_engine f'));
  mv_burst : (length b ≤ 16)%nat;
  mv_msgs : Forall P b;
  mv_pushed : pushed (spsc (fn_engine f')) = pushed (spsc (fn_engine f)) ++ b;
  mv_published : published (spsc (fn_engine f')) = pushed (spsc (fn_engine f'));
  mv_stats : fn_stats f' = add_sends fwd (Z.of_nat (length b)) (fn_stats f);
}.

(** The iterations of the loop, with what each of them moves. *)
Inductive iterations (fwd : bool) (timer : Timer) : Funnel → list (list PacketBytes) → Funnel → Prop :=
| iterations_nil f : iterations fwd timer f [] f
| iterations_cons f b f1 bs f2 :
    funnel_step fwd timer f = Ret (inl f1) → moves fwd f b f1 → iterations fwd timer f1 bs f2 →
    iterations fwd timer f (b :: bs) f2.

Record funnel_ok ticks f : Prop := {
  fo_tuned : tuned ticks (fn_machine f);
  fo_feed : feed_ok (eng_consumer (fn_engine f));
  fo_stats : engine_stats_ok (fn_stats f);
}.

(** An iteration moves a batch, or ends the loop because the channel's consumer is gone. *)
Lemma funnel_step_run ticks fwd t0 f :
  funnel_ok ticks f →
  (∃ f' b, funnel_step fwd (RDTSC t0) f = Ret (inl f') ∧ funnel_ok ticks f' ∧ moves fwd f b f') ∨
  (∃ f', funnel_step fwd (RDTSC t0) f = Ret (inr f') ∧ tuned ticks (fn_machine f') ∧
     consumer_heartbeat (spsc (fn_engine f)) = (false, spsc (fn_engine f')) ∧
     eng_consumer (fn_engine f') = eng_consumer (fn_engine f) ∧ fn_stats f' = fn_stats f ∧
     pushed (spsc (fn_engine f')) = pushed (spsc (fn_engine f)) ∧
     published (spsc (fn_engine f')) = published (spsc (fn_engine f))).
Proof.
  intros [Ht Hm Hst]. unfold funnel_step.
  destruct (funnel_check_run ticks t0 f Ht) as (alive & f1 & -> & Ht1 & Hc1 & Hs1 & Hp1 & Hq1 & Hb1). rewrite bind_Ret. cbn beta iota.
  destruct alive; [left|right].
  - destruct (funnel_pops_run FUNNEL_BURST (fn_engine f1) 0) as (en & l & -> & Hen & Hd & HP & Hl & Hp);
      [by rewrite Hc1|unfold u64_ok, in_u; lia|]. rewrite bind_Ret. cbn beta iota.
    exists (mkFunnel (mkEngine (eng_consumer en) (prod_beat (prod_sync (spsc en)))) (fn_last_check f1)
      (add_sends fwd (u64_add 0 (Z.of_nat (length l))) (fn_stats f1)) (fn_machine f1)), l.
    split; [done|]. assert (Hu : u64_add 0 (Z.of_nat (length l)) = Z.of_nat (length l)).
    { apply u64_add_small. unfold FUNNEL_BURST in Hl. unfold in_u. lia. }
    rewrite Hu, Hs1. split; [split; cbn; [done|done|by apply add_sends_ok]|].
    split; cbn [fn_engine fn_stats eng_consumer spsc]; rewrite <- ?Hc1, <- ?Hp1; try done.
    + by rewrite pushed_beat, pushed_sync.
    + by rewrite published_beat, published_sync, pushed_beat, pushed_sync.
  - exists f1. split_and!; try done. by apply Hb1.
Qed.

(** How a run of the loop of at most [n] iterations ends. *)
Definition funnel_ends (n : nat) (bs : list (list PacketBytes)) f (r : Funnel + Funnel) : Prop :=
  match r with
  | inl f' => f' = f ∧ length bs = n
  | inr f' => (length bs < n)%nat ∧ consumer_heartbeat (spsc (fn_engine f)) = (false, spsc (fn_engine f')) ∧
      eng_consumer (fn_engine f') = eng_consumer (fn_engine f) ∧ fn_stats f' = fn_stats f ∧
      pushed (spsc (fn_engine f')) = pushed (spsc (fn_engine f)) ∧
      published (spsc (fn_engine f')) = published (spsc (fn_engine f))
  end.

Lemma funnel_loop_run ticks n fwd t0 f :
  funnel_ok ticks f →
  ∃ r bs f', funnel_loop n fwd (RDTSC t0) f = Ret r ∧ iterations fwd (RDTSC t0) f bs f' ∧ funnel_ends n bs f' r.
Proof.
  revert f. induction n as [|n IH]; intros f Hf; cbn [funnel_loop].
  { exists (inl f), [], f. split_and!; [done|constructor|done]. }
  destruct (funnel_step_run ticks fwd t0 f Hf) as [(f1 & b & E & Hf1 & Hb)|(f1 & E & _ & Hend)]; rewrite E, bind_Ret.
  - destruct (IH f1 Hf1) as (r & bs & f' & -> & Hit & Hends). exists r, (b :: bs), f'. split_and!; [done|by econstructor|].
    destruct r; cbn in *; [destruct Hends; split; [done|lia]|destruct Hends; split; [lia|done]].
  - exists (inr f1), [], f. split_and!; [done|constructor|]. split; [cbn; lia|done].
Qed.

(** What the iterations move together. *)
Lemma iterations_total fwd timer f bs f' :
  iterations fwd timer f bs f' → engine_stats_ok (fn_stats f) →
  delivers (eng_consumer (fn_engine f)) (mjoin bs) (eng_consumer (fn_engine f')) ∧ Forall P (mjoin bs) ∧
  pushed (spsc (fn_engine f')) = pushed (spsc (fn_engine f)) ++ mjoin bs ∧
  fn_stats f' = add_sends fwd (Z.of_nat (length (mjoin bs))) (fn_stats f) ∧
  (published (spsc (fn_engine f)) = pushed (spsc (fn_engine f)) →
   published (spsc (fn_engine f')) = pushed (spsc (fn_engine f'))).
Proof.
  induction 1 as [f|f b f1 bs f2 _ [Hd Hl HP Hp Hq Hs] _ IH]; intros Hst.
  { cbn. rewrite app_nil_r, add_sends_0 by done. split_and!; try done; constructor. }
  destruct IH as (Hd' & HP' & Hp' & Hs' & Hq'); [rewrite Hs; by apply add_sends_ok|].
  change (mjoin (b :: bs)) with (b ++ mjoin bs). split_and!.
  - by eapply delivers_app.
  - by apply Forall_app_2.
  - by rewrite Hp', Hp, app_assoc.
  - by rewrite Hs', Hs, add_sends_add, length_app, Nat2Z.inj_add.
  - intros _. by apply Hq'.
Qed.

(** A consumer shows up while the funnel asks for it. *)
Definition consumer_appears (fuel : nat) p : Prop :=
  ∃ k, (k < fuel)%nat ∧ (consumer_heartbeat (Nat.iter k (λ p, (consumer_heartbeat p).2) p)).1 = true.

Lemma wait_consumer_run fuel p :
  consumer_appears fuel p → ∃ p', wait_consumer fuel p = Ret p' ∧ pushed p' = pushed p ∧ published p' = published p.
Proof.
  intros (k & Hk & Ha). revert fuel p Hk Ha. induction k as [|k IH]; intros [|fuel] p Hk Ha; try lia; cbn [wait_consumer];
    pose proof (pushed_heartbeat p) as Hp; pose proof (published_heartbeat p) as Hq.
  - cbn [Nat.iter nat_rect] in Ha. destruct (consumer_heartbeat p) as [b p1]. cbn [fst snd] in *. subst b. eauto.
  - rewrite Nat.iter_succ_r in Ha. destruct (consumer_heartbeat p) as [[] p1]; cbn [snd] in *; [by eauto|].
    destruct (IH fuel p1) as (p' & -> & Hp' & Hq'); [lia|done|]. exists p'. by rewrite Hp', Hq'.
Qed.

(** C33. The funnel loses, invents and reorders nothing.  Once a consumer has appeared,
    [n] iterations return without a panic.  Each moves a batch of at most 16 messages, in
    the order in which it popped them, from the generators' channels into the one to the
    service, and publishes it; the loop ends before the [n] iterations only when the
    heartbeat of the consumer of that very channel, as the last iteration finds it, is
    missing.  Altogether what is pushed is exactly what was popped, all of it is
    published, and the counter grows by its length.  Whatever holds of the generators'
    messages holds of the forwarded ones. *)
Theorem funnel_conserves ticks fuel n fwd en stats w :
  tuned ticks w → feed_ok (eng_consumer en) → engine_stats_ok stats → consumer_appears fuel (spsc en) →
  published (spsc en) = pushed (spsc en) →
  ∃ r bs p f, funnel_into_ipc fuel n fwd en stats w = Ret r ∧ wait_consumer fuel (spsc en) = Ret p ∧
    iterations fwd (timer_new w).1 (mkFunnel (mkEngine (eng_consumer en) p) 0 stats (timer_new w).2) bs f ∧
    match r with
    | inl f' => f' = f ∧ length bs = n
    | inr f' => (length bs < n)%nat ∧ consumer_heartbeat (spsc (fn_engine f)) = (false, spsc (fn_engine f'))
    end ∧
    delivers (eng_consumer en) (mjoin bs) (eng_consumer (fn_engine (funnel_of r))) ∧ Forall P (mjoin bs) ∧
    published (spsc (fn_engine (funnel_of r))) = pushed (spsc en) ++ mjoin bs ∧
    pushed (spsc (fn_engine (funnel_of r))) = pushed (spsc en) ++ mjoin bs ∧
    fn_stats (funnel_of r) = add_sends fwd (Z.of_nat (length (mjoin bs))) stats.
Proof.
  intros Ht Hm Hst Ha Hpub. unfold funnel_into_ipc.
  destruct (wait_consumer_run fuel (spsc en) Ha) as (p1 & -> & Hp1 & Hq1). rewrite bind_Ret. cbn beta iota.
  destruct (timer_new_run ticks w Ht) as (w1 & -> & A1 & _). cbn [fst snd].
  set (f0 := mkFunnel (mkEngine (eng_consumer en) p1) 0 stats w1).
  destruct (funnel_loop_run ticks n fwd (tsc w (tsc_reads w)) f0) as (r & bs & f & -> & Hit & Hend);
    [split; [by eapply tuned_advances|done|done]|].
  destruct (iterations_total _ _ _ _ _ Hit Hst) as (Hd & HP & Hp & Hs & Hq). cbn in Hd, Hp, Hs, Hq.
  rewrite Hp1 in Hp, Hq. rewrite Hq1 in Hq. specialize (Hq Hpub).
  exists r, bs, p1, f. split_and!; try done; destruct r; cbn in Hend |- *; destruct_and?; subst; try done; try congruence.
Qed.
End Funnel.

(** The channels of the generators do not carry the name of the engine: two engines of
    the same process join the same ones. *)
Lemma engines_share_channels `{PacketOps} `{QueOps} id1 id2 huge (n : nat) jp jc joc en1 en2 :
  (engine_initialize id1 huge n jp jc joc).2 = Ok en1 → (engine_initialize id2 huge n jp jc joc).2 = Ok en2 →
  eng_consumer en1 = eng_consumer en2 ∧ (engine_initialize id1 huge n jp jc joc).1 = (engine_initialize id2 huge n jp jc joc).1.
Proof.
  unfold engine_initialize. destruct (initialize_generator_threads n jp jc) as [[threads c]|]; [|done].
  destruct (joc id1 _) as [p1|], (joc id2 _) as [p2|]; cbn; try done. by intros [= <-] [= <-].
Qed.

Section Witnesses.
#[local] Existing Instance ref_keys.
#[local] Existing Instance ref_entropy.
#[local] Existing Instance ref_dist.
#[local] Existing Instance ref_tx.
#[local] Existing Instance ref_entropy_laws.
#[local] Existing Instance ref_dist_laws.
#[local] Existing Instance ref_tx_laws.
#[local] Existing Instance ref_packet.
#[local] Existing Instance ref_hash.
#[local] Existing Instance ref_que.
#[local] Existing Instance ref_que_laws.
#[local] Existing Instance ref_const_hash.
#[local] Instance ref_choose : ChooseOps := λ n rng,
  (if decide (n = 0%nat) then None else Some (Z.to_nat (rng_state rng `mod` Z.of_nat n)), snd (next_u64 rng)).
#[local] Instance ref_choose_laws : ChooseLaws.
Proof.
  intros n rng Hn. unfold choose_index, ref_choose. rewrite decide_False by lia. eexists. split; [done|].
  pose proof (Z.mod_pos_bound (rng_state rng) (Z.of_nat n)). lia.
Qed.

Definition quiet_producer : producer PacketBytes := ([], [] : list PacketBytes).

(** All files can be created, and no write fails. *)
Definition good_disk : file_system := λ _, Some (λ _, None).

Lemma generator_traffic_witness :
  ∃ g0 g ps, generator_new good_disk true (text "tpu_to_qos") quiet_producer 1 demo_entropy = Ret g0 ∧
    gen_run 3 true g0 = Ret g ∧ length ps = 3%nat ∧
    pushed (gen_producer g) = ps ≫= λ p, [from_packet p; from_packet p].
Proof.
  destruct (generator_traffic good_disk true (text "tpu_to_qos") quiet_producer 1 demo_entropy 3)
    as (g0 & E0 & [(g & ps & E & Hl & _ & Hp & _)|(_ & _ & fault & j & g & w & k & m & [= <-] & _ & _ & _ & _ & _ & Hk)]); [apply Nat.ltb_lt; reflexivity|done|lia| |discriminate Hk].
  exists g0, g, ps. split; [exact E0|]. split; [exact E|]. split; [exact Hl|exact Hp].
Defined.

Definition demo_msg (b : Z) : PacketBytes := mkPacketBytes [b].
Definition demo_feed : Consumer PacketBytes := @mkConsumer ref_que PacketBytes [[demo_msg 1; demo_msg 2]; [demo_msg 3]] 0.

(** Two iterations: three messages in the first, none in the second. *)
Lemma funnel_conserves_witness :
  ∃ r, funnel_into_ipc 1 2 true (mkEngine demo_feed quiet_producer) STATS demo_tuned = Ret r ∧
    published (spsc (fn_engine (funnel_of r))) = [demo_msg 1; demo_msg 2; demo_msg 3].
Proof.
  destruct (funnel_conserves (λ _, True) 10 1 2 true (mkEngine demo_feed quiet_producer) STATS demo_tuned)
    as (r & bs & p & f & E & _ & _ & _ & _ & _ & Hq & _).
  - apply demo_tuned_ok.
  - split; [discriminate|simpl; lia|]. repeat constructor; apply ref_safe; repeat constructor.
  - repeat constructor; unfold u64_ok, in_u; simpl; lia.
  - exists 0%nat. split; [lia|reflexivity].
  - reflexivity.
  - exists r. split; [exact E|].
    assert (Hr : match funnel_into_ipc 1 2 true (mkEngine demo_feed quiet_producer) STATS demo_tuned with
      | Ret r => published (spsc (fn_engine (funnel_of r))) = [demo_msg 1; demo_msg 2; demo_msg 3] | _ => False end)
      by (vm_compute; reflexivity).
    rewrite E in Hr. exact Hr.
Defined.
End Witnesses.
