(* ===== verification/Traffic.v ===== *)
(** What the traffic of the engine means to the service: the packets the agents make are
    transactions of one shape ([TxPatch]), and the service reads from them what the agents
    put in.

    [CompileLaws] states how the SDK lays out the prepared transaction in its packet,
    [DataLaws] that a packet without flags yields its payload. *)
From Stdlib Require Import ZArith Lia SpecFloat.
From stdpp Require Import gmap list.
From S2P Require Import Prelude Lru LruSpec F64 RedBlack ScoreTable Model ModelProps Wire Stats Que Core CoreProps.
From S2P Require Import Rng Agent AgentProps Text Engine EngineProps Wireformat TxPatch.
Local Open Scope Z_scope.

(** The instructions are compiled in order; the keys are the two accounts, then the two
    programs; the signature is not yet made.  ([Transaction::new_with_payer], and
    [Packet::from_data].) *)
Class CompileLaws `{ViewOps} `{PacketOps} `{TxOps} : Prop := compiled_packet price from to lamports hash p :
  bytes_ok 32 from → bytes_ok 32 to → from ≠ to →
  from ∉ [SYSTEM_PROGRAM_ID; COMPUTE_BUDGET_ID] → to ∉ [SYSTEM_PROGRAM_ID; COMPUTE_BUDGET_ID] →
  bytes_ok 32 hash → u64_ok price → u64_ok lamports →
  packet_from_data (set_recent_blockhash hash
    (new_with_payer [set_compute_unit_price price; system_transfer from to lamports] None)) = Some p →
  ∃ rest, pkt_buffer p = wire (mkTransfer (replicate 64 0) from to hash price lamports) ++ rest ∧
    pkt_flags (pkt_meta p) = 0.

(** [Pubkey::new_unique]: keys of 32 bytes, different from one another and from the programs. *)
Class UniqueLaws `{ViewOps} `{EntropyOps} : Prop := {
  unique_key e : bytes_ok 32 (pubkey_new_unique e).1;
  unique_keys_differ e : (pubkey_new_unique e).1 ≠ (pubkey_new_unique (pubkey_new_unique e).2).1;
  unique_not_program e : (pubkey_new_unique e).1 ∉ [SYSTEM_PROGRAM_ID; COMPUTE_BUDGET_ID];
}.

Class DataLaws `{PacketOps} : Prop := packet_data_live p :
  packet_ok p → pkt_flags (pkt_meta p) = 0 → pkt_size (pkt_meta p) ≤ Z.of_nat PACKET_DATA_SIZE →
  packet_data p = Some (payload p).

(** ** The packets of the agents *)
Section Agents.
Context `{WireLaws} `{KeyLaws} `{!EntropyOps} `{!EntropyLaws} `{DistLaws} `{PacketOps}.
Implicit Types (self : Ip) (p : Packet) (t : transfer) (e : entropy).

(** The buffer holds the transaction, with room behind it. *)
Record carries p t : Prop := {
  ca_transfer : transfer_ok t;
  ca_buffer : ∃ rest, pkt_buffer p = wire t ++ rest ∧ rest ≠ [];
  ca_flags : pkt_flags (pkt_meta p) = 0;
}.

(** What a step makes of the transaction. *)
Definition stepped self e t : transfer :=
  with_signature (random_array 64 (hash_new_unique e).2).1 (with_blockhash (hash_new_unique e).1 (with_price (price_of self) t)).

Lemma splice_wire off bytes mem mem' :
  write_at mem (Z.of_nat off) bytes = Ret mem' → (off + length bytes ≤ length mem)%nat → splice off bytes mem = mem'.
Proof. intros Hw Hl. rewrite write_at_splice in Hw by done. by injection Hw. Qed.

Lemma splice_last a b rest :
  rest ≠ [] → ∃ rest', splice (length (a ++ rest) - 1) [b] (a ++ rest) = a ++ rest' ∧ rest' ≠ [].
Proof.
  intros Hr. destruct (list_snoc_inv rest) as [?|(r & x & ->)]; [done|]. exists (r ++ [b]). split; [|by destruct r].
  assert (E : (a ++ r ++ [x]) = (a ++ r) ++ [x]) by by rewrite app_assoc. rewrite E, (app_assoc a r [b]).
  generalize (a ++ r). intros l. unfold splice.
  replace (length (l ++ [x]) - 1)%nat with (length l) by (rewrite length_app; simpl; lia).
  rewrite take_app_length, drop_ge by (rewrite length_app; simpl; lia). by rewrite app_nil_r.
Qed.

Lemma stepped_ok self e t : transfer_ok t → transfer_ok (stepped self e t).
Proof.
  intros [Hs Hp Ht Hb Hpr Hl]. pose proof (price_of_bound self). unfold stepped.
  split; cbn [with_signature with_blockhash with_price tr_signature tr_payer tr_to tr_blockhash tr_price tr_lamports]; try done.
  - apply random_array_ok.
  - apply unique_hash_bytes.
  - unfold u64_ok, in_u. lia.
Qed.

Lemma stamp_wire self e p t rest :
  transfer_ok t → pkt_buffer p = wire t ++ rest → stamp_of self p e = wire (stepped self e t) ++ rest.
Proof.
  intros Hok Hbuf. unfold stamp_of, stamped. rewrite Hbuf.
  pose proof (unique_hash_bytes e) as [Hb Hb8]. pose proof (random_array_ok 64 (hash_new_unique e).2) as [Hs Hs8].
  pose proof (price_of_bound self) as Hpb. set (t1 := with_price (price_of self) t).
  assert (Hok1 : transfer_ok t1) by (destruct Hok; split; try done; cbn; unfold u64_ok, in_u; lia).
  set (t2 := with_blockhash (hash_new_unique e).1 t1). assert (Hok2 : transfer_ok t2) by (destruct Hok1; by split).
  rewrite (splice_wire _ _ _ _ (patch_price t rest (price_of self) Hok)) by
    (rewrite length_app, wire_length, length_to_le_bytes by done;
     unfold PRICE_AND_TRANSFER_TX_PRICE_U64_OFFSET, PRICE_AND_TRANSFER_TX_TX_LEN; lia). fold t1.
  rewrite (splice_wire _ _ _ _ (patch_blockhash t1 rest _ Hok1 Hb)) by
    (rewrite length_app, wire_length, Hb by done;
     unfold PRICE_AND_TRANSFER_TX_BLOCKHASH_OFFSET, PRICE_AND_TRANSFER_TX_TX_LEN; lia). fold t2.
  by rewrite (splice_wire _ _ _ _ (patch_signature t2 rest _ Hok2 Hs)) by
    (rewrite length_app, wire_length, Hs by done;
     unfold PRICE_AND_TRANSFER_TX_SIGNATURE_OFFSET, PRICE_AND_TRANSFER_TX_TX_LEN; lia).
Qed.

Lemma traffic_wire k t rest :
  rest ≠ [] → ∃ rest', traffic_buffer k (wire t ++ rest) = wire t ++ rest' ∧ rest' ≠ [].
Proof. intros Hr. destruct k; cbn [traffic_buffer]; try (by apply splice_last); eauto. Qed.

(** A step of an agent changes the transaction in its packet. *)
Lemma update_carries self p t e self' p' e' :
  carries p t → update_transfer_with_priority self p e = Ret (self', p', e') →
  carries p' (stepped self e t) ∧ pkt_size (pkt_meta p') = traffic_size (traffic_of self) p.
Proof.
  intros [Hok (rest & Hbuf & Hr) Hf] Hup.
  destruct (update_transfer_run self p e) as [rng' E].
  { rewrite Hbuf, length_app, wire_length by done. lia. }
  rewrite E in Hup. injection Hup as _ <- _. split; [|done]. split; [by apply stepped_ok| |done].
  cbn [repacked pkt_buffer]. rewrite (stamp_wire self e p t rest Hok Hbuf). by apply traffic_wire.
Qed.
End Agents.

(** ** What the service reads from them *)
Section Service.
Context `{OrderedFloatLaws} `{SokobanLaws} `{PacketOps} `{!DataLaws} `{HashOps} `{ViewLaws} `{BincodeOps} `{!WireLaws}.
Context {SIGNERS IPS : nat} (CACHE_SIZE : nat).
Implicit Types (p : Packet) (t : transfer) (rs : option (LRUCache Z ())).

(** The fee of a transaction with one signature and no limit of its own. *)
Definition transfer_fee t : Z := 5000 + tr_price t / 5.

Lemma transfer_view t :
  transfer_ok t →
  ∃ u v, try_new_unsanitized (wire t) = Some u ∧ sanitize u = Some v ∧ signatures v = [tr_signature t] ∧
    static_account_keys v !! 0%nat = Some (tr_payer t) ∧
    total_fee v = mkFee (tr_price t) (transfer_fee t) 200000.
Proof.
  intros Hok. destruct (transfer_tx_ok t Hok) as [Htx Hsane].
  destruct (view_encode _ Htx Hsane) as (u & v & Hu & Hv & Hsig & Hkeys & Hix).
  exists u, v. split_and!; [done|done|by rewrite Hsig|by rewrite Hkeys|].
  unfold total_fee. rewrite Hsig, Hkeys, Hix. cbn [transfer_tx tx_account_keys tx_instructions tx_signatures fmap list_fmap take].
  rewrite filter_cons_True by reflexivity.
  assert (Hscan : fold_left fee_scan_step (filter (is_compute_budget
      [tr_payer t; tr_to t; SYSTEM_PROGRAM_ID; COMPUTE_BUDGET_ID]) [view_of (mkCompiled 2 [0; 1] (transfer_data (tr_lamports t)))])
    (mkScan None (Some (tr_price t)) false) = mkScan None (Some (tr_price t)) false).
  { rewrite filter_cons. case_decide; [|done]. rewrite filter_nil. cbn [fold_left]. unfold fee_scan_step.
    by rewrite !decide_False by (intros [Hl _]; discriminate Hl). }
  assert (Hprice : fee_scan_step (mkScan None None false) (view_of (mkCompiled 3 [] (price_data (tr_price t)))) =
    mkScan None (Some (tr_price t)) false).
  { unfold fee_scan_step. rewrite decide_False by (intros [Hl _]; discriminate Hl). rewrite decide_True by done.
    cbn [scan_price scan_cus scan_duplicate]. do 2 f_equal.
    change (read_operand _ _) with (from_le_bytes (take 8 (to_le_bytes 8 (tr_price t)))).
    rewrite (take_ge (to_le_bytes 8 (tr_price t)) 8), from_to_le_bytes by (rewrite length_to_le_bytes; lia).
    apply Z.mod_small, (tk_price _ Hok). }
  cbn [fold_left]. rewrite Hprice, Hscan. cbn [scan_price scan_cus from_option id]. destruct (tk_price _ Hok) as [Hp0 Hp].
  assert (Hdiv : 200000 * tr_price t / 1000000 = tr_price t / 5) by
    (change 1000000 with (200000 * 5); apply Z.div_mul_cancel_l; lia).
  assert (0 ≤ tr_price t / 5 ≤ 2 ^ 62) by (split; [apply Z.div_pos; lia|apply Z.div_le_upper_bound; lia]).
  rewrite (wrap_id 128 (200000 * tr_price t)) by (unfold in_u; lia). rewrite Hdiv. unfold u64_max. rewrite Z.min_l by lia.
  f_equal. change (u64_mul 5000 (Z.of_nat (length [tr_signature t]))) with 5000.
  unfold transfer_fee. apply u64_add_small. unfold in_u. lia.
Qed.

(** How the service classifies the packet of an agent. *)
Lemma classify_carries p t rs ip :
  packet_ok p → carries p t → size_ok p → (PRICE_AND_TRANSFER_TX_TX_LEN < PACKET_DATA_SIZE)%nat →
  pkt_addr (pkt_meta p) = V4 ip →
  (pkt_size (pkt_meta p) = 0 → classify p rs = CoreProps.Unparsable ip) ∧
  (pkt_size (pkt_meta p) ≠ 0 → payload p = wire t ∧
     if is_recent rs (u64_key (tr_signature t)) then classify p rs = Rejected RecentlyProcessedError
     else ∃ v, classify p rs = Candidate ip v (tr_signature t) (tr_payer t) ∧
       total_fee v = mkFee (tr_price t) (transfer_fee t) 200000).
Proof.
  intros Hok [Htr (rest & Hbuf & _) Hfl] Hsz Hlen Haddr. unfold PRICE_AND_TRANSFER_TX_TX_LEN in Hlen.
  assert (Hd : packet_data p = Some (payload p)) by (apply packet_data_live; [done|done|destruct Hsz; lia]).
  unfold classify. rewrite Haddr, Hd, decide_False by (destruct Hsz; lia). unfold payload. split; intros Hs.
  - rewrite Hs. change (take (Z.to_nat 0) (pkt_buffer p)) with (@nil Z). by rewrite view_empty.
  - assert (Hpay : take (Z.to_nat (pkt_size (pkt_meta p))) (pkt_buffer p) = wire t).
    { rewrite Hbuf. destruct Hsz as [-> |]; [|done]. apply take_app_length'. by rewrite wire_length. }
    split; [done|]. rewrite Hpay. destruct (transfer_view t Htr) as (u & v & -> & -> & -> & -> & Hfee).
    cbn [lookup list_lookup]. destruct (is_recent rs _); [done|]. by exists v.
Qed.
End Service.

(** ** From an agent to the service *)
Section Meeting.
Context `{OrderedFloatLaws} `{SokobanLaws} `{PacketOps} `{!DataLaws} `{HashOps} `{ViewLaws} `{BincodeOps} `{!WireLaws}.
Context `{KeyLaws} `{!EntropyOps} `{!EntropyLaws} `{DistLaws}.
Context {SIGNERS IPS : nat} (CACHE_SIZE : nat).
Abbreviation state := (proc_state SIGNERS IPS).
Implicit Types (self : Ip) (p : Packet) (t : transfer) (e : entropy) (st : state).

(** The score the service gives to the transaction of an agent. *)
Definition transfer_score st (ip : Ipv4Addr) t : f64 :=
  of_mul (qm_forward (qos_model st) (ip_key ip) (tr_payer t) ())
    (f64_div (f64_of_uint (transfer_fee t)) (f64_of_uint 200000)).

(** C8. An agent and the service understand each other.  Let an agent update a packet that
    carries a price-and-transfer transaction, and the service process the result.  It finds
    the signature and the payer of that transaction and the price the agent has sampled:
    unless the signature is a recent one, it computes the fee 5000 + price / 5, and accepts
    the packet with the score of its sources times the fee per compute unit if its hash is
    not cached, or reports a duplicate.  An emptied packet is the only kind of the agents'
    packets that does not parse, and an agent that is not bad sends none. *)
Theorem agent_meets_service self p t e st l rs h :
  (0 < CACHE_SIZE)%nat → proc_inv CACHE_SIZE st l → (PRICE_AND_TRANSFER_TX_TX_LEN < PACKET_DATA_SIZE)%nat →
  packet_ok p → size_ok p → carries p t → agent_ok self →
  ∃ self' p' e', update_transfer_with_priority self p e = Ret (self', p', e') ∧
    let t' := stepped self e t in
    let ip := ip_addr self in
    tr_price t' = price_of self ∧ tr_payer t' = tr_payer t ∧
    (ip_bad self = false → pkt_size (pkt_meta p') ≠ 0) ∧
    (pkt_size (pkt_meta p') = 0 → try_process_packet CACHE_SIZE p' rs h st =
       Ret (Err FailedTransactionView,
            count FailedView (set_model (count TotalPackets st) (ip_feedback (qos_model st) (to_bits ip))))) ∧
    (pkt_size (pkt_meta p') ≠ 0 → is_recent rs (u64_key (tr_signature t')) = true →
       try_process_packet CACHE_SIZE p' rs h st =
       Ret (Err RecentlyProcessedError, count RecentlyProcessed (count TotalPackets st))) ∧
    (pkt_size (pkt_meta p') ≠ 0 → is_recent rs (u64_key (tr_signature t')) = false →
       ∃ key metas, packet_hash h p' = Ret key ∧
         try_process_packet CACHE_SIZE p' rs h st =
         Ret (if decide (key ∈ l.*1)
              then (Err DuplicatePacket, count DuplicatePackets (set_metas (count TotalPackets st) metas))
              else (Ok (mkScored (transfer_score st ip t') (u64_key (tr_signature t')) p' (ip_key ip)),
                    set_metas (count TotalPackets st) metas))).
Proof.
  intros HN Hinv Hlen Hok Hsz Hc [Hip Hip8].
  destruct (update_transfer_run self p e) as [rng' E]; [rewrite (ok_buffer_len _ Hok); lia|].
  destruct (update_transfer_parts self p e Hlen Hok Hip Hip8) as (Hok' & _).
  set (p' := repacked _ _ _ p) in *. do 3 eexists. split; [exact E|]. cbv zeta.
  destruct (update_carries _ _ _ _ _ _ _ Hc E) as [Hc' Hsize].
  assert (Hsz' : size_ok p').
  { unfold size_ok. rewrite Hsize. unfold traffic_size, PRICE_AND_TRANSFER_TX_TX_LEN.
    destruct (traffic_of self); [by left|by right|by left|done]. }
  destruct (classify_carries p' _ rs (ip_addr self) Hok' Hc' Hsz' Hlen eq_refl) as [Hempty Hfull].
  pose proof (process_run CACHE_SIZE p' rs h st l HN Hok' Hinv) as Hrun. split_and!.
  - done.
  - done.
  - intros Hb. rewrite Hsize. unfold traffic_of. by rewrite Hb.
  - intros Hs. by rewrite (Hempty Hs) in Hrun.
  - intros Hs Hrec. destruct (Hfull Hs) as [_ Hcl]. rewrite Hrec in Hcl. by rewrite Hcl in Hrun.
  - intros Hs Hrec. destruct (Hfull Hs) as [_ Hcl]. rewrite Hrec in Hcl. destruct Hcl as (v & Hcl & Hfee).
    rewrite Hcl in Hrun. destruct Hrun as (key & metas & Hh & _ & Hrun). exists key, metas. split; [done|].
    rewrite Hrun. unfold candidate_scored, candidate_meta, packet_score, transfer_score, partial_meta_new. by rewrite Hfee.
Qed.
End Meeting.

(** ** The generators *)
Section Generators.
Context `{PacketLaws} `{ViewOps} `{BincodeOps} `{!WireLaws} `{TxOps} `{!TxLaws} `{!CompileLaws}.
Context `{KeyLaws} `{!EntropyOps} `{!EntropyLaws} `{!UniqueLaws} `{DistLaws} `{HashOps} `{ConstHashOps} `{ChooseLaws} `{QueLaws}.
Context (Hsize : (PRICE_AND_TRANSFER_TX_TX_LEN < PACKET_DATA_SIZE)%nat).
Implicit Types (g : Generator) (p : Packet) (e : entropy).

(** A packet of an agent, with the transaction in it. *)
Definition agent_packet p : Prop := sent_by AGENTS p ∧ ∃ t, carries p t.

(** The prepared packet. *)
Lemma prepared_carries e :
  ∃ p e' from to, null_transfer_transaction_with_compute_unit_price e = Ret (p, e') ∧ packet_ok p ∧
    pkt_size (pkt_meta p) = Z.of_nat PRICE_AND_TRANSFER_TX_TX_LEN ∧
    carries p (mkTransfer (replicate 64 0) from to (replicate 32 42) 115 0) ∧
    from = (pubkey_new_unique e).1 ∧ to = (pubkey_new_unique (pubkey_new_unique e).2).1.
Proof.
  unfold null_transfer_transaction_with_compute_unit_price.
  pose proof (unique_key e) as Hf. pose proof (unique_keys_differ e) as Hd. pose proof (unique_not_program e) as Hnf.
  destruct (pubkey_new_unique e) as [from e1]. cbn [fst snd] in *.
  pose proof (unique_key e1) as Ht. pose proof (unique_not_program e1) as Hnt.
  destruct (pubkey_new_unique e1) as [to e2]. cbn [fst snd] in *.
  destruct (price_and_transfer_packet 115 from to 0 (replicate 32 42)) as (p & Hp & Hok & Hsz).
  assert (Hbh : bytes_ok 32 (replicate 32 42)) by by apply (bool_decide_unpack _).
  assert (Hsig : bytes_ok 64 (replicate 64 0)) by by apply (bool_decide_unpack _).
  destruct (compiled_packet 115 from to 0 (replicate 32 42) p) as (rest & Hbuf & Hfl); try done.
  exists p, e2, from, to. rewrite Hp. split_and!; [done|done|done| |done|done].
  assert (Hok' : transfer_ok (mkTransfer (replicate 64 0) from to (replicate 32 42) 115 0)) by by split.
  split; [done| |done]. exists rest. split; [done|]. intros ->.
  pose proof (ok_buffer_len _ Hok) as Hl. rewrite Hbuf, app_nil_r, wire_length in Hl by done. lia.
Qed.

Lemma generator_new_carries fs (write_to_file : bool) file (p0 : producer PacketBytes) id e g :
  generator_new fs write_to_file file p0 id e = Ret g → ∃ t, carries (gen_packet g) t.
Proof.
  unfold generator_new, ip_new, ip_new_bad.
  destruct (ip_make_run false [1; 1; 1; 1] (f32_ln (f32_of_uint 400000)) e) as (ip1 & e1 & -> & _). rewrite bind_Ret. cbn beta iota.
  destruct (ip_make_run false [2; 2; 2; 2] (f32_ln (f32_of_uint 100000)) e1) as (ip2 & e2 & -> & _). rewrite bind_Ret. cbn beta iota.
  destruct (ip_make_run true [7; 7; 7; 7] (f32_ln (f32_of_uint 100000)) e2) as (ip3 & e3 & -> & _). rewrite bind_Ret. cbn beta iota.
  destruct (prepared_carries e3) as (p & e4 & from & to & -> & _ & _ & Hc & _). rewrite bind_Ret. cbn beta iota.
  destruct (log_open _ _ _) as [f| | |]; try discriminate. rewrite bind_Ret. intros [= <-]. by eexists.
Qed.

(** Each round pushes the packet of an agent, and keeps a transaction in the buffer. *)
Lemma gen_step_carries (write_to_file : bool) g t g' :
  gen_ok AGENTS write_to_file g → carries (gen_packet g) t → gen_step write_to_file g = Ret g' →
  gen_ok AGENTS write_to_file g' ∧ ∃ p t', agent_packet p ∧ carries (gen_packet g') t' ∧
    pushed (gen_producer g') = pushed (gen_producer g) ++ [from_packet p; from_packet p].
Proof.
  intros Hg Hc Hstep. destruct (gen_step_run AGENTS write_to_file g Hsize Hg) as
    [(g2 & p & Hstep' & Hg' & Hp & Hpush & _ & _ & Hpk & self & self' & e' & _ & Hup)|(Hstep' & _)]; rewrite Hstep in Hstep'; [|done].
  injection Hstep' as <-. destruct (update_carries _ _ _ _ _ _ _ Hc Hup) as [Hc' _].
  split; [done|]. exists p, (stepped self (gen_entropy g) t). rewrite Hpk. split_and!; try done. split; [done|by eexists].
Qed.
End Generators.

(** ** Reference instances: the SDK's part, in the format of [Wireformat] *)
Definition ref_instruction : Type := Z + list Z * list Z * Z.
(** The transaction of a price and a transfer; other lists of instructions are not needed. *)
Definition ref_compile (ixs : list ref_instruction) : transfer :=
  match ixs with
  | [inl price; inr (from, to, lamports)] => mkTransfer (replicate 64 0) from to (replicate 32 0) price lamports
  | _ => mkTransfer (replicate 64 0) [] [] (replicate 32 0) 0 0
  end.
(** A packet of 1232 bytes with the transaction at its start. *)
Definition ref_packet_of (t : transfer) : Packet :=
  mkPacket (wrap 8 <$> take (Z.to_nat 1232) (wire (H := ref_wire_view) t ++ replicate (Z.to_nat 1232) 0))
    (mkPacketMeta 259 (V4 (mkIpv4 0 0 0 0)) 0 0).
Definition ref_tx_wire : TxOps := {|
  instruction := ref_instruction;
  transaction := transfer;
  set_compute_unit_price price := inl price;
  system_transfer from to lamports := inr (from, to, lamports);
  new_with_payer ixs _ := ref_compile ixs;
  set_recent_blockhash := with_blockhash;
  packet_from_data t := Some (ref_packet_of t);
|}.

Lemma ref_tx_wire_laws : @TxLaws ref_packet ref_tx_wire.
Proof.
  split. intros price from to lamports hash. eexists. split; [reflexivity|]. split; [|reflexivity].
  unfold ref_packet_of.
  split; cbn [pkt_buffer pkt_meta pkt_size pkt_addr pkt_port pkt_flags addr_ok]; try (unfold u8_ok, u64_ok, in_u; lia).
  - rewrite length_fmap, length_take, length_app, length_replicate. cbn [PACKET_DATA_SIZE ref_packet]. lia.
  - apply Forall_fmap, Forall_true. intros x. by apply wrap_in_u.
  - by apply (bool_decide_unpack _).
Qed.

Lemma wrap_bytes l : Forall u8_ok l → wrap 8 <$> l = l.
Proof. induction 1 as [|x l Hx _ IH]; [done|]. cbn. rewrite IH. f_equal. by apply wrap_id. Qed.

Lemma wire_u8 `{WireLaws} t : transfer_ok t → Forall u8_ok (wire t).
Proof.
  intros [[_ Hs] [_ Hp] [_ Ht] [_ Hb] _ _]. rewrite wire_eq. destruct compute_budget_bytes as [_ Hc].
  repeat apply Forall_app_2; try done; try apply to_le_bytes_u8; try by apply (bool_decide_unpack _).
Qed.

Lemma ref_compile_laws : @CompileLaws ref_wire_view ref_packet ref_tx_wire.
Proof.
  intros price from to lamports hash p Hf Ht _ _ _ Hh Hp Hl [= <-].
  set (t := mkTransfer (replicate 64 0) from to hash price lamports).
  assert (Hok : transfer_ok t) by (split; try done; by apply (bool_decide_unpack _)).
  exists (replicate 973 0). split; [|done].
  change (pkt_buffer _) with (wrap 8 <$> take (Z.to_nat 1232) (wire (H := ref_wire_view) t ++ replicate (Z.to_nat 1232) 0)).
  pose proof (wire_length (H1 := ref_wire_laws) t Hok) as Hlen. unfold PRICE_AND_TRANSFER_TX_TX_LEN in Hlen.
  rewrite take_app_ge, Hlen, take_replicate by lia.
  rewrite fmap_app, wrap_bytes by by apply (wire_u8 (H1 := ref_wire_laws)). by rewrite fmap_replicate.
Qed.

Lemma ref_data_laws : @DataLaws ref_packet.
Proof.
  intros p Hp Hf Hs. cbn [packet_data ref_packet]. rewrite Hf. cbn [Z.testbit]. rewrite decide_True; [done|].
  cbn [PACKET_DATA_SIZE ref_packet] in Hs. lia.
Qed.

Lemma ref_unique_laws : @UniqueLaws ref_wire_view ref_keys ref_entropy.
Proof.
  split; intros e; cbn [pubkey_new_unique ref_entropy fst snd].
  - split; [by cbn [length]; rewrite length_to_le_bytes|]. apply Forall_cons_2; [by apply (bool_decide_unpack _)|apply to_le_bytes_u8].
  - intros [= E _]. assert (Hz : (e + 1 - e) mod 256 = 0) by by rewrite Zminus_mod, <- E, Z.sub_diag.
    replace (e + 1 - e) with 1 in Hz by lia. discriminate Hz.
  - intros Hin. by repeat (apply elem_of_cons in Hin as [[=]|Hin]); apply not_elem_of_nil in Hin.
Qed.

Section Witnesses.
#[local] Existing Instance ref_ordered_float.
#[local] Existing Instance ref_ordered_float_laws.
#[local] Existing Instance ref_sokoban.
#[local] Existing Instance ref_sokoban_laws.
#[local] Existing Instance ref_packet.
#[local] Existing Instance ref_data_laws.
#[local] Existing Instance ref_hash.
#[local] Existing Instance ref_wire_view.
#[local] Existing Instance ref_wire_view_laws.
#[local] Existing Instance ref_bincode.
#[local] Existing Instance ref_wire_laws.
#[local] Existing Instance ref_keys.
#[local] Existing Instance ref_keys_laws.
#[local] Existing Instance ref_entropy.
#[local] Existing Instance ref_entropy_laws.
#[local] Existing Instance ref_unique_laws.
#[local] Existing Instance ref_dist.
#[local] Existing Instance ref_dist_laws.
#[local] Existing Instance ref_tx_wire.
#[local] Existing Instance ref_tx_wire_laws.
#[local] Existing Instance ref_compile_laws.

(** The prepared packet, through an agent that is not bad, accepted by an empty service. *)
Lemma agent_meets_service_witness :
  ∃ p self' p' e' r, update_transfer_with_priority (demo_agent 1 false) p demo_entropy = Ret (self', p', e') ∧
    try_process_packet 4 p' None demo_hasher demo_state = Ret r ∧
    ∃ s, r.1 = Ok s ∧ st_packet s = p' ∧ read_price p' = Ret 5.
Proof.
  destruct (prepared_carries ltac:(apply Nat.ltb_lt; reflexivity) demo_entropy) as (p & e0 & from & to & _ & Hok & Hs & Hc & _).
  set (t := mkTransfer _ _ _ _ _ _) in Hc. exists p.
  destruct (agent_meets_service 4 (demo_agent 1 false) p t demo_entropy demo_state [] None demo_hasher)
    as (self' & p' & e' & E & _ & _ & Hgood & _ & _ & Hnew); [lia|apply demo_inv|apply Nat.ltb_lt; reflexivity|exact Hok| |exact Hc| |].
  - left. exact Hs.
  - split; [reflexivity|]. by apply (bool_decide_unpack _).
  - destruct (Hnew (Hgood eq_refl) eq_refl) as (key & metas & _ & Hrun).
    rewrite decide_False in Hrun by apply not_elem_of_nil.
    destruct (update_carries _ _ _ _ _ _ _ Hc E) as [[Hok' (rest & Hbuf & _) _] _].
    exists self', p', e'. eexists. split; [exact E|]. split; [exact Hrun|]. eexists. split; [reflexivity|]. split; [reflexivity|].
    destruct p' as [buf m]. cbn [pkt_buffer] in Hbuf. subst buf. rewrite wire_read_price by exact Hok'. reflexivity.
Defined.
End Witnesses.
