(* ===== verification/Analysis.v ===== *)
(** The packet analysis tool ([packet-analysis/src/main.rs]): it collects the prices that
    the traffic engine and the mock validator logged, by address, and stores them as
    arrays.

    The file system is a parameter: what a directory lists and what a file holds.
    [NpzOps] is the writer of the [ndarray_npz] crate.  A [HashMap] is a [gmap]; the order
    in which it is iterated is a parameter, too. *)
From Stdlib Require Import ZArith Lia String.
From stdpp Require Import gmap list strings.
From S2P Require Import Prelude Wire Que Rng Agent AgentProps Text Engine EngineProps.
Local Open Scope Z_scope.

(** A path: its last component and itself, each of which may not be valid UTF-8. *)
Record Path : Type := mkPath { path_file_name : option (option str); path_to_str : option str }.

Section Code.
Context (read_dir : str → option (list (option Path))) (file_open : str → option (list Z)).

Definition matching_path (pattern : str) (entry : option Path) : option str :=
  path ← entry;
  file_name ← path_file_name path;
  file_name_str ← file_name;
  if contains_str pattern file_name_str then path_to_str path else None.

Definition find_matching_files (directory pattern : str) : list str :=
  match read_dir directory with
  | Some entries => omap (matching_path pattern) entries
  | None => []
  end.

(** [results.entry(ip).or_insert_with(...).push(number)]. *)
Definition push_value (ip : str) (number : Z) (results : gmap str (list Z)) : gmap str (list Z) :=
  <[ip := vec_push (default [] (results !! ip)) number]> results.

Definition ip_line (results : gmap str (list Z)) (line : option str) : gmap str (list Z) :=
  match line with
  | Some line =>
     match split_whitespace line with
     | [number_str; ip] =>
        match parse_u64 number_str with
        | Some number => push_value ip number results
        | None => results
        end
     | _ => results
     end
  | None => results
  end.

Definition ip_file (results : gmap str (list Z)) (file : str) : gmap str (list Z) :=
  match file_open file with
  | Some f => foldl ip_line results (lines f)
  | None => results
  end.

Definition ip_values (files : list str) : gmap str (list Z) := foldl ip_file ∅ files.
End Code.

Class NpzOps : Type := {
  npz : Type;
  npz_new : str → option npz;
  npz_add_array : str → list Z → npz → option npz;
}.

Section Output.
Context `{NpzOps} (hash_order : gmap str (list Z) → list (str * list Z)).

Fixpoint add_arrays (entries : list (str * list Z)) (w : npz) : outcome npz :=
  match entries with
  | [] => Ret w
  | (ip, values) :: entries => w ← unwrap (npz_add_array ip values w); add_arrays entries w
  end.

Definition write_to_npz (results : gmap str (list Z)) (output_path : str) : outcome npz :=
  w ← unwrap (npz_new output_path);
  add_arrays (hash_order results) w.

(** The two runs of [main]: the traffic sent and the traffic that reached sigverify. *)
Definition analyse (read_dir : str → option (list (option Path))) (file_open : str → option (list Z))
    (job : str * str) : outcome npz :=
  let files := find_matching_files read_dir (text "packet-data") job.1 in
  let result := ip_values file_open files in
  write_to_npz result (job.2 ++ text ".npz").

Definition analysis_main (read_dir : str → option (list (option Path))) (file_open : str → option (list Z))
    : outcome (npz * npz) :=
  input ← analyse read_dir file_open (text "_qos", text "input");
  output ← analyse read_dir file_open (text "sigverify", text "output");
  Ret (input, output).
End Output.

(** ** Facts on strings and lists *)
Lemma text_app s1 s2 : text (s1 +:+ s2) = text s1 ++ text s2.
Proof.
  unfold text. rewrite <- fmap_app. apply (f_equal (fmap _)).
  induction s1 as [|a s1 IH]; [done|]. change (a :: list_ascii_of_string (s1 +:+ s2) = a :: (list_ascii_of_string s1 ++ list_ascii_of_string s2)).
  by rewrite IH.
Qed.

Lemma contains_mid p a b : contains_str p (a ++ p ++ b) = true.
Proof.
  induction a as [|c a IH]; cbn [app contains_str]; [|by rewrite IH, orb_true_r].
  destruct (p ++ b) eqn:E; cbn [contains_str]; rewrite bool_decide_true; try done; rewrite <- E; by apply prefix_app_r.
Qed.
Lemma contains_mid2 p a b c : contains_str p (a ++ (b ++ p) ++ c) = true.
Proof. rewrite <- app_assoc, app_assoc. apply contains_mid. Qed.

Lemma filter_ext_in {A} (P Q : A → Prop) `{!∀ x, Decision (P x), !∀ x, Decision (Q x)} (l : list A) :
  (∀ x, x ∈ l → P x ↔ Q x) → filter P l = filter Q l.
Proof.
  induction l as [|x l IH]; intros Hpq; [done|]. rewrite !filter_cons, IH by (intros; apply Hpq; by right).
  assert (P x ↔ Q x) as Hx by (apply Hpq; by left). repeat case_decide; tauto.
Qed.

(** ** Reading back what was logged *)
Definition record_ok (r : Z * IpAddr) : Prop := u64_ok r.1 ∧ addr_ok r.2.
Definition log_text (rs : list (Z * IpAddr)) : list Z := rs ≫= λ r, text_line r.1 r.2.
(** The prices of an address, by its text. *)
Definition prices_of (key : str) (rs : list (Z * IpAddr)) : list Z :=
  fst <$> filter (λ r, display_addr r.2 = key) rs.

Definition record_line (r : Z * IpAddr) : str := display_u64 r.1 ++ 32 :: display_addr r.2.

Lemma record_line_ascii r : record_ok r → Forall (λ c, 32 ≤ c < 127) (record_line r).
Proof.
  intros [[Hp _] Ha]. destruct (display_u64_plain _ Hp) as [H1 _], (display_addr_plain _ Ha) as [H2 _].
  unfold record_line. apply Forall_app_2; [|constructor; [lia|]]; (eapply Forall_impl; [eassumption|]); unfold plain; lia.
Qed.

Lemma strip_cr_line r : record_ok r → strip_cr (record_line r) = record_line r.
Proof.
  intros Hr%record_line_ascii. unfold strip_cr. rewrite decide_False; [done|].
  intros Hl%last_Some_elem_of. rewrite Forall_forall in Hr. specialize (Hr _ Hl). cbn in Hr. lia.
Qed.

Lemma lines_log rs : Forall record_ok rs → lines (log_text rs) = (λ r, Some (record_line r)) <$> rs.
Proof.
  unfold lines. induction 1 as [|r rs Hr Hrs IH]; [done|].
  replace (log_text (r :: rs)) with (record_line r ++ 10 :: log_text rs) by
    (unfold record_line, log_text; cbn [mbind list_bind]; unfold text_line; by rewrite <- !app_assoc).
  pose proof (record_line_ascii r Hr) as Ha. rewrite raw_lines_line; cycle 1.
  { intros Hin. rewrite Forall_forall in Ha. specialize (Ha _ Hin). lia. }
  rewrite app_nil_l, strip_cr_line by done. rewrite !fmap_cons, IH. f_equal.
  apply utf8_plain. eapply Forall_impl; [exact Ha|]. cbn. lia.
Qed.

Lemma ip_line_record results r :
  record_ok r → ip_line results (Some (record_line r)) = push_value (display_addr r.2) r.1 results.
Proof.
  intros [Hp Ha]. destruct (display_u64_plain r.1) as [H1 H2]; [apply Hp|]. destruct (display_addr_plain _ Ha) as [H3 H4].
  unfold ip_line, record_line. rewrite split_two by done. by rewrite parse_display.
Qed.

Lemma push_value_get key ip n results :
  default [] (push_value ip n results !! key) = default [] (results !! key) ++ (if decide (ip = key) then [n] else []).
Proof.
  unfold push_value, vec_push. case_decide as Hk.
  - subst. by rewrite lookup_insert_eq.
  - by rewrite lookup_insert_ne, app_nil_r.
Qed.

Lemma fold_records results rs key :
  Forall record_ok rs →
  default [] (foldl ip_line results ((λ r, Some (record_line r)) <$> rs) !! key) =
  default [] (results !! key) ++ prices_of key rs.
Proof.
  intros Hrs. revert results. induction Hrs as [|r rs Hr Hrs IH]; intros results; [by rewrite app_nil_r|].
  rewrite fmap_cons. cbn [foldl]. rewrite ip_line_record by done. rewrite IH, push_value_get, <- app_assoc. f_equal.
  unfold prices_of. rewrite filter_cons. case_decide; done.
Qed.

Lemma analysis_run file_open (logs : list (str * list (Z * IpAddr))) key :
  Forall (λ f, file_open f.1 = Some (log_text f.2) ∧ Forall record_ok f.2) logs →
  default [] (ip_values file_open (fst <$> logs) !! key) = prices_of key (logs ≫= snd).
Proof.
  intros Hlogs. unfold ip_values.
  assert (Hgen : ∀ results, default [] (foldl (ip_file file_open) results (fst <$> logs) !! key) =
    default [] (results !! key) ++ prices_of key (logs ≫= snd)); [|by rewrite Hgen, lookup_empty].
  induction Hlogs as [|[f rs] logs [Hf Hrs] _ IH]; intros results; [by rewrite app_nil_r|].
  rewrite fmap_cons. cbn [foldl fst snd] in *. rewrite IH. unfold ip_file. rewrite Hf, lines_log, fold_records by done.
  cbn [mbind list_bind snd]. unfold prices_of. by rewrite filter_app, fmap_app, <- app_assoc.
Qed.

(** The tool reads back what was logged.  When each file holds lines of prices and
    addresses as the engine and the mock validator write them, IPv4 or IPv6, the values
    of an address are the prices logged for it, in the order of the files and of the
    lines; no line is dropped or misread. *)
Theorem analysis_reads_log file_open (logs : list (str * list (Z * IpAddr))) key :
  Forall (λ f, file_open f.1 = Some (log_text f.2) ∧ Forall record_ok f.2) logs →
  default [] (ip_values file_open (fst <$> logs) !! key) = prices_of key (logs ≫= snd).
Proof. apply analysis_run. Qed.

(** ** What the engine logs *)
Section EngineLog.
Context `{EntropyLaws} `{DistLaws} `{HashOps} `{ConstHashOps} `{TxLaws} `{ChooseLaws} `{QueLaws}.

(** The record a packet leaves in the log. *)
Definition packet_record (p : Packet) : Z * IpAddr :=
  (match read_price p with Ret price => price | _ => 0 end, pkt_addr (pkt_meta p)).

Lemma sent_record addrs p :
  sent_by addrs p → record_ok (packet_record p) ∧ packet_line p = text_line (packet_record p).1 (packet_record p).2.
Proof.
  intros [Hok _ _ (price & Hp & Hb)]. unfold packet_record, packet_line. rewrite Hp. split; [|done].
  split; [unfold u64_ok, in_u; cbn; lia|apply (ok_addr _ Hok)].
Qed.

(** The file of a generator is a log of its packets. *)
Lemma sent_log addrs ps :
  Forall (sent_by addrs) ps →
  mjoin (packet_line <$> ps) = log_text (packet_record <$> ps) ∧ Forall record_ok (packet_record <$> ps).
Proof.
  induction 1 as [|p ps Hp _ [IH1 IH2]]; [done|]. destruct (sent_record _ _ Hp) as [Hr Hl].
  split; [|by constructor]. transitivity (packet_line p ++ mjoin (packet_line <$> ps)); [done|]. rewrite Hl, IH1. unfold log_text. rewrite fmap_cons. cbn [mbind list_bind]. exact eq_refl.
Qed.

(** The entry of a file in a listing of its directory. *)
Definition log_name (shmem_id : string) (id : Z) : str := text (shmem_id +:+ "_qos") ++ display_u64 id.
Definition log_path (shmem_id : string) (id : Z) : str := generator_path (text (shmem_id +:+ "_qos")) id.
Definition log_entry (shmem_id : string) (id : Z) : option Path :=
  Some (mkPath (Some (Some (log_name shmem_id id))) (Some (log_path shmem_id id))).

(** The tool finds the file of a generator by its name. *)
Lemma log_entry_matches shmem_id id : matching_path (text "_qos") (log_entry shmem_id id) = Some (log_path shmem_id id).
Proof.
  unfold matching_path, log_entry, log_name. cbn [mbind option_bind path_file_name path_to_str].
  rewrite text_app, <- app_assoc, contains_mid. done.
Qed.

Lemma find_log read_dir shmem_id id before after :
  read_dir (text "packet-data") = Some (before ++ log_entry shmem_id id :: after) →
  Forall (λ entry, matching_path (text "_qos") entry = None) (before ++ after) →
  find_matching_files read_dir (text "packet-data") (text "_qos") = [log_path shmem_id id].
Proof.
  intros Hd [Hb Ha]%Forall_app. unfold find_matching_files. rewrite Hd.
  assert (Hnone : ∀ l : list (option Path), Forall (λ entry, matching_path (text "_qos") entry = None) l →
    omap (matching_path (text "_qos")) l = []).
  { induction 1 as [|x l Hx _ IH]; [done|]. cbn [omap list_omap]. by rewrite Hx. }
  rewrite omap_app, (Hnone before Hb). cbn [omap list_omap app]. by rewrite log_entry_matches, (Hnone after Ha).
Qed.

(** The prices of an address in a log of the agents' packets. *)
Lemma prices_of_sent addrs ps ip :
  Forall (sent_by addrs) ps → ipv4_ok ip →
  prices_of (display_ipv4 ip) (packet_record <$> ps) = fst <$> filter (λ r, r.2 = V4 ip) (packet_record <$> ps).
Proof.
  intros Hps Hip. unfold prices_of. f_equal. apply filter_ext_in.
  intros r Hr. rewrite Forall_forall in Hps. apply list_elem_of_fmap in Hr as (p & -> & Hp').
  destruct (sb_addr _ _ (Hps _ Hp')) as (ip' & Ha & _). unfold packet_record. cbn [snd]. rewrite Ha. cbn [display_addr].
  split; [|by intros [= ->]]. intros Heq. f_equal. apply display_ipv4_inj; [|done|done].
  pose proof (ok_addr _ (sb_ok _ _ (Hps _ Hp'))) as Hao. by rewrite Ha in Hao.
Qed.

(** C35. From the generator to the analysis.  Let a thread log to a file that can be
    created and to which no write fails, for any number of rounds (below 2^64).  What is
    then in the file, the part still in the buffer of the writer not counted, is a prefix
    of the log of its first four million packets.  After at least four million rounds the
    file holds that log entirely, and the tool, pointed to a directory in which this file
    is the only one whose name contains the pattern, finds it and recovers from it, for
    each address, the prices of the first four million packets the thread sent from it,
    in order. *)
Theorem engine_log_round_trip (fs : file_system) shmem_id p0 id e n fault :
  (PRICE_AND_TRANSFER_TX_TX_LEN < PACKET_DATA_SIZE)%nat → fs (log_path shmem_id id) = Some fault →
  (∀ k, fault k = None) → Z.of_nat n < 2 ^ 64 →
  ∃ g0 g ps w, generator_new fs true (text (shmem_id +:+ "_qos")) p0 id e = Ret g0 ∧ gen_run n true g0 = Ret g ∧
    gen_file g = Some w ∧ pushed (gen_producer g) = pushed p0 ++ (ps ≫= λ p, [from_packet p; from_packet p]) ∧
    let records := packet_record <$> take (Z.to_nat LOGGED) ps in
    fl_bytes (bw_file w) `prefix_of` log_text records ∧
    (LOGGED ≤ Z.of_nat n → ∀ read_dir file_open before after,
       read_dir (text "packet-data") = Some (before ++ log_entry shmem_id id :: after) →
       Forall (λ entry, matching_path (text "_qos") entry = None) (before ++ after) →
       file_open (log_path shmem_id id) = Some (fl_bytes (bw_file w)) →
       ∀ ip, ipv4_ok ip →
         default [] (ip_values file_open (find_matching_files read_dir (text "packet-data") (text "_qos")) !! display_ipv4 ip) =
         fst <$> filter (λ r, r.2 = V4 ip) records).
Proof.
  intros Hlen Hfs Hok Hn. set (file := text (shmem_id +:+ "_qos")). change (log_path shmem_id id) with (generator_path file id) in *.
  destruct (generator_new_run fs true file p0 id e) as (g0 & Hnew & Hg0 & Hp & Hi & Hf); [by rewrite Hfs|].
  unfold log_file in Hf. rewrite Hfs in Hf. cbn [fmap option_fmap option_map] in Hf. exists g0.
  destruct (gen_run_spec AGENTS n true g0 Hlen Hg0) as [(g & ps & Hrun & _ & Hl & Hps & Hpush & Hlog)|(_ & _ & j & g & ps & _ & _ & _ & Hlog & w & k & m & Hw & _ & Hk)];
    [lia| |destruct Hlog as (w0 & w' & Hw0 & Hw' & [Hfl _ _ _]); rewrite Hf in Hw0; rewrite Hw in Hw';
     injection Hw0 as <-; injection Hw' as <-; rewrite Hfl in Hk; cbn in Hk; by rewrite Hok in Hk].
  rewrite Hi, Hf in Hlog. rewrite Hp in Hpush. destruct Hlog as (w0 & w & [= <-] & Hw & [_ Hc Hb _]).
  rewrite Z.sub_0_r in Hc. change (bw_contents (bw_new _)) with (@nil Z) in Hc. rewrite app_nil_l in Hc.
  pose proof (Forall_take _ (Z.to_nat LOGGED) _ Hps) as Hps'. destruct (sent_log _ _ Hps') as [Htext Hrec]. rewrite Htext in Hc.
  exists g, ps, w. split_and!; try done; cbv zeta. split.
  { rewrite <- Hc. by exists (bw_buf w). }
  intros Hle read_dir file_open before after Hd Hother Hopen ip Hip.
  unfold bw_contents in Hc. rewrite Hb, app_nil_r in Hc by (unfold LOGGED in *; lia). rewrite Hc in Hopen.
  rewrite (find_log _ _ _ _ _ Hd Hother).
  change [log_path shmem_id id] with (fst <$> [(log_path shmem_id id, packet_record <$> take (Z.to_nat LOGGED) ps)]).
  rewrite analysis_run; [|repeat constructor; done].
  cbn [mbind list_bind snd]. rewrite app_nil_r. by eapply prices_of_sent.
Qed.
End EngineLog.

Section Witnesses.
#[local] Existing Instance ref_keys.
#[local] Existing Instance ref_entropy.
#[local] Existing Instance ref_dist.
#[local] Existing Instance ref_tx.
#[local] Existing Instance ref_entropy_laws.
#[local] Existing Instance ref_dist_laws.
#[local] Existing Instance ref_tx_laws.
#[local] Existing Instance ref_packet.
#[local] Existing Instance ref_hash.
#[local] Existing Instance ref_const_hash.
#[local] Existing Instance ref_choose.
#[local] Existing Instance ref_choose_laws.
#[local] Existing Instance ref_que.
#[local] Existing Instance ref_que_laws.

Definition demo_logs : list (str * list (Z * IpAddr)) :=
  [(text "a", [(7, V4 home); (18446744073709551615, V6 (replicate 15 0 ++ [1]))]); (text "b", [(9, V4 home)])].

Lemma analysis_reads_log_witness :
  default [] (ip_values (λ f, log_text <$> (list_to_map demo_logs : gmap str (list (Z * IpAddr))) !! f) (fst <$> demo_logs)
    !! text "127.0.0.1") = [7; 9].
Proof.
  rewrite (analysis_reads_log _ demo_logs (text "127.0.0.1")); [vm_compute; reflexivity|].
  repeat constructor; unfold u64_ok, in_u; cbn; lia.
Defined.

(** As many rounds as are logged, on a disk without errors. *)
Definition log_rounds : nat := Z.to_nat LOGGED.
Lemma log_rounds_enough : LOGGED ≤ Z.of_nat log_rounds < 2 ^ 64.
Proof. unfold log_rounds. rewrite Z2Nat.id by (unfold LOGGED; lia). unfold LOGGED. lia. Qed.

Lemma engine_log_round_trip_witness :
  ∃ g0 g ps w, generator_new good_disk true (text "tpu_to_qos") quiet_producer 1 demo_entropy = Ret g0 ∧
    gen_run log_rounds true g0 = Ret g ∧ gen_file g = Some w ∧
    default [] (ip_values (λ _, Some (fl_bytes (bw_file w)))
      (find_matching_files (λ _, Some [log_entry "tpu_to" 1]) (text "packet-data") (text "_qos")) !! text "7.7.7.7") =
    fst <$> filter (λ r, r.2 = V4 (mkIpv4 7 7 7 7)) (packet_record <$> take (Z.to_nat LOGGED) ps).
Proof.
  destruct (engine_log_round_trip good_disk "tpu_to" quiet_producer 1 demo_entropy log_rounds (λ _, None))
    as (g0 & g & ps & w & E0 & E & Ef & _ & _ & Hv);
    [apply Nat.ltb_lt; reflexivity|reflexivity|intros k; reflexivity|apply log_rounds_enough|].
  exists g0, g, ps, w. split; [exact E0|]. split; [exact E|]. split; [exact Ef|].
  apply (Hv (proj1 log_rounds_enough) _ _ [] [] eq_refl (Forall_nil_2 _) eq_refl (mkIpv4 7 7 7 7)).
  repeat constructor; unfold u8_ok, in_u; cbn; lia.
Defined.
End Witnesses.
