(* ===== verification/Qos.v ===== *)
(** The service itself ([qos/src/main.rs]): one loop that drains the channels from the
    validator, scores and forwards packets, and feeds results back into the model; and
    the names and capacities of the channels ([common/src/ipc_parameters.rs]).

    Loops that run until a channel is empty take fuel: one unit per message.  The two
    caches have [META_CAP] and [SIG_CAP] entries, 1024 * 1024 each in the code. *)
From Stdlib Require Import ZArith Lia SpecFloat String.
From stdpp Require Import gmap list.
From S2P Require Import Prelude Lru F64 RedBlack ScoreTable Model MinMax Wire Stats Timer Que Core Banking.
Local Open Scope Z_scope.

(** ** Channels *)
Definition IPC_QOS_TO_SIG_CAP : Z := 32768.
Definition IPC_TPU_TO_QOS_CAP : Z := 32768.
Definition IPC_FWD_TO_QOS_CAP : Z := IPC_TPU_TO_QOS_CAP.
Definition IPC_RE1_TO_QOS_CAP : Z := IPC_TPU_TO_QOS_CAP.
Definition IPC_RE2_TO_QOS_CAP : Z := IPC_TPU_TO_QOS_CAP.
Definition IPC_SIG_TO_QOS_CAP : Z := 32768.
Definition IPC_SCH_TO_QOS_CAP : Z := 32768.
Definition IPC_STATUS_CACHE_CAP : Z := 1024 * 1024.
Definition IPC_QOS_TO_SIG_NAME : string := "qos_to_sig".
Definition IPC_TPU_TO_QOS_NAME : string := "tpu_to_qos".
Definition IPC_FWD_TO_QOS_NAME : string := "fwd_to_qos".
Definition IPC_RE1_TO_QOS_NAME : string := "re1_to_qos".
Definition IPC_RE2_TO_QOS_NAME : string := "re2_to_qos".
Definition IPC_SIG_TO_QOS_NAME : string := "sig_to_qos".
Definition IPC_SCH_TO_QOS_NAME : string := "sch_to_qos".
Definition IPC_STATUS_CACHE_NAME : string := "tx_status_cache".

Section Qos.
Context `{OrderedFloatOps} `{SokobanOps} `{PacketOps} `{HashOps} `{ViewOps} `{HeapOps} `{QueOps}.
Context {SIGNERS IPS : nat} (META_CAP SIG_CAP : nat).
Abbreviation model := (IpSignerModel SIGNERS IPS).
Abbreviation SignatureBytes := (list Z).

Record Channels : Type := mkChannels {
  tpu_consumer : consumer PacketBytes;
  fwd_consumer : consumer PacketBytes;
  re1_consumer : consumer PacketBytes;
  re2_consumer : consumer PacketBytes;
  sig_consumer : consumer PacketBytes;
  sch_consumer : consumer (QoSRemainingMeta ());
  recent_sig_consumer : consumer SignatureBytes;
}.

(** [join_ipc]: joins the shared memory of every channel by name, or panics. *)
Definition join_ipc
    (join_packets : string → Z → PageSize → option (consumer PacketBytes))
    (join_metas : string → Z → PageSize → option (consumer (QoSRemainingMeta ())))
    (join_signatures : string → Z → PageSize → option (consumer SignatureBytes))
    (join_or_create : string → Z → PageSize → option (producer PacketBytes))
    (page_size : PageSize) : outcome (Channels * producer PacketBytes) :=
  tpu ← unwrap (join_packets IPC_TPU_TO_QOS_NAME IPC_TPU_TO_QOS_CAP page_size);
  fwd ← unwrap (join_packets IPC_FWD_TO_QOS_NAME IPC_FWD_TO_QOS_CAP page_size);
  re1 ← unwrap (join_packets IPC_RE1_TO_QOS_NAME IPC_RE1_TO_QOS_CAP page_size);
  re2 ← unwrap (join_packets IPC_RE2_TO_QOS_NAME IPC_RE2_TO_QOS_CAP page_size);
  sig ← unwrap (join_packets IPC_SIG_TO_QOS_NAME IPC_SIG_TO_QOS_CAP page_size);
  sch ← unwrap (join_metas IPC_SCH_TO_QOS_NAME IPC_SCH_TO_QOS_CAP page_size);
  sig_producer ← unwrap (join_or_create IPC_QOS_TO_SIG_NAME IPC_QOS_TO_SIG_CAP page_size);
  recent ← unwrap (join_signatures IPC_STATUS_CACHE_NAME IPC_STATUS_CACHE_CAP page_size);
  Ret (mkChannels tpu fwd re1 re2 sig sch recent, sig_producer).

(** ** The consumers *)
Fixpoint consume_recent_signatures (fuel : nat) (recent_sig_consumer : consumer SignatureBytes)
    (recent_signatures : LRUCache Z ()) (stats : Stats)
    : outcome (consumer SignatureBytes * LRUCache Z () * Stats) :=
  match fuel with
  | O => NoFuel
  | S fuel =>
     match cons_pop recent_sig_consumer with
     | (None, c) => Ret (c, recent_signatures, stats)
     | (Some signature, c) =>
        let key := u64_key signature in
        '(_, rs) ← put SIG_CAP recent_signatures key ();
        consume_recent_signatures fuel c rs (stat_incr RecentSignaturesReceived stats)
     end
  end.

(** A completed entry: the fee per nanosecond, ten times that when the transaction was
    scheduled. *)
Definition complete_entry (partial_meta : QoSPartialMeta) (remaining_meta : QoSRemainingMeta ()) : QoSTransactionMeta :=
  let was_scheduled := bool_decide (0 < rm_execution_nanos remaining_meta) in
  let complete_entry := merge partial_meta remaining_meta in
  if was_scheduled
  then mkMeta (meta_ip complete_entry) (meta_signer complete_entry)
         (f64_mul (meta_value complete_entry) (f64_of_uint 10))
  else complete_entry.

(** The last component is what [save_ip_scores] wrote when the model was updated. *)
Fixpoint consume_remaining_metas (fuel : nat) (sch_consumer : consumer (QoSRemainingMeta ()))
    (metas : LRUCache Z QoSPartialMeta) (complete_metas : list QoSTransactionMeta) (m : model) (stats : Stats)
    (max_signers max_ips : nat)
    : outcome (consumer (QoSRemainingMeta ()) * LRUCache Z QoSPartialMeta * list QoSTransactionMeta * model * Stats *
               option (list (list Z * f64))) :=
  match fuel with
  | O => NoFuel
  | S fuel =>
     match cons_pop sch_consumer with
     | (None, c) => Ret (c, metas, complete_metas, m, stats, None)
     | (Some remaining_meta, c) =>
        '(o, metas) ← pop metas (rm_packet_hash remaining_meta);
        match o with
        | Some (_, partial_meta) =>
           let complete_metas := vec_push complete_metas (complete_entry partial_meta remaining_meta) in
           let stats := stat_incr Completed stats in
           if decide (400 < length complete_metas)%nat then
             m ← update_model complete_metas max_signers max_ips m;
             Ret (c, metas, [], m, stats, Some (save_ip_scores m))
           else consume_remaining_metas fuel c metas complete_metas m stats max_signers max_ips
        | None => consume_remaining_metas fuel c metas complete_metas m stats max_signers max_ips
        end
     end
  end.

Definition process_failed_sigverify (sigverify_failed : PacketBytes) (m : model) : outcome model :=
  packet ← as_packet sigverify_failed;
  match pkt_addr (pkt_meta packet) with
  | V4 ip => Ret (ip_feedback m (ip_key ip))
  | V6 _ => Panic
  end.

Fixpoint consume_sigverify_signals (fuel : nat) (sig_consumer : consumer PacketBytes) (m : model)
    : outcome (consumer PacketBytes * model) :=
  match fuel with
  | O => NoFuel
  | S fuel =>
     match cons_pop sig_consumer with
     | (None, c) => Ret (c, m)
     | (Some sigverify_failed, c) =>
        m ← process_failed_sigverify sigverify_failed m;
        consume_sigverify_signals fuel c m
     end
  end.

Definition PACKETS_PER_CALL : nat := 1000.

(** The [for] loop over at most [n] packets. *)
Fixpoint consume_packets (n : nat) (c : consumer PacketBytes) (st : proc_state SIGNERS IPS)
    (banking : TransactionContainer) (xxhasher : xxHasher) (recent_signatures : LRUCache Z ()) (w : Machine)
    : outcome (consumer PacketBytes * proc_state SIGNERS IPS * TransactionContainer * Machine) :=
  match n with
  | O => Ret (c, st, banking, w)
  | S n =>
     match cons_pop c with
     | (None, c) => Ret (c, st, banking, w)
     | (Some packet_bytes, c) =>
        packet ← as_packet packet_bytes;
        '(r, st) ← try_process_packet META_CAP packet (Some recent_signatures) xxhasher st;
        match r with
        | Err _ => consume_packets n c st banking xxhasher recent_signatures w
        | Ok scored_transaction =>
           let st := if f64_eqb (st_score scored_transaction) f64_zero then count ZeroScore st else st in
           '(banking, s) ← queue banking scored_transaction (stats st);
           '(banking, s, w) ← maybe_transmit banking s recent_signatures w;
           consume_packets n c (mkProc (qos_model st) (qos_tx_partial_metas st) s) banking xxhasher recent_signatures w
        end
     end
  end.

Definition consume_transaction_packets (c : consumer PacketBytes) (st : proc_state SIGNERS IPS)
    (banking : TransactionContainer) (xxhasher : xxHasher) (recent_signatures : LRUCache Z ()) (w : Machine)
    : outcome (consumer PacketBytes * proc_state SIGNERS IPS * TransactionContainer * Machine) :=
  '(c, st, banking, w) ← consume_packets PACKETS_PER_CALL c st banking xxhasher recent_signatures w;
  Ret (cons_beat c, st, beat banking, w).

(** ** The main loop *)
Record Args : Type := mkArgs { xxhash_seed : Z; target_pps : Z; max_signers : nat; max_ips : nat }.

Record Service : Type := mkService {
  channels : Channels;
  proc : proc_state SIGNERS IPS;
  complete_metas : list QoSTransactionMeta;
  container : TransactionContainer;
  recent_signatures : LRUCache Z ();
  xxhasher : xxHasher;
  timer : Timer;
  LAST_LOG : Z;
  machine : Machine;
}.

(** What [main] sets up; [raw_metas] and [raw_sigs] are the allocations of the two
    caches. *)
Definition main_init (args : Args) (chans : Channels) (sig_producer : producer PacketBytes)
    (raw_metas : option (LRUCache Z QoSPartialMeta)) (raw_sigs : option (LRUCache Z ())) (w : Machine)
    : outcome Service :=
  let stats := stats_new in
  let qos_model := model_new [] [] in
  metas ← new_boxed META_CAP raw_metas;
  let '(container, w) := container_new (Some sig_producer) (target_pps args) w in
  recent_signatures ← new_boxed SIG_CAP raw_sigs;
  let xxhasher := initialize_with_seed (xxhash_seed args) in
  w ← memoize_ticks_per_ms_and_invariant_tsc_check w;
  let '(timer, w) := timer_new w in
  Ret (mkService chans (mkProc qos_model metas stats) [] container recent_signatures xxhasher timer 0 w).

(** [log_stats]: the average it prints. *)
Definition log_stats (timer : Timer) (stats : Stats) (w : Machine) : outcome (f64 * Machine) :=
  '(elapsed, w) ← elapsed_ms timer w;
  Ret (f64_div (f64_mul (f64_of_uint (total_packets stats)) (f64_of_uint 1000)) (f64_of_uint (Z.max elapsed 1)), w).

(** [for consumer in [tpu, fwd, re1, re2] { consume_transaction_packets(...) }]. *)
Fixpoint consume_all (cs : list (consumer PacketBytes)) (st : proc_state SIGNERS IPS)
    (banking : TransactionContainer) (xxhasher : xxHasher) (recent_signatures : LRUCache Z ()) (w : Machine)
    : outcome (list (consumer PacketBytes) * proc_state SIGNERS IPS * TransactionContainer * Machine) :=
  match cs with
  | [] => Ret ([], st, banking, w)
  | c :: cs =>
     '(c, st, banking, w) ← consume_transaction_packets c st banking xxhasher recent_signatures w;
     '(cs, st, banking, w) ← consume_all cs st banking xxhasher recent_signatures w;
     Ret (c :: cs, st, banking, w)
  end.

Definition packet_consumers (ch : Channels) : list (consumer PacketBytes) :=
  [tpu_consumer ch; fwd_consumer ch; re1_consumer ch; re2_consumer ch].
Definition set_packet_consumers (ch : Channels) (cs : list (consumer PacketBytes)) : Channels :=
  match cs with
  | [tpu; fwd; re1; re2] => mkChannels tpu fwd re1 re2 (sig_consumer ch) (sch_consumer ch) (recent_sig_consumer ch)
  | _ => ch
  end.

(** One iteration of the loop of [main] in four stages, each of which reads one kind of
    channel: packets, ... *)
Definition main_packets (sv : Service) : outcome Service :=
  '(cs, st, banking, w) ← consume_all (packet_consumers (channels sv)) (proc sv) (container sv) (xxhasher sv)
                            (recent_signatures sv) (machine sv);
  Ret (mkService (set_packet_consumers (channels sv) cs) st (complete_metas sv) banking (recent_signatures sv)
         (xxhasher sv) (timer sv) (LAST_LOG sv) w).

(** ... signatures, followed by the periodic log; the time it took is used again ... *)
Definition main_signatures (fuel : nat) (sv : Service) : outcome (Z * Service) :=
  let ch := channels sv in
  '(recent_c, rs, s) ← consume_recent_signatures fuel (recent_sig_consumer ch) (recent_signatures sv) (stats (proc sv));
  '(elapsed, w) ← elapsed_ms (timer sv) (machine sv);
  let elapsed_5s := elapsed / 5000 in
  '(last_log, w) ←
    (if decide (LAST_LOG sv < elapsed_5s)
     then '(_, w) ← log_stats (timer sv) s w; Ret (elapsed_5s, w)
     else Ret (LAST_LOG sv, w));
  let ch := mkChannels (tpu_consumer ch) (fwd_consumer ch) (re1_consumer ch) (re2_consumer ch) (sig_consumer ch)
              (sch_consumer ch) recent_c in
  Ret (elapsed, mkService ch (mkProc (qos_model (proc sv)) (qos_tx_partial_metas (proc sv)) s) (complete_metas sv)
                  (container sv) rs (xxhasher sv) (timer sv) last_log w).

(** ... execution times, ... *)
Definition main_metas (fuel : nat) (args : Args) (sv : Service) : outcome Service :=
  let ch := channels sv in
  '(sch_c, metas, complete, m, s, _) ←
    consume_remaining_metas fuel (sch_consumer ch) (qos_tx_partial_metas (proc sv)) (complete_metas sv)
      (qos_model (proc sv)) (stats (proc sv)) (max_signers args) (max_ips args);
  let ch := mkChannels (tpu_consumer ch) (fwd_consumer ch) (re1_consumer ch) (re2_consumer ch) (sig_consumer ch)
              sch_c (recent_sig_consumer ch) in
  Ret (mkService ch (mkProc m metas s) complete (container sv) (recent_signatures sv) (xxhasher sv) (timer sv)
         (LAST_LOG sv) (machine sv)).

(** ... and failed signature checks. *)
Definition main_feedback (fuel : nat) (sv : Service) : outcome Service :=
  let ch := channels sv in
  '(sig_c, m) ← consume_sigverify_signals fuel (sig_consumer ch) (qos_model (proc sv));
  let ch := mkChannels (tpu_consumer ch) (fwd_consumer ch) (re1_consumer ch) (re2_consumer ch) sig_c
              (sch_consumer ch) (recent_sig_consumer ch) in
  Ret (mkService ch (mkProc m (qos_tx_partial_metas (proc sv)) (stats (proc sv))) (complete_metas sv) (container sv)
         (recent_signatures sv) (xxhasher sv) (timer sv) (LAST_LOG sv) (machine sv)).

(** The iteration, without the [demo] feature. *)
Definition main_step (fuel : nat) (args : Args) (sv : Service) : outcome Service :=
  sv ← main_packets sv;
  '(_, sv) ← main_signatures fuel sv;
  sv ← main_metas fuel args sv;
  main_feedback fuel sv.

(** With the [demo] feature the counters are copied to shared memory at most every 100
    milliseconds, and cleared when the reader has asked for it.  The operation on the
    shared memory is atomic (see [Stats]). *)
Definition demo_save (elapsed LAST_SAVE : Z) (shared : abs_state) (s : Stats) : Z * abs_state * Stats :=
  let elapsed_100ms := elapsed / 100 in
  if decide (LAST_SAVE < elapsed_100ms) then
    let '(shared, r) := spec_op shared (OpUpdate s) in
    (elapsed_100ms, shared, match r with ResBool true => stats_new | _ => s end)
  else (LAST_SAVE, shared, s).

Definition set_service_stats (sv : Service) (s : Stats) : Service :=
  mkService (channels sv) (mkProc (qos_model (proc sv)) (qos_tx_partial_metas (proc sv)) s) (complete_metas sv)
    (container sv) (recent_signatures sv) (xxhasher sv) (timer sv) (LAST_LOG sv) (machine sv).

Definition demo_step (fuel : nat) (args : Args) (sv : Service) (LAST_SAVE : Z) (shared : abs_state)
    : outcome (Service * Z * abs_state) :=
  sv ← main_packets sv;
  '(elapsed, sv) ← main_signatures fuel sv;
  let '(last_save, shared, s) := demo_save elapsed LAST_SAVE shared (stats (proc sv)) in
  sv ← main_metas fuel args (set_service_stats sv s);
  sv ← main_feedback fuel sv;
  Ret (sv, last_save, shared).

(** The loop, for as many iterations as it takes until the exit flag is set. *)
Fixpoint main_loop (iterations fuel : nat) (args : Args) (sv : Service) : outcome Service :=
  match iterations with
  | O => Ret sv
  | S n => sv ← main_step fuel args sv; main_loop n fuel args sv
  end.

(** After the loop the scores are written to a file. *)
Definition main_run (iterations fuel : nat) (args : Args) (sv : Service) : outcome (Service * list (list Z * f64)) :=
  sv ← main_loop iterations fuel args sv;
  Ret (sv, save_ip_scores (qos_model (proc sv))).
End Qos.
