(* ===== verification/QosProps.v ===== *)
(** Properties of the service: what each of its loops does with the messages it finds,
    and that the whole service runs without a panic while it accounts for every packet,
    its iterations ending unless a feedback channel never runs dry. *)
From Stdlib Require Import ZArith Lia SpecFloat Sorting.Sorted String.
From stdpp Require Import gmap list sorting.
From S2P Require Import Prelude Lru LruSpec LruProps F64 OrdMap RedBlack ScoreTable ScoreTableFacts Model ModelProps.
From S2P Require Import MinMax Wire Stats Timer Que Core CoreProps Banking BankingProps Qos.
Local Open Scope Z_scope.

(** ** The loops *)
Section Loops.
Context `{OrderedFloatLaws} `{SokobanLaws} `{PacketLaws} `{HashOps} `{ViewOps} `{QueOps}.
Context {SIGNERS IPS : nat} (META_CAP SIG_CAP : nat).
Abbreviation model := (IpSignerModel SIGNERS IPS).
Implicit Types (m : model) (s : Stats).

(** *** Signatures from the status cache *)
Definition sig_puts (l : list (list Z)) : list (lru_op (K := Z) (V := ())) := (λ sig, OpPut (u64_key sig) ()) <$> l.

Lemma recent_signatures_run fuel c rs s l c' k0 :
  (0 < SIG_CAP)%nat → lru_inv SIG_CAP rs k0 → drains c l c' → (length l < fuel)%nat →
  ∃ rs', consume_recent_signatures SIG_CAP fuel c rs s =
      Ret (c', rs', Nat.iter (length l) (stat_incr RecentSignaturesReceived) s) ∧
    lru_inv SIG_CAP rs' (spec_run SIG_CAP k0 (sig_puts l)).2.
Proof.
  intros HN Hrs (c1 & Hy & E) Hf. revert fuel rs s k0 Hrs Hf.
  induction Hy as [c|c x c2 l c3 Ex _ IH]; intros fuel rs s k0 Hrs Hf; (destruct fuel as [|fuel]; [simpl in Hf; lia|]);
    cbn [consume_recent_signatures].
  - rewrite E. exists rs. done.
  - rewrite Ex. destruct (put_run SIG_CAP rs k0 (u64_key x) () HN Hrs) as (rs1 & -> & Hrs1). rewrite bind_Ret. cbn beta iota.
    destruct (IH E fuel rs1 (stat_incr RecentSignaturesReceived s) _ Hrs1) as (rs' & -> & Hrs'); [simpl in Hf; lia|].
    exists rs'. split; [by rewrite <- Nat.iter_succ_r|]. cbn [sig_puts fmap list_fmap spec_run spec_exec].
    destruct (spec_put SIG_CAP (u64_key x) () k0) as [[? ?] l1]. simpl in Hrs'. fold (sig_puts l).
    by destruct (spec_run SIG_CAP l1 (sig_puts l)).
Qed.

(** When the channel never runs dry, neither does the loop. *)
Lemma recent_signatures_overrun fuel c rs s l c' k0 :
  (0 < SIG_CAP)%nat → lru_inv SIG_CAP rs k0 → yields c l c' → length l = fuel →
  consume_recent_signatures SIG_CAP fuel c rs s = NoFuel.
Proof.
  intros HN Hrs Hy. revert fuel rs s k0 Hrs. induction Hy as [c|c x c2 l c3 Ex _ IH]; intros fuel rs s k0 Hrs <-; [done|].
  cbn [length consume_recent_signatures]. rewrite Ex.
  destruct (put_run SIG_CAP rs k0 (u64_key x) () HN Hrs) as (rs1 & -> & Hrs1). rewrite bind_Ret. by eapply IH.
Qed.

(** A signature stays known until as many others as the cache holds have come in. *)
Lemma sig_puts_known rs k0 l1 sig l2 :
  (0 < SIG_CAP)%nat → lru_inv SIG_CAP rs k0 → (length l2 < SIG_CAP)%nat →
  u64_key sig ∈ (spec_run SIG_CAP k0 (sig_puts (l1 ++ sig :: l2))).2.*1.
Proof.
  intros HN Hrs Hlen. unfold sig_puts. rewrite fmap_app, fmap_cons, spec_run_app. fold (sig_puts l1) (sig_puts l2).
  destruct (run_from SIG_CAP rs k0 (sig_puts l1) HN Hrs) as (rs1 & _ & Hrs1).
  pose proof (put_stays SIG_CAP rs1 _ (u64_key sig) () (sig_puts l2) HN Hrs1) as Hin.
  cbn [spec_run spec_exec]. destruct (spec_put SIG_CAP (u64_key sig) () _) as [[? ?] k2].
  simpl in Hin. destruct (spec_run SIG_CAP k2 (sig_puts l2)). apply Hin.
  - by apply Forall_fmap, Forall_true.
  - unfold sig_puts. by rewrite length_fmap.
Qed.

(** *** Feedback from sigverify *)
Lemma sigverify_run fuel c m ps c' :
  model_wf m → drains c ((λ e, from_packet e.1) <$> ps) c' → (length ps < fuel)%nat →
  Forall (λ e : Packet * Ipv4Addr, packet_ok e.1 ∧ pkt_addr (pkt_meta e.1) = V4 e.2) ps →
  consume_sigverify_signals fuel c m = Ret (c', fold_left (λ m e, ip_feedback m (ip_key e.2)) ps m) ∧
  model_wf (fold_left (λ m (e : Packet * Ipv4Addr), ip_feedback m (ip_key e.2)) ps m).
Proof.
  intros Hm (c1 & Hy & E) Hf Hps. revert fuel c m Hm Hy Hf.
  induction Hps as [|[p ip] ps [Hp Ha] _ IH]; intros fuel c m Hm Hy Hf; (destruct fuel as [|fuel]; [simpl in Hf; lia|]);
    cbn [consume_sigverify_signals].
  - inversion Hy; subst. by rewrite E.
  - cbn [fmap list_fmap fst] in Hy. inversion Hy as [|? ? c2 ? ? Ex Hy']; subst. rewrite Ex.
    unfold process_failed_sigverify. rewrite as_packet_from_packet, bind_Ret by done. simpl in Ha. rewrite Ha, bind_Ret.
    cbn [fold_left snd]. apply IH; [|done|simpl in Hf; lia].
    split; [|apply Hm]. apply feedback_wf, Hm.
Qed.

Lemma sigverify_overrun fuel c m ps c' :
  yields c ((λ e, from_packet e.1) <$> ps) c' → length ps = fuel →
  Forall (λ e : Packet * Ipv4Addr, packet_ok e.1 ∧ pkt_addr (pkt_meta e.1) = V4 e.2) ps →
  consume_sigverify_signals fuel c m = NoFuel.
Proof.
  intros Hy Hf Hps. revert fuel c m Hy Hf. induction Hps as [|[p ip] ps [Hp Ha] _ IH]; intros fuel c m Hy <-; [done|].
  cbn [fmap list_fmap fst] in Hy. inversion Hy as [|? ? c2 ? ? Ex Hy']; subst. cbn [length consume_sigverify_signals].
  rewrite Ex. unfold process_failed_sigverify. rewrite as_packet_from_packet, bind_Ret by done. simpl in Ha. rewrite Ha, bind_Ret.
  by apply IH.
Qed.

(** *** Metadata from the scheduler

    The entries completed by a sequence of messages, given the cached metadata, and
    what stays cached. *)
Fixpoint complete_all (l : list (QoSRemainingMeta ())) (cache : list (Z * QoSPartialMeta))
    : list QoSTransactionMeta * list (Z * QoSPartialMeta) :=
  match l with
  | [] => ([], cache)
  | rm :: l =>
     let '(o, cache) := spec_pop (rm_packet_hash rm) cache in
     let '(es, cache) := complete_all l cache in
     (match o with Some (_, pm) => complete_entry pm rm :: es | None => es end, cache)
  end.

Definition completed_stats (n : nat) s : Stats := Nat.iter n (stat_incr Completed) s.

Lemma remaining_metas_run fuel c metas cache complete m s l c' (max_signers max_ips : nat) :
  lru_inv META_CAP metas cache → model_wf m → (length complete ≤ 400)%nat → drains c l c' → (length l < fuel)%nat →
  ∃ l1 l2 metas', l = l1 ++ l2 ∧ lru_inv META_CAP metas' (complete_all l1 cache).2 ∧
    let entries := (complete_all l1 cache).1 in
    let s' := completed_stats (length entries) s in
    (l2 = [] ∧ (length (complete ++ entries) ≤ 400)%nat ∧
     consume_remaining_metas fuel c metas complete m s max_signers max_ips =
       Ret (c', metas', complete ++ entries, m, s', None)) ∨
    (length (complete ++ entries) = 401%nat ∧ ∃ c1 m', yields c l1 c1 ∧
     update_model (complete ++ entries) max_signers max_ips m = Ret m' ∧ model_wf m' ∧
     consume_remaining_metas fuel c metas complete m s max_signers max_ips =
       Ret (c1, metas', [], m', s', Some (save_ip_scores m'))).
Proof.
  intros Hinv Hm Hlen (c0 & Hy & E) Hf. revert fuel metas cache complete s Hinv Hlen Hf.
  induction Hy as [c|c rm c2 l c3 Ex Hy IH]; intros fuel metas cache complete s Hinv Hlen Hf;
    (destruct fuel as [|fuel]; [simpl in Hf; lia|]); cbn [consume_remaining_metas].
  { rewrite E. exists [], [], metas. split_and!; [done|done|]. left. simpl. by rewrite app_nil_r. }
  rewrite Ex. destruct (pop_run META_CAP metas cache (rm_packet_hash rm) Hinv) as (metas1 & -> & Hinv1). rewrite bind_Ret.
  cbn beta iota. simpl in Hf. destruct (spec_pop (rm_packet_hash rm) cache) as [[[h pm]|] cache1] eqn:Epop; cbn [fst snd] in *.
  - unfold vec_push. set (e := complete_entry pm rm). case_decide as Hfull.
    + rewrite length_app in Hfull. cbn [length] in Hfull.
      destruct (update_model_wf (complete ++ [e]) max_signers max_ips m Hm) as (m' & Hup & Hm' & _). rewrite Hup, bind_Ret.
      exists [rm], l, metas1. cbn [complete_all]. rewrite Epop. cbn [fst snd]. split_and!; [done|done|]. right.
      split; [rewrite length_app; simpl; lia|]. exists c2, m'. split_and!; try done. econstructor; [done|constructor].
    + rewrite length_app in Hfull. cbn [length] in Hfull.
      destruct (IH E fuel metas1 cache1 (complete ++ [e]) (stat_incr Completed s) Hinv1) as (l1 & l2 & metas' & -> & Hinv' & Hcases);
        [rewrite length_app; simpl; lia|lia|].
      exists (rm :: l1), l2, metas'. cbn [complete_all]. rewrite Epop. cbn zeta in Hcases |- *.
      destruct (complete_all l1 cache1) as [es cache2] eqn:El. cbn [fst snd] in *. rewrite <- app_assoc in Hcases. cbn [app] in Hcases.
      unfold completed_stats in *. rewrite <- Nat.iter_succ_r in Hcases.
      split_and!; [done|done|]. destruct Hcases as [Hc|(Hc & c1 & m' & Hy1 & Hc')]; [left; done|right].
      split; [done|]. exists c1, m'. split; [by econstructor|done].
  - destruct (IH E fuel metas1 cache1 complete s Hinv1 Hlen) as (l1 & l2 & metas' & -> & Hinv' & Hcases); [lia|].
    exists (rm :: l1), l2, metas'. cbn [complete_all]. rewrite Epop. cbn zeta in Hcases |- *.
    destruct (complete_all l1 cache1) as [es cache2] eqn:El. cbn [fst snd] in *. split_and!; [done|done|].
    destruct Hcases as [Hc|(Hc & c1 & m' & Hy1 & Hc')]; [left; done|right].
    split; [done|]. exists c1, m'. split; [by econstructor|done].
Qed.

(** On a channel that never runs dry the loop goes on, unless it has collected 401 entries. *)
Lemma remaining_metas_overrun fuel c metas cache complete m s l c' (max_signers max_ips : nat) :
  lru_inv META_CAP metas cache → model_wf m → yields c l c' → length l = fuel →
  consume_remaining_metas fuel c metas complete m s max_signers max_ips = NoFuel ∨
  ∃ n metas' cache' c1 m' l1, lru_inv META_CAP metas' cache' ∧ yields c l1 c1 ∧ model_wf m' ∧
    consume_remaining_metas fuel c metas complete m s max_signers max_ips =
      Ret (c1, metas', [], m', completed_stats n s, Some (save_ip_scores m')).
Proof.
  intros Hinv Hm Hy. revert fuel metas cache complete s Hinv.
  induction Hy as [c|c rm c2 l c3 Ex _ IH]; intros fuel metas cache complete s Hinv <-; [by left|].
  cbn [length consume_remaining_metas]. rewrite Ex.
  destruct (pop_run META_CAP metas cache (rm_packet_hash rm) Hinv) as (metas1 & -> & Hinv1). rewrite bind_Ret. cbn beta iota.
  destruct (spec_pop (rm_packet_hash rm) cache) as [[[h pm]|] cache1]; cbn [fst snd] in *.
  - case_decide.
    + destruct (update_model_wf (vec_push complete (complete_entry pm rm)) max_signers max_ips m Hm) as (m' & Hup & Hm' & _).
      rewrite Hup, bind_Ret. right. exists 1%nat, metas1, cache1, c2, m', [rm]. split_and!; try done.
      econstructor; [done|constructor].
    + destruct (IH (length l) metas1 cache1 (vec_push complete (complete_entry pm rm)) (stat_incr Completed s) Hinv1 eq_refl)
        as [IH'|(n & metas' & cache' & c1 & m' & l1 & Hi & Hy1 & Hm' & IH')]; [by left|right].
      exists (S n), metas', cache', c1, m', (rm :: l1). unfold completed_stats in *. rewrite Nat.iter_succ_r.
      split_and!; try done. by econstructor.
  - destruct (IH (length l) metas1 cache1 complete s Hinv1 eq_refl)
      as [IH'|(n & metas' & cache' & c1 & m' & l1 & Hi & Hy1 & Hm' & IH')]; [by left|right].
    exists n, metas', cache', c1, m', (rm :: l1). split_and!; try done. by econstructor.
Qed.

Lemma iter_incr_get c n s :
  stats_ok s → stat c (Nat.iter n (stat_incr c) s) = wrap 64 (stat c s + Z.of_nat n) ∧
  ∀ c', c' ≠ c → stat c' (Nat.iter n (stat_incr c) s) = stat c' s.
Proof.
  intros Hs. induction n as [|n [IH IH']].
  - split; [|done]. symmetry. apply u64_add_0, Hs.
  - cbn [Nat.iter nat_rect]. unfold stat_incr at 1 3. split.
    + rewrite stat_add_get, decide_True by done. unfold Nat.iter in IH. rewrite IH. unfold u64_add. rewrite wrap_add_l. f_equal. lia.
    + intros c' Hc. rewrite stat_add_get, decide_False by done. by apply IH'.
Qed.

Lemma stats_ok_iter c n s : stats_ok s → stats_ok (Nat.iter n (stat_incr c) s).
Proof. intros Hs. induction n as [|n IH]; [done|]. apply stats_ok_add, IH. Qed.

(** A packet that parses and has a known signature is turned away, and only counted. *)
Lemma known_signature_rejected p ip d u v sig rs h (st : proc_state SIGNERS IPS) :
  pkt_addr (pkt_meta p) = V4 ip → pkt_size (pkt_meta p) ≤ Z.of_nat PACKET_DATA_SIZE →
  packet_data p = Some d → try_new_unsanitized d = Some u → sanitize u = Some v → signatures v !! 0%nat = Some sig →
  contains rs (u64_key sig) = true →
  try_process_packet META_CAP p (Some rs) h st =
  Ret (Err RecentlyProcessedError, count RecentlyProcessed (count TotalPackets st)).
Proof.
  intros Ha Hs Hd Hu Hv Hsig Hin. unfold try_process_packet, parse_packet. rewrite Ha, decide_False by lia.
  rewrite Hd. cbn [fmap option_fmap option_map]. rewrite Hu, Hv, Hsig. cbn [unwrap]. rewrite bind_Ret.
  unfold is_recent, sig_bytes. by rewrite Hin.
Qed.

(** C17. Confirmed signatures: the loop empties its channel, counts what it received, and
    from then on a packet whose first signature is one of the last [SIG_CAP] received is
    turned away: whatever else it contains, [try_process_packet] neither scores it nor
    caches its metadata, but counts it and reports that it was processed recently. *)
Theorem recent_signatures_filter fuel c rs s l c' k0 :
  (0 < SIG_CAP)%nat → lru_inv SIG_CAP rs k0 → stats_ok s → drains c l c' → (length l < fuel)%nat →
  ∃ rs' s', consume_recent_signatures SIG_CAP fuel c rs s = Ret (c', rs', s') ∧
    stat RecentSignaturesReceived s' = wrap 64 (stat RecentSignaturesReceived s + Z.of_nat (length l)) ∧
    ∀ l1 sig l2, l = l1 ++ sig :: l2 → (length l2 < SIG_CAP)%nat →
      contains rs' (u64_key sig) = true ∧
      ∀ p ip d u v h (st : proc_state SIGNERS IPS),
        pkt_addr (pkt_meta p) = V4 ip → pkt_size (pkt_meta p) ≤ Z.of_nat PACKET_DATA_SIZE →
        packet_data p = Some d → try_new_unsanitized d = Some u → sanitize u = Some v → signatures v !! 0%nat = Some sig →
        try_process_packet META_CAP p (Some rs') h st =
        Ret (Err RecentlyProcessedError, count RecentlyProcessed (count TotalPackets st)).
Proof.
  intros HN Hrs Hs Hd Hf. destruct (recent_signatures_run fuel c rs s l c' k0 HN Hrs Hd Hf) as (rs' & Hrun & Hrs').
  exists rs'. eexists. split; [exact Hrun|]. split; [by apply iter_incr_get|].
  intros l1 sig l2 -> Hlen. assert (Hin : contains rs' (u64_key sig) = true).
  { rewrite (contains_run _ _ _ _ Hrs'). apply bool_decide_true. by apply (sig_puts_known rs). }
  split; [done|]. intros. by eapply known_signature_rejected.
Qed.

(** C18. Failed signature checks: the loop empties its channel without a panic, and for
    every packet it finds, the score of the address it came from is multiplied by 0.01;
    other addresses and all signers keep their scores. *)
Theorem sigverify_feedback fuel c m ps c' :
  model_wf m → drains c ((λ e, from_packet e.1) <$> ps) c' → (length ps < fuel)%nat →
  Forall (λ e : Packet * Ipv4Addr, packet_ok e.1 ∧ pkt_addr (pkt_meta e.1) = V4 e.2) ps →
  ∃ m', consume_sigverify_signals fuel c m = Ret (c', m') ∧ model_wf m' ∧ signer_score m' = signer_score m ∧
    ∀ ip, lookup_score ip (ip_score m') =
      Nat.iter (length (filter (λ e : Packet * Ipv4Addr, ip_key e.2 = ip) ps)) (λ x, f64_mul x (f64_lit 1 100)) <$>
      lookup_score ip (ip_score m).
Proof.
  intros Hm Hd Hf Hps. destruct (sigverify_run fuel c m ps c' Hm Hd Hf Hps) as [Hrun Hwf].
  eexists. split; [exact Hrun|]. split; [done|]. clear Hrun Hwf Hd Hf Hps. revert m Hm.
  induction ps as [|[p a] ps IH]; intros m Hm; cbn [fold_left snd].
  { split; [done|]. intros ip. by destruct (lookup_score ip (ip_score m)). }
  destruct (feedback_wf _ _ _ (ip_key a) (wf_ip _ Hm)) as [Hwf Hlk].
  destruct (IH (ip_feedback m (ip_key a))) as [IHs IHi]; [by split; [|apply Hm]|]. split; [by rewrite IHs|].
  intros ip. rewrite IHi. cbn [ip_feedback set_ip_table ip_score]. rewrite Hlk.
  destruct (decide (ip = ip_key a)) as [->|Hne].
  - rewrite filter_cons_True by done. cbn [length]. rewrite <- option_fmap_compose. apply option_fmap_ext. intros x.
    symmetry. apply (Nat.iter_succ_r _ (λ x, f64_mul x (f64_lit 1 100))).
  - by rewrite filter_cons_False by done.
Qed.

(** C16. Completed metadata: the loop reads the scheduler's channel until it is empty or
    401 entries have been collected, whichever comes first.  Each message whose packet
    is still cached yields one entry and removes it from the cache, the others are
    skipped.  With 401 entries the model is updated with all of them at once, the
    collection starts over, and the rest of the channel waits; otherwise at most 400
    entries are kept and the model is unchanged. *)
Theorem remaining_metas_batching fuel c metas cache complete m s l c' (max_signers max_ips : nat) :
  lru_inv META_CAP metas cache → model_wf m → (length complete ≤ 400)%nat → drains c l c' → (length l < fuel)%nat →
  ∃ l1 l2 metas', l = l1 ++ l2 ∧ lru_inv META_CAP metas' (complete_all l1 cache).2 ∧
    let entries := (complete_all l1 cache).1 in
    let s' := completed_stats (length entries) s in
    (l2 = [] ∧ (length (complete ++ entries) ≤ 400)%nat ∧
     consume_remaining_metas fuel c metas complete m s max_signers max_ips =
       Ret (c', metas', complete ++ entries, m, s', None)) ∨
    (length (complete ++ entries) = 401%nat ∧ ∃ c1 m', yields c l1 c1 ∧
     update_model (complete ++ entries) max_signers max_ips m = Ret m' ∧ model_wf m' ∧
     consume_remaining_metas fuel c metas complete m s max_signers max_ips =
       Ret (c1, metas', [], m', s', Some (save_ip_scores m'))).
Proof. apply remaining_metas_run. Qed.
End Loops.

(** ** Accounting *)

(** Packets received less those rejected, evicted, sent and dropped: what should be in
    the queue. *)
Definition flow (s : Stats) : Z :=
  stat TotalPackets s - zsum ((λ c, stat c s) <$> error_counters) - stat LeakedPriority s -
  stat BankingTransmissions s - stat RecentlyProcessedQueued s.

Definition flow_weight (c : counter) : Z :=
  if decide (c = TotalPackets) then 1
  else if decide (c ∈ [LeakedPriority; BankingTransmissions; RecentlyProcessedQueued] ++ error_counters) then -1 else 0.

(** Equality of [usize] values. *)
Definition eqm (a b : Z) : Prop := wrap 64 a = wrap 64 b.
#[global] Instance eqm_equiv : Equivalence eqm.
Proof. split; unfold eqm; [by intros ?|by intros ??|intros ???; congruence]. Qed.
#[global] Instance eqm_add : Proper (eqm ==> eqm ==> eqm) Z.add.
Proof.
  intros a b Hab c d Hcd. unfold eqm in *. rewrite <- (wrap_add_l 64 a), <- (wrap_add_l 64 b), Hab.
  by rewrite <- (wrap_add_r 64 _ c), <- (wrap_add_r 64 _ d), Hcd.
Qed.
#[global] Instance eqm_opp : Proper (eqm ==> eqm) Z.opp.
Proof.
  intros a b Hab. unfold eqm, wrap in *. by rewrite <- (Z.sub_0_l a), <- (Z.sub_0_l b), Zminus_mod, Hab, <- Zminus_mod.
Qed.
#[global] Instance eqm_sub : Proper (eqm ==> eqm ==> eqm) Z.sub.
Proof. intros a b Hab c d Hcd. unfold Z.sub. by rewrite Hab, Hcd. Qed.
Lemma eqm_u64_add a b : eqm (u64_add a b) (a + b).
Proof. apply wrap_wrap. Qed.

Ltac eval_weight :=
  match goal with |- context [flow_weight ?c] =>
    let v := eval vm_compute in (flow_weight c) in change (flow_weight c) with v end.

Lemma flow_add c n s : eqm (flow (stat_add c n s)) (flow s + flow_weight c * n).
Proof.
  unfold flow, zsum, error_counters. cbn [fmap list_fmap foldr]. rewrite !stat_add_get.
  destruct c; eval_weight; repeat first [rewrite decide_True by done|rewrite decide_False by done];
    rewrite ?eqm_u64_add; apply eq_subrelation; try apply _; lia.
Qed.

Lemma flow_iter c n s : eqm (flow (Nat.iter n (stat_incr c) s)) (flow s + flow_weight c * Z.of_nat n).
Proof.
  induction n as [|n IH]; [apply eq_subrelation; [apply _|]; simpl; lia|].
  change (Nat.iter (S n) (stat_incr c) s) with (stat_add c 1 (Nat.iter n (stat_incr c) s)).
  rewrite flow_add, IH. apply eq_subrelation; [apply _|]. lia.
Qed.

(** ** The messages of the channels

    [src] is any property of packets, such as where they come from; the service hands
    packets on as they are, so what it sends has the property if what it receives has. *)
Section Messages.
Context `{PacketOps} `{ViewOps} (src : Packet → Prop).

(** The packets of a channel are representations of packets. *)
Definition packet_msg (x : PacketBytes) : Prop := ∃ p, packet_ok p ∧ src p ∧ x = from_packet p.

(** Representations of packets that sigverify can rely on. *)
Definition forward_msg (x : PacketBytes) : Prop := ∃ p, forwardable p ∧ src p ∧ x = from_packet p.

(** What sigverify sends back are packets the service has accepted, so IPv4 ones. *)
Definition sigverify_msg (x : PacketBytes) : Prop :=
  ∃ p ip, packet_ok p ∧ src p ∧ pkt_addr (pkt_meta p) = V4 ip ∧ x = from_packet p.

Lemma sigverify_msgs l :
  Forall sigverify_msg l → ∃ ps : list (Packet * Ipv4Addr), l = (λ e, from_packet e.1) <$> ps ∧
    Forall (λ e : Packet * Ipv4Addr, packet_ok e.1 ∧ pkt_addr (pkt_meta e.1) = V4 e.2) ps.
Proof.
  induction 1 as [|x l (p & ip & Hp & _ & Ha & ->) _ (ps & -> & Hps)]; [by exists []|].
  exists ((p, ip) :: ps). split; [done|]. by constructor.
Qed.
End Messages.

Section Mono.
Context `{PacketOps} `{ViewOps} (src src' : Packet → Prop) (Hsub : ∀ p, src p → src' p).
Lemma packet_msg_mono x : packet_msg src x → packet_msg src' x.
Proof. intros (p & ? & ? & ?). exists p. eauto. Qed.
Lemma forward_msg_mono x : forward_msg src x → forward_msg src' x.
Proof. intros (p & ? & ? & ?). exists p. eauto. Qed.
Lemma sigverify_msg_mono x : sigverify_msg src x → sigverify_msg src' x.
Proof. intros (p & ip & ? & ? & ? & ?). exists p, ip. eauto. Qed.
End Mono.

(** ** The invariant of the service

    Besides [src] it has a parameter [base], what the counters are behind the queue: zero
    until they are cleared while transactions are queued; and [prompt], whether the
    channels that are read until they are empty are found empty in time. *)
Section Invariant.
Context `{OrderedFloatLaws} `{SokobanLaws} `{PacketLaws} `{HashOps} `{ViewLaws} `{HeapLaws} `{QueLaws}.
Context {SIGNERS IPS : nat} (META_CAP SIG_CAP : nat) (src : Packet → Prop) (base : Z) (prompt : bool).
Abbreviation packet_msg := (packet_msg src).
Abbreviation forward_msg := (forward_msg src).
Abbreviation sigverify_msg := (sigverify_msg src).
Abbreviation model := (IpSignerModel SIGNERS IPS).
Abbreviation pstate := (proc_state SIGNERS IPS).
Abbreviation service := (Service (SIGNERS := SIGNERS) (IPS := IPS)).
Implicit Types (st : pstate) (b : TransactionContainer) (rs : LRUCache Z ()) (s : Stats) (w : Machine) (sv : service).

(** A transaction that may be queued. *)
Definition queueable (t : ScoredTransaction) : Prop := forwardable (st_packet t) ∧ src (st_packet t).

(** A container in use: it has a channel, into which only such packets have been pushed
    since it held [old], only such packets are queued, and its timer has been started. *)
Record bank_ok (old : list PacketBytes) b : Prop := {
  bank_wf : container_wf b;
  bank_channel : ∃ p sent, transmitter b = Some p ∧ pushed p = old ++ sent ∧ Forall forward_msg sent;
  bank_timer : ∃ t0, last_send b = RDTSC t0;
  bank_queue : Forall queueable (mm_contents (priority_queue_heap b));
}.

Definition queued b : Z := Z.of_nat (length (mm_contents (priority_queue_heap b))).

(** What the counters say should be queued is what is queued. *)
Definition balanced s b : Prop := eqm (flow s + base) (queued b).

Lemma process_stats p orc h st l :
  (0 < META_CAP)%nat → packet_ok p → src p → proc_inv META_CAP st l →
  ∃ r st' l', try_process_packet META_CAP p orc h st = Ret (r, st') ∧ proc_inv META_CAP st' l' ∧
    (∀ t, r = Ok t → queueable t) ∧
    eqm (flow (stats st')) (flow (stats st) + match r with Ok _ => 1 | Err _ => 0 end).
Proof.
  intros HN Hp Hsrc Hinv. destruct (process_counts META_CAP p orc h st l HN Hp Hinv) as (r & st' & ops & Hrun & Hinv' & _ & _ & Hcnt).
  exists r, st', (spec_run META_CAP l ops).2. split_and!; [done|done| |].
  { intros t ->. destruct (process_forwardable META_CAP _ _ _ _ _ _ _ HN Hp Hinv Hrun) as [Hf Et]. split; [done|by rewrite Et]. }
  assert (Hst : stats st' = match result_counter r with
    | Some c => stat_incr c (stat_incr TotalPackets (stats st)) | None => stat_incr TotalPackets (stats st) end).
  { apply stats_ext. intros c. rewrite Hcnt. destruct r as [t|e]; cbn [result_counter]; unfold stat_incr.
    - rewrite stat_add_get. destruct (decide (c = TotalPackets)) as [->|]; [by rewrite decide_True by tauto|].
      rewrite decide_False; [done|]. by intros [?|?].
    - rewrite !stat_add_get. destruct (decide (c = error_counter e)) as [->|Hne].
      + rewrite decide_True by tauto. by rewrite decide_False by by destruct e.
      + destruct (decide (c = TotalPackets)) as [->|]; [by rewrite decide_True by tauto|].
        rewrite decide_False; [done|]. intros [?|[=]]; congruence. }
  rewrite Hst. destruct r as [t|e]; cbn [result_counter]; unfold stat_incr; rewrite !flow_add; apply eq_subrelation; try apply _.
  - eval_weight. lia.
  - destruct e; cbn [error_counter]; repeat eval_weight; lia.
Qed.

Lemma queue_step old b s t :
  bank_ok old b → stats_ok s → queueable t →
  ∃ b' s', queue b t s = Ret (b', s') ∧ bank_ok old b' ∧ stats_ok s' ∧ eqm (flow s' - queued b') (flow s - queued b - 1).
Proof.
  intros [Hwf Hch Ht Hqf] Hs Hft. destruct (queue_run b s t Hwf) as (o & b' & Hq & Hwf' & Hperm & _).
  pose proof (Permutation_length Hperm) as Hlen. rewrite length_app in Hlen. cbn [length] in Hlen.
  assert (transmitter b' = transmitter b ∧ last_send b' = last_send b) as [Ech Et].
  { unfold queue in Hq. destruct (mm_push HEAP_SIZE t (priority_queue_heap b)) as [[o' h']| | |]; try done.
    rewrite bind_Ret in Hq. by injection Hq as <- _. }
  assert (Hqf' : Forall queueable (mm_contents (priority_queue_heap b'))).
  { assert (Hall : Forall queueable (option_list o ++ mm_contents (priority_queue_heap b')))
      by (rewrite Hperm; by constructor). by apply Forall_app in Hall as [_ Hall]. }
  exists b'. eexists. split; [exact Hq|]. split; [split; [done|by rewrite Ech|by rewrite Et|done]|].
  unfold queued. destruct o as [e|]; [change (length (option_list (Some e))) with 1%nat in Hlen
    |change (length (option_list (A := ScoredTransaction) None)) with 0%nat in Hlen].
  - rewrite bool_decide_true by by eexists. split; [by apply stats_ok_add|]. unfold stat_incr. rewrite flow_add. eval_weight.
    apply eq_subrelation; [apply _|]. lia.
  - rewrite bool_decide_false by by intros []. split; [done|]. apply eq_subrelation; [apply _|]. lia.
Qed.

Lemma dropped_ok k s : stats_ok s → stats_ok (dropped k s).
Proof. apply stats_ok_iter. Qed.

Lemma transmit_step old ticks b s rs w :
  bank_ok old b → stats_ok s → tuned ticks w →
  ∃ b' s' w', maybe_transmit b s rs w = Ret (b', s', w') ∧ bank_ok old b' ∧ stats_ok s' ∧ tuned ticks w' ∧
    eqm (flow s' - queued b') (flow s - queued b).
Proof.
  intros [Hwf (p & old1 & Hp & Hold & Hfwd) [t0 Ht0] Hqf] Hs Ht.
  destruct (transmit_run ticks b s rs w p t0 Ht Hwf Hp Ht0) as (w1 & Ha1 & _ & Hlt & Hge).
  destruct (Z.lt_ge_cases (since_last ticks w t0) 100) as [Hc|Hc].
  { exists b, s, w1. split_and!; [by apply Hlt| |done|by eapply tuned_advances|done].
    split; [done|by do 2 eexists|by eexists|done]. }
  destruct (Hge Hc) as (full & sent & k & h' & rest & w2 & Hd & Hd' & [Hsent _ Hcount Hsuf] & Ha2 & Hrun).
  assert (Hff : Forall queueable full) by by rewrite (drain_contents _ _ Hd).
  do 3 eexists. split; [exact Hrun|]. split_and!.
  - destruct Hwf as [Hlen Hmax]. split; [split; [|done]|eexists; exists (old1 ++ (packet_bytes <$> sent))
      |by case_decide; eexists|]; cbn [priority_queue_heap transmitter]; cycle 1.
    { split; [done|]. split; [by rewrite pushed_sync, push_all_pushed, Hold, app_assoc|].
      apply Forall_app_2; [done|]. apply Forall_fmap, Forall_forall. intros t Ht'. exists (st_packet t). cut (queueable t); [intros [??]; by split_and!|].
      subst sent. apply elem_of_take in Ht' as (i & Hi & _). apply list_elem_of_lookup_2 in Hi.
      apply list_elem_of_filter in Hi as [_ Hi]. by eapply Forall_forall in Hff. }
    { rewrite <- (drain_contents _ _ Hd'). destruct Hsuf as [pre ->]. by apply Forall_app in Hff as [_ Hff]. }
    rewrite <- (Permutation_length (drain_contents _ _ Hd')). rewrite <- (Permutation_length (drain_contents _ _ Hd)) in Hlen.
    apply suffix_length in Hsuf. lia.
  - case_decide; [by apply dropped_ok|]. by apply stats_ok_add, dropped_ok.
  - by apply (tuned_advances _ _ _ Ha2).
  - clear Hsent. unfold queued. cbn [priority_queue_heap]. rewrite <- (Permutation_length (drain_contents _ _ Hd')).
    rewrite <- (Permutation_length (drain_contents _ _ Hd)), Hcount. unfold dropped.
    case_decide as Hn; [|rewrite flow_add; eval_weight]; rewrite flow_iter; eval_weight;
      apply eq_subrelation; try apply _; [subst sent; cbn [length]|]; lia.
Qed.

Lemma consume_packets_run old ticks n c st b h rs w l :
  (0 < META_CAP)%nat → safe packet_msg c → proc_inv META_CAP st l → bank_ok old b → tuned ticks w → balanced (stats st) b →
  ∃ c' st' b' w' l' msgs, consume_packets META_CAP n c st b h rs w = Ret (c', st', b', w') ∧
    safe packet_msg c' ∧ proc_inv META_CAP st' l' ∧ bank_ok old b' ∧ tuned ticks w' ∧ balanced (stats st') b' ∧
    (length msgs ≤ n)%nat ∧ (yields c msgs c' ∧ length msgs = n ∨ drains c msgs c').
Proof.
  intros HN. revert c st b w l. induction n as [|n IH]; intros c st b w l Hc Hinv Hb Ht Hbal; cbn [consume_packets].
  { exists c, st, b, w, l, []. split_and!; try done. left. split; [constructor|done]. }
  destruct (cons_pop c) as [[x|] c1] eqn:E.
  2: { exists c1, st, b, w, l, []. split_and!; try done; [by apply (safe_none _ c)|simpl; lia|].
       right. exists c. split; [constructor|done]. }
  destruct (safe_some _ _ _ _ Hc E) as [(p & Hp & Hsrc & ->) Hc1]. rewrite as_packet_from_packet, bind_Ret by done.
  destruct (process_stats p (Some rs) h st l HN Hp Hsrc Hinv) as (r & st1 & l1 & -> & Hinv1 & Hfw & Hflow). rewrite bind_Ret. cbn beta iota.
  assert (Hfin : ∀ st2 b2 w2 l2, proc_inv META_CAP st2 l2 → bank_ok old b2 → tuned ticks w2 → balanced (stats st2) b2 →
    ∃ c' st' b' w' l' msgs, consume_packets META_CAP n c1 st2 b2 h rs w2 = Ret (c', st', b', w') ∧
      safe packet_msg c' ∧ proc_inv META_CAP st' l' ∧ bank_ok old b' ∧ tuned ticks w' ∧ balanced (stats st') b' ∧
      (length msgs ≤ S n)%nat ∧ (yields c msgs c' ∧ length msgs = S n ∨ drains c msgs c')).
  { intros st2 b2 w2 l2 Hi2 Hb2 Ht2 Hbal2. destruct (IH c1 st2 b2 w2 l2 Hc1 Hi2 Hb2 Ht2 Hbal2) as
      (c' & st' & b' & w' & l' & msgs & -> & ? & ? & ? & ? & ? & ? & Hmsgs).
    exists c', st', b', w', l', (from_packet p :: msgs). split_and!; try done; [simpl; lia|].
    destruct Hmsgs as [[Hy <-]|(c0 & Hy & E0)]; [left|right].
    - split; [by econstructor|done].
    - exists c0. split; [by econstructor|done]. }
  destruct r as [t|e].
  - set (st2 := if f64_eqb (st_score t) f64_zero then count ZeroScore st1 else st1).
    assert (Hst2 : stats_ok (stats st2) ∧ qos_model st2 = qos_model st1 ∧ qos_tx_partial_metas st2 = qos_tx_partial_metas st1 ∧
      eqm (flow (stats st2)) (flow (stats st1))).
    { unfold st2. destruct (f64_eqb _ _); [|split_and!; [apply Hinv1|done..]]. split_and!; [apply stats_ok_add, Hinv1|done|done|].
      cbn [stats count]. unfold stat_incr. rewrite flow_add. eval_weight. apply eq_subrelation; [apply _|]. lia. }
    destruct Hst2 as (Hok2 & Hm2 & Hmt2 & Hf2).
    destruct (queue_step old b (stats st2) t Hb Hok2 (Hfw t eq_refl)) as (b1 & s1 & -> & Hb1 & Hs1 & Hq1). rewrite bind_Ret. cbn beta iota.
    destruct (transmit_step old ticks b1 s1 rs w Hb1 Hs1 Ht) as (b2 & s2 & w2 & -> & Hb2 & Hs2 & Ht2 & Hq2). rewrite bind_Ret. cbn beta iota.
    apply (Hfin _ _ _ l1); [|done|done|].
    + split; cbn [qos_model qos_tx_partial_metas stats]; [rewrite Hm2; apply Hinv1|rewrite Hmt2; apply Hinv1|done].
    + unfold balanced in *. cbn [stats]. replace (flow s2 + base) with (flow s2 - queued b2 + (queued b2 + base)) by lia.
      rewrite Hq2, Hq1, Hf2, Hflow, <- Hbal. apply eq_subrelation; [apply _|]. lia.
  - apply (Hfin _ _ _ l1); [done|done|done|]. unfold balanced. rewrite Hflow, Z.add_0_r. exact Hbal.
Qed.

Lemma beat_ok old b s : bank_ok old b → balanced s b → bank_ok old (beat b) ∧ balanced s (beat b).
Proof.
  intros [Hwf (p & sent & Hp & Hold & Hf) Ht Hq] Hbal. unfold beat. rewrite Hp. split; [|done].
  split; [by destruct Hwf| |done|done]. exists (prod_beat p), sent. by rewrite pushed_beat.
Qed.

(** One call of [consume_transaction_packets]. *)
Lemma consume_transactions_run old ticks c st b h rs w l :
  (0 < META_CAP)%nat → safe packet_msg c → proc_inv META_CAP st l → bank_ok old b → tuned ticks w → balanced (stats st) b →
  ∃ c' st' b' w' l', consume_transaction_packets META_CAP c st b h rs w = Ret (c', st', b', w') ∧
    safe packet_msg c' ∧ proc_inv META_CAP st' l' ∧ bank_ok old b' ∧ tuned ticks w' ∧ balanced (stats st') b'.
Proof.
  intros HN Hc Hinv Hb Ht Hbal. unfold consume_transaction_packets.
  destruct (consume_packets_run old ticks PACKETS_PER_CALL c st b h rs w l HN Hc Hinv Hb Ht Hbal) as
    (c' & st' & b' & w' & l' & msgs & -> & Hc' & Hinv' & Hb' & Ht' & Hbal' & _). rewrite bind_Ret. cbn beta iota.
  destruct (beat_ok _ _ _ Hb' Hbal'). exists (cons_beat c'), st', (beat b'), w', l'. split_and!; try done. by apply safe_beat.
Qed.

Lemma consume_all_run old ticks cs st b h rs w l :
  (0 < META_CAP)%nat → Forall (safe packet_msg) cs → proc_inv META_CAP st l → bank_ok old b → tuned ticks w →
  balanced (stats st) b →
  ∃ cs' st' b' w' l', consume_all META_CAP cs st b h rs w = Ret (cs', st', b', w') ∧ length cs' = length cs ∧
    Forall (safe packet_msg) cs' ∧ proc_inv META_CAP st' l' ∧ bank_ok old b' ∧ tuned ticks w' ∧ balanced (stats st') b'.
Proof.
  intros HN Hcs. revert st b w l. induction Hcs as [|c cs Hc _ IH]; intros st b w l Hinv Hb Ht Hbal; cbn [consume_all].
  { exists [], st, b, w, l. split_and!; try done. }
  destruct (consume_transactions_run old ticks c st b h rs w l HN Hc Hinv Hb Ht Hbal) as
    (c' & st1 & b1 & w1 & l1 & -> & Hc' & Hinv1 & Hb1 & Ht1 & Hbal1). rewrite bind_Ret. cbn beta iota.
  destruct (IH _ _ _ _ Hinv1 Hb1 Ht1 Hbal1) as (cs' & st' & b' & w' & l' & -> & Hlen & Hcs' & ? & ? & ? & ?).
  rewrite bind_Ret. cbn beta iota. exists (c' :: cs'), st', b', w', l'. split_and!; try done; [simpl; lia|by constructor].
Qed.

(** The invariant of the service. *)
Record service_inv (old : list PacketBytes) (ticks : Z) (fuel : nat) sv : Prop := {
  si_proc : ∃ l, proc_inv META_CAP (proc sv) l;
  si_recent : ∃ k, lru_inv SIG_CAP (recent_signatures sv) k;
  si_bank : bank_ok old (container sv);
  si_balance : balanced (stats (proc sv)) (container sv);
  si_complete : (length (complete_metas sv) ≤ 400)%nat;
  si_timer : ∃ t0, timer sv = RDTSC t0;
  si_machine : tuned ticks (machine sv);
  si_packets : Forall (safe packet_msg) (packet_consumers (channels sv));
  si_sig : fed prompt sigverify_msg fuel (sig_consumer (channels sv));
  si_sch : fed prompt (λ _, True) fuel (sch_consumer (channels sv));
  si_sigs : fed prompt (λ _, True) fuel (recent_sig_consumer (channels sv));
}.

(** A stage of the iteration keeps the invariant; it fails to end only if the channel
    [c] it reads is not prompt and yields more messages than the fuel allows for. *)
Definition stage_ends {A T} (fuel : nat) (c : consumer T) (m : outcome A) (Q : A → Prop) : Prop :=
  (∃ a, m = Ret a ∧ Q a) ∨ (prompt = false ∧ m = NoFuel ∧ overrun fuel c).

Lemma log_step_run ticks t0 (last elapsed_5s : Z) s w :
  tuned ticks w → ∃ l' w',
    (if decide (last < elapsed_5s) then '(_, w) ← log_stats (RDTSC t0) s w; Ret (elapsed_5s, w) else Ret (last, w))
    = Ret (l', w') ∧ tuned ticks w'.
Proof.
  intros Ht. case_decide; [|eauto]. unfold log_stats.
  destruct (elapsed_ms_run ticks w t0 Ht) as (w1 & -> & Ha & _). rewrite !bind_Ret. cbn beta iota.
  do 2 eexists. split; [done|]. by apply (tuned_advances _ _ _ Ha).
Qed.

Lemma balanced_weightless c n s b : flow_weight c = 0 → balanced s b → balanced (Nat.iter n (stat_incr c) s) b.
Proof. intros Hc Hbal. unfold balanced. rewrite flow_iter, Hc, Z.mul_0_l, Z.add_0_r. exact Hbal. Qed.

Lemma main_packets_inv old ticks fuel sv :
  (0 < META_CAP)%nat → service_inv old ticks fuel sv →
  ∃ sv', main_packets META_CAP sv = Ret sv' ∧ service_inv old ticks fuel sv'.
Proof.
  intros HM [[l Hproc] Hrec Hbank Hbal Hcomp Ht0 Hw Hpk Hsig Hsch Hsigs]. unfold main_packets.
  destruct (consume_all_run old ticks (packet_consumers (channels sv)) (proc sv) (container sv) (xxhasher sv)
    (recent_signatures sv) (machine sv) l HM Hpk Hproc Hbank Hw Hbal) as
    (cs & st & b & w & l' & -> & Hlen & Hpk' & Hproc' & Hbank' & Hw' & Hbal'). rewrite bind_Ret. cbn beta iota zeta.
  destruct cs as [|c1 [|c2 [|c3 [|c4 [|]]]]]; try done. eexists. split; [done|]. split; try done. by eexists.
Qed.

Lemma main_signatures_inv old ticks fuel sv :
  (0 < SIG_CAP)%nat → service_inv old ticks fuel sv →
  stage_ends fuel (recent_sig_consumer (channels sv)) (main_signatures SIG_CAP fuel sv) (λ r, service_inv old ticks fuel r.2).
Proof.
  intros HS [[l Hproc] [k Hrec] Hbank Hbal Hcomp [t0 Ht0] Hw Hpk Hsig Hsch Hsigs]. unfold main_signatures. cbv zeta.
  destruct (fed_cases _ _ _ _ Hsigs) as [(sigs & rc & Hd1 & Hf1 & _ & Hsigs')|(Hpr & sigs & rc & Hy & Hf1 & _)]; [left|right].
  2: { erewrite recent_signatures_overrun by done. split_and!; try done. by exists sigs, rc. }
  destruct (recent_signatures_run SIG_CAP fuel _ (recent_signatures sv) (stats (proc sv)) sigs rc k HS Hrec Hd1 Hf1)
    as (rs' & -> & Hrec'). rewrite bind_Ret. cbn beta iota. rewrite Ht0.
  destruct (elapsed_ms_run ticks (machine sv) t0 Hw) as (w1 & -> & Ha1 & _). rewrite bind_Ret. cbn beta iota.
  set (s1 := Nat.iter _ _ (stats (proc sv))).
  destruct (log_step_run ticks t0 (LAST_LOG sv) (u64_sub (tsc (machine sv) (tsc_reads (machine sv))) t0 / ticks / 5000) s1 w1)
    as (ll & w2 & -> & Hw2); [by apply (tuned_advances _ _ _ Ha1)|]. rewrite bind_Ret. cbn beta iota.
  eexists. split; [done|]. cbn [snd]. split; try done; try by eexists.
  - exists l. split; [apply Hproc|apply Hproc|]. apply stats_ok_iter, Hproc.
  - apply balanced_weightless; [by vm_compute|done].
Qed.

Lemma main_metas_inv old ticks fuel args sv :
  service_inv old ticks fuel sv →
  stage_ends fuel (sch_consumer (channels sv)) (main_metas fuel args sv) (service_inv old ticks fuel).
Proof.
  intros [[l Hproc] Hrec Hbank Hbal Hcomp Ht0 Hw Hpk Hsig Hsch Hsigs]. unfold main_metas. cbv zeta.
  assert (Hok : ∀ n, stats_ok (completed_stats n (stats (proc sv)))) by (intros n; apply stats_ok_iter, Hproc).
  assert (Hb' : ∀ n, balanced (completed_stats n (stats (proc sv))) (container sv))
    by (intros n; apply balanced_weightless; [by vm_compute|done]).
  destruct (fed_cases _ _ _ _ Hsch) as [(rms & sc & Hd2 & Hf2 & _ & Hsch')|(Hpr & rms & sc & Hy & Hf2 & _)].
  - destruct (remaining_metas_run META_CAP fuel _ (qos_tx_partial_metas (proc sv)) l (complete_metas sv) (qos_model (proc sv))
      (stats (proc sv)) rms sc (max_signers args) (max_ips args) (inv_metas _ _ _ Hproc) (inv_model _ _ _ Hproc) Hcomp Hd2 Hf2)
      as (m1 & m2 & metas' & Hms & Hmetas' & Hcases). cbn zeta in Hcases. left.
    destruct Hcases as [(_ & Hle & ->)|(_ & c0 & m' & Hy & _ & Hm' & ->)]; rewrite bind_Ret; cbn beta iota;
      eexists; (split; [done|]); split; try done.
    + exists (complete_all m1 l).2. split; [apply Hproc|done|apply Hok].
    + apply Hb'.
    + exists (complete_all m1 l).2. split; [done|done|apply Hok].
    + apply Hb'.
    + simpl. lia.
    + eapply fed_yields; [exact Hsch|exact Hy].
  - destruct (remaining_metas_overrun META_CAP fuel _ (qos_tx_partial_metas (proc sv)) l (complete_metas sv) (qos_model (proc sv))
      (stats (proc sv)) rms sc (max_signers args) (max_ips args) (inv_metas _ _ _ Hproc) (inv_model _ _ _ Hproc) Hy Hf2)
      as [->|(n & metas' & cache' & c1 & m' & l1 & Hi & Hy1 & Hm' & ->)]; [right|left].
    + split_and!; try done. by exists rms, sc.
    + rewrite bind_Ret; cbn beta iota. eexists. split; [done|]. split; try done.
      * exists cache'. split; [done|done|apply Hok].
      * apply Hb'.
      * simpl. lia.
      * eapply fed_yields; [exact Hsch|exact Hy1].
Qed.

Lemma main_feedback_inv old ticks fuel sv :
  service_inv old ticks fuel sv →
  stage_ends fuel (sig_consumer (channels sv)) (main_feedback fuel sv) (service_inv old ticks fuel).
Proof.
  intros [[l Hproc] Hrec Hbank Hbal Hcomp Ht0 Hw Hpk Hsig Hsch Hsigs]. unfold main_feedback. cbv zeta.
  destruct (fed_cases _ _ _ _ Hsig) as [(fails & gc & Hd3 & Hf3 & Hmsgs & Hsig')|(Hpr & fails & gc & Hy & Hf3 & Hmsgs)];
    destruct (sigverify_msgs _ _ Hmsgs) as (ps & -> & Hps); [left|right]; rewrite length_fmap in Hf3.
  - destruct (sigverify_run fuel _ (qos_model (proc sv)) ps gc (inv_model _ _ _ Hproc) Hd3 Hf3 Hps) as [-> Hm'].
    rewrite bind_Ret. cbn beta iota. eexists. split; [done|]. split; try done.
    exists l. split; [done|apply Hproc|apply Hproc].
  - erewrite sigverify_overrun by done. split_and!; try done. eexists _, gc. split; [done|]. by rewrite length_fmap.
Qed.

(** One of the channels the iteration reads until they are empty yields [fuel] messages
    in a row. *)
Definition floods (fuel : nat) (ch : Channels) : Prop :=
  overrun fuel (recent_sig_consumer ch) ∨ overrun fuel (sch_consumer ch) ∨ overrun fuel (sig_consumer ch).

(** Each stage reads its own channel only. *)
Lemma main_packets_frame sv sv' :
  main_packets META_CAP sv = Ret sv' →
  recent_sig_consumer (channels sv') = recent_sig_consumer (channels sv) ∧
  sch_consumer (channels sv') = sch_consumer (channels sv) ∧ sig_consumer (channels sv') = sig_consumer (channels sv).
Proof.
  unfold main_packets. destruct (consume_all _ _ _ _ _ _ _) as [[[[cs st] b] w]| | |]; try done. intros [= <-]. cbn.
  by destruct cs as [|? [|? [|? [|? []]]]].
Qed.
Lemma main_signatures_frame fuel sv r :
  main_signatures SIG_CAP fuel sv = Ret r →
  sch_consumer (channels r.2) = sch_consumer (channels sv) ∧ sig_consumer (channels r.2) = sig_consumer (channels sv).
Proof.
  unfold main_signatures. cbv zeta. destruct (consume_recent_signatures _ _ _ _ _) as [[[? ?] ?]| | |]; try done. rewrite bind_Ret.
  cbn beta iota. destruct (elapsed_ms _ _) as [[? ?]| | |]; try done. rewrite bind_Ret. cbn beta iota.
  match goal with |- (?m ≫= _) = _ → _ => destruct m as [[? ?]| | |]; try done end. rewrite bind_Ret. by intros [= <-].
Qed.
Lemma main_metas_frame fuel args sv sv' :
  main_metas fuel args sv = Ret sv' → sig_consumer (channels sv') = sig_consumer (channels sv).
Proof.
  unfold main_metas. cbv zeta. destruct (consume_remaining_metas _ _ _ _ _ _ _ _) as [[[[[[? ?] ?] ?] ?] ?]| | |]; try done.
  rewrite bind_Ret. by intros [= <-].
Qed.

(** The iteration: it ends unless one of these channels is flooded. *)
Definition iteration_ends {A} (fuel : nat) (ch : Channels) (m : outcome A) (Q : A → Prop) : Prop :=
  (∃ a, m = Ret a ∧ Q a) ∨ (prompt = false ∧ m = NoFuel ∧ floods fuel ch).

Lemma main_step_inv old ticks fuel args sv :
  (0 < META_CAP)%nat → (0 < SIG_CAP)%nat → service_inv old ticks fuel sv →
  iteration_ends fuel (channels sv) (main_step META_CAP SIG_CAP fuel args sv) (service_inv old ticks fuel).
Proof.
  intros HM HS Hinv. unfold main_step, iteration_ends, floods.
  destruct (main_packets_inv old ticks fuel sv HM Hinv) as (sv1 & E1 & H1').
  destruct (main_packets_frame _ _ E1) as (<- & <- & <-). rewrite E1, bind_Ret.
  destruct (main_signatures_inv old ticks fuel sv1 HS H1') as [([t sv2] & E2 & H2')|(Hp & -> & Ho)]; [|right; tauto].
  destruct (main_signatures_frame _ _ _ E2) as [<- <-]. rewrite E2, bind_Ret. cbn beta iota.
  destruct (main_metas_inv old ticks fuel args sv2 H2') as [(sv3 & E3 & H3')|(Hp & -> & Ho)]; [|right; tauto].
  cbn [snd]. rewrite <- (main_metas_frame _ _ _ _ E3). rewrite E3, bind_Ret.
  destruct (main_feedback_inv old ticks fuel sv3 H3') as [(sv4 & -> & H4')|(Hp & -> & Ho)]; [left; eauto|right; tauto].
Qed.

(** The loop: any number of iterations, or fewer up to one in which a channel is flooded. *)
Lemma main_loop_inv old ticks n fuel args sv :
  (0 < META_CAP)%nat → (0 < SIG_CAP)%nat → service_inv old ticks fuel sv →
  (∃ sv', main_loop META_CAP SIG_CAP n fuel args sv = Ret sv' ∧ service_inv old ticks fuel sv') ∨
  (prompt = false ∧ main_loop META_CAP SIG_CAP n fuel args sv = NoFuel ∧
   ∃ k sv', (k < n)%nat ∧ main_loop META_CAP SIG_CAP k fuel args sv = Ret sv' ∧ floods fuel (channels sv')).
Proof.
  intros HM HS. revert sv. induction n as [|n IH]; intros sv Hinv; cbn [main_loop]; [left; eauto|].
  destruct (main_step_inv old ticks fuel args sv HM HS Hinv) as [(sv1 & E & Hinv1)|(Hp & -> & Hfl)]; cycle 1.
  { right. split_and!; [done..|]. exists 0%nat, sv. split_and!; [lia|done|done]. }
  rewrite E, bind_Ret. destruct (IH sv1 Hinv1) as [Hr|(Hp & -> & k & sv' & Hk & Hrun & Hfl)]; [by left|right].
  split_and!; [done..|]. exists (S k), sv'. split_and!; [lia| |done]. cbn [main_loop]. by rewrite E, bind_Ret.
Qed.

End Invariant.

(** ** The service *)
Section Service.
Context `{OrderedFloatLaws} `{SokobanLaws} `{PacketLaws} `{HashOps} `{ViewLaws} `{HeapLaws} `{QueLaws}.
Context {SIGNERS IPS : nat} (META_CAP SIG_CAP : nat) (src : Packet → Prop).
Abbreviation packet_msg := (packet_msg src).
Abbreviation forward_msg := (forward_msg src).
Abbreviation sigverify_msg := (sigverify_msg src).
Abbreviation bank_ok := (bank_ok src).
Abbreviation service_inv := (service_inv META_CAP SIG_CAP src 0).
Abbreviation service := (Service (SIGNERS := SIGNERS) (IPS := IPS)).
Implicit Types (sv : service) (st : proc_state SIGNERS IPS) (b : TransactionContainer) (rs : LRUCache Z ()) (s : Stats) (w : Machine).

(** The invariant with a weaker property of packets. *)
Lemma service_inv_mono (src' : Packet → Prop) base prompt old ticks fuel sv :
  (∀ p, src p → src' p) → QosProps.service_inv META_CAP SIG_CAP src base prompt old ticks fuel sv →
  QosProps.service_inv META_CAP SIG_CAP src' base prompt old ticks fuel sv.
Proof.
  intros Hsub [Hproc Hrec [Hwf (p & sent & Hp & Hpush & Hf) Ht Hq] Hbal Hcomp Hti Hw Hpk Hsig Hsch Hsigs]. split; try done.
  - split; [done| |done|].
    + exists p, sent. split_and!; [done|done|]. eapply Forall_impl; [exact Hf|]. by apply forward_msg_mono.
    + eapply Forall_impl; [exact Hq|]. intros t [??]. split; [done|by apply Hsub].
  - eapply Forall_impl; [exact Hpk|]. intros c. by apply safe_mono, packet_msg_mono.
  - eapply fed_mono; [|exact Hsig]. by apply sigverify_msg_mono.
Qed.

(** What has been sent so far, and the invariant from there on. *)
Lemma service_rebase base prompt old ticks fuel sv :
  QosProps.service_inv META_CAP SIG_CAP src base prompt old ticks fuel sv →
  ∃ p sent, transmitter (container sv) = Some p ∧ pushed p = old ++ sent ∧ Forall forward_msg sent ∧
    QosProps.service_inv META_CAP SIG_CAP src base prompt (pushed p) ticks fuel sv.
Proof.
  intros [Hproc Hrec [Hwf (p & sent & Hp & Hpush & Hf) Ht Hq] Hbal Hcomp Hti Hw Hpk Hsig Hsch Hsigs].
  exists p, sent. split_and!; [done..|]. split; try done. split; try done. exists p, []. by rewrite app_nil_r.
Qed.

(** The channels as the service expects them: the messages are representations of packets.
    Nothing is said about when they are empty. *)
Record channels_safe (ch : Channels) : Prop := {
  cs_packets : Forall (safe packet_msg) (packet_consumers ch);
  cs_sig : safe sigverify_msg (sig_consumer ch);
}.
(** Moreover, those that are read until they are empty are found empty after fewer than
    [fuel] messages. *)
Record channels_ok (fuel : nat) (ch : Channels) : Prop := {
  ch_packets : Forall (safe packet_msg) (packet_consumers ch);
  ch_sig : served sigverify_msg fuel (sig_consumer ch);
  ch_sch : served (λ _, True) fuel (sch_consumer ch);
  ch_sigs : served (λ _, True) fuel (recent_sig_consumer ch);
}.
Lemma channels_ok_safe fuel ch : channels_ok fuel ch → channels_safe ch.
Proof. intros [Hp Hs _ _]. split; [done|by eapply served_safe]. Qed.
Definition channels_fed (prompt : bool) (fuel : nat) (ch : Channels) : Prop :=
  if prompt then channels_ok fuel ch else channels_safe ch.

(** A machine on which the timer can be set up: the counter is usable, the system clock
    advances, and what the calibration measures, once the first timer has been started,
    is a positive number [ticks] per millisecond. *)
Record machine_ready (ticks : Z) w : Prop := {
  ready_tsc : tsc_ok w;
  ready_supports : (check_cpu_supports_invariant_tsc w).1 = true;
  ready_clock : clock_advances w;
  ready_ticks : ∀ w2, memoize_ticks_per_ms_and_invariant_tsc_check (timer_new w).2 = Ret w2 → TICKS_PER_MS w2 = Some ticks;
  ready_pos : 0 < ticks;
}.

Lemma main_init_inv prompt args ch prod raw_metas raw_sigs w ticks fuel :
  machine_ready ticks w → channels_fed prompt fuel ch → length (nodes raw_metas) = META_CAP → length (nodes raw_sigs) = SIG_CAP →
  ∃ sv : service, main_init META_CAP SIG_CAP args ch prod (Some raw_metas) (Some raw_sigs) w = Ret sv ∧
    service_inv prompt (pushed prod) ticks fuel sv.
Proof.
  intros [Htsc Hsup Hclk Htk Hpos] Hch Hrm Hrs. unfold main_init. cbv zeta.
  destruct (new_boxed_new META_CAP raw_metas Hrm) as [-> _]. rewrite bind_Ret. cbn beta iota zeta.
  unfold container_new. unfold timer_new in Htk |- * at 1.
  destruct (check_cpu_supports_invariant_tsc w) as [sup w0] eqn:E. simpl in Hsup. subst sup.
  apply supports_advances in E as [A0 Hs0].
  destruct (new_boxed_new SIG_CAP raw_sigs Hrs) as [-> _]. cbn [rdtsc snd] in Htk |- *. rewrite bind_Ret.
  cbn beta iota zeta.
  set (w1 := mkMachine _ _ _ _ _ _ _ _) in *. assert (A1 : advances w0 w1) by (split; simpl; auto).
  assert (Hclk1 : clock_advances w1) by (eapply clock_advances_advances, Hclk; by etransitivity).
  destruct (memoize_run w1 Hclk1) as (w2 & b2 & t2 & Hmemo & _). specialize (Htk _ Hmemo).
  pose proof (memoize_advances _ _ Hmemo) as A2. rewrite Hmemo, bind_Ret. cbn beta iota.
  assert (A : advances w w2) by (do 2 (etransitivity; [done|]); done).
  assert (Ht : tuned ticks w2).
  { split; [by eapply tsc_ok_advances| |done|done]. by apply (adv_supports _ _ A2), (adv_supports _ _ A1). }
  destruct (timer_new_run ticks w2 Ht) as (w3 & -> & A3 & _). eexists. split; [done|].
  assert (Hnil : mm_contents (mm_new HEAP_SIZE : MinMaxHeap ScoredTransaction) = []) by apply contents_new.
  assert (Hfed : Forall (safe packet_msg) (packet_consumers ch) ∧ fed prompt sigverify_msg fuel (sig_consumer ch) ∧
    fed prompt (λ _, True) fuel (sch_consumer ch) ∧ fed prompt (λ _, True) fuel (recent_sig_consumer ch)).
  { destruct prompt, Hch; split_and!; try done; apply safe_any. }
  destruct Hfed as (Hpk & Hsig & Hsch & Hsigs).
  split; cbn [proc recent_signatures container complete_metas timer machine channels stats]; try done; try by eexists.
  - exists []. split; [by apply model_new_wf; constructor|apply new_inv|apply stats_ok_new].
  - exists []. apply new_inv.
  - split; [|exists prod, []; by rewrite app_nil_r|by eexists|cbn [priority_queue_heap]; rewrite Hnil; constructor].
    split; cbn [priority_queue_heap max_send]; [rewrite Hnil; unfold HEAP_SIZE; simpl; lia|].
    apply Z.div_pos; [|lia]. unfold u64_mul. apply (wrap_in_u 64). lia.
  - unfold balanced, queued. cbn [priority_queue_heap]. rewrite Hnil. done.
  - simpl. lia.
  - by apply (tuned_advances _ _ _ A3).
Qed.

(** What the invariant says of the end of an iteration. *)
Definition accounted sv : Prop :=
  model_wf (qos_model (proc sv)) ∧ (length (complete_metas sv) ≤ 400)%nat ∧
  (length (mm_contents (priority_queue_heap (container sv))) < HEAP_SIZE)%nat ∧
  let s := stats (proc sv) in
  stat TotalPackets s = wrap 64
    (zsum ((λ c, stat c s) <$> error_counters) + stat LeakedPriority s + stat BankingTransmissions s +
     stat RecentlyProcessedQueued s + Z.of_nat (length (mm_contents (priority_queue_heap (container sv))))).

Lemma service_accounted prompt old ticks fuel sv : service_inv prompt old ticks fuel sv → accounted sv.
Proof.
  intros [[l Hproc] _ Hbank Hbal Hcomp _ _ _ _ _ _]. unfold accounted.
  split_and!; [apply Hproc|done|apply Hbank|]. cbn zeta. unfold balanced, queued, flow in Hbal.
  set (s := stats (proc sv)) in *. rewrite <- (wrap_id 64 (stat TotalPackets s)) by apply (inv_stats _ _ _ Hproc).
  change (eqm (stat TotalPackets s) (zsum ((λ c, stat c s) <$> error_counters) + stat LeakedPriority s +
    stat BankingTransmissions s + stat RecentlyProcessedQueued s +
    Z.of_nat (length (mm_contents (priority_queue_heap (container sv)))))).
  rewrite <- Hbal. apply eq_subrelation; [apply _|]. lia.
Qed.

(** Starting and running. *)
Lemma service_runs args ch prod raw_metas raw_sigs w ticks fuel n :
  (0 < META_CAP)%nat → (0 < SIG_CAP)%nat → machine_ready ticks w → channels_safe ch →
  length (nodes raw_metas) = META_CAP → length (nodes raw_sigs) = SIG_CAP →
  ∃ sv0 : service, main_init META_CAP SIG_CAP args ch prod (Some raw_metas) (Some raw_sigs) w = Ret sv0 ∧
    ((∃ sv lines, main_run META_CAP SIG_CAP n fuel args sv0 = Ret (sv, lines) ∧ accounted sv) ∨
     (main_run META_CAP SIG_CAP n fuel args sv0 = NoFuel ∧
      ∃ k sv, (k < n)%nat ∧ main_loop META_CAP SIG_CAP k fuel args sv0 = Ret sv ∧ floods fuel (channels sv))) ∧
    (channels_ok fuel ch → ∃ sv lines, main_run META_CAP SIG_CAP n fuel args sv0 = Ret (sv, lines) ∧ accounted sv).
Proof.
  intros HM HS Hw Hch Hrm Hrs.
  destruct (main_init_inv false args ch prod raw_metas raw_sigs w ticks fuel Hw Hch Hrm Hrs) as (sv0 & Hinit & Hinv0).
  exists sv0. split; [done|]. unfold main_run. split.
  - destruct (main_loop_inv META_CAP SIG_CAP src 0 false _ ticks n fuel args sv0 HM HS Hinv0) as [(sv & -> & Hinv)|(_ & -> & Hfl)].
    + left. exists sv. eexists. split; [done|]. by eapply service_accounted.
    + by right.
  - intros Hok. destruct (main_init_inv true args ch prod raw_metas raw_sigs w ticks fuel Hw Hok Hrm Hrs) as (sv0' & Hinit' & Hinv0').
    rewrite Hinit in Hinit'. injection Hinit' as <-.
    destruct (main_loop_inv META_CAP SIG_CAP src 0 true _ ticks n fuel args sv0 HM HS Hinv0') as [(sv & -> & Hinv)|(? & _)]; [|done].
    exists sv. eexists. split; [done|]. by eapply service_accounted.
Qed.

(** C3. The service runs.  Let it be started on a machine with a usable counter, whose
    clock advances so that the calibration ends, and measures a positive rate; let the
    channels carry packets.  Then it starts, and its loop, of any number of iterations,
    neither panics nor reaches undefined behaviour.  An iteration ends unless one of the
    three feedback channels, which it reads until they are empty, yields [fuel] messages
    in a row; if these channels are always found empty after fewer than [fuel] messages,
    every iteration ends.  At the end of every iteration the tables of the model agree,
    at most 400 completed entries wait, at most 16383 transactions are queued, and every
    packet received is accounted for: the total is the sum of the seven error counters,
    the evicted, the sent, the dropped and the queued ones (as [usize] values). *)
Theorem service_accounts_for_packets args ch prod raw_metas raw_sigs w ticks fuel n :
  (0 < META_CAP)%nat → (0 < SIG_CAP)%nat → machine_ready ticks w → channels_safe ch →
  length (nodes raw_metas) = META_CAP → length (nodes raw_sigs) = SIG_CAP →
  ∃ sv0 : service, main_init META_CAP SIG_CAP args ch prod (Some raw_metas) (Some raw_sigs) w = Ret sv0 ∧
    ((∃ sv lines, main_run META_CAP SIG_CAP n fuel args sv0 = Ret (sv, lines) ∧ accounted sv) ∨
     (main_run META_CAP SIG_CAP n fuel args sv0 = NoFuel ∧
      ∃ k sv, (k < n)%nat ∧ main_loop META_CAP SIG_CAP k fuel args sv0 = Ret sv ∧ floods fuel (channels sv))) ∧
    (channels_ok fuel ch → ∃ sv lines, main_run META_CAP SIG_CAP n fuel args sv0 = Ret (sv, lines) ∧ accounted sv).
Proof. apply service_runs. Qed.

(** One visit to a channel is bounded: [consume_transaction_packets] reads at most
    1000 packets, and fewer only when it finds the channel empty. *)
Lemma packets_per_visit old ticks c st b h rs w l :
  (0 < META_CAP)%nat → safe packet_msg c → proc_inv META_CAP st l → bank_ok old b → tuned ticks w → balanced 0 (stats st) b →
  ∃ c0 st' b' w' msgs, consume_transaction_packets META_CAP c st b h rs w = Ret (cons_beat c0, st', b', w') ∧
    bank_ok old b' ∧ balanced 0 (stats st') b' ∧ (yields c msgs c0 ∧ length msgs = 1000%nat ∨ drains c msgs c0) ∧ (length msgs ≤ 1000)%nat.
Proof.
  intros HN Hc Hinv Hb Ht Hbal. unfold consume_transaction_packets.
  destruct (consume_packets_run META_CAP src 0 old ticks PACKETS_PER_CALL c st b h rs w l HN Hc Hinv Hb Ht Hbal) as
    (c' & st' & b' & w' & l' & msgs & -> & _ & _ & Hb' & _ & Hbal' & Hlen & Hm). rewrite bind_Ret. cbn beta iota.
  destruct (beat_ok _ _ _ _ _ Hb' Hbal'). exists c', st', (beat b'), w', msgs. by split_and!.
Qed.

(** However long the service runs, what it has sent to sigverify can be relied on. *)
Lemma service_forwards args ch prod raw_metas raw_sigs w ticks :
  (0 < META_CAP)%nat → (0 < SIG_CAP)%nat → machine_ready ticks w → channels_safe ch →
  length (nodes raw_metas) = META_CAP → length (nodes raw_sigs) = SIG_CAP →
  ∃ sv0 : service, main_init META_CAP SIG_CAP args ch prod (Some raw_metas) (Some raw_sigs) w = Ret sv0 ∧
    (∀ n fuel sv, main_loop META_CAP SIG_CAP n fuel args sv0 = Ret sv →
       ∃ p sent, transmitter (container sv) = Some p ∧ pushed p = pushed prod ++ sent ∧ Forall forward_msg sent) ∧
    (∀ n fuel, channels_ok fuel ch → ∃ sv, main_loop META_CAP SIG_CAP n fuel args sv0 = Ret sv).
Proof.
  intros HM HS Hw Hch Hrm Hrs.
  destruct (main_init_inv false args ch prod raw_metas raw_sigs w ticks 0 Hw Hch Hrm Hrs) as (sv0 & Hinit & _).
  exists sv0. split; [done|]. split.
  - intros n fuel sv Hrun.
    destruct (main_init_inv false args ch prod raw_metas raw_sigs w ticks fuel Hw Hch Hrm Hrs) as (sv0' & Hinit' & Hinv0).
    rewrite Hinit in Hinit'. injection Hinit' as <-.
    destruct (main_loop_inv META_CAP SIG_CAP src 0 false _ ticks n fuel args sv0 HM HS Hinv0) as [(sv' & Hrun' & Hinv)|(_ & Hrun' & _)];
      rewrite Hrun in Hrun'; [injection Hrun' as <-|done].
    destruct (bank_channel _ _ _ (si_bank _ _ _ _ _ _ _ _ _ Hinv)) as (p & sent & Hp & Hpush & Hf). by exists p, sent.
  - intros n fuel Hok. destruct (main_init_inv true args ch prod raw_metas raw_sigs w ticks fuel Hw Hok Hrm Hrs) as (sv0' & Hinit' & Hinv0).
    rewrite Hinit in Hinit'. injection Hinit' as <-.
    destruct (main_loop_inv META_CAP SIG_CAP src 0 true _ ticks n fuel args sv0 HM HS Hinv0) as [(sv & -> & _)|(? & _)]; [eauto|done].
Qed.
End Service.

(** ** A concrete service *)
Section Witnesses.
#[local] Existing Instance ref_ordered_float.
#[local] Existing Instance ref_ordered_float_laws.
#[local] Existing Instance ref_sokoban.
#[local] Existing Instance ref_sokoban_laws.
#[local] Existing Instance ref_packet.
#[local] Existing Instance ref_packet_laws.
#[local] Existing Instance ref_hash.
#[local] Existing Instance ref_view.
#[local] Existing Instance ref_view_laws.
#[local] Existing Instance ref_heap.
#[local] Existing Instance ref_heap_laws.
#[local] Existing Instance ref_que.
#[local] Existing Instance ref_que_laws.

Definition demo_sig : list Z := replicate 64 3.
Definition packet_channel (ps : list Packet) : consumer PacketBytes := (from_packet <$> ps : list PacketBytes).
Definition meta_channel (l : list (QoSRemainingMeta ())) : consumer (QoSRemainingMeta ()) := l.
Definition sig_channel (l : list (list Z)) : consumer (list Z) := l.
Definition demo_chans : Channels :=
  mkChannels (packet_channel [good_packet 80; good_packet 81; bad_packet]) (packet_channel []) (packet_channel [])
    (packet_channel []) (packet_channel [good_packet 80]) (meta_channel [mkRemainingMeta 1 2 ()]) (sig_channel [demo_sig]).
Definition demo_args : Args := mkArgs 1 1000 10 10.
Definition boot_machine : Machine := demo_machine "constant_tsc nonstop_tsc"%string.

Lemma demo_ready : machine_ready 1 boot_machine.
Proof.
  split; [|vm_compute; reflexivity|apply demo_clock| |lia].
  - split; simpl; [intros i|intros i j Hij]; unfold u64_ok, in_u, u64_max; lia.
  - assert (E : match memoize_ticks_per_ms_and_invariant_tsc_check (timer_new boot_machine).2 with
      | Ret w2 => TICKS_PER_MS w2 = Some 1 | _ => False end) by (vm_compute; reflexivity).
    intros w2 E'. rewrite E' in E. exact E.
Qed.
Lemma good_msg port : in_u 16 port → packet_msg (λ _, True) (from_packet (good_packet port)).
Proof. intros Hp. exists (good_packet port). split_and!; [by apply good_packet_ok|done..]. Qed.
Lemma demo_channels_ok : channels_ok (λ _, True) 5 demo_chans.
Proof.
  split.
  - repeat (apply Forall_cons; split; [apply ref_safe|]); [|constructor..]. unfold packet_channel. cbn [fmap list_fmap].
    constructor; [apply good_msg; unfold in_u; lia|]. constructor; [apply good_msg; unfold in_u; lia|].
    constructor; [exists bad_packet; split_and!; [apply bad_packet_ok|done..]|constructor].
  - apply ref_served; [|simpl; lia]. constructor; [|constructor]. exists (good_packet 80), home.
    split_and!; [apply good_packet_ok; unfold in_u; lia|done..].
  - apply ref_served; [by repeat constructor|simpl; lia].
  - apply ref_served; [by repeat constructor|simpl; lia].
Qed.

Lemma service_accounts_for_packets_witness :
  ∃ sv0 sv lines, main_init (SIGNERS := 16) (IPS := 16) 4 4 demo_args demo_chans demo_producer (Some (new 4)) (Some (new 4)) boot_machine = Ret sv0 ∧
    main_run 4 4 2 5 demo_args sv0 = Ret (sv, lines) ∧ accounted sv.
Proof.
  destruct (service_accounts_for_packets (SIGNERS := 16) (IPS := 16) 4 4 (λ _, True) demo_args demo_chans demo_producer (new 4) (new 4) boot_machine 1 5 2)
    as (sv0 & E1 & _ & Hok); [lia|lia|apply demo_ready|eapply channels_ok_safe, demo_channels_ok|reflexivity|reflexivity|].
  destruct (Hok demo_channels_ok) as (sv & lines & E2 & Hac). exists sv0, sv, lines. split; [exact E1|]. split; [exact E2|exact Hac].
Defined.

(** The signature of the packet is confirmed; the packet is turned away. *)
Lemma recent_signatures_filter_witness :
  ∃ c' rs' s', consume_recent_signatures 4 5 (sig_channel [replicate 64 1]) no_recent stats_new = Ret (c', rs', s') ∧
    try_process_packet 4 (good_packet 80) (Some rs') demo_hasher demo_state =
    Ret (Err RecentlyProcessedError, count RecentlyProcessed (count TotalPackets demo_state)).
Proof.
  destruct (recent_signatures_filter (SIGNERS := 16) (IPS := 16) 4 4 5 (sig_channel [replicate 64 1]) no_recent stats_new [replicate 64 1] (sig_channel []) [])
    as (rs' & s' & E & _ & Hk); [lia|apply new_inv|apply stats_ok_new|apply ref_drains|simpl; lia|].
  exists (sig_channel []), rs', s'. split; [exact E|].
  destruct (Hk [] (replicate 64 1) []) as [_ Hr]; [reflexivity|simpl; lia|].
  apply (Hr (good_packet 80) home [7; 7; 7] 7 demo_view); try reflexivity. apply Z.leb_le. reflexivity.
Defined.

Lemma sigverify_feedback_witness :
  ∃ m', consume_sigverify_signals 5 (packet_channel [good_packet 80]) demo_model = Ret (packet_channel [], m').
Proof.
  destruct (sigverify_feedback 5 (packet_channel [good_packet 80]) demo_model [(good_packet 80, home)] (packet_channel []))
    as (m' & E & _); [apply demo_wf|apply ref_drains|simpl; lia| |exists m'; exact E].
  constructor; [|constructor]. split; [apply good_packet_ok; unfold in_u; lia|reflexivity].
Defined.

(** One message, for a packet that is cached: the entry is kept for the next update. *)
Definition demo_cache : LRUCache Z QoSPartialMeta :=
  match put 4 (new 4) 1 (mkPartialMeta 7 [7] 5000 200) with Ret (_, c) => c | _ => new 4 end.
Lemma demo_cache_inv : lru_inv 4 demo_cache [(1, mkPartialMeta 7 [7] 5000 200)].
Proof.
  destruct (put_run 4 (new 4) [] 1 (mkPartialMeta 7 [7] 5000 200)) as (c' & E & Hi); [lia|apply new_inv|].
  unfold demo_cache. by rewrite E.
Qed.

Lemma remaining_metas_batching_witness :
  ∃ r, consume_remaining_metas 5 (meta_channel [mkRemainingMeta 1 2 ()]) demo_cache []%list demo_model stats_new 10 10 = Ret r.
Proof.
  destruct (remaining_metas_batching 4 5 (meta_channel [mkRemainingMeta 1 2 ()]) demo_cache
    [(1, mkPartialMeta 7 [7] 5000 200)] []%list demo_model stats_new
    [mkRemainingMeta 1 2 ()] (meta_channel []) 10 10) as (l1 & l2 & metas' & _ & _ & [(_ & _ & E)|(_ & c1 & m' & _ & _ & _ & E)]);
    [apply demo_cache_inv|apply demo_wf|simpl; lia|apply ref_drains|simpl; lia|eexists; exact E|eexists; exact E].
Defined.
End Witnesses.
