(* ===== verification/DemoProps.v ===== *)
(** Properties of the service with the [demo] feature: the copy of the counters that the
    monitor reads is always a consistent snapshot, and the accounting of packets starts
    anew when the monitor asks for a reset. *)
From Stdlib Require Import ZArith Lia SpecFloat.
From stdpp Require Import gmap list.
From S2P Require Import Prelude Lru LruSpec F64 RedBlack ScoreTable Model ModelProps MinMax Wire Stats Timer Que Core CoreProps.
From S2P Require Import Banking BankingProps Qos QosProps.
Local Open Scope Z_scope.

Section Demo.
Context `{OrderedFloatLaws} `{SokobanLaws} `{PacketLaws} `{HashOps} `{ViewLaws} `{HeapLaws} `{QueLaws}.
Context {SIGNERS IPS : nat} (META_CAP SIG_CAP : nat) (src : Packet → Prop).
Abbreviation service := (Service (SIGNERS := SIGNERS) (IPS := IPS)).
Implicit Types (sv : service) (s : Stats) (a : abs_state).

(** The service and the monitor take turns; the monitor quiet or reads the copy. *)
Inductive demo_event : Type := Iterate | MonitorReset | MonitorRead.
Abbreviation demo_state := (service * Z * abs_state)%type.

Definition demo_event_step (fuel : nat) (args : Args) (d : demo_state) (e : demo_event) : outcome demo_state :=
  let '(sv, LAST_SAVE, a) := d in
  match e with
  | Iterate => demo_step META_CAP SIG_CAP fuel args sv LAST_SAVE a
  | MonitorReset => Ret (sv, LAST_SAVE, (spec_op a OpReset).1)
  | MonitorRead => Ret (sv, LAST_SAVE, (spec_op a OpRead).1)
  end.

Fixpoint demo_run (fuel : nat) (args : Args) (d : demo_state) (es : list demo_event) : outcome demo_state :=
  match es with [] => Ret d | e :: es => demo_event_step fuel args d e ≫= λ d, demo_run fuel args d es end.

(** A number of transactions that fits the queue. *)
Definition fits (n : Z) : Prop := 0 ≤ n < Z.of_nat HEAP_SIZE.

(** Counters as the service has them at some moment: they account for all packets since
    they were cleared, when [before] transactions were queued; [now] are queued. *)
Definition snapshot s : Prop := stats_ok s ∧ ∃ before now, fits before ∧ fits now ∧ eqm (flow s + before) now.

Definition demo_inv (old : list PacketBytes) (ticks : Z) (fuel : nat) (quiet : Prop) (d : demo_state) : Prop :=
  let '(sv, LAST_SAVE, a) := d in
  ∃ base : Z, service_inv META_CAP SIG_CAP src base true old ticks fuel sv ∧ fits base ∧ snapshot a.1 ∧
    (quiet → base = 0 ∧ a.2 = 0).

Lemma queued_fits b : container_wf b → fits (queued b).
Proof. intros [Hlen _]. unfold fits, queued. lia. Qed.

Lemma snapshot_new : snapshot stats_new.
Proof. split; [apply stats_ok_new|]. exists 0, 0. unfold fits, HEAP_SIZE. split_and!; [lia..|done]. Qed.

(** The counters of the service may be replaced by others that account for the queue. *)
Lemma set_stats_inv base base' old ticks fuel sv s :
  service_inv META_CAP SIG_CAP src base true old ticks fuel sv → stats_ok s → balanced base' s (container sv) →
  service_inv META_CAP SIG_CAP src base' true old ticks fuel (set_service_stats sv s).
Proof.
  intros [[l [Hm Hc _]] Hrec Hbank _ Hcomp Ht Hw Hpk Hsig Hsch Hsigs] Hs Hbal. split; try done. exists l. by split.
Qed.

(** Saving: the counters are copied, or cleared when a reset was asked for. *)
Lemma demo_save_inv base old ticks fuel elapsed last a (quiet : Prop) sv :
  service_inv META_CAP SIG_CAP src base true old ticks fuel sv → fits base → snapshot a.1 → (quiet → base = 0 ∧ a.2 = 0) →
  ∃ last' a' s base', demo_save elapsed last a (stats (proc sv)) = (last', a', s) ∧
    service_inv META_CAP SIG_CAP src base' true old ticks fuel (set_service_stats sv s) ∧ fits base' ∧ snapshot a'.1 ∧
    (quiet → base' = 0 ∧ a'.2 = 0).
Proof.
  intros Hinv Hb Ha Hr. unfold demo_save. pose proof (si_balance _ _ _ _ _ _ _ _ _ Hinv) as Hbal.
  pose proof (queued_fits _ (bank_wf _ _ _ (si_bank _ _ _ _ _ _ _ _ _ Hinv))) as Hq.
  assert (Hok : stats_ok (stats (proc sv))) by (destruct (si_proc _ _ _ _ _ _ _ _ _ Hinv) as [l Hp]; apply Hp).
  case_decide; [|exists last, a, (stats (proc sv)), base; split_and!; try done; by eapply set_stats_inv].
  cbn [spec_op]. destruct (decide (a.2 = 0)) as [E|E].
  - rewrite bool_decide_false by tauto. do 4 eexists. split; [done|]. split_and!; [by eapply set_stats_inv|done| |].
    + split; [done|]. exists base, (queued (container sv)). by split_and!.
    + intros Hn. by destruct (Hr Hn).
  - rewrite bool_decide_true by done. do 3 eexists. exists (queued (container sv)). split; [done|].
    split_and!; [|done|done|intros Hn; by destruct (Hr Hn)].
    eapply set_stats_inv; [done|apply stats_ok_new|done].
Qed.

Lemma demo_step_inv old ticks fuel args quiet sv last a :
  (0 < META_CAP)%nat → (0 < SIG_CAP)%nat → demo_inv old ticks fuel quiet (sv, last, a) →
  ∃ d, demo_step META_CAP SIG_CAP fuel args sv last a = Ret d ∧ demo_inv old ticks fuel quiet d.
Proof.
  intros HM HS (base & Hinv & Hb & Ha & Hr). unfold demo_step.
  destruct (main_packets_inv META_CAP SIG_CAP src base true old ticks fuel sv HM Hinv) as (sv1 & -> & H1').
  rewrite bind_Ret. destruct (main_signatures_inv META_CAP SIG_CAP src base true old ticks fuel sv1 HS H1') as [([t sv2] & -> & H2')|(? & _)]; [|done].
  rewrite bind_Ret. cbn beta iota.
  destruct (demo_save_inv base old ticks fuel t last a quiet sv2 H2' Hb Ha Hr) as (last' & a' & s & base' & -> & H3' & Hb' & Ha' & Hr').
  destruct (main_metas_inv META_CAP SIG_CAP src base' true old ticks fuel args _ H3') as [(sv3 & -> & H4')|(? & _)]; [|done].
  rewrite bind_Ret. destruct (main_feedback_inv META_CAP SIG_CAP src base' true old ticks fuel sv3 H4') as [(sv4 & -> & H5')|(? & _)]; [|done].
  rewrite bind_Ret. eexists. split; [done|]. by exists base'.
Qed.

Lemma demo_run_inv old ticks fuel args (quiet : Prop) es : ∀ d,
  (0 < META_CAP)%nat → (0 < SIG_CAP)%nat → (MonitorReset ∈ es → ¬ quiet) → demo_inv old ticks fuel quiet d →
  ∃ d', demo_run fuel args d es = Ret d' ∧ demo_inv old ticks fuel quiet d'.
Proof.
  induction es as [|e es IH]; intros d HM HS Hq Hd; [by exists d|].
  assert (∃ d1, demo_event_step fuel args d e = Ret d1 ∧ demo_inv old ticks fuel quiet d1) as (d1 & E & Hd1).
  { destruct d as [[sv last] a], e; [by apply demo_step_inv| |by eexists].
    eexists. split; [done|]. destruct Hd as (base & Hinv & Hb & Ha & Hr). exists base.
    split_and!; [done|done|apply snapshot_new|]. intros Hn. exfalso. apply Hq; [apply elem_of_cons; by left|done]. }
  cbn [demo_run]. rewrite E, bind_Ret. apply IH; try done. intros Hin. apply Hq, elem_of_cons. by right.
Qed.

(** C14. The service with the [demo] feature, interleaved with a monitor that resets and
    reads the shared copy at any time.  It runs for any number of iterations without a
    panic, and accounts for every packet received since its counters were last cleared:
    the total and the [base] transactions that were queued then are the sum of the error
    counters, the evicted, the sent, the dropped and the queued ones; [base] fits the
    queue and is zero unless a reset was asked for.  What the monitor reads is at all
    times a consistent snapshot of the counters, or all zeros. *)
Theorem demo_accounts args ch prod raw_metas raw_sigs w ticks fuel es :
  (0 < META_CAP)%nat → (0 < SIG_CAP)%nat → machine_ready ticks w → channels_ok src fuel ch →
  length (nodes raw_metas) = META_CAP → length (nodes raw_sigs) = SIG_CAP →
  ∃ (sv0 sv : service) last a base,
    main_init META_CAP SIG_CAP args ch prod (Some raw_metas) (Some raw_sigs) w = Ret sv0 ∧
    demo_run fuel args (sv0, 0, abs_init) es = Ret (sv, last, a) ∧
    model_wf (qos_model (proc sv)) ∧ fits base ∧ (MonitorReset ∉ es → base = 0) ∧ snapshot a.1 ∧
    let s := stats (proc sv) in
    wrap 64 (stat TotalPackets s + base) = wrap 64
      (zsum ((λ c, stat c s) <$> error_counters) + stat LeakedPriority s + stat BankingTransmissions s +
       stat RecentlyProcessedQueued s + Z.of_nat (length (mm_contents (priority_queue_heap (container sv))))).
Proof.
  intros HM HS Hw Hch Hrm Hrs.
  destruct (main_init_inv (SIGNERS := SIGNERS) (IPS := IPS) META_CAP SIG_CAP src true args ch prod raw_metas raw_sigs w ticks fuel Hw Hch Hrm Hrs)
    as (sv0 & Hinit & Hinv0).
  destruct (demo_run_inv (pushed prod) ticks fuel args (MonitorReset ∉ es) es (sv0, 0, abs_init) HM HS) as ([[sv last] a] & Hrun & Hinv).
  { tauto. }
  { exists 0. split_and!; [done|unfold fits, HEAP_SIZE; lia|apply snapshot_new|done]. }
  destruct Hinv as (base & Hsv & Hb & Ha & Hq). exists sv0, sv, last, a, base.
  split_and!; try done; [|intros Hn; by destruct (Hq Hn)|].
  - destruct (si_proc _ _ _ _ _ _ _ _ _ Hsv) as [l Hp]. apply Hp.
  - cbn zeta. set (s := stats (proc sv)). pose proof (si_balance _ _ _ _ _ _ _ _ _ Hsv) as Hbal. fold s in Hbal.
    unfold balanced, queued, flow in Hbal.
    match goal with |- wrap 64 ?x = wrap 64 ?y => change (eqm x y) end. rewrite <- Hbal. apply eq_subrelation; [apply _|]. lia.
Qed.
End Demo.

(** ** Witness: an iteration before and one after a reset *)
Section Witnesses.
#[local] Existing Instance ref_ordered_float.
#[local] Existing Instance ref_ordered_float_laws.
#[local] Existing Instance ref_sokoban.
#[local] Existing Instance ref_sokoban_laws.
#[local] Existing Instance ref_packet.
#[local] Existing Instance ref_packet_laws.
#[local] Existing Instance ref_hash.
#[local] Existing Instance ref_view.
#[local] Existing Instance ref_view_laws.
#[local] Existing Instance ref_heap.
#[local] Existing Instance ref_heap_laws.
#[local] Existing Instance ref_que.
#[local] Existing Instance ref_que_laws.

Lemma demo_accounts_witness :
  ∃ sv0 d, main_init (SIGNERS := 16) (IPS := 16) 4 4 demo_args demo_chans demo_producer (Some (new 4)) (Some (new 4)) boot_machine = Ret sv0 ∧
    demo_run 4 4 5 demo_args (sv0, 0, abs_init) [Iterate; MonitorReset; Iterate; MonitorRead] = Ret d.
Proof.
  destruct (demo_accounts (SIGNERS := 16) (IPS := 16) 4 4 (λ _, True) demo_args demo_chans demo_producer (new 4) (new 4)
    boot_machine 1 5 [Iterate; MonitorReset; Iterate; MonitorRead])
    as (sv0 & sv & last & a & base & E1 & E2 & _); [lia|lia|apply demo_ready|apply demo_channels_ok|reflexivity|reflexivity|].
  exists sv0, (sv, last, a). split; [exact E1|exact E2].
Defined.
End Witnesses.
