(* ===== verification/MockBanking.v ===== *)
(** The mock validator of [engine-ipc/src/main.rs]: it takes the packets the service
    forwards, pretends to verify and to schedule them, and reports back what the service
    learns from.

    [RawViewOps]: an unsanitized view has signatures, too, and sanitizing does not change
    them. *)
From Stdlib Require Import ZArith Lia String.
From stdpp Require Import gmap list strings.
From S2P Require Import Prelude Timer Wire Stats Que Mpsc Core Rng Agent Text Engine Qos.
Local Open Scope Z_scope.

Class RawViewOps `{ViewOps} : Type := raw_signatures : unsanitized_view → list (list Z).
Class RawViewLaws `{RawViewOps} : Prop :=
  raw_signatures_same u v : sanitize u = Some v → raw_signatures u = signatures v.

Definition add_sigverify_recvs (n : Z) (s : EngineStats) : EngineStats :=
  mkEngineStats (tpu_sends s) (fwd_sends s) (u64_add (sigverify_recvs s) n) (sigverify_sends s) (scheduler_sends s).
Definition add_sigverify_sends (n : Z) (s : EngineStats) : EngineStats :=
  mkEngineStats (tpu_sends s) (fwd_sends s) (sigverify_recvs s) (u64_add (sigverify_sends s) n) (scheduler_sends s).
Definition add_scheduler_sends (n : Z) (s : EngineStats) : EngineStats :=
  mkEngineStats (tpu_sends s) (fwd_sends s) (sigverify_recvs s) (sigverify_sends s) (u64_add (scheduler_sends s) n).

Record EngineArgs : Type := mkEngineArgs {
  threads_per_generator : nat;
  ea_xxhash_seed : Z;
  ea_use_huge_pages : bool;
  ea_write_to_file : bool;
}.

(** ** The loop of the mock *)
Section Code.
Context `{PacketOps} `{HashOps} `{RawViewOps} `{QueOps}.

(** The ends of the channels, and the local counters. *)
Record MockBanking : Type := mkMock {
  banking_consumer : consumer PacketBytes;
  sig_qos_producer : producer PacketBytes;
  sch_qos_producer : producer (QoSRemainingMeta ());
  mb_recent_signatures : producer (list Z);
  received : Z;
  failed : Z;
  sched : Z;
  mb_file : option BufWriter;
  mb_i : Z;
}.

(** The verdict on a packet: its last byte marks an invalid signature; the low byte of
    the hash decides whether it is scheduled. *)
Definition passes_sigverify (packet : Packet) : outcome bool :=
  b ← unwrap (last (pkt_buffer packet));
  Ret (bool_decide (b = 0)).
Definition sch_byte (packet_hash : Z) : Z := wrap 8 packet_hash.
Definition mock_nanos (packet_hash : Z) : Z := u64_add (Z.land packet_hash (1024 * 1024 - 1)) 1.

(** A packet with a valid signature: reported as scheduled or not. *)
Definition schedule_packet (packet : Packet) (packet_hash : Z) (mb : MockBanking) : outcome MockBanking :=
  data ← unwrap (packet_data packet);
  tx_view ← unwrap (try_new_unsanitized data);
  let remaining_meta := mkRemainingMeta packet_hash 0 () in
  if decide (sch_byte packet_hash < 192) then
    Ret (mkMock (banking_consumer mb) (sig_qos_producer mb) (prod_push remaining_meta (sch_qos_producer mb))
           (mb_recent_signatures mb) (received mb) (failed mb) (sched mb) (mb_file mb) (mb_i mb))
  else
    let remaining_meta := mkRemainingMeta packet_hash (mock_nanos packet_hash) () in
    let sch := prod_push remaining_meta (sch_qos_producer mb) in
    let sched := u64_add (sched mb) 1 in
    signature ← unwrap (raw_signatures tx_view !! 0%nat);
    let recent := prod_push (sig_bytes signature) (mb_recent_signatures mb) in
    Ret (mkMock (banking_consumer mb) (sig_qos_producer mb) (prod_sync sch) (prod_sync recent)
           (received mb) (failed mb) sched (mb_file mb) (mb_i mb)).

(** The price and the address of the first packets go to the file.  Errors while writing
    them are ignored, so a line may be cut short; an error of the final flush panics. *)
Definition mock_log (write_to_file : bool) (i : Z) (packet : Packet) (file : option BufWriter)
    : outcome (option BufWriter) :=
  if decide (write_to_file = true ∧ i < LOGGED) then
    price ← read_price packet;
    let addr := pkt_addr (pkt_meta packet) in
    w ← unwrap file;
    let '(_, w) := bw_writeln w price addr in
    w ← (if decide (i = LOGGED - 1) then io_unwrap (bw_flush w) else Ret w);
    Ret (Some w)
  else Ret file.

(** One packet. *)
Definition bank_packet (write_to_file : bool) (xxhasher : xxHasher) (packet_bytes : PacketBytes) (mb : MockBanking)
    : outcome MockBanking :=
  packet ← as_packet packet_bytes;
  let mb := mkMock (banking_consumer mb) (sig_qos_producer mb) (sch_qos_producer mb) (mb_recent_signatures mb)
              (u64_add (received mb) 1) (failed mb) (sched mb) (mb_file mb) (mb_i mb) in
  packet_hash ← packet_hash xxhasher packet;
  sig ← passes_sigverify packet;
  mb ←
    (if sig : bool then schedule_packet packet packet_hash mb
     else Ret (mkMock (banking_consumer mb) (prod_push packet_bytes (sig_qos_producer mb)) (sch_qos_producer mb)
                 (mb_recent_signatures mb) (received mb) (u64_add (failed mb) 1) (sched mb) (mb_file mb) (mb_i mb)));
  file ← mock_log write_to_file (mb_i mb) packet (mb_file mb);
  Ret (mkMock (banking_consumer mb) (sig_qos_producer mb) (sch_qos_producer mb) (mb_recent_signatures mb)
         (received mb) (failed mb) (sched mb) file (u64_add (mb_i mb) 1)).

(** The counters are handed over whenever the number received is a multiple of 32768. *)
Definition bank_flush (mb : MockBanking) (stats : EngineStats) : MockBanking * EngineStats :=
  if decide (Z.land (received mb) (32 * 1024 - 1) = 0) then
    let stats := add_sigverify_recvs (received mb) stats in
    let stats := add_sigverify_sends (failed mb) stats in
    let stats := add_scheduler_sends (sched mb) stats in
    (mkMock (banking_consumer mb) (sig_qos_producer mb) (sch_qos_producer mb) (mb_recent_signatures mb)
       0 0 0 (mb_file mb) (mb_i mb), stats)
  else (mb, stats).

Definition bank_step (write_to_file : bool) (xxhasher : xxHasher) (mb : MockBanking) (stats : EngineStats)
    : outcome (MockBanking * EngineStats) :=
  let '(o, c) := cons_pop (banking_consumer mb) in
  let mb := mkMock c (sig_qos_producer mb) (sch_qos_producer mb) (mb_recent_signatures mb)
              (received mb) (failed mb) (sched mb) (mb_file mb) (mb_i mb) in
  mb ← (match o with
        | Some packet_bytes => bank_packet write_to_file xxhasher packet_bytes mb
        | None => Ret mb
        end);
  Ret (bank_flush mb stats).

Fixpoint bank_loop (n : nat) (write_to_file : bool) (xxhasher : xxHasher) (mb : MockBanking) (stats : EngineStats)
    : outcome (MockBanking * EngineStats) :=
  match n with
  | O => Ret (mb, stats)
  | S n =>
     '(mb, stats) ← bank_step write_to_file xxhasher mb stats;
     bank_loop n write_to_file xxhasher mb stats
  end.

(** What the thread sets up once the start flag is set. *)
Definition bank_new (fs : file_system) (args : EngineArgs) (c : consumer PacketBytes) (sig : producer PacketBytes)
    (sch : producer (QoSRemainingMeta ())) (recent : producer (list Z)) : outcome (MockBanking * xxHasher) :=
  let xxhasher := initialize_with_seed (ea_xxhash_seed args) in
  file ← log_open fs (ea_write_to_file args) (text "packet-data/sigverify");
  Ret (mkMock c sig sch recent 0 0 0 file 0, xxhasher).

(** ** What [main] sets up: the two engines, then the channels; every failure panics. *)
Definition unwrap_ok {A E} (r : result A E) : outcome A := match r with Ok a => Ret a | Err _ => Panic end.

Definition engine_ipc_init (args : EngineArgs)
    (join_producer : string → option (producer PacketBytes)) (join_consumer : string → option (consumer PacketBytes))
    (join_or_create : string → PageSize → option (producer PacketBytes))
    (join_or_create_sigs : string → PageSize → option (producer (list Z)))
    (join_or_create_metas : string → PageSize → option (producer (QoSRemainingMeta ())))
    (join_packets : string → PageSize → option (consumer PacketBytes))
    (open_or_create : string → Z → PageSize → bool) (drop_privileges : result () string)
    : outcome (Engine * Engine * MockBanking) :=
  let huge := ea_use_huge_pages args in
  let n := threads_per_generator args in
  tpu_engine ← unwrap_ok (engine_initialize IPC_TPU_TO_QOS_NAME huge n join_producer join_consumer join_or_create).2;
  fwd_engine ← unwrap_ok (engine_initialize IPC_FWD_TO_QOS_NAME huge n join_producer join_consumer join_or_create).2;
  let page_size := get_page_size huge in
  recent_signatures ← unwrap (join_or_create_sigs IPC_STATUS_CACHE_NAME page_size);
  if open_or_create "qos_stats"%string 2048 Standard then
    banking_consumer ← unwrap (join_packets IPC_QOS_TO_SIG_NAME page_size);
    sig_qos_producer ← unwrap (join_or_create IPC_SIG_TO_QOS_NAME page_size);
    sch_qos_producer ← unwrap (join_or_create_metas IPC_SCH_TO_QOS_NAME page_size);
    _ ← unwrap_ok drop_privileges;
    Ret (tpu_engine, fwd_engine,
         mkMock banking_consumer sig_qos_producer sch_qos_producer recent_signatures 0 0 0 None 0)
  else Panic.
End Code.
