(* ===== verification/MockProps.v ===== *)
(** Properties of the mock validator: what it reports for each packet, that its
    counters add up, and that it and the service fit together: it never fails on what
    the service forwards, and reports only what the service expects. *)
From Stdlib Require Import ZArith Lia SpecFloat String.
From stdpp Require Import gmap list strings.
From S2P Require Import Prelude Lru F64 RedBlack ScoreTable Model MinMax Wire Stats Timer Que Mpsc Core CoreProps.
From S2P Require Import Banking BankingProps Rng Agent AgentProps Text Engine EngineProps Qos QosProps MockBanking.
Local Open Scope Z_scope.

Section Props.
Context `{PacketLaws} `{HashOps} `{RawViewLaws} `{!ViewLaws} `{QueLaws} (src : Packet → Prop).
Abbreviation forward_msg := (forward_msg src).
Abbreviation sigverify_msg := (sigverify_msg src).
Implicit Types (p : Packet) (mb : MockBanking) (hasher : xxHasher).

(** ** One packet *)
Inductive verdict : Type := Failed | Unscheduled | Scheduled.
Definition verdict_of p (h : Z) : verdict :=
  if decide (last (pkt_buffer p) = Some 0) then (if decide (h mod 256 < 192) then Unscheduled else Scheduled)
  else Failed.

Lemma mock_nanos_range h : 1 ≤ mock_nanos h ≤ 1048576.
Proof.
  unfold mock_nanos. change (1024 * 1024 - 1) with (Z.ones 20). rewrite Z.land_ones by lia.
  pose proof (Z.mod_pos_bound h (2 ^ 20) ltac:(lia)). rewrite u64_add_small by (unfold in_u; lia). lia.
Qed.

Lemma forwardable_hash hasher p : forwardable p → ∃ h, packet_hash hasher p = Ret h.
Proof.
  intros [Hok [ip Ha] Hs _]. destruct (ok_size _ Hok) as [Hpos _]. unfold packet_hash.
  rewrite (packet_preimage_run p ip (Z.to_nat (pkt_size (pkt_meta p)))) by (done || lia). eauto.
Qed.

(** What a packet with a certain verdict does to the mock. *)
Definition reports (p : Packet) (h : Z) (v : verdict) (mb mb' : MockBanking) : Prop :=
  banking_consumer mb' = banking_consumer mb ∧ received mb' = u64_add (received mb) 1 ∧
  match v with
  | Failed =>
     pushed (sig_qos_producer mb') = pushed (sig_qos_producer mb) ++ [from_packet p] ∧
     sch_qos_producer mb' = sch_qos_producer mb ∧ mb_recent_signatures mb' = mb_recent_signatures mb ∧
     failed mb' = u64_add (failed mb) 1 ∧ sched mb' = sched mb
  | Unscheduled =>
     sig_qos_producer mb' = sig_qos_producer mb ∧
     pushed (sch_qos_producer mb') = pushed (sch_qos_producer mb) ++ [mkRemainingMeta h 0 ()] ∧
     mb_recent_signatures mb' = mb_recent_signatures mb ∧ failed mb' = failed mb ∧ sched mb' = sched mb
  | Scheduled =>
     sig_qos_producer mb' = sig_qos_producer mb ∧
     (∃ n, 1 ≤ n ≤ 1048576 ∧ pushed (sch_qos_producer mb') = pushed (sch_qos_producer mb) ++ [mkRemainingMeta h n ()]) ∧
     (∃ sig, sig_ok sig ∧ pushed (mb_recent_signatures mb') = pushed (mb_recent_signatures mb) ++ [sig]) ∧
     published (sch_qos_producer mb') = pushed (sch_qos_producer mb') ∧
     published (mb_recent_signatures mb') = pushed (mb_recent_signatures mb') ∧
     failed mb' = failed mb ∧ sched mb' = u64_add (sched mb) 1
  end.

(** The price of a packet of the usual size can be read. *)
Lemma read_price_ok p : packet_ok p → (242 ≤ PACKET_DATA_SIZE)%nat → ∃ price, read_price p = Ret price.
Proof.
  intros Hok Hl. unfold read_price. rewrite (ok_buffer_len _ Hok).
  rewrite decide_True by (unfold PRICE_AND_TRANSFER_TX_PRICE_U64_OFFSET; lia). eauto.
Qed.

(** Logging fails only in the last flush, if a write to the file does. *)
Definition log_stuck (write_to_file : bool) mb : Prop :=
  write_to_file = true ∧ mb_i mb = LOGGED - 1 ∧ file_fails (mb_file mb).

Lemma mock_log_run (write_to_file : bool) i p price file :
  addr_ok (pkt_addr (pkt_meta p)) → read_price p = Ret price → (write_to_file = true → is_Some file) →
  (∃ file', mock_log write_to_file i p file = Ret file' ∧ (write_to_file = true → is_Some file')) ∨
  (mock_log write_to_file i p file = Panic ∧ write_to_file = true ∧ i = LOGGED - 1 ∧ file_fails file).
Proof.
  intros Haddr Hp Hf. unfold mock_log. destruct write_to_file; cycle 1.
  { left. rewrite decide_False by (intros [? _]; done). eauto. }
  destruct Hf as [w ->]; [done|]. case_decide; [|left; eauto].
  rewrite Hp, bind_Ret. cbn [unwrap]. rewrite bind_Ret.
  destruct (bw_writeln_run w price (pkt_addr (pkt_meta p))) as [Hf1 _]. pose proof (bw_writeln_once w price _ Haddr) as Hone.
  destruct (bw_writeln w price (pkt_addr (pkt_meta p))) as [ok w1].
  case_decide as Hi; [|left; rewrite bind_Ret; eexists; split; [done|by eexists]].
  destruct (bw_flush_once w1) as [_ He2]. destruct (bw_flush w1) as [[] w2]; cbn [fst] in *.
  - left. change (io_unwrap (true, w2)) with (Ret w2). rewrite bind_Ret. eexists. split; [done|by eexists].
  - right. split_and!; [done..|]. apply (file_fails_flush w (ok, w1)); [done|done|by apply He2].
Qed.

Lemma bank_packet_run (write_to_file : bool) hasher p mb :
  (242 ≤ PACKET_DATA_SIZE)%nat → forwardable p → (write_to_file = true → is_Some (mb_file mb)) →
  (∃ h mb', packet_hash hasher p = Ret h ∧ bank_packet write_to_file hasher (from_packet p) mb = Ret mb' ∧
    reports p h (verdict_of p h) mb mb' ∧ (write_to_file = true → is_Some (mb_file mb'))) ∨
  (bank_packet write_to_file hasher (from_packet p) mb = Panic ∧ log_stuck write_to_file mb).
Proof.
  intros Hlen Hfw Hfile. pose proof (fw_ok _ Hfw) as Hok. destruct (forwardable_hash hasher p Hfw) as [h Hh].
  destruct (read_price_ok p Hok Hlen) as [price Hprice]. unfold bank_packet.
  rewrite as_packet_from_packet, bind_Ret by done. cbv zeta. rewrite Hh, bind_Ret. cbn beta.
  unfold passes_sigverify. destruct (last (pkt_buffer p)) as [b|] eqn:Hb; cycle 1.
  { apply last_None in Hb. pose proof (ok_buffer_len _ Hok) as Hbl. rewrite Hb in Hbl. simpl in Hbl. lia. }
  cbn [unwrap]. rewrite !bind_Ret. cbn beta.
  match goal with |- context [if bool_decide (b = 0) then ?x else ?y] =>
    assert (Hrep : ∃ mb1, (if bool_decide (b = 0) then x else y) = Ret mb1 ∧ reports p h (verdict_of p h) mb mb1 ∧
      mb_file mb1 = mb_file mb ∧ mb_i mb1 = mb_i mb) end.
  { unfold verdict_of. destruct (fw_view _ Hfw) as (d & u & v & Hd & Hu & Hv). destruct (decide (b = 0)) as [->|Hb0].
    - rewrite bool_decide_true, decide_True by done. unfold schedule_packet. rewrite Hd. cbn [unwrap].
      rewrite bind_Ret, Hu. cbn [unwrap]. rewrite bind_Ret. cbv zeta. unfold sch_byte, wrap. change (2 ^ 8) with 256.
      destruct (decide (h mod 256 < 192)) as [Hs|Hs].
      + eexists. split; [done|]. split; [|done]. unfold reports. cbn. rewrite pushed_push. done.
      + rewrite (raw_signatures_same _ _ Hv). pose proof (view_signed _ _ Hv) as Hne.
        pose proof (view_signatures _ _ Hv) as Hsigs. destruct (signatures v) as [|sig sigs]; [done|].
        apply Forall_cons in Hsigs as [Hsig _]. cbn [lookup list_lookup unwrap]. rewrite !bind_Ret. cbn beta.
        eexists. split; [done|]. split; [|done]. unfold reports. cbn. rewrite !published_sync, !pushed_sync, !pushed_push.
        split_and!; try done; [exists (mock_nanos h); split; [apply mock_nanos_range|done]|by exists sig].
    - rewrite bool_decide_false, decide_False by (done || congruence). eexists. split; [done|]. split; [|done].
      unfold reports. cbn. rewrite pushed_push. done. }
  destruct Hrep as (mb1 & -> & Hrep & Ef & Ei). rewrite bind_Ret, Ef, Ei.
  destruct (mock_log_run write_to_file (mb_i mb) p price (mb_file mb) (ok_addr _ Hok) Hprice Hfile) as [(o & -> & Ho)|(-> & Hstuck)];
    [left|right; done]. rewrite bind_Ret. exists h. eexists. by split_and!.
Qed.

(** What the mock reports.  For every packet the service may forward it returns without
    a panic, unless it logs and the final flush of its log fails: a packet whose last
    byte is not zero is sent back as failed, and counted; the others are reported to the
    service under their hash, with an execution time of zero, or, if the low byte of the
    hash is at least 192, with one between 1 and 1048576 nanoseconds together with the
    first signature, both published at once. *)
Theorem mock_reports (write_to_file : bool) hasher p mb :
  (242 ≤ PACKET_DATA_SIZE)%nat → forwardable p → (write_to_file = true → is_Some (mb_file mb)) →
  (∃ h mb', packet_hash hasher p = Ret h ∧ bank_packet write_to_file hasher (from_packet p) mb = Ret mb' ∧
    reports p h (verdict_of p h) mb mb') ∨
  (bank_packet write_to_file hasher (from_packet p) mb = Panic ∧ log_stuck write_to_file mb).
Proof.
  intros Hlen Hfw Hf. destruct (bank_packet_run write_to_file hasher p mb Hlen Hfw Hf) as [(h & mb' & ? & ? & ? & _)|]; eauto 10.
Qed.
(** ** Any number of packets *)
Record mock_ok (write_to_file : bool) mb : Prop := {
  mk_received : 0 ≤ received mb < 32768;
  mk_failed : 0 ≤ failed mb;
  mk_sched : 0 ≤ sched mb;
  mk_split : failed mb + sched mb ≤ received mb;
  mk_file : write_to_file = true → is_Some (mb_file mb);
  mk_feed : safe forward_msg (banking_consumer mb);
}.

(** The local and the shared counters together count the messages: those received, those
    sent back as failed, and the signatures sent on; each message received is either
    sent back or reported. *)
Record accounts (msgs fails : list PacketBytes) (metas : list (QoSRemainingMeta ())) (sigs : list (list Z))
    mb (s : EngineStats) mb' (s' : EngineStats) : Prop := {
  ac_received : eqm (sigverify_recvs s' + received mb') (sigverify_recvs s + received mb + Z.of_nat (length msgs));
  ac_failed : eqm (sigverify_sends s' + failed mb') (sigverify_sends s + failed mb + Z.of_nat (length fails));
  ac_sched : eqm (scheduler_sends s' + sched mb') (scheduler_sends s + sched mb + Z.of_nat (length sigs));
  ac_all : length msgs = (length fails + length metas)%nat;
  ac_metas_sigs : (length sigs ≤ length metas)%nat;
  ac_sig_producer : pushed (sig_qos_producer mb') = pushed (sig_qos_producer mb) ++ fails;
  ac_sch_producer : pushed (sch_qos_producer mb') = pushed (sch_qos_producer mb) ++ metas;
  ac_recent : pushed (mb_recent_signatures mb') = pushed (mb_recent_signatures mb) ++ sigs;
  ac_fails : Forall sigverify_msg fails;
  ac_sigs : Forall sig_ok sigs;
}.

Lemma accounts_refl mb s : accounts [] [] [] [] mb s mb s.
Proof. split; cbn [length]; rewrite ?Z.add_0_r, ?app_nil_r; (done || constructor). Qed.

Lemma accounts_trans m1 f1 t1 g1 m2 f2 t2 g2 mb1 s1 mb2 s2 mb3 s3 :
  accounts m1 f1 t1 g1 mb1 s1 mb2 s2 → accounts m2 f2 t2 g2 mb2 s2 mb3 s3 →
  accounts (m1 ++ m2) (f1 ++ f2) (t1 ++ t2) (g1 ++ g2) mb1 s1 mb3 s3.
Proof.
  intros [R1 F1 S1 L1 M1 P1 Q1 N1 V1 W1] [R2 F2 S2 L2 M2 P2 Q2 N2 V2 W2].
  split; rewrite ?length_app, ?Nat2Z.inj_add; try lia.
  - rewrite R2, R1. apply eq_subrelation; [apply _|]. lia.
  - rewrite F2, F1. apply eq_subrelation; [apply _|]. lia.
  - rewrite S2, S1. apply eq_subrelation; [apply _|]. lia.
  - by rewrite P2, P1, app_assoc.
  - by rewrite Q2, Q1, app_assoc.
  - by rewrite N2, N1, app_assoc.
  - by apply Forall_app_2.
  - by apply Forall_app_2.
Qed.

(** Handing the counters over changes no sum, and bounds what is kept. *)
Lemma bank_flush_run (write_to_file : bool) mb s :
  0 ≤ received mb ≤ 32768 → 0 ≤ failed mb → 0 ≤ sched mb → failed mb + sched mb ≤ received mb →
  (write_to_file = true → is_Some (mb_file mb)) → safe forward_msg (banking_consumer mb) →
  ∃ mb' s', bank_flush mb s = (mb', s') ∧ mock_ok write_to_file mb' ∧ accounts [] [] [] [] mb s mb' s'.
Proof.
  intros Hr Hf Hs Hsp Hfile Hfeed. unfold bank_flush. change (32 * 1024 - 1) with (Z.ones 15).
  rewrite Z.land_ones by lia. change (2 ^ 15) with 32768. case_decide as Hm.
  - do 2 eexists. split; [done|]. split; [split; cbn; (done || lia)|].
    split; cbn; rewrite ?app_nil_r, ?Z.add_0_r; try constructor; apply eqm_u64_add.
  - exists mb, s. split; [done|]. split; [|apply accounts_refl]. split; try done.
    split; [lia|]. destruct (decide (received mb = 32768)) as [E|]; [by rewrite E in Hm|lia].
Qed.

Lemma reports_accounts p h mb mb' s :
  forwardable p → src p → 0 ≤ received mb < 32768 → 0 ≤ failed mb → 0 ≤ sched mb → failed mb + sched mb ≤ received mb →
  reports p h (verdict_of p h) mb mb' →
  (0 ≤ received mb' ≤ 32768 ∧ 0 ≤ failed mb' ∧ 0 ≤ sched mb' ∧ failed mb' + sched mb' ≤ received mb') ∧
  ∃ fails metas sigs, accounts [from_packet p] fails metas sigs mb s mb' s.
Proof.
  intros Hfw Hsrc Hr Hf Hs Hsp (_ & Hrec & Hv). rewrite u64_add_small in Hrec by (unfold in_u; lia).
  destruct (verdict_of p h).
  - destruct Hv as (Hp1 & Hp2 & Hp3 & Hfl & Hsc). rewrite u64_add_small in Hfl by (unfold in_u; lia).
    split; [lia|]. exists [from_packet p], [], [].
    split; rewrite ?Hp2, ?Hp3, ?Hrec, ?Hfl, ?Hsc; cbn [length]; rewrite ?app_nil_r; try done;
      try (apply eq_subrelation; [apply _|]; lia).
    repeat constructor. destruct (fw_addr _ Hfw) as [ip Ha]. exists p, ip. split_and!; [apply Hfw|done..].
  - destruct Hv as (Hp1 & Hp2 & Hp3 & Hfl & Hsc). split; [lia|]. exists [], [mkRemainingMeta h 0 ()], [].
    split; rewrite ?Hp1, ?Hp3, ?Hrec, ?Hfl, ?Hsc; cbn [length]; rewrite ?app_nil_r; try done; try lia;
      try (apply eq_subrelation; [apply _|]; lia).
  - destruct Hv as (Hp1 & (n & _ & Hp2) & (sig & Hsig & Hp3) & _ & _ & Hfl & Hsc).
    rewrite u64_add_small in Hsc by (unfold in_u; lia).
    split; [lia|]. exists [], [mkRemainingMeta h n ()], [sig].
    split; rewrite ?Hp1, ?Hrec, ?Hfl, ?Hsc; cbn [length]; rewrite ?app_nil_r; try done; try lia;
      try (apply eq_subrelation; [apply _|]; lia). by apply Forall_singleton.
Qed.

Lemma bank_step_run (write_to_file : bool) hasher mb s :
  (242 ≤ PACKET_DATA_SIZE)%nat → mock_ok write_to_file mb →
  (∃ mb' s' msgs fails metas sigs, bank_step write_to_file hasher mb s = Ret (mb', s') ∧ mock_ok write_to_file mb' ∧
    (length msgs ≤ 1)%nat ∧ accounts msgs fails metas sigs mb s mb' s') ∨
  (bank_step write_to_file hasher mb s = Panic ∧ log_stuck write_to_file mb).
Proof.
  intros Hlen [Hr Hf Hs Hsp Hfile Hfeed]. unfold bank_step.
  destruct (cons_pop (banking_consumer mb)) as [[x|] c] eqn:E.
  - destruct (safe_some _ _ _ _ Hfeed E) as [(p & Hfw & Hsrc & ->) Hc].
    match goal with |- context [bank_packet _ _ _ ?m] => set (mb0 := m) end.
    destruct (bank_packet_run write_to_file hasher p mb0 Hlen Hfw Hfile) as [(h & mb1 & _ & -> & Hrep & Hf1)|(-> & Hst)];
      [left|by right]. rewrite bind_Ret. cbn beta iota.
    destruct (reports_accounts p h mb0 mb1 s Hfw Hsrc Hr Hf Hs Hsp Hrep) as ((Hr1 & Hfl1 & Hs1 & Hsp1) & fails & metas & sigs & Hac).
    destruct Hrep as (Hcons & _).
    destruct (bank_flush_run write_to_file mb1 s Hr1 Hfl1 Hs1 Hsp1 Hf1) as (mb' & s' & -> & Hok & Hac');
      [by rewrite Hcons|]. exists mb', s', [from_packet p], fails, metas, sigs. split_and!; [done|done|done|].
    pose proof (accounts_trans _ _ _ _ _ _ _ _ _ _ _ _ _ _ Hac Hac') as Ht. rewrite !app_nil_r in Ht.
    destruct Ht. by split.
  - left. rewrite bind_Ret. cbn beta iota. match goal with |- context [bank_flush ?m _] => set (mb0 := m) end.
    destruct (bank_flush_run write_to_file mb0 s) as (mb' & s' & -> & Hok & Hac); try done;
      [cbn; lia|by apply (safe_none _ _ _ Hfeed E)|].
    exists mb', s', [], [], [], []. split_and!; [done|done|simpl; lia|].
    destruct Hac. by split.
Qed.

Lemma bank_loop_run n (write_to_file : bool) hasher mb s :
  (242 ≤ PACKET_DATA_SIZE)%nat → mock_ok write_to_file mb →
  (∃ mb' s' msgs fails metas sigs, bank_loop n write_to_file hasher mb s = Ret (mb', s') ∧ mock_ok write_to_file mb' ∧
    (length msgs ≤ n)%nat ∧ accounts msgs fails metas sigs mb s mb' s') ∨
  (bank_loop n write_to_file hasher mb s = Panic ∧
   ∃ j mb' s', (j < n)%nat ∧ bank_loop j write_to_file hasher mb s = Ret (mb', s') ∧ log_stuck write_to_file mb').
Proof.
  intros Hlen. revert mb s. induction n as [|n IH]; intros mb s Hok; cbn [bank_loop].
  { left. exists mb, s, [], [], [], []. split_and!; [done|done|done|apply accounts_refl]. }
  destruct (bank_step_run write_to_file hasher mb s Hlen Hok)
    as [(mb1 & s1 & m1 & f1 & t1 & g1 & E & Hok1 & Hl1 & Hac1)|(-> & Hst)]; cycle 1.
  { right. split; [done|]. exists 0%nat, mb, s. split_and!; [lia|done|done]. }
  rewrite E, bind_Ret. cbn beta iota.
  destruct (IH mb1 s1 Hok1) as [(mb' & s' & m2 & f2 & t2 & g2 & -> & Hok2 & Hl2 & Hac2)|(-> & j & mb' & s' & Hj & Hr & Hst)]; cycle 1.
  { right. split; [done|]. exists (S j), mb', s'. split_and!; [lia| |done]. cbn [bank_loop]. by rewrite E, bind_Ret. }
  left.
  exists mb', s', (m1 ++ m2), (f1 ++ f2), (t1 ++ t2), (g1 ++ g2). split_and!; [done|done|rewrite length_app; lia|].
  by eapply accounts_trans.
Qed.


(** The shared counters stay in range. *)
Lemma bank_step_stats (write_to_file : bool) hasher mb s mb' s' :
  engine_stats_ok s → bank_step write_to_file hasher mb s = Ret (mb', s') → engine_stats_ok s'.
Proof.
  intros Hs. unfold bank_step. destruct (cons_pop (banking_consumer mb)) as [o c].
  match goal with |- (?m ≫= _) = _ → _ => destruct m as [mb1| | |]; try done end. rewrite bind_Ret. intros [= E].
  unfold bank_flush in E. case_decide; simplify_eq; [|done]. unfold engine_stats_ok, engine_stats_load in *.
  rewrite !Forall_cons in Hs |- *. cbn. destruct Hs as (?&?&_). split_and!; try done; by apply wrap_in_u.
Qed.
End Props.

Lemma mock_ok_mono `{PacketOps} `{ViewOps} `{QueOps} (src src' : Packet → Prop) (write_to_file : bool) mb :
  (∀ p, src p → src' p) → mock_ok src write_to_file mb → mock_ok src' write_to_file mb.
Proof. intros Hsub [? ? ? ? ? Hf]. split; try done. eapply safe_mono; [|exact Hf]. by apply forward_msg_mono. Qed.

(** ** Service and mock together *)
Section Together.
Context `{OrderedFloatLaws} `{SokobanLaws} `{PacketLaws} `{HashOps} `{RawViewLaws} `{!ViewLaws} `{HeapLaws} `{QueLaws}.
Context {SIGNERS IPS : nat} (META_CAP SIG_CAP : nat) (src : Packet → Prop).

(** C4. The service filters what the mock relies on.  Started on a calibrated machine with
    channels that carry packets, and however long it runs, each message the service has
    sent to sigverify is one on which the mock returns without a panic, whatever its
    state: the data of the packet exist, parse, and have a signature.  (The mock can
    still fail on its own: if it logs, and the flush after its last logged packet meets
    an I/O error.)  What the mock sends back for it is again what the service can process.
    Whatever property [src] the packets the service receives have in common, those it
    sends and those the mock sends back have it too.  The service does run, if its
    feedback channels are found empty after fewer than [fuel] messages. *)
Theorem qos_filters_for_sigverify args ch prod raw_metas raw_sigs w ticks (write_to_file : bool) hasher :
  (0 < META_CAP)%nat → (0 < SIG_CAP)%nat → (242 ≤ PACKET_DATA_SIZE)%nat → machine_ready ticks w → channels_safe src ch →
  length (nodes raw_metas) = META_CAP → length (nodes raw_sigs) = SIG_CAP →
  ∃ sv0, main_init (SIGNERS := SIGNERS) (IPS := IPS) META_CAP SIG_CAP args ch prod (Some raw_metas) (Some raw_sigs) w = Ret sv0 ∧
    (∀ n fuel, channels_ok src fuel ch → ∃ sv, main_loop META_CAP SIG_CAP n fuel args sv0 = Ret sv) ∧
    ∀ n fuel sv, main_loop META_CAP SIG_CAP n fuel args sv0 = Ret sv →
      ∃ p sent, transmitter (container sv) = Some p ∧ pushed p = pushed prod ++ sent ∧ Forall (forward_msg src) sent ∧
        ∀ x mb, x ∈ sent → (write_to_file = true → is_Some (mb_file mb)) →
          (∃ mb' fails, bank_packet write_to_file hasher x mb = Ret mb' ∧
            pushed (sig_qos_producer mb') = pushed (sig_qos_producer mb) ++ fails ∧ Forall (sigverify_msg src) fails) ∨
          (bank_packet write_to_file hasher x mb = Panic ∧ log_stuck write_to_file mb).
Proof.
  intros HM HS Hlen Hw Hch Hrm Hrs.
  destruct (service_forwards (SIGNERS := SIGNERS) (IPS := IPS) META_CAP SIG_CAP src args ch prod raw_metas raw_sigs w ticks
    HM HS Hw Hch Hrm Hrs) as (sv0 & Hinit & Hfwd & Hruns).
  exists sv0. split_and!; try done. intros n fuel sv Hrun. destruct (Hfwd n fuel sv Hrun) as (p & sent & Hp & Hpush & Hsent).
  exists p, sent. split_and!; try done. intros x mb Hx Hfile.
  rewrite Forall_forall in Hsent. destruct (Hsent x Hx) as (pk & Hfw & Hsrc & ->).
  destruct (bank_packet_run write_to_file hasher pk mb Hlen Hfw Hfile) as [(h & mb' & _ & Hb & (_ & _ & Hv) & _)|]; [left|by right].
  exists mb'. destruct (verdict_of pk h).
  - exists [from_packet pk]. split; [done|]. split; [apply Hv|]. apply Forall_singleton.
    destruct (fw_addr _ Hfw) as [ip Ha]. exists pk, ip. split_and!; [apply Hfw|done..].
  - exists []. destruct Hv as (-> & _). rewrite app_nil_r. done.
  - exists []. destruct Hv as (-> & _). rewrite app_nil_r. done.
Qed.
End Together.

(** ** Witnesses *)
Section Witnesses.
#[local] Existing Instance ref_ordered_float.
#[local] Existing Instance ref_ordered_float_laws.
#[local] Existing Instance ref_sokoban.
#[local] Existing Instance ref_sokoban_laws.
#[local] Existing Instance ref_packet.
#[local] Existing Instance ref_packet_laws.
#[local] Existing Instance ref_hash.
#[local] Existing Instance ref_view.
#[local] Existing Instance ref_view_laws.
#[local] Existing Instance ref_heap.
#[local] Existing Instance ref_heap_laws.
#[local] Existing Instance ref_que.
#[local] Existing Instance ref_que_laws.
#[local] Instance ref_raw_view : RawViewOps := λ u : Z, tx_sigs demo_view.
#[local] Instance ref_raw_view_laws : RawViewLaws.
Proof. intros u v. cbn. case_decide; [|done]. by intros [= <-]. Qed.

Lemma good_forwardable port : in_u 16 port → forwardable (good_packet port).
Proof.
  intros Hp. split; [by apply good_packet_ok|by eexists|apply Z.leb_le; reflexivity|].
  exists [7; 7; 7], 7, demo_view. split_and!; reflexivity.
Qed.

Definition demo_mock : MockBanking :=
  mkMock (packet_channel [good_packet 80]) ([], []) ([], []) ([], []) 0 0 0 None 0.

(** Its last byte is 7, so the packet fails. *)
Lemma mock_reports_witness :
  ∃ mb', bank_packet false demo_hasher (from_packet (good_packet 80)) demo_mock = Ret mb' ∧
    pushed (sig_qos_producer mb') = [from_packet (good_packet 80)].
Proof.
  destruct (mock_reports false demo_hasher (good_packet 80) demo_mock) as [(h & mb' & _ & E & (_ & _ & Hv))|(_ & ? & _)]; [| | | |discriminate].
  - apply Nat.leb_le. reflexivity.
  - apply good_forwardable. unfold in_u. lia.
  - discriminate.
  - exists mb'. split; [exact E|]. apply Hv.
Defined.


(** The service has sent the first packet, and the mock, finding that its last byte is 7,
    sends it back. *)
Lemma qos_filters_for_sigverify_witness :
  ∃ sv0 sv p x mb' fails,
    main_init (SIGNERS := 16) (IPS := 16) 4 4 demo_args demo_chans demo_producer (Some (new 4)) (Some (new 4)) boot_machine = Ret sv0 ∧
    main_loop 4 4 1 5 demo_args sv0 = Ret sv ∧ transmitter (container sv) = Some p ∧ x ∈ pushed p ∧
    bank_packet false demo_hasher x demo_mock = Ret mb' ∧ pushed (sig_qos_producer mb') = fails ∧
    Forall (sigverify_msg (λ _, True)) fails.
Proof.
  destruct (qos_filters_for_sigverify (SIGNERS := 16) (IPS := 16) 4 4 (λ _, True) demo_args demo_chans demo_producer (new 4) (new 4)
    boot_machine 1 false demo_hasher) as (sv0 & E1 & Hruns & Hsent);
    [lia|lia|apply Nat.leb_le; reflexivity|apply demo_ready|eapply channels_ok_safe, demo_channels_ok|reflexivity|reflexivity|].
  destruct (Hruns 1%nat 5%nat demo_channels_ok) as (sv & E2). destruct (Hsent 1%nat 5%nat sv E2) as (p & sent & Ep & Hp & _ & Hmock).
  assert (Hin : from_packet (good_packet 80) ∈ pushed p).
  { assert (Hr : match main_init (SIGNERS := 16) (IPS := 16) 4 4 demo_args demo_chans demo_producer (Some (new 4)) (Some (new 4)) boot_machine with
      | Ret sv0 => match main_loop 4 4 1 5 demo_args sv0 with
        | Ret sv => match transmitter (container sv) with
          | Some p => pushed p !! 0%nat = Some (from_packet (good_packet 80)) | None => False end
        | _ => False end
      | _ => False end) by (vm_compute; reflexivity).
    rewrite E1, E2, Ep in Hr. destruct (pushed p) as [|y l]; [discriminate|].
    injection Hr as ->. by left. }
  change (pushed demo_producer) with (@nil PacketBytes) in Hp. rewrite app_nil_l in Hp. rewrite Hp in Hin.
  destruct (Hmock _ demo_mock Hin) as [(mb' & fails & Eb & Hf & Hfs)|(_ & ? & _)]; [discriminate| |discriminate].
  exists sv0, sv, p, (from_packet (good_packet 80)), mb', fails. rewrite Hp.
  split; [exact E1|]. split; [exact E2|]. split; [exact Ep|]. split; [exact Hin|]. split; [exact Eb|]. split; [exact Hf|exact Hfs].
Defined.
End Witnesses.
