(* ===== verification/System.v ===== *)
(** The whole system: the generators and funnels of [engine-ipc], the service and the mock
    validator run side by side and talk through channels ([engine-ipc/src/main.rs] starts
    the threads, [qos/src/main.rs] is a process of its own).

    An action lets one thread do one step of its loop, with the messages its channels
    hold at that moment.  A channel may lose, repeat or reorder messages, but it invents
    none: a consumer delivers only what its producers have published ([admissible]).  A
    write to a log may fail, and a feedback channel may yield messages without end.  The
    service does one stage of its iteration at a time, since what it sends in one stage
    can come back to it in the next. *)
From Stdlib Require Import ZArith Lia SpecFloat String.
From stdpp Require Import gmap list strings.
From S2P Require Import Prelude Lru LruSpec F64 RedBlack ScoreTable Model ModelProps MinMax Wire Stats Timer Que Mpsc.
From S2P Require Import Core CoreProps Banking BankingProps Rng Agent AgentProps Text Engine EngineProps Qos QosProps.
From S2P Require Import MockBanking MockProps.
Local Open Scope Z_scope.

Section Code.
Context `{OrderedFloatOps} `{SokobanOps} `{PacketOps} `{HashOps} `{RawViewOps} `{HeapOps} `{QueOps}.
Context `{EntropyOps} `{DistOps} `{ConstHashOps} `{TxOps} `{ChooseOps}.
Context {SIGNERS IPS : nat} (META_CAP SIG_CAP fuel : nat) (args : Args) (write_to_file : bool).
Abbreviation service := (Service (SIGNERS := SIGNERS) (IPS := IPS)).

Inductive stage : Type := PacketStage | SignatureStage | MetaStage | FeedbackStage.
Definition next_stage (st : stage) : stage :=
  match st with
  | PacketStage => SignatureStage | SignatureStage => MetaStage
  | MetaStage => FeedbackStage | FeedbackStage => PacketStage
  end.

Definition run_stage (st : stage) (sv : service) : outcome service :=
  match st with
  | PacketStage => main_packets META_CAP sv
  | SignatureStage => '(_, sv) ← main_signatures SIG_CAP fuel sv; Ret sv
  | MetaStage => main_metas fuel args sv
  | FeedbackStage => main_feedback fuel sv
  end.

(** The thread of a funnel once a consumer has appeared. *)
Record FunnelThread : Type := mkThread { ft_timer : Timer; ft_funnel : Funnel; ft_ended : bool }.

(** [mock_tpu], [mock_fwd], [mock_banking] and the generators share the counters [STATS]. *)
Record System : Type := mkSystem {
  sy_generators : list Generator;
  sy_tpu : FunnelThread;
  sy_fwd : FunnelThread;
  sy_service : service;
  sy_stage : stage;
  sy_mock : MockBanking;
  sy_hasher : xxHasher;
  sy_stats : EngineStats;
}.

Inductive action : Type :=
| Generate (i : nat)
| FunnelTpu (c : Consumer PacketBytes)
| FunnelFwd (c : Consumer PacketBytes)
| Serve (ch : Channels)
| Bank (c : consumer PacketBytes).

(** One iteration of a funnel that reads [c]; one that has ended stays as it is. *)
Definition funnel_thread_step (fwd : bool) (c : Consumer PacketBytes) (t : FunnelThread) (stats : EngineStats)
    : outcome (FunnelThread * EngineStats) :=
  if ft_ended t then Ret (t, stats) else
  let f := ft_funnel t in
  r ← funnel_step fwd (ft_timer t) (mkFunnel (mkEngine c (spsc (fn_engine f))) (fn_last_check f) stats (fn_machine f));
  match r with
  | inl f => Ret (mkThread (ft_timer t) f false, fn_stats f)
  | inr f => Ret (mkThread (ft_timer t) f true, fn_stats f)
  end.

Definition set_channels (sv : service) (ch : Channels) : service :=
  mkService ch (proc sv) (complete_metas sv) (container sv) (recent_signatures sv) (xxhasher sv) (timer sv)
    (LAST_LOG sv) (machine sv).
Definition set_feed (mb : MockBanking) (c : consumer PacketBytes) : MockBanking :=
  mkMock c (sig_qos_producer mb) (sch_qos_producer mb) (mb_recent_signatures mb) (received mb) (failed mb) (sched mb)
    (mb_file mb) (mb_i mb).

Definition exec (y : System) (a : action) : outcome System :=
  match a with
  | Generate i =>
     match sy_generators y !! i with
     | Some g =>
        g ← gen_step write_to_file g;
        Ret (mkSystem (<[i := g]> (sy_generators y)) (sy_tpu y) (sy_fwd y) (sy_service y) (sy_stage y) (sy_mock y)
               (sy_hasher y) (sy_stats y))
     | None => Ret y
     end
  | FunnelTpu c =>
     '(t, stats) ← funnel_thread_step false c (sy_tpu y) (sy_stats y);
     Ret (mkSystem (sy_generators y) t (sy_fwd y) (sy_service y) (sy_stage y) (sy_mock y) (sy_hasher y) stats)
  | FunnelFwd c =>
     '(t, stats) ← funnel_thread_step true c (sy_fwd y) (sy_stats y);
     Ret (mkSystem (sy_generators y) (sy_tpu y) t (sy_service y) (sy_stage y) (sy_mock y) (sy_hasher y) stats)
  | Serve ch =>
     sv ← run_stage (sy_stage y) (set_channels (sy_service y) ch);
     Ret (mkSystem (sy_generators y) (sy_tpu y) (sy_fwd y) sv (next_stage (sy_stage y)) (sy_mock y) (sy_hasher y) (sy_stats y))
  | Bank c =>
     '(mb, stats) ← bank_step write_to_file (sy_hasher y) (set_feed (sy_mock y) c) (sy_stats y);
     Ret (mkSystem (sy_generators y) (sy_tpu y) (sy_fwd y) (sy_service y) (sy_stage y) mb (sy_hasher y) stats)
  end.
End Code.

(** ** What channels may deliver, and the states that can be reached *)
Section Reach.
Context `{OrderedFloatLaws} `{SokobanLaws} `{PacketLaws} `{HashOps} `{RawViewLaws} `{!ViewLaws} `{HeapLaws} `{QueLaws}.
Context `{EntropyLaws} `{DistLaws} `{ConstHashOps} `{TxOps} `{!TxLaws} `{ChooseLaws}.
Context {SIGNERS IPS : nat} (META_CAP SIG_CAP fuel : nat) (args : Args) (write_to_file : bool) (ticks : Z).
Abbreviation service := (Service (SIGNERS := SIGNERS) (IPS := IPS)).
Abbreviation system := (System (SIGNERS := SIGNERS) (IPS := IPS)).
Abbreviation exec := (exec (SIGNERS := SIGNERS) (IPS := IPS) META_CAP SIG_CAP fuel args write_to_file).
Implicit Types (y : system) (sv : service) (mb : MockBanking) (g : Generator).

(** What the service has sent to sigverify. *)
Definition service_sent y : list PacketBytes :=
  match transmitter (container (sy_service y)) with Some p => pushed p | None => [] end.
Definition service_published y : list PacketBytes :=
  match transmitter (container (sy_service y)) with Some p => published p | None => [] end.

Definition from_generators y (x : PacketBytes) : Prop := ∃ g, g ∈ sy_generators y ∧ x ∈ published (gen_producer g).
Definition from_funnel (t : FunnelThread) (x : PacketBytes) : Prop := x ∈ published (spsc (fn_engine (ft_funnel t))).

(** No channel delivers what has not been published on it; nobody writes to the two
    remote channels. *)
Definition admissible y (a : action) : Prop :=
  match a with
  | Generate _ => True
  | FunnelTpu c | FunnelFwd c => feed_ok (from_generators y) c
  | Serve ch =>
     safe (from_funnel (sy_tpu y)) (tpu_consumer ch) ∧ safe (from_funnel (sy_fwd y)) (fwd_consumer ch) ∧
     safe (λ _, False) (re1_consumer ch) ∧ safe (λ _, False) (re2_consumer ch) ∧
     safe (λ x, x ∈ published (sig_qos_producer (sy_mock y))) (sig_consumer ch) ∧
     safe (λ x, x ∈ published (sch_qos_producer (sy_mock y))) (sch_consumer ch) ∧
     safe (λ x, x ∈ published (mb_recent_signatures (sy_mock y))) (recent_sig_consumer ch)
  | Bank c => safe (λ x, x ∈ service_published y) c
  end.

(** A funnel before its first iteration. *)
Record fresh_funnel (t : FunnelThread) : Prop := {
  ff_timer : ∃ t0, ft_timer t = RDTSC t0;
  ff_tuned : tuned ticks (fn_machine (ft_funnel t));
  ff_empty : pushed (spsc (fn_engine (ft_funnel t))) = [];
}.

(** The start: each thread as its set-up leaves it, all channels empty. *)
Record initial y : Prop := {
  in_generators : Forall (λ g, ∃ (fs : file_system) file (p : producer PacketBytes) id e,
    (write_to_file = true → is_Some (fs (generator_path file id))) ∧ pushed p = [] ∧
    generator_new fs write_to_file file p id e = Ret g) (sy_generators y);
  in_tpu : fresh_funnel (sy_tpu y);
  in_fwd : fresh_funnel (sy_fwd y);
  in_service : ∃ ch prod raw_metas raw_sigs w, machine_ready ticks w ∧ channels_safe (λ _, False) ch ∧
    length (nodes raw_metas) = META_CAP ∧ length (nodes raw_sigs) = SIG_CAP ∧ pushed prod = [] ∧
    main_init META_CAP SIG_CAP args ch prod (Some raw_metas) (Some raw_sigs) w = Ret (sy_service y);
  in_stage : sy_stage y = PacketStage;
  in_mock : ∃ fs eargs c sig sch recent, ea_write_to_file eargs = write_to_file ∧
    safe (λ _, False) c ∧ pushed sig = [] ∧ pushed sch = [] ∧ pushed recent = [] ∧
    bank_new fs eargs c sig sch recent = Ret (sy_mock y, sy_hasher y);
  in_stats : sy_stats y = STATS;
}.

Inductive reachable y0 : system → Prop :=
| reachable_init : initial y0 → reachable y0 y0
| reachable_step y a y' : reachable y0 y → admissible y a → exec y a = Ret y' → reachable y0 y'.
End Reach.

(** ** The invariant of the system *)
Section Invariant.
Context `{OrderedFloatLaws} `{SokobanLaws} `{PacketLaws} `{HashOps} `{RawViewLaws} `{!ViewLaws} `{HeapLaws} `{QueLaws}.
Context `{EntropyLaws} `{DistLaws} `{ConstHashOps} `{TxOps} `{!TxLaws} `{ChooseLaws}.
Context {SIGNERS IPS : nat} (META_CAP SIG_CAP fuel : nat) (args : Args) (write_to_file : bool) (ticks : Z).
Context (Hmeta : (0 < META_CAP)%nat) (Hsigc : (0 < SIG_CAP)%nat).
Context (Hsize : (PRICE_AND_TRANSFER_TX_TX_LEN < PACKET_DATA_SIZE)%nat).
Abbreviation service := (Service (SIGNERS := SIGNERS) (IPS := IPS)).
Abbreviation system := (System (SIGNERS := SIGNERS) (IPS := IPS)).
Abbreviation exec := (exec (SIGNERS := SIGNERS) (IPS := IPS) META_CAP SIG_CAP fuel args write_to_file).
Abbreviation initial := (initial META_CAP SIG_CAP args write_to_file ticks).
Abbreviation reachable := (reachable META_CAP SIG_CAP fuel args write_to_file ticks).
Implicit Types (y : system) (sv : service) (mb : MockBanking) (g : Generator) (t : FunnelThread).

(** The packet was made by an agent and pushed by a generator. *)
Definition made y (p : Packet) : Prop :=
  sent_by AGENTS p ∧ ∃ g, g ∈ sy_generators y ∧ from_packet p ∈ pushed (gen_producer g).
(** The packet was moreover sent on by the service. *)
Definition relayed y (p : Packet) : Prop := made y p ∧ from_packet p ∈ service_sent y.

Record funnel_inv (src : Packet → Prop) t : Prop := {
  fi_timer : ∃ z0, ft_timer t = RDTSC z0;
  fi_tuned : tuned ticks (fn_machine (ft_funnel t));
  fi_pushed : Forall (packet_msg src) (pushed (spsc (fn_engine (ft_funnel t))));
}.

Record sys_inv y : Prop := {
  iv_generators : Forall (gen_ok AGENTS write_to_file) (sy_generators y);
  iv_made : Forall (λ g, Forall (packet_msg (made y)) (pushed (gen_producer g))) (sy_generators y);
  iv_tpu : funnel_inv (made y) (sy_tpu y);
  iv_fwd : funnel_inv (made y) (sy_fwd y);
  iv_service : service_inv META_CAP SIG_CAP (made y) 0 false (service_sent y) ticks fuel (sy_service y);
  iv_sent : Forall (forward_msg (made y)) (service_sent y);
  iv_mock : mock_ok (relayed y) write_to_file (sy_mock y);
  iv_fails : Forall (sigverify_msg (relayed y)) (pushed (sig_qos_producer (sy_mock y)));
  iv_stats : engine_stats_ok (sy_stats y);
}.

Lemma published_sub {T} (p : producer T) x : x ∈ published p → x ∈ pushed p.
Proof. destruct (published_pushed p) as [k ->]. intros Hx. apply elem_of_app. by left. Qed.

Lemma funnel_inv_mono (src src' : Packet → Prop) t : (∀ p, src p → src' p) → funnel_inv src t → funnel_inv src' t.
Proof. intros Hsub [? ? Hp]. split; [done|done|]. eapply Forall_impl; [exact Hp|]. by apply packet_msg_mono. Qed.

Lemma from_generators_made y x : sys_inv y → from_generators y x → packet_msg (made y) x.
Proof.
  intros Hy (g & Hg & Hx). pose proof (iv_made _ Hy) as Hm. rewrite Forall_forall in Hm. specialize (Hm g Hg).
  rewrite Forall_forall in Hm. by apply Hm, published_sub.
Qed.

Lemma sent_transmitter y p : transmitter (container (sy_service y)) = Some p → service_sent y = pushed p.
Proof. unfold service_sent. by intros ->. Qed.

Lemma published_sent y x : x ∈ service_published y → x ∈ service_sent y.
Proof. unfold service_published, service_sent. destruct (transmitter _); [apply published_sub|done]. Qed.

(** The channel a stage of the service reads until it is empty does not run dry. *)
Definition stage_floods (st : stage) (ch : Channels) : Prop :=
  match st with
  | PacketStage => False
  | SignatureStage => overrun fuel (recent_sig_consumer ch)
  | MetaStage => overrun fuel (sch_consumer ch)
  | FeedbackStage => overrun fuel (sig_consumer ch)
  end.

(** The ways in which an action can fail: a generator or the mock panics on an I/O error of
    its log, or the service does not get to the end of a feedback channel. *)
Definition action_fails y (a : action) (r : outcome system) : Prop :=
  match a with
  | Generate i => r = Panic ∧ write_to_file = true ∧ ∃ g, sy_generators y !! i = Some g ∧ file_fails (gen_file g)
  | Bank _ => r = Panic ∧ log_stuck write_to_file (sy_mock y)
  | Serve ch => r = NoFuel ∧ stage_floods (sy_stage y) ch
  | FunnelTpu _ | FunnelFwd _ => False
  end.

(** A generator makes a packet: all that was made stays made. *)
Lemma generate_inv y i :
  sys_inv y → (∃ y', exec y (Generate i) = Ret y' ∧ sys_inv y') ∨ action_fails y (Generate i) (exec y (Generate i)).
Proof.
  intros Hy. cbn [System.exec]. destruct (sy_generators y !! i) as [g|] eqn:Hg; [|left; by exists y].
  destruct (gen_step_run AGENTS write_to_file g Hsize) as [(g' & p & -> & Hok & Hp & Hpush & _)|(-> & Hw & Hff)];
    [by apply (Forall_lookup_1 _ _ _ _ (iv_generators _ Hy) Hg)|left|right; split_and!; [done|done|by exists g]].
  rewrite bind_Ret. eexists. split; [done|].
  set (y' := mkSystem _ _ _ _ _ _ _ _). pose proof (lookup_lt_Some _ _ _ Hg) as Hi.
  assert (Hin : g' ∈ sy_generators y') by (apply list_elem_of_lookup; exists i; by apply list_lookup_insert_eq).
  assert (Hmade : ∀ q, made y q → made y' q).
  { intros q (Hq & g0 & Hg0 & Hx). split; [done|]. apply list_elem_of_lookup in Hg0 as [j Hj].
    destruct (decide (i = j)) as [<-|Hne].
    - exists g'. split; [done|]. rewrite Hpush. apply elem_of_app. left. congruence.
    - exists g0. split; [|done]. apply list_elem_of_lookup. exists j. cbn. by rewrite list_lookup_insert_ne. }
  assert (Hrel : ∀ q, relayed y q → relayed y' q) by (intros q [??]; split; [by apply Hmade|done]).
  destruct Hy as [Hg1 Hg2 Ht Hf Hs Hsent Hm Hfl Hst]. split; cbn [sy_generators sy_tpu sy_fwd sy_service sy_mock sy_stats].
  - by apply Forall_insert.
  - apply Forall_insert.
    + eapply Forall_impl; [exact Hg2|]. cbn. intros g0 Hg0. eapply Forall_impl; [exact Hg0|]. by apply packet_msg_mono.
    + rewrite Hpush. assert (Hm' : packet_msg (made y') (from_packet p)).
      { exists p. split_and!; [apply Hp| |done]. split; [done|]. exists g'. split; [done|]. rewrite Hpush.
        apply elem_of_app. right. by left. }
      apply Forall_app_2; [|by repeat constructor]. rewrite Forall_lookup in Hg2. eapply Forall_impl; [exact (Hg2 _ _ Hg)|].
      by apply packet_msg_mono.
  - by eapply funnel_inv_mono.
  - by eapply funnel_inv_mono.
  - eapply service_inv_mono; [exact Hmade|exact Hs].
  - eapply Forall_impl; [exact Hsent|]. by apply forward_msg_mono.
  - by eapply mock_ok_mono.
  - eapply Forall_impl; [exact Hfl|]. by apply sigverify_msg_mono.
  - done.
Qed.

(** A funnel moves packets on. *)
Lemma funnel_thread_inv src fwd c t stats :
  feed_ok (packet_msg src) c → funnel_inv src t → engine_stats_ok stats →
  ∃ t' stats', funnel_thread_step fwd c t stats = Ret (t', stats') ∧ funnel_inv src t' ∧ engine_stats_ok stats'.
Proof.
  intros Hc Hinv Hs. unfold funnel_thread_step. destruct (ft_ended t); [by exists t, stats|].
  destruct Hinv as [[z0 Ht] Hw Hp]. rewrite Ht.
  set (f := mkFunnel _ _ _ _). destruct (funnel_step_run (packet_msg src) ticks fwd z0 f)
    as [(f' & b & -> & [Hw' _ Hst'] & [_ _ Hb Hpush _ _])|(f' & -> & Hw' & _ & _ & Hst & Hpush & _)]; [by split|..];
    rewrite bind_Ret; do 2 eexists; (split; [done|]).
  - split; [split; [by eexists|done|]|done]. cbn [ft_funnel]. rewrite Hpush. by apply Forall_app_2.
  - split; [split; [by eexists|done|]|by rewrite Hst]. cbn [ft_funnel]. by rewrite Hpush.
Qed.

Lemma funnel_inv_step y a : sys_inv y →
  (∃ c, (a = FunnelTpu c ∨ a = FunnelFwd c) ∧ feed_ok (from_generators y) c) → ∃ y', exec y a = Ret y' ∧ sys_inv y'.
Proof.
  intros Hy (c & Ha & [Hne Hidx Hsafe]).
  assert (Hc : feed_ok (packet_msg (made y)) c).
  { split; [done|done|]. eapply Forall_impl; [exact Hsafe|]. intros c0. apply safe_mono. intros x. by apply from_generators_made. }
  pose proof Hy as [Hg1 Hg2 Ht Hf Hs Hsent Hm Hfl Hst]. destruct Ha as [-> | ->]; cbn [System.exec].
  - destruct (funnel_thread_inv _ false c _ _ Hc Ht Hst) as (t' & stats' & -> & Ht' & Hst'). rewrite bind_Ret.
    eexists. split; [done|]. by split.
  - destruct (funnel_thread_inv _ true c _ _ Hc Hf Hst) as (t' & stats' & -> & Ht' & Hst'). rewrite bind_Ret.
    eexists. split; [done|]. by split.
Qed.
(** The service does a stage with what its channels hold. *)
Lemma run_stage_inv src old st sv :
  service_inv META_CAP SIG_CAP src 0 false old ticks fuel sv →
  (∃ sv', run_stage META_CAP SIG_CAP fuel args st sv = Ret sv' ∧ service_inv META_CAP SIG_CAP src 0 false old ticks fuel sv') ∨
  (run_stage META_CAP SIG_CAP fuel args st sv = NoFuel ∧ stage_floods st (channels sv)).
Proof.
  intros Hsv. destruct st; cbn [run_stage stage_floods].
  - left. by apply main_packets_inv.
  - destruct (main_signatures_inv META_CAP SIG_CAP src 0 false old ticks fuel sv Hsigc Hsv) as [([e sv'] & -> & Hsv')|(_ & -> & Ho)]; [left|by right].
    by exists sv'.
  - destruct (main_metas_inv META_CAP SIG_CAP src 0 false old ticks fuel args sv Hsv) as [|(_ & ? & ?)]; [by left|by right].
  - destruct (main_feedback_inv META_CAP SIG_CAP src 0 false old ticks fuel sv Hsv) as [|(_ & ? & ?)]; [by left|by right].
Qed.

Lemma set_channels_inv y ch :
  sys_inv y → admissible y (Serve ch) →
  service_inv META_CAP SIG_CAP (made y) 0 false (service_sent y) ticks fuel (set_channels (sy_service y) ch).
Proof.
  intros Hy (Htpu & Hfwd & Hre1 & Hre2 & Hsig & Hsch & Hrec).
  assert (Hfun : ∀ t c, funnel_inv (made y) t → safe (from_funnel t) c → safe (packet_msg (made y)) c).
  { intros t c [_ _ Hp]. apply safe_mono. intros x Hx. rewrite Forall_forall in Hp. by apply Hp, published_sub. }
  destruct (iv_service _ Hy) as [Hproc Hrs Hbank Hbal Hcomp Ht Hw _ _ _ _]. split; try done.
  - unfold packet_consumers. cbn [set_channels channels]. repeat constructor.
    + by eapply Hfun; [apply (iv_tpu _ Hy)|].
    + by eapply Hfun; [apply (iv_fwd _ Hy)|].
    + by eapply safe_mono; [|exact Hre1].
    + by eapply safe_mono; [|exact Hre2].
  - eapply safe_mono; [|exact Hsig]. intros x Hx. pose proof (iv_fails _ Hy) as Hf. rewrite Forall_forall in Hf.
    eapply sigverify_msg_mono; [|by apply Hf, published_sub]. by intros p [? _].
  - apply safe_any.
  - apply safe_any.
Qed.

Lemma serve_inv y ch : sys_inv y → admissible y (Serve ch) →
  (∃ y', exec y (Serve ch) = Ret y' ∧ sys_inv y') ∨ action_fails y (Serve ch) (exec y (Serve ch)).
Proof.
  intros Hy Ha. cbn [System.exec].
  destruct (run_stage_inv _ _ (sy_stage y) _ (set_channels_inv y ch Hy Ha)) as [(sv & -> & Hsv)|(-> & Hfl)]; [left|by right].
  rewrite bind_Ret. eexists. split; [done|]. set (y' := mkSystem _ _ _ _ _ _ _ _).
  destruct (service_rebase META_CAP SIG_CAP _ _ _ _ _ _ _ Hsv) as (p & sent & Hp & Hpush & Hfw & Hsv').
  assert (Hs' : service_sent y' = service_sent y ++ sent) by (rewrite (sent_transmitter y' p Hp); done).
  assert (Hrel : ∀ q, relayed y q → relayed y' q).
  { intros q [Hq Hin]. split; [done|]. rewrite Hs'. apply elem_of_app. by left. }
  destruct Hy as [Hg1 Hg2 Ht Hf Hs Hsent Hm Hfl Hst]. split; try done.
  - rewrite (sent_transmitter y' p Hp). exact Hsv'.
  - rewrite Hs'. by apply Forall_app_2.
  - by eapply mock_ok_mono.
  - eapply Forall_impl; [exact Hfl|]. by apply sigverify_msg_mono.
Qed.

(** The mock takes a packet. *)
Lemma bank_inv y c : sys_inv y → admissible y (Bank c) →
  (∃ y', exec y (Bank c) = Ret y' ∧ sys_inv y') ∨ action_fails y (Bank c) (exec y (Bank c)).
Proof.
  intros Hy Hc. cbn [System.exec]. pose proof Hy as [Hg1 Hg2 Ht Hf Hs Hsent Hm Hfl Hst].
  assert (Hm' : mock_ok (relayed y) write_to_file (set_feed (sy_mock y) c)).
  { destruct Hm. split; try done. cbn [set_feed banking_consumer]. eapply safe_mono; [|exact Hc]. intros x Hx%published_sent.
    rewrite Forall_forall in Hsent. destruct (Hsent x Hx) as (p & Hfw & Hp & ->). exists p. by split_and!. }
  destruct (λ Hl, bank_step_run (relayed y) write_to_file (sy_hasher y) _ (sy_stats y) Hl Hm')
    as [(mb & s' & msgs & fails & metas & sigs & Hb & Hok & _ & Hac)|(Hb & Hst')];
    [unfold PRICE_AND_TRANSFER_TX_TX_LEN in Hsize; lia|left|right; rewrite Hb; by split].
  rewrite Hb, bind_Ret. eexists. split; [done|]. split; try done.
  - cbn [sy_mock]. rewrite (ac_sig_producer _ _ _ _ _ _ _ _ _ Hac). apply Forall_app_2; [done|apply (ac_fails _ _ _ _ _ _ _ _ _ Hac)].
  - by eapply bank_step_stats.
Qed.

Lemma exec_inv y a : sys_inv y → admissible y a →
  (∃ y', exec y a = Ret y' ∧ sys_inv y') ∨ action_fails y a (exec y a).
Proof.
  intros Hy Ha. destruct a as [i|c|c|ch|c].
  - by apply generate_inv.
  - left. apply funnel_inv_step; eauto.
  - left. apply funnel_inv_step; eauto.
  - by apply serve_inv.
  - by apply bank_inv.
Qed.

Lemma initial_inv y : initial y → sys_inv y.
Proof.
  intros [Hgen [Ht0 Ht1 Ht2] [Hf0 Hf1 Hf2] Hsv _ Hmb Hst].
  destruct Hsv as (ch & prod & rm & rs & w & Hw & Hch & Hrm & Hrs & Hprod & Hinit).
  destruct (main_init_inv (SIGNERS := SIGNERS) (IPS := IPS) META_CAP SIG_CAP (λ _, False) false args ch prod rm rs w ticks fuel Hw Hch Hrm Hrs) as (sv & Hsv & Hinv).
  rewrite Hinit in Hsv. injection Hsv as <-. rewrite Hprod in Hinv.
  destruct (service_rebase META_CAP SIG_CAP _ _ _ _ _ _ _ Hinv) as (p & sent & Hp & Hpush & Hfw & _).
  assert (Hsent : service_sent y = []).
  { rewrite (sent_transmitter y p Hp), Hpush. destruct sent as [|x sent]; [done|]. by apply Forall_cons in Hfw as [(q & _ & [] & _) _]. }
  destruct Hmb as (fs & eargs & c & sig & sch & recent & Hwf & Hc & Hsig & Hsch & Hrec & Hnew).
  assert (Hgo : ∀ g, g ∈ sy_generators y → gen_ok AGENTS write_to_file g ∧ pushed (gen_producer g) = []).
  { intros g Hg. rewrite Forall_forall in Hgen. destruct (Hgen g Hg) as (fs' & file & p0 & id & e & Hfs & Hp0 & Hg').
    destruct (generator_new_run fs' write_to_file file p0 id e Hfs) as (g2 & Hg2 & Hok & Epr & _).
    rewrite Hg' in Hg2. injection Hg2 as <-. by rewrite Epr. }
  split.
  - apply Forall_forall. intros g Hg. by apply Hgo.
  - apply Forall_forall. intros g Hg. destruct (Hgo g Hg) as [_ ->]. constructor.
  - split; [done|done|by rewrite Ht2].
  - split; [done|done|by rewrite Hf2].
  - rewrite Hsent. by eapply service_inv_mono; [|exact Hinv].
  - by rewrite Hsent.
  - unfold bank_new in Hnew. destruct (log_open fs (ea_write_to_file eargs) _) as [o| | |] eqn:Ho; try done.
    rewrite bind_Ret in Hnew. injection Hnew as <- _. split; cbn; try lia.
    + intros ->. unfold log_open in Ho. rewrite Hwf in Ho. destruct (file_create _ _); try done. rewrite bind_Ret in Ho.
      injection Ho as <-. by eexists.
    + by eapply safe_mono; [|exact Hc].
  - unfold bank_new in Hnew. destruct (log_open fs (ea_write_to_file eargs) _) as [o| | |]; try done.
    rewrite bind_Ret in Hnew. injection Hnew as <- _. cbn. by rewrite Hsig.
  - rewrite Hst. repeat constructor; unfold u64_ok, in_u; cbn; lia.
Qed.

Lemma reachable_sys_inv y0 y : reachable y0 y → sys_inv y.
Proof.
  induction 1 as [Hi|y a y' _ IH Ha He]; [by apply initial_inv|].
  destruct (exec_inv y a IH Ha) as [(y2 & Hy2 & Hinv)|Hf]; [rewrite He in Hy2; by injection Hy2 as <-|].
  rewrite He in Hf. destruct a; cbn in Hf; by destruct Hf.
Qed.
(** The stages make up the iteration of the service. *)
Lemma stages_iterate sv :
  main_step META_CAP SIG_CAP fuel args sv =
  (let run st sv := run_stage META_CAP SIG_CAP fuel args st sv in
   sv ← run PacketStage sv; sv ← run SignatureStage sv; sv ← run MetaStage sv; run FeedbackStage sv).
Proof.
  unfold main_step, run_stage. cbv zeta. destruct (main_packets META_CAP sv); try done. rewrite !bind_Ret.
  by destruct (main_signatures SIG_CAP fuel _) as [[]| | |].
Qed.

(** C1. The system is safe.  From the start of all threads with empty channels, under any
    interleaving of their iterations and whatever the channels lose, repeat or reorder, in
    every reachable state every action the channels admit returns, with three exceptions:
    a generator that logs panics when one of the next two writes to its log fails; the
    mock, when it logs and such a write fails at its last logged packet; and a stage of the
    service that reads a feedback channel until it is empty does not end while that channel
    yields messages (it is cut off after [fuel] of them).  No other panic and no undefined
    behaviour is possible.  Every packet the service has sent to the signature verification can be
    verified there, was made by one of the agents and pushed by a generator; every packet
    reported as failed is one that the service has sent; and the counters of the service
    account for every packet it has received. *)
Theorem system_safe y0 y a :
  reachable y0 y → admissible y a →
  ((∃ y', exec y a = Ret y') ∨ action_fails y a (exec y a)) ∧
  Forall (λ x, ∃ p g, x = from_packet p ∧ forwardable p ∧ sent_by AGENTS p ∧
    g ∈ sy_generators y ∧ x ∈ pushed (gen_producer g)) (service_sent y) ∧
  Forall (λ x, x ∈ service_sent y) (pushed (sig_qos_producer (sy_mock y))) ∧
  let sv := sy_service y in
  model_wf (qos_model (proc sv)) ∧ eqm (flow (stats (proc sv))) (queued (container sv)).
Proof.
  intros Hr Ha. pose proof (reachable_sys_inv y0 y Hr) as Hy.
  split_and!; [destruct (exec_inv y a Hy Ha) as [(y' & He & _)|]; [left; by exists y'|by right]| | |].
  - eapply Forall_impl; [exact (iv_sent _ Hy)|]. intros x (p & Hfw & (Hp & g & Hg & Hx) & ->). exists p, g. by split_and!.
  - eapply Forall_impl; [exact (iv_fails _ Hy)|]. by intros x (p & ip & _ & [_ Hx] & _ & ->).
  - cbn zeta. destruct (iv_service _ Hy) as [[l Hproc] _ _ Hbal _ _ _ _ _ _ _]. split; [apply Hproc|].
    unfold balanced in Hbal. by rewrite Z.add_0_r in Hbal.
Qed.
End Invariant.

(** ** Witness: one generator, before its first round *)
Section Witnesses.
#[local] Existing Instance ref_ordered_float.
#[local] Existing Instance ref_ordered_float_laws.
#[local] Existing Instance ref_sokoban.
#[local] Existing Instance ref_sokoban_laws.
#[local] Existing Instance ref_packet.
#[local] Existing Instance ref_packet_laws.
#[local] Existing Instance ref_hash.
#[local] Existing Instance ref_view.
#[local] Existing Instance ref_view_laws.
#[local] Existing Instance ref_raw_view.
#[local] Existing Instance ref_raw_view_laws.
#[local] Existing Instance ref_heap.
#[local] Existing Instance ref_heap_laws.
#[local] Existing Instance ref_que.
#[local] Existing Instance ref_que_laws.
#[local] Existing Instance ref_keys.
#[local] Existing Instance ref_entropy.
#[local] Existing Instance ref_entropy_laws.
#[local] Existing Instance ref_dist.
#[local] Existing Instance ref_dist_laws.
#[local] Existing Instance ref_const_hash.
#[local] Existing Instance ref_tx.
#[local] Existing Instance ref_tx_laws.
#[local] Existing Instance ref_choose.
#[local] Existing Instance ref_choose_laws.

Definition quiet_chans : Channels :=
  mkChannels (packet_channel []) (packet_channel []) (packet_channel []) (packet_channel []) (packet_channel [])
    (meta_channel []) (sig_channel []).
Definition quiet_thread (w : Machine) : FunnelThread :=
  mkThread (RDTSC 0) (mkFunnel (mkEngine (mkConsumer [packet_channel []] 0) quiet_producer) 0 STATS w) false.
Definition quiet_mock : MockBanking := mkMock (packet_channel []) quiet_producer ([], []) ([], []) 0 0 0 None 0.

Lemma quiet_channels_safe : channels_safe (λ _, False) quiet_chans.
Proof.
  split; [|apply ref_safe; constructor].
  repeat (apply Forall_cons; split; [apply ref_safe; constructor|]). constructor.
Qed.

Lemma system_safe_witness :
  ∃ y y' : System (SIGNERS := 16) (IPS := 16), length (sy_generators y) = 1%nat ∧
    exec 4 4 5 demo_args false y (Generate 0) = Ret y'.
Proof.
  destruct (generator_new_run good_disk false (text "tpu_to_qos") quiet_producer 1 demo_entropy) as (g & Hg & _); [discriminate|].
  destruct (main_init_inv (SIGNERS := 16) (IPS := 16) 4 4 (λ _, False) false demo_args quiet_chans quiet_producer (new 4) (new 4)
    boot_machine 1 5 demo_ready quiet_channels_safe eq_refl eq_refl) as (sv & Hsv & Hinv).
  set (y := mkSystem [g] (quiet_thread (machine sv)) (quiet_thread (machine sv)) sv PacketStage quiet_mock (initialize_with_seed 7) STATS).
  assert (Hf : fresh_funnel 1 (quiet_thread (machine sv))) by (split; [by eexists|apply Hinv|reflexivity]).
  destruct (system_safe (SIGNERS := 16) (IPS := 16) 4 4 5 demo_args false 1) with (y0 := y) (y := y) (a := Generate 0)
    as ([(y' & E)|(_ & ? & _)] & _); [lia|lia|apply Nat.ltb_lt; reflexivity| |exact I|exists y, y'; split; [reflexivity|exact E]|discriminate].
  constructor. split; try done.
  - apply Forall_singleton. exists good_disk, (text "tpu_to_qos"), quiet_producer, 1, demo_entropy. split_and!; done.
  - exists quiet_chans, quiet_producer, (new 4), (new 4), boot_machine.
    split_and!; [apply demo_ready|apply quiet_channels_safe|reflexivity|reflexivity|reflexivity|exact Hsv].
  - exists good_disk, (mkEngineArgs 1 7 false false), (packet_channel []), quiet_producer, ([], []), ([], []).
    split_and!; try reflexivity. apply ref_safe. constructor.
Defined.
End Witnesses.
