(* ===== verification/EndToEnd.v ===== *)
(** The traffic of the whole system ([System]) in terms of transactions ([Traffic]): what
    the generators push, and what reaches the signature verification. *)
From Stdlib Require Import ZArith Lia SpecFloat String.
From stdpp Require Import gmap list strings.
From S2P Require Import Prelude Lru LruSpec F64 RedBlack ScoreTable Model ModelProps MinMax Wire Stats Timer Que Mpsc.
From S2P Require Import Core CoreProps Banking BankingProps Rng Agent AgentProps Text Engine EngineProps Qos QosProps.
From S2P Require Import MockBanking MockProps System Wireformat TxPatch Traffic.
Local Open Scope Z_scope.

Section EndToEnd.
Context `{OrderedFloatLaws} `{SokobanLaws} `{PacketLaws} `{!DataLaws} `{HashOps} `{RawViewLaws} `{!ViewLaws} `{BincodeOps} `{!WireLaws}.
Context `{HeapLaws} `{QueLaws} `{KeyLaws} `{!EntropyOps} `{!EntropyLaws} `{!UniqueLaws} `{DistLaws} `{ConstHashOps}.
Context `{TxOps} `{!TxLaws} `{!CompileLaws} `{ChooseLaws}.
Context {SIGNERS IPS : nat} (META_CAP SIG_CAP fuel : nat) (args : Args) (write_to_file : bool) (ticks : Z).
Context (Hmeta : (0 < META_CAP)%nat) (Hsigc : (0 < SIG_CAP)%nat).
Context (Hsize : (PRICE_AND_TRANSFER_TX_TX_LEN < PACKET_DATA_SIZE)%nat).
Abbreviation system := (System (SIGNERS := SIGNERS) (IPS := IPS)).
Abbreviation reachable := (reachable (SIGNERS := SIGNERS) (IPS := IPS) META_CAP SIG_CAP fuel args write_to_file ticks).
Implicit Types (y : system) (g : Generator) (p : Packet) (t : transfer).

(** A generator whose packet holds a transaction and which has pushed packets of agents. *)
Definition gen_carries g : Prop :=
  (∃ t, carries (gen_packet g) t) ∧
  Forall (λ x, ∃ p, x = from_packet p ∧ agent_packet p) (pushed (gen_producer g)).

Lemma generator_new_gen_carries (fs : file_system) file (p0 : producer PacketBytes) id e g :
  (write_to_file = true → is_Some (fs (generator_path file id))) → pushed p0 = [] →
  generator_new fs write_to_file file p0 id e = Ret g → gen_carries g.
Proof.
  intros Hfs Hp0 Hg. split; [by eapply generator_new_carries|].
  destruct (generator_new_run fs write_to_file file p0 id e Hfs) as (g' & Hg' & _ & Hp & _).
  rewrite Hg in Hg'. injection Hg' as <-. rewrite Hp, Hp0. constructor.
Qed.

Lemma reachable_carries y0 y : reachable y0 y → Forall gen_carries (sy_generators y).
Proof.
  induction 1 as [Hi|y a y' Hr IH Ha He].
  - eapply Forall_impl; [exact (in_generators _ _ _ _ _ _ Hi)|].
    intros g (fs & file & p & id & e & Hfs & Hp & Hg). by eapply generator_new_gen_carries.
  - pose proof (reachable_sys_inv META_CAP SIG_CAP fuel args write_to_file ticks Hmeta Hsigc Hsize y0 y Hr) as Hy.
    destruct a as [i|c|c|ch|c]; cbn [exec] in He.
    + destruct (sy_generators y !! i) as [g|] eqn:Hg; [|by injection He as <-].
      pose proof (Forall_lookup_1 _ _ _ _ IH Hg) as [[t Hc] Hpush].
      pose proof (Forall_lookup_1 _ _ _ _ (iv_generators _ _ _ _ _ _ Hy) Hg) as Hok.
      destruct (gen_step write_to_file g) as [g'| | |] eqn:Hs; try discriminate. rewrite bind_Ret in He. injection He as <-.
      destruct (gen_step_carries Hsize write_to_file g t g' Hok Hc Hs) as (_ & p & t' & Hp & Hc' & Hpush'). cbn [sy_generators]. apply Forall_insert; [done|].
      split; [by eexists|]. rewrite Hpush'. apply Forall_app_2; [done|]. repeat constructor; by exists p.
    + destruct (funnel_thread_step false c (sy_tpu y) (sy_stats y)) as [[]| | |]; try discriminate. by injection He as <-.
    + destruct (funnel_thread_step true c (sy_fwd y) (sy_stats y)) as [[]| | |]; try discriminate. by injection He as <-.
    + destruct (run_stage _ _ _ _ _ _) as [| | |]; try discriminate. by injection He as <-.
    + destruct (bank_step _ _ _ _) as [[]| | |]; try discriminate. by injection He as <-.
Qed.

Lemma agent_palindrome ip : octets ip ∈ AGENTS → to_bits ip = ip_key ip.
Proof.
  intros Hin. destruct ip as [a b c d]. unfold AGENTS, octets in Hin. cbn [oct0 oct1 oct2 oct3] in Hin.
  repeat (apply elem_of_cons in Hin as [[= -> -> -> ->]|Hin]; [reflexivity|]). by apply not_elem_of_nil in Hin.
Qed.

Lemma agent_packet_price p t : agent_packet p → carries p t → read_price p = Ret (tr_price t) ∧ 0 ≤ tr_price t ≤ 1000000000.
Proof.
  intros [Hs _] [Hok (rest & Hbuf & _) _]. destruct (sb_price _ _ Hs) as (price & Hp & Hb).
  assert (Hr : read_price p = Ret (tr_price t)).
  { destruct p as [buf m]. cbn [pkt_buffer] in Hbuf. subst buf. by apply wire_read_price. }
  split; [done|]. rewrite Hr in Hp. by injection Hp as ->.
Qed.

(** C2. Transactions through the system.  In every reachable state, whatever the threads and
    channels have done, every message a generator has pushed is a packet that is empty or
    holds a price-and-transfer transaction; and every message the service has sent to the
    signature verification is such a transaction, whole: it can be decoded, comes from one
    of the three agents, and has a price of at most 1e9.  No empty packet is ever passed on.
    The addresses of the agents read the same in both byte orders, so the feedback
    for an empty packet does reach its source in this system. *)
Theorem system_transactions y0 y :
  reachable y0 y →
  Forall (λ g, Forall (λ x, ∃ p t, x = from_packet p ∧ carries p t ∧ (payload p = [] ∨ payload p = wire t)) (pushed (gen_producer g)))
    (sy_generators y) ∧
  Forall (λ x, ∃ p t ip, x = from_packet p ∧ payload p = wire t ∧ bincode_deserialize (payload p) = Some (transfer_tx t) ∧
    0 ≤ tr_price t ≤ 1000000000 ∧ read_price p = Ret (tr_price t) ∧
    pkt_addr (pkt_meta p) = V4 ip ∧ octets ip ∈ AGENTS ∧ to_bits ip = ip_key ip) (service_sent y).
Proof.
  intros Hr. pose proof (reachable_carries y0 y Hr) as Hg.
  pose proof (reachable_sys_inv META_CAP SIG_CAP fuel args write_to_file ticks Hmeta Hsigc Hsize y0 y Hr) as Hy.
  assert (Hpay : ∀ p t ip, agent_packet p → carries p t → pkt_addr (pkt_meta p) = V4 ip →
    (pkt_size (pkt_meta p) = 0 ∧ payload p = []) ∨ (pkt_size (pkt_meta p) ≠ 0 ∧ payload p = wire t)).
  { intros p t ip [Hs _] Hc Ha. destruct (decide (pkt_size (pkt_meta p) = 0)) as [Hz|Hz]; [left|right]; split; try done.
    - unfold payload. by rewrite Hz.
    - by apply (classify_carries p t None ip (sb_ok _ _ Hs) Hc (sb_size _ _ Hs) Hsize Ha). }
  split.
  - eapply Forall_impl; [exact Hg|]. intros g [_ Hp]. eapply Forall_impl; [exact Hp|].
    intros x (p & -> & Hp'). pose proof Hp' as [Hs [t Hc]]. destruct (sb_addr _ _ Hs) as (ip & Ha & _).
    exists p, t. split_and!; [done|done|]. destruct (Hpay p t ip Hp' Hc Ha) as [[_ ?]|[_ ?]]; auto.
  - eapply Forall_impl; [exact (iv_sent _ _ _ _ _ _ Hy)|]. intros x (p & Hfw & (Hs & g & Hin & Hx) & ->).
    rewrite Forall_forall in Hg. destruct (Hg g Hin) as [_ Hp]. rewrite Forall_forall in Hp.
    destruct (Hp _ Hx) as (q & Hq & Hq'). assert (p = q) as <-.
    { pose proof (packet_bytes_round p (sb_ok _ _ Hs)) as R1. pose proof (packet_bytes_round q (sb_ok _ _ (proj1 Hq'))) as R2.
      injection Hq as Hq. rewrite Hq in R1. congruence. }
    pose proof Hq' as [_ [t Hc]]. destruct (sb_addr _ _ Hs) as (ip & Ha & Hag). exists p, t, ip.
    destruct (agent_packet_price p t Hq' Hc) as [Hrd Hb].
    destruct (fw_view _ Hfw) as (d & u & v & Hd & Hu & _).
    rewrite (packet_data_live p (sb_ok _ _ Hs) (ca_flags _ _ Hc) (fw_size _ Hfw)) in Hd. injection Hd as <-.
    destruct (Hpay p t ip Hq' Hc Ha) as [[_ E]|[_ E]]; [by rewrite E, view_empty in Hu|].
    assert (Hdec : bincode_deserialize (payload p) = Some (transfer_tx t)) by
      (rewrite E; apply deserialize_encode, transfer_tx_ok, Hc).
    split_and!; try done; [apply Hb..|by apply agent_palindrome].
Qed.
End EndToEnd.

Section Witnesses.
#[local] Existing Instance ref_ordered_float.
#[local] Existing Instance ref_ordered_float_laws.
#[local] Existing Instance ref_sokoban.
#[local] Existing Instance ref_sokoban_laws.
#[local] Existing Instance ref_packet.
#[local] Existing Instance ref_packet_laws.
#[local] Existing Instance ref_data_laws.
#[local] Existing Instance ref_hash.
#[local] Existing Instance ref_wire_view.
#[local] Existing Instance ref_wire_view_laws.
#[local] Existing Instance ref_bincode.
#[local] Existing Instance ref_wire_laws.
#[local] Existing Instance ref_heap.
#[local] Existing Instance ref_heap_laws.
#[local] Existing Instance ref_que.
#[local] Existing Instance ref_que_laws.
#[local] Existing Instance ref_keys.
#[local] Existing Instance ref_keys_laws.
#[local] Existing Instance ref_entropy.
#[local] Existing Instance ref_entropy_laws.
#[local] Existing Instance ref_unique_laws.
#[local] Existing Instance ref_dist.
#[local] Existing Instance ref_dist_laws.
#[local] Existing Instance ref_const_hash.
#[local] Existing Instance ref_tx_wire.
#[local] Existing Instance ref_tx_wire_laws.
#[local] Existing Instance ref_compile_laws.
#[local] Existing Instance ref_choose.
#[local] Existing Instance ref_choose_laws.

#[local] Instance wire_raw_view : RawViewOps := tx_signatures.
#[local] Instance wire_raw_view_laws : RawViewLaws.
Proof. intros u v Huv. cbn in Huv. case_decide; [|done]. by injection Huv as ->. Qed.

(** After one step of a generator, its two copies of the packet carry a transaction. *)
Lemma system_transactions_witness :
  ∃ (y : System (SIGNERS := 16) (IPS := 16)) g p t, sy_generators y = [g] ∧
    pushed (gen_producer g) = [from_packet p; from_packet p] ∧ carries p t.
Proof.
  assert (Hsize : (PRICE_AND_TRANSFER_TX_TX_LEN < PACKET_DATA_SIZE)%nat) by (apply Nat.ltb_lt; reflexivity).
  destruct (generator_new_run good_disk false (text "tpu_to_qos") quiet_producer 1 demo_entropy)
    as (g & Hg & Hgok & Hgp & _); [discriminate|].
  destruct (main_init_inv (SIGNERS := 16) (IPS := 16) 4 4 (λ _, False) false demo_args quiet_chans quiet_producer (new 4) (new 4)
    boot_machine 1 5 demo_ready quiet_channels_safe eq_refl eq_refl) as (sv & Hsv & Hinv).
  set (y := mkSystem [g] (quiet_thread (machine sv)) (quiet_thread (machine sv)) sv PacketStage quiet_mock (initialize_with_seed 7) STATS).
  assert (Hf : fresh_funnel 1 (quiet_thread (machine sv))) by (split; [by eexists|apply Hinv|reflexivity]).
  destruct (generator_new_carries Hsize _ _ _ _ _ _ _ Hg) as [t0 Ht0].
  destruct (gen_step_run AGENTS false g Hsize Hgok) as [(g' & _ & Hstep & _)|(_ & ? & _)]; [|discriminate].
  destruct (gen_step_carries Hsize false g t0 g' Hgok Ht0 Hstep) as (_ & q & _ & _ & _ & Hpush).
  rewrite Hgp in Hpush.
  set (y' := mkSystem [g'] (sy_tpu y) (sy_fwd y) (sy_service y) (sy_stage y) (sy_mock y) (sy_hasher y) (sy_stats y)).
  destruct (system_transactions (SIGNERS := 16) (IPS := 16) 4 4 5 demo_args false 1) with (y0 := y) (y := y')
    as [Hall _]; [lia|lia|exact Hsize| |].
  - apply (reachable_step _ _ _ _ _ _ _ y (Generate 0)); [constructor|exact I|cbn [exec]].
    + split; [|exact Hf|exact Hf| |reflexivity| |reflexivity].
      * apply Forall_singleton. exists good_disk, (text "tpu_to_qos"), quiet_producer, 1, demo_entropy. split_and!; done.
      * exists quiet_chans, quiet_producer, (new 4), (new 4), boot_machine.
        split_and!; [apply demo_ready|apply quiet_channels_safe|reflexivity|reflexivity|reflexivity|exact Hsv].
      * exists good_disk, (mkEngineArgs 1 7 false false), (packet_channel []), quiet_producer, ([], []), ([], []).
        split_and!; try reflexivity. apply ref_safe. constructor.
    + change (sy_generators y !! 0%nat) with (Some g). cbv beta iota. by rewrite Hstep, bind_Ret.
  - change (sy_generators y') with [g'] in Hall. rewrite Forall_singleton, Hpush in Hall. apply Forall_inv in Hall as (p & t & Hp & Hc & _).
    exists y', g', p, t. split; [reflexivity|]. split; [|exact Hc]. rewrite Hpush, Hp. reflexivity.
Defined.
End Witnesses.
