(* ===== verification/Monitor.v ===== *)
(** The programs that display rates: the monitor of the mock validator
    ([engine-ipc/src/tui.rs]) and the two channel demos ([ipc-demo/src/main.rs],
    [std-demo/src/main.rs]).  What is modelled here are the numbers that are drawn, how the
    counters are read while other threads change them, and the loops that move packets;
    the screens are in [Screens]. *)
From Stdlib Require Import ZArith Lia SpecFloat.
From stdpp Require Import gmap list relations.
From S2P Require Import Prelude F64 Timer Wire Stats Que Core Display Engine EngineProps QosProps MockBanking MockProps.
Local Open Scope Z_scope.

(** ** The monitor *)
Module Tui.

(** Counter changes by the other threads. *)
Inductive write : Type := WTpu (n : Z) | WFwd (n : Z) | WRecvs (n : Z) | WSends (n : Z) | WSched (n : Z).
Definition apply_write (s : EngineStats) (x : write) : EngineStats :=
  match x with
  | WTpu n => add_tpu_sends n s
  | WFwd n => add_fwd_sends n s
  | WRecvs n => add_sigverify_recvs n s
  | WSends n => add_sigverify_sends n s
  | WSched n => add_scheduler_sends n s
  end.
Definition after (ws : list write) (s : EngineStats) : EngineStats := foldl apply_write s ws.

(** What the mock writes when it hands its counters over. *)
Definition flush_writes `{QueOps} (mb : MockBanking) : list write :=
  [WRecvs (received mb); WSends (failed mb); WSched (sched mb)].

(** [STATS.load()] reads the five counters one after the other; [w1] are the changes
    before the first reading, [w2] those between the first and the second, and so on. *)
Definition stats_load (w1 w2 w3 w4 w5 : list write) (s : EngineStats) : list Z * EngineStats :=
  let s1 := after w1 s in
  let s2 := after w2 s1 in
  let s3 := after w3 s2 in
  let s4 := after w4 s3 in
  let s5 := after w5 s4 in
  ([tpu_sends s1; fwd_sends s2; sigverify_recvs s3; sigverify_sends s4; scheduler_sends s5], s5).

(** Millions per second. *)
Definition rate (n : Z) (time : f64) : f64 := f64_div (f64_div (f64_of_uint n) time) (f64_of_uint 1000000).

Record Rates : Type := mkRates {
  tpu : f64; fwd : f64; sig : f64; sigf : f64; ss : f64; sch : f64; not_sch : f64;
  dedup : f64; invalid : f64; leaked : f64; total : f64;
}.

(** The differences, on [usize]. *)
Definition ss_count (recvs sends : Z) : Z := u64_sub recvs sends.
Definition not_sch_count (recvs sends sched : Z) : Z := u64_sub (u64_sub recvs sends) sched.

Definition draw (timer : Timer) (tpu_sends fwd_sends sigverify_recvs sigverify_sends scheduler_sends : Z)
    (qos_stats : Stats) (w : Machine) : outcome (Rates * Machine) :=
  '(elapsed, w) ← elapsed_ms timer w;
  let time := f64_div (f64_of_uint elapsed) (f64_of_uint 1000) in
  Ret (mkRates (rate tpu_sends time) (rate fwd_sends time) (rate sigverify_recvs time) (rate sigverify_sends time)
         (rate (ss_count sigverify_recvs sigverify_sends) time) (rate scheduler_sends time)
         (rate (not_sch_count sigverify_recvs sigverify_sends scheduler_sends) time)
         (rate (u64_add (u64_add (duplicate_packets qos_stats) (recently_processed qos_stats))
                  (recently_processed_queued qos_stats)) time)
         (rate (u64_add (u64_add (u64_add (u64_add (u64_add (failed_sanitize qos_stats) (failed_view qos_stats))
                  (invalid_meta_size qos_stats)) (invalid_packet_data qos_stats)) (non_ipv4 qos_stats))
                  (non_transaction_packet qos_stats)) time)
         (rate (leaked_priority qos_stats) time) (rate (total_packets qos_stats) time), w).

Definition should_quit {E} (poll : result bool E) (read : result Event E) : result bool E :=
  match poll with
  | Err e => Err e
  | Ok true =>
     match read with
     | Err e => Err e
     | Ok (EventKey code) => Ok (bool_decide (KeyChar 113 = code))
     | Ok EventOther => Ok false
     end
  | Ok false => Ok false
  end.

(** ** Facts *)
(** Nothing is counted as failed or scheduled that was not received, and no counter has
    overflowed. *)
Record consistent (s : EngineStats) : Prop := {
  con_sends : 0 ≤ sigverify_sends s;
  con_sched : 0 ≤ scheduler_sends s;
  con_recvs : sigverify_sends s + scheduler_sends s ≤ sigverify_recvs s < 2 ^ 64;
}.

Lemma u64_sub_small a b : in_u 64 (a - b) → u64_sub a b = a - b.
Proof. apply wrap_id. Qed.
Lemma u64_sub_wraps a b : 0 ≤ a < b → b ≤ 2 ^ 64 → u64_sub a b = 2 ^ 64 + a - b.
Proof.
  intros Ha Hb. unfold u64_sub, wrap. rewrite <- (Z_mod_plus_full (a - b) 1), Z.mod_small by lia. lia.
Qed.

Section Facts.
Context `{PacketLaws} `{HashOps} `{RawViewLaws} `{!ViewLaws} `{QueLaws}.

Lemma flush_is_writes mb s :
  received mb mod 32768 = 0 → (bank_flush mb s).2 = after (flush_writes mb) s.
Proof.
  intros Hm. unfold bank_flush. change (32 * 1024 - 1) with (Z.ones 15). rewrite Z.land_ones by lia.
  change (2 ^ 15) with 32768. by rewrite decide_True.
Qed.

Lemma flush_fields mb s :
  consistent s → 0 ≤ failed mb → 0 ≤ sched mb → failed mb + sched mb ≤ received mb →
  sigverify_recvs s + received mb < 2 ^ 64 →
  let s' := after (flush_writes mb) s in
  consistent s' ∧ sigverify_recvs s' = sigverify_recvs s + received mb ∧
  sigverify_sends s' = sigverify_sends s + failed mb ∧ scheduler_sends s' = scheduler_sends s + sched mb.
Proof.
  intros [H1' H2' H3'] Hf Hs Hsp Hr. cbn. rewrite !u64_add_small by (unfold in_u; lia).
  split_and!; try done. split; cbn; rewrite ?u64_add_small by (unfold in_u; lia); lia.
Qed.

(** C38. What the monitor shows.  If the mock hands its counters over before the
    monitor reads the number received, even while it reads the counters in front of
    it, or after all five readings, the counters it subtracts fit together and the differences are exact.  If the mock does so after the
    monitor has read the number received and before it reads the number failed, the
    monitor subtracts newer counters from an older one: when more packets failed since
    than had passed before, the difference wraps around to more than 2^64 - 32768. *)
Theorem monitor_differences mb s :
  consistent s → 0 ≤ failed mb → 0 ≤ sched mb → failed mb + sched mb ≤ received mb →
  received mb ≤ 32768 → sigverify_recvs s + received mb < 2 ^ 64 →
  (∀ w1 w2 w3, w1 ++ w2 ++ w3 = flush_writes mb ∨ w1 ++ w2 ++ w3 = [] →
     ∃ tpu fwd recvs sends sch, (stats_load w1 w2 w3 [] [] s).1 = [tpu; fwd; recvs; sends; sch] ∧
       ss_count recvs sends = recvs - sends ∧ 0 ≤ recvs - sends ∧
       not_sch_count recvs sends sch = recvs - sends - sch ∧ 0 ≤ recvs - sends - sch) ∧
  (∃ tpu fwd recvs sends sch, (stats_load [] [] [] (flush_writes mb) [] s).1 = [tpu; fwd; recvs; sends; sch] ∧
     recvs = sigverify_recvs s ∧ sends = sigverify_sends s + failed mb ∧
     (sigverify_recvs s - sigverify_sends s < failed mb →
      2 ^ 64 - 32768 ≤ ss_count recvs sends)).
Proof.
  intros Hc Hf Hs Hsp Hr Hrange. split.
  - intros w1 w2 w3 Hw. unfold stats_load. cbn [after foldl fst].
    assert (Hcons : consistent (after w3 (after w2 (after w1 s)))).
    { replace (after w3 (after w2 (after w1 s))) with (after (w1 ++ w2 ++ w3) s) by (unfold after; by rewrite !foldl_app).
      destruct Hw as [->| ->]; [|done]. by apply flush_fields. }
    do 5 eexists. split; [done|]. destruct Hcons. unfold ss_count, not_sch_count.
    rewrite !u64_sub_small by (unfold in_u; lia). lia.
  - destruct (flush_fields mb s Hc Hf Hs Hsp Hrange) as (_ & _ & Hs' & _).
    eexists _, _, (sigverify_recvs s), (sigverify_sends (after (flush_writes mb) s)), _.
    split; [done|]. split; [done|]. split; [exact Hs'|]. intros Hlt. rewrite Hs'.
    destruct Hc. unfold ss_count. rewrite u64_sub_wraps by lia. lia.
Qed.
End Facts.
End Tui.

(** ** The demo of the shared-memory channel *)
Module IpcDemo.
Section Code.
Context `{QueOps}.

Definition BATCH_SIZE : nat := 1024.
Definition packet : PacketBytes := PacketBytes_new (replicate PACKET_SIZE 42).

(** What [run] computes from the two counters. *)
Definition rates (reads writes : Z) (elapsed : Z) : f64 * f64 * f64 * f64 :=
  let elapsed_s := f64_div (f64_of_uint elapsed) (f64_of_uint 1000) in
  let rps := f64_div (f64_div (f64_of_uint reads) elapsed_s) (f64_of_uint 1000000) in
  let wps := f64_div (f64_div (f64_of_uint writes) elapsed_s) (f64_of_uint 1000000) in
  let bits n := u64_mul (u64_mul n (Z.of_nat PACKET_SIZE)) 8 in
  let rbps := f64_div (f64_div (f64_of_uint (bits reads)) elapsed_s) (f64_of_uint 1000000000) in
  let wbps := f64_div (f64_div (f64_of_uint (bits reads)) elapsed_s) (f64_of_uint 1000000000) in
  (rps, wps, rbps, wbps).

Definition should_quit {E} (poll : result bool E) (read : result Event E) : result bool E :=
  match poll with
  | Err e => Err e
  | Ok true =>
     match read with
     | Err e => Err e
     | Ok (EventKey code) => Ok (bool_decide (KeyChar 113 = code))
     | Ok EventOther => Ok false
     end
  | Ok false => Ok false
  end.

(** One round of the producer: a batch, published and counted. *)
Fixpoint push_batch (n : nat) (p : producer PacketBytes) : producer PacketBytes :=
  match n with O => p | S n => push_batch n (prod_push packet p) end.
Definition producer_round (p : producer PacketBytes) (WRITES : Z) : producer PacketBytes * Z :=
  (prod_sync (push_batch BATCH_SIZE p), u64_add WRITES (Z.of_nat BATCH_SIZE)).

(** [while consumer.pop().is_none() {}], and one round of the consumer. *)
Fixpoint pop_one (fuel : nat) (c : consumer PacketBytes) : outcome (consumer PacketBytes) :=
  match fuel with
  | O => NoFuel
  | S fuel => match cons_pop c with (Some _, c) => Ret c | (None, c) => pop_one fuel c end
  end.
Fixpoint pop_batch (n fuel : nat) (c : consumer PacketBytes) : outcome (consumer PacketBytes) :=
  match n with O => Ret c | S n => c ← pop_one fuel c; pop_batch n fuel c end.
Definition consumer_round (fuel : nat) (c : consumer PacketBytes) (READS : Z) : outcome (consumer PacketBytes * Z) :=
  c ← pop_batch BATCH_SIZE fuel c;
  Ret (c, u64_add READS (Z.of_nat BATCH_SIZE)).
End Code.

Lemma write_rate_is_read_rate reads writes elapsed : ∃ rps wps bps, rates reads writes elapsed = (rps, wps, bps, bps).
Proof. unfold rates. by do 3 eexists. Qed.

Lemma producer_round_run `{QueLaws} p (w : Z) :
  pushed (producer_round p w).1 = pushed p ++ replicate BATCH_SIZE packet ∧
  published (producer_round p w).1 = pushed (producer_round p w).1.
Proof.
  unfold producer_round. cbn [fst]. rewrite published_sync, pushed_sync. split; [|done].
  generalize BATCH_SIZE. intros n. revert p. induction n as [|n IH]; intros p; cbn [push_batch replicate]; [by rewrite app_nil_r|].
  by rewrite IH, pushed_push, <- app_assoc.
Qed.
End IpcDemo.

(** ** The demo of the standard library's channel *)
Module StdDemo.

Definition BATCH_SIZE : Z := 1024.
Definition packet : PacketBytes := PacketBytes_new (replicate PACKET_SIZE 42).

Definition rates (reads writes : Z) (elapsed : Z) : f64 * f64 * f64 * f64 :=
  let elapsed_s := f64_div (f64_of_uint elapsed) (f64_of_uint 1000) in
  let rps := f64_div (f64_div (f64_of_uint reads) elapsed_s) (f64_of_uint 1000000) in
  let wps := f64_div (f64_div (f64_of_uint writes) elapsed_s) (f64_of_uint 1000000) in
  let bits n := u64_mul (u64_mul n (Z.of_nat PACKET_SIZE)) 8 in
  let rbps := f64_div (f64_div (f64_of_uint (bits reads)) elapsed_s) (f64_of_uint 1000000000) in
  let wbps := f64_div (f64_div (f64_of_uint (bits reads)) elapsed_s) (f64_of_uint 1000000000) in
  (rps, wps, rbps, wbps).

Definition should_quit {E} (poll : result bool E) (read : result Event E) : result bool E :=
  match poll with
  | Err e => Err e
  | Ok true =>
     match read with
     | Err e => Err e
     | Ok (EventKey code) => Ok (bool_decide (KeyChar 113 = code))
     | Ok EventOther => Ok false
     end
  | Ok false => Ok false
  end.

(** The queue of the channel, how far each thread is in its batch, and the counters. *)
Record demo : Type := mkDemo {
  chan : list PacketBytes;
  in_batch_w : Z;
  in_batch_r : Z;
  WRITES : Z;
  READS : Z;
}.
Definition demo_init : demo := mkDemo [] 0 0 0 0.

(** The steps of the producer and of the consumer, which waits while the queue is
    empty, in any order. *)
Definition producer_step (d : demo) : demo :=
  if decide (in_batch_w d < BATCH_SIZE)
  then mkDemo (chan d ++ [packet]) (in_batch_w d + 1) (in_batch_r d) (WRITES d) (READS d)
  else mkDemo (chan d) 0 (in_batch_r d) (u64_add (WRITES d) BATCH_SIZE) (READS d).
Definition consumer_step (d : demo) : option demo :=
  if decide (in_batch_r d < BATCH_SIZE)
  then match chan d with
       | [] => None
       | _ :: c => Some (mkDemo c (in_batch_w d) (in_batch_r d + 1) (WRITES d) (READS d))
       end
  else Some (mkDemo (chan d) (in_batch_w d) 0 (WRITES d) (u64_add (READS d) BATCH_SIZE)).

Inductive step : demo → demo → Prop :=
| step_producer d : step d (producer_step d)
| step_consumer d d' : consumer_step d = Some d' → step d d'.

(** What is written and not read is in the queue. *)
Record demo_inv (d : demo) : Prop := {
  inv_chan : Forall (λ x, x = packet) (chan d);
  inv_w : 0 ≤ in_batch_w d ≤ BATCH_SIZE;
  inv_r : 0 ≤ in_batch_r d ≤ BATCH_SIZE;
  inv_flow : eqm (WRITES d + in_batch_w d) (READS d + in_batch_r d + Z.of_nat (length (chan d)));
}.

Lemma step_inv d d' : step d d' → demo_inv d → demo_inv d'.
Proof.
  intros Hs [Hc Hw Hr Hf]. unfold BATCH_SIZE in *. destruct Hs as [d|d d' Hs].
  - unfold producer_step, BATCH_SIZE. case_decide; split; cbn [chan in_batch_w in_batch_r WRITES READS]; try done; unfold BATCH_SIZE; try lia.
    + apply Forall_app_2; [done|]. by apply Forall_singleton.
    + rewrite length_app. cbn [length]. rewrite Nat2Z.inj_add, !Z.add_assoc, Hf. done.
    + rewrite eqm_u64_add. replace (in_batch_w d) with 1024 in Hf by lia. rewrite Z.add_0_r. exact Hf.
  - unfold consumer_step, BATCH_SIZE in Hs. case_decide; [destruct (chan d) as [|x c] eqn:E; [done|]|]; simplify_eq;
      split; cbn [chan in_batch_w in_batch_r WRITES READS]; try done; unfold BATCH_SIZE; try lia.
    + by apply Forall_cons in Hc as [_ Hc].
    + rewrite Hf. apply eq_subrelation; [apply _|]. cbn [length]. lia.
    + rewrite Hf, eqm_u64_add. replace (in_batch_r d) with 1024 by lia. apply eq_subrelation; [apply _|]. lia.
Qed.

(** Under any interleaving of the two threads nothing is lost or invented: the
    packets in the queue are those written and not yet read, all of them the packet of
    the producer, so the two displayed counters differ by the length of the queue up to
    the batches in progress (as [usize] values). *)
Theorem demo_conserves d :
  rtc step demo_init d →
  Forall (λ x, x = packet) (chan d) ∧ 0 ≤ in_batch_w d ≤ BATCH_SIZE ∧ 0 ≤ in_batch_r d ≤ BATCH_SIZE ∧
  eqm (WRITES d + in_batch_w d) (READS d + in_batch_r d + Z.of_nat (length (chan d))).
Proof.
  intros Hr. assert (Hi : demo_inv d); [|by destruct Hr, Hi].
  assert (H0 : demo_inv demo_init) by by split; [constructor|unfold BATCH_SIZE; cbn; lia..|].
  clear - Hr H0. induction Hr as [|d1 d2 d3 Hs _ IH]; [done|]. apply IH. by eapply step_inv.
Qed.
End StdDemo.

(** Rates before the first millisecond has passed are not numbers. *)
Lemma rate_at_start : Tui.rate 0 (f64_div (f64_of_uint 0) (f64_of_uint 1000)) = S754_nan.
Proof. reflexivity. Qed.

Section Witnesses.
#[local] Existing Instance ref_que.

(** Ten of ten packets received at first failed, and so did the 32768 that follow. *)
Definition failing_mock : MockBanking :=
  @mkMock ref_que [] ([], []) ([], []) ([], []) 32768 32768 0 None 0.

Lemma monitor_differences_witness :
  ∃ tpu fwd recvs sends sch,
    (Tui.stats_load [] [] [] (Tui.flush_writes failing_mock) [] (mkEngineStats 0 0 10 10 0)).1 = [tpu; fwd; recvs; sends; sch] ∧
    2 ^ 64 - 32768 ≤ Tui.ss_count recvs sends.
Proof.
  destruct (Tui.monitor_differences failing_mock (mkEngineStats 0 0 10 10 0))
    as [_ (tpu & fwd & recvs & sends & sch & E & _ & _ & Hw)]; try (cbn; lia).
  - split; cbn; lia.
  - exists tpu, fwd, recvs, sends, sch. split; [exact E|]. apply Hw. cbn. lia.
Defined.

Lemma demo_conserves_witness :
  eqm (StdDemo.WRITES (StdDemo.producer_step StdDemo.demo_init) + 1)
      (StdDemo.READS (StdDemo.producer_step StdDemo.demo_init) + 0 + 1).
Proof.
  destruct (StdDemo.demo_conserves (StdDemo.producer_step StdDemo.demo_init)) as (_ & _ & _ & Hf);
    [apply rtc_once; constructor|exact Hf].
Defined.
End Witnesses.
