(* ===== verification/Setup.v ===== *)
(** Setting a machine up: the command line tool that creates the channels
    ([cli/src/main.rs]) and the dropping of root privileges
    ([common/src/lib.rs]).

    [SysOps] are the environment and the calls of the C library; [SysLaws] is what the
    manual pages say of [setgid] and [setuid]: when they return 0 they have set the group
    and the user, and otherwise they have no effect.  When they fail is left open: even
    for root they can. *)
From Stdlib Require Import ZArith Lia String.
From stdpp Require Import gmap list strings.
From S2P Require Import Prelude Wire Que Core Qos.
Local Open Scope Z_scope.

(** ** Creating the channels *)
Inductive message_type : Type := PacketMessage | MetaMessage | SignatureMessage.
Definition CHANNELS : list (message_type * string * Z) :=
  [(PacketMessage, IPC_FWD_TO_QOS_NAME, IPC_FWD_TO_QOS_CAP);
   (PacketMessage, IPC_TPU_TO_QOS_NAME, IPC_TPU_TO_QOS_CAP);
   (PacketMessage, IPC_RE1_TO_QOS_NAME, IPC_RE1_TO_QOS_CAP);
   (PacketMessage, IPC_RE2_TO_QOS_NAME, IPC_RE2_TO_QOS_CAP);
   (PacketMessage, IPC_QOS_TO_SIG_NAME, IPC_QOS_TO_SIG_CAP);
   (PacketMessage, IPC_SIG_TO_QOS_NAME, IPC_SIG_TO_QOS_CAP);
   (MetaMessage, IPC_SCH_TO_QOS_NAME, IPC_SCH_TO_QOS_CAP);
   (SignatureMessage, IPC_STATUS_CACHE_NAME, IPC_STATUS_CACHE_CAP)].

(** [join_or_create] succeeds or not, and changes the shared memory; the names of the
    channels that could not be created are printed. *)
Section Cli.
Context {shm : Type} (join_or_create : message_type → string → Z → PageSize → shm → bool * shm).

Fixpoint initialize_huge (cs : list (message_type * string * Z)) (m : shm) : list string * shm :=
  match cs with
  | [] => ([], m)
  | (msg, name, size) :: cs =>
     let '(ok, m) := join_or_create msg name size (get_page_size true) m in
     let '(printed, m) := initialize_huge cs m in
     (if ok then printed else name :: printed, m)
  end.
Definition cli_main (m : shm) : list string * shm := initialize_huge CHANNELS m.
End Cli.

(** ** Dropping privileges *)
Class SysOps : Type := {
  sys : Type;
  env_var : string → sys → option (list Z);
  getpwnam : list Z → sys → option (Z * Z);
  setgid : Z → sys → Z * sys;
  setuid : Z → sys → Z * sys;
}.

(** The messages. *)
Inductive DropError : Type :=
| SudoUserNotSet
| InvalidUserName
| UserNotFound
| SetGidFailed (gid : Z)
| SetUidFailed (uid : Z).

(** [CString::new] refuses a zero byte; the user is given by its two numbers. *)
Definition checked_drop_privileges `{SysOps} (s : sys) : result () DropError * sys :=
  match env_var "SUDO_USER" s with
  | None => (Err SudoUserNotSet, s)
  | Some sudo_user =>
     if decide (0 ∈ sudo_user) then (Err InvalidUserName, s)
     else
     match getpwnam sudo_user s with
     | None => (Err UserNotFound, s)
     | Some (uid, gid) =>
        let '(r, s) := setgid gid s in
        if decide (r ≠ 0) then (Err (SetGidFailed gid), s)
        else
        let '(r, s) := setuid uid s in
        if decide (r ≠ 0) then (Err (SetUidFailed uid), s)
        else (Ok (), s)
     end
  end.

(** [ids] are the effective user and group. *)
Class SysLaws `{SysOps} : Type := {
  ids : sys → Z * Z;
  setgid_ok g s : (setgid g s).1 = 0 → ids (setgid g s).2 = ((ids s).1, g);
  setgid_err g s : (setgid g s).1 ≠ 0 → ids (setgid g s).2 = ids s;
  setuid_ok u s : (setuid u s).1 = 0 → ids (setuid u s).2 = (u, (ids s).2);
  setuid_err u s : (setuid u s).1 ≠ 0 → ids (setuid u s).2 = ids s;
}.

(** ** Properties *)

(** The user whose identity the process is to take, and the two calls, the group first. *)
Definition sudo_user `{SysOps} s (uid gid : Z) : Prop :=
  ∃ name, env_var "SUDO_USER" s = Some name ∧ (0 ∉ name) ∧ getpwnam name s = Some (uid, gid).
Definition group_call `{SysOps} gid s : Z * sys := setgid gid s.
Definition user_call `{SysOps} uid gid s : Z * sys := setuid uid (setgid gid s).2.

Lemma drop_cases `{SysLaws} s r s' :
  checked_drop_privileges s = (r, s') →
  match r with
  | Ok _ => ∃ uid gid, sudo_user s uid gid ∧ (group_call gid s).1 = 0 ∧ (user_call uid gid s).1 = 0 ∧
      s' = (user_call uid gid s).2 ∧ ids s' = (uid, gid)
  | Err SudoUserNotSet => env_var "SUDO_USER" s = None ∧ s' = s
  | Err InvalidUserName => (∃ name, env_var "SUDO_USER" s = Some name ∧ 0 ∈ name) ∧ s' = s
  | Err UserNotFound => (∃ name, env_var "SUDO_USER" s = Some name ∧ (0 ∉ name) ∧ getpwnam name s = None) ∧ s' = s
  | Err (SetGidFailed gid) => (∃ uid, sudo_user s uid gid) ∧ (group_call gid s).1 ≠ 0 ∧ ids s' = ids s
  | Err (SetUidFailed uid) => ∃ gid, sudo_user s uid gid ∧ (group_call gid s).1 = 0 ∧ (user_call uid gid s).1 ≠ 0 ∧
      ids s' = ((ids s).1, gid)
  end.
Proof.
  unfold checked_drop_privileges, group_call, user_call.
  destruct (env_var "SUDO_USER" s) as [name|] eqn:Henv; [|by intros [= <- <-]].
  case_decide as Hz; [intros [= <- <-]; eauto|].
  destruct (getpwnam name s) as [[uid gid]|] eqn:Hpw; [|intros [= <- <-]; eauto 10].
  assert (Hu : sudo_user s uid gid) by (exists name; eauto).
  pose proof (setgid_ok gid s) as Hgo. pose proof (setgid_err gid s) as Hge.
  destruct (setgid gid s) as [r1 s1] eqn:Eg. cbn [fst snd] in *.
  case_decide as Hr1; [intros [= <- <-]; rewrite Eg; split_and!; [by exists uid|done|by apply Hge]|].
  specialize (Hgo Hr1).
  pose proof (setuid_ok uid s1) as Huo. pose proof (setuid_err uid s1) as Hue.
  destruct (setuid uid s1) as [r2 s2] eqn:Eu. cbn [fst snd] in *. case_decide as Hr2; intros [= <- <-].
  - exists gid. rewrite Eg. cbn [fst snd]. rewrite Eu. split_and!; [done..|]. by rewrite Hue.
  - exists uid, gid. rewrite Eg. cbn [fst snd]. rewrite Eu. split_and!; [done..|].
    by rewrite Huo, Hgo.
Qed.

(** C37. Dropping privileges.  It succeeds exactly when [SUDO_USER] is set, has no zero
    byte and names a known user, and the two system calls, the group's first, return 0;
    the process then has the group and the user of that user.  Every failure is reported
    by the matching error: without a user nothing is called; a failed change of the group
    leaves both alone; a failed change of the user, which root can meet too, leaves the
    user as it was but keeps the new group. *)
Theorem privileges_dropped `{SysLaws} s :
  (∀ uid gid, sudo_user s uid gid → (group_call gid s).1 = 0 → (user_call uid gid s).1 = 0 →
     ∃ s', checked_drop_privileges s = (Ok (), s') ∧ ids s' = (uid, gid)) ∧
  match checked_drop_privileges s with
  | (Ok _, s') => ∃ uid gid, sudo_user s uid gid ∧ (group_call gid s).1 = 0 ∧ (user_call uid gid s).1 = 0 ∧ ids s' = (uid, gid)
  | (Err SudoUserNotSet, s') => env_var "SUDO_USER" s = None ∧ s' = s
  | (Err InvalidUserName, s') => (∃ name, env_var "SUDO_USER" s = Some name ∧ 0 ∈ name) ∧ s' = s
  | (Err UserNotFound, s') => (∃ name, env_var "SUDO_USER" s = Some name ∧ (0 ∉ name) ∧ getpwnam name s = None) ∧ s' = s
  | (Err (SetGidFailed gid), s') => (∃ uid, sudo_user s uid gid) ∧ (group_call gid s).1 ≠ 0 ∧ ids s' = ids s
  | (Err (SetUidFailed uid), s') => ∃ gid, sudo_user s uid gid ∧ (group_call gid s).1 = 0 ∧ (user_call uid gid s).1 ≠ 0 ∧
      ids s' = ((ids s).1, gid)
  end.
Proof.
  destruct (checked_drop_privileges s) as [r s'] eqn:E. pose proof (drop_cases s r s' E) as Hc. split.
  - intros uid gid (name & Henv & Hz & Hpw) Hg Hu.
    assert (Hone : ∀ uid' gid', sudo_user s uid' gid' → uid' = uid ∧ gid' = gid).
    { intros uid' gid' (name' & Henv' & _ & Hpw'). rewrite Henv in Henv'. injection Henv' as <-. rewrite Hpw in Hpw'. by injection Hpw'. }
    destruct r as [[]|[| | |g|u]].
    + destruct Hc as (uid' & gid' & [-> ->]%Hone & _ & _ & _ & Hids). by exists s'.
    + destruct Hc as [? _]. congruence.
    + destruct Hc as [(? & ? & ?) _]. congruence.
    + destruct Hc as [(? & ? & ? & ?) _]. congruence.
    + destruct Hc as ([uid' [_ ->]%Hone] & Hg' & _). done.
    + destruct Hc as (gid' & [-> ->]%Hone & _ & Hu' & _). done.
  - destruct r as [|[]]; [destruct Hc as (uid & gid & ? & ? & ? & _ & ?); eauto 10|done..].
Qed.

(** The tool creates what the service joins.  Under any semantics of the shared
    memory in which channels once created stay and can be joined under the same name,
    capacity and page size, a run that prints no failure leaves a memory in which the
    service, started with huge pages, joins all of its eight channels. *)
Theorem cli_creates_channels `{PacketOps} `{QueOps} {shm : Type}
    (join_or_create : message_type → string → Z → PageSize → shm → bool * shm) (created : shm → message_type → string → Z → Prop)
    join_packets join_metas join_signatures join_producer (m : shm) :
  (∀ msg name size m, (join_or_create msg name size Huge m).1 = true → created (join_or_create msg name size Huge m).2 msg name size) →
  (∀ msg name size m msg' name' size', created m msg' name' size' → created (join_or_create msg name size Huge m).2 msg' name' size') →
  (∀ m name size, created m PacketMessage name size → is_Some (join_packets m name size Huge) ∧ is_Some (join_producer m name size Huge)) →
  (∀ m name size, created m MetaMessage name size → is_Some (join_metas m name size Huge)) →
  (∀ m name size, created m SignatureMessage name size → is_Some (join_signatures m name size Huge)) →
  (cli_main join_or_create m).1 = [] →
  let m' := (cli_main join_or_create m).2 in
  ∃ ch p, join_ipc (join_packets m') (join_metas m') (join_signatures m') (join_producer m') (get_page_size true) = Ret (ch, p).
Proof.
  intros Hnew Hkeep Hp Hm Hs Hok. cbv zeta.
  assert (Hall : ∀ cs m, (initialize_huge join_or_create cs m).1 = [] →
    (∀ msg name size, created m msg name size → created (initialize_huge join_or_create cs m).2 msg name size) ∧
    Forall (λ c, created (initialize_huge join_or_create cs m).2 c.1.1 c.1.2 c.2) cs).
  { intros cs. induction cs as [|[[msg name] size] cs IH]; intros m0; cbn [initialize_huge]; [done|].
    change (get_page_size true) with Huge. pose proof (Hnew msg name size m0) as Hn. pose proof (Hkeep msg name size m0) as Hk.
    destruct (join_or_create msg name size Huge m0) as [ok m1]. cbn [fst snd] in *. specialize (IH m1).
    destruct (initialize_huge join_or_create cs m1) as [printed m2]. cbn [fst snd] in *. destruct ok; [|done].
    intros Hpr. destruct (IH Hpr) as [Hk' Hf']. split; [by auto|]. constructor; [cbn; by auto|done]. }
  destruct (Hall CHANNELS m Hok) as [_ Hf]. fold (cli_main join_or_create m) in Hf. set (m' := (cli_main join_or_create m).2) in *.
  unfold CHANNELS in Hf. rewrite !Forall_cons in Hf. cbn [fst snd] in Hf.
  destruct Hf as (F1 & F2 & F3 & F4 & F5 & F6 & F7 & F8 & _). unfold join_ipc. change (get_page_size true) with Huge.
  destruct (Hp _ _ _ F2) as [[c2 ->] _], (Hp _ _ _ F1) as [[c1 ->] _], (Hp _ _ _ F3) as [[c3 ->] _],
    (Hp _ _ _ F4) as [[c4 ->] _], (Hp _ _ _ F6) as [[c6 ->] _], (Hm _ _ _ F7) as [c7 ->],
    (Hp _ _ _ F5) as [_ [p ->]], (Hs _ _ _ F8) as [c8 ->]. by do 2 eexists.
Qed.

Section Witnesses.
(** A system with one user, 1000 in group 100; only root may change its identity, and the
    limit on the processes of user 1000 is reached when [busy] is set. *)
Record ref_process : Type := mkProcess { ref_uid : Z; ref_gid : Z; ref_busy : bool }.
#[local] Instance ref_sys : SysOps := {|
  sys := ref_process;
  env_var _ _ := Some [117];
  getpwnam _ _ := Some (1000, 100);
  setgid g s := if decide (ref_uid s = 0) then (0, mkProcess (ref_uid s) g (ref_busy s)) else (-1, s);
  setuid u s := if decide (ref_uid s = 0 ∧ ref_busy s = false) then (0, mkProcess u (ref_gid s) (ref_busy s)) else (-1, s);
|}.
#[local] Instance ref_sys_laws : SysLaws.
Proof.
  refine {| ids := (λ s : ref_process, (ref_uid s, ref_gid s)) : @sys ref_sys → Z * Z |};
    intros i [u g b]; cbn; case_decide; cbn in *; done.
Defined.

Definition root_process : sys := mkProcess 0 0 false.
(** Root succeeds, unless the limit is reached: then it keeps the user, with the new group. *)
Lemma privileges_dropped_witness :
  (∃ s', checked_drop_privileges root_process = (Ok (), s') ∧ ids s' = (1000, 100)) ∧
  (∃ s', checked_drop_privileges (mkProcess 0 0 true : sys) = (Err (SetUidFailed 1000), s') ∧ ids s' = (0, 100)).
Proof.
  split.
  - destruct (privileges_dropped root_process) as [Hok _]. apply Hok; [|reflexivity|reflexivity].
    exists [117]. split; [reflexivity|]. split; [|reflexivity]. intros Hin. apply list_elem_of_singleton in Hin. discriminate Hin.
  - eexists. split; reflexivity.
Defined.

#[local] Instance message_type_eq_dec : EqDecision message_type.
Proof. solve_decision. Defined.
#[local] Existing Instance ref_packet.
#[local] Existing Instance ref_que.

(** Shared memory as the list of the channels that exist. *)
Abbreviation channel_list := (list (message_type * string * Z)).
Definition ref_create (msg : message_type) (name : string) (size : Z) (_ : PageSize) (m : channel_list) : bool * channel_list :=
  (true, (msg, name, size) :: m).
Definition ref_join {T} (msg : message_type) (x : T) (m : channel_list) (name : string) (size : Z) (_ : PageSize) : option T :=
  if decide ((msg, name, size) ∈ m) then Some x else None.
Definition no_packets : consumer PacketBytes := [] : list PacketBytes.
Definition no_metas : consumer (QoSRemainingMeta ()) := [] : list (QoSRemainingMeta ()).
Definition no_signatures : consumer (list Z) := [] : list (list Z).
Definition new_producer : producer PacketBytes := ([] : list PacketBytes, [] : list PacketBytes).

Lemma cli_creates_channels_witness :
  ∃ ch p, join_ipc (ref_join PacketMessage no_packets (cli_main ref_create []).2) (ref_join MetaMessage no_metas (cli_main ref_create []).2)
    (ref_join SignatureMessage no_signatures (cli_main ref_create []).2) (ref_join PacketMessage new_producer (cli_main ref_create []).2)
    (get_page_size true) = Ret (ch, p).
Proof.
  apply (cli_creates_channels ref_create (λ m msg name size, (msg, name, size) ∈ m) (ref_join PacketMessage no_packets)
    (ref_join MetaMessage no_metas) (ref_join SignatureMessage no_signatures) (ref_join PacketMessage new_producer) []).
  - intros. apply list_elem_of_here.
  - intros. by apply list_elem_of_further.
  - intros m name size Hc. unfold ref_join. by rewrite !decide_True.
  - intros m name size Hc. unfold ref_join. by rewrite decide_True.
  - intros m name size Hc. unfold ref_join. by rewrite decide_True.
  - reflexivity.
Defined.
End Witnesses.
