(* ===== verification/Main.v ===== *)
(** The service from its start to its end ([main] of [qos/src/main.rs]): it joins the
    channels, drops its privileges, stores the seed of its hash in the metadata of the
    scheduler channel, sets its tables up and runs until the exit flag is set.

    [shm] is the shared memory of the machine; joining and storing are parameters, as in
    [Setup].  The command line, the signal handler, the name of the thread and logging are
    left out. *)
From Stdlib Require Import ZArith Lia String.
From stdpp Require Import gmap list strings.
From S2P Require Import Prelude Lru F64 RedBlack ScoreTable Model ModelProps MinMax Wire Stats Timer Que.
From S2P Require Import Core CoreProps Banking BankingProps Qos QosProps Setup.
Local Open Scope Z_scope.

Section Code.
Context `{OrderedFloatOps} `{SokobanOps} `{PacketOps} `{HashOps} `{ViewOps} `{HeapOps} `{QueOps} `{SysOps}.
Context {SIGNERS IPS : nat} (META_CAP SIG_CAP : nat) {shm : Type}.
Abbreviation service := (Service (SIGNERS := SIGNERS) (IPS := IPS)).

(** What the [que] crate does with the shared memory. *)
Context (join_packets : shm → string → Z → PageSize → option (consumer PacketBytes)).
Context (join_metas : shm → string → Z → PageSize → option (consumer (QoSRemainingMeta ()))).
Context (join_signatures : shm → string → Z → PageSize → option (consumer (list Z))).
Context (join_producer : shm → string → Z → PageSize → option (producer PacketBytes)).
(** [metadata_ptr.as_ref().store(seed)] for the padding of a channel. *)
Context (store_padding : consumer (QoSRemainingMeta ()) → Z → shm → shm).

Definition service_main (use_huge_pages : bool) (args : Args)
    (raw_metas : option (LRUCache Z QoSPartialMeta)) (raw_sigs : option (LRUCache Z ())) (iterations fuel : nat)
    (m : shm) (s : sys) (w : Machine) : outcome (service * list (list Z * f64) * shm * sys) :=
  let page_size := get_page_size use_huge_pages in
  '(chans, sig_producer) ← join_ipc (join_packets m) (join_metas m) (join_signatures m) (join_producer m) page_size;
  let '(dropped, s) := checked_drop_privileges s in
  match dropped with
  | Err _ => Panic
  | Ok _ =>
     let m := store_padding (sch_consumer chans) (xxhash_seed args) m in
     sv ← main_init META_CAP SIG_CAP args chans sig_producer raw_metas raw_sigs w;
     '(sv, lines) ← main_run META_CAP SIG_CAP iterations fuel args sv;
     Ret (sv, lines, m, s)
  end.
End Code.

Section Props.
Context `{OrderedFloatLaws} `{SokobanLaws} `{PacketLaws} `{HashOps} `{ViewLaws} `{HeapLaws} `{QueLaws} `{SysLaws}.
Context {SIGNERS IPS : nat} (META_CAP SIG_CAP : nat) {shm : Type}.
Abbreviation service := (Service (SIGNERS := SIGNERS) (IPS := IPS)).
Context (join_or_create : message_type → string → Z → PageSize → shm → bool * shm).
Context (created : shm → message_type → string → Z → Prop).
Context (join_packets : shm → string → Z → PageSize → option (consumer PacketBytes)).
Context (join_metas : shm → string → Z → PageSize → option (consumer (QoSRemainingMeta ()))).
Context (join_signatures : shm → string → Z → PageSize → option (consumer (list Z))).
Context (join_producer : shm → string → Z → PageSize → option (producer PacketBytes)).
Context (store_padding : consumer (QoSRemainingMeta ()) → Z → shm → shm).

(** C13. From the command line tool to the running service.  Channels once created stay,
    and can be joined under the same name, capacity and page size (huge pages); they carry
    packets.  If the tool prints no failure, a service started with huge pages, on a
    machine with a usable counter whose clock advances and whose calibration measures a
    positive rate, joins its channels.  If it can drop its privileges, it runs with the
    identity of the user [SUDO_USER] names, stores its seed in the scheduler channel it
    joined, and loops for any number of iterations without a panic or undefined
    behaviour: it ends with the scores of its model, unless a feedback channel yields
    [fuel] messages in a row while it reads it, which does not happen to channels that are
    found empty after fewer.  If dropping the privileges fails, for whatever reason, the
    service stops there: it does not run as root. *)
Theorem service_starts args raw_metas raw_sigs (iterations fuel : nat) m s w ticks src :
  (∀ msg name size m, (join_or_create msg name size Huge m).1 = true → created (join_or_create msg name size Huge m).2 msg name size) →
  (∀ msg name size m msg' name' size', created m msg' name' size' → created (join_or_create msg name size Huge m).2 msg' name' size') →
  (∀ m name size, created m PacketMessage name size → is_Some (join_packets m name size Huge) ∧ is_Some (join_producer m name size Huge)) →
  (∀ m name size, created m MetaMessage name size → is_Some (join_metas m name size Huge)) →
  (∀ m name size, created m SignatureMessage name size → is_Some (join_signatures m name size Huge)) →
  (∀ m ch p, join_ipc (join_packets m) (join_metas m) (join_signatures m) (join_producer m) Huge = Ret (ch, p) → channels_safe src ch) →
  (0 < META_CAP)%nat → (0 < SIG_CAP)%nat → machine_ready ticks w →
  length (nodes raw_metas) = META_CAP → length (nodes raw_sigs) = SIG_CAP →
  (cli_main join_or_create m).1 = [] →
  let m' := (cli_main join_or_create m).2 in
  let start := service_main (SIGNERS := SIGNERS) (IPS := IPS) META_CAP SIG_CAP join_packets join_metas join_signatures join_producer
    store_padding true args (Some raw_metas) (Some raw_sigs) iterations fuel m' in
  ∃ ch p, join_ipc (join_packets m') (join_metas m') (join_signatures m') (join_producer m') Huge = Ret (ch, p) ∧
  match checked_drop_privileges s with
  | (Err _, _) => start s w = Panic
  | (Ok _, s') =>
     let ends := ∃ sv : service, accounted sv ∧ start s w =
       Ret (sv, save_ip_scores (qos_model (proc sv)), store_padding (sch_consumer ch) (xxhash_seed args) m', s') in
     sudo_user s (ids s').1 (ids s').2 ∧
     (ends ∨ (start s w = NoFuel ∧ ∃ k (sv0 sv : service),
        main_init META_CAP SIG_CAP args ch p (Some raw_metas) (Some raw_sigs) w = Ret sv0 ∧ (k < iterations)%nat ∧
        main_loop META_CAP SIG_CAP k fuel args sv0 = Ret sv ∧ floods fuel (channels sv))) ∧
     (channels_ok src fuel ch → ends)
  end.
Proof.
  intros Hnew Hkeep Hp Hm Hs Hch HM HS Hw Hrm Hrs Hcli. cbv zeta.
  destruct (cli_creates_channels join_or_create created join_packets join_metas join_signatures join_producer m
    Hnew Hkeep Hp Hm Hs Hcli) as (ch & p & Hjoin).
  change (get_page_size true) with Huge in Hjoin. set (m' := (cli_main join_or_create m).2) in *.
  unfold service_main. change (get_page_size true) with Huge. rewrite Hjoin, bind_Ret. cbn beta iota.
  exists ch, p. split; [done|]. pose proof (drop_cases s) as Hd.
  destruct (checked_drop_privileges s) as [[[]|e] s']; [|done]. specialize (Hd _ _ eq_refl).
  split; [destruct Hd as (uid & gid & Hu & _ & _ & _ & ->); done|].
  destruct (service_runs (SIGNERS := SIGNERS) (IPS := IPS) META_CAP SIG_CAP src args ch p raw_metas raw_sigs w ticks fuel iterations
    HM HS Hw (Hch _ _ _ Hjoin) Hrm Hrs) as (sv0 & -> & Hrun & Hok). rewrite bind_Ret. split.
  - destruct Hrun as [(sv & lines & Hr & Hac)|(Hr & k & sv & Hk & Hl & Hfl)].
    + left. exists sv. split; [done|]. unfold main_run in Hr |- *. destruct (main_loop _ _ _ _ _ _); try done.
      injection Hr as -> _. done.
    + right. rewrite Hr. split; [done|]. exists k, sv0, sv. by split_and!.
  - intros Hch'. destruct (Hok Hch') as (sv & lines & Hr & Hac). exists sv. split; [done|]. unfold main_run in Hr |- *.
    destruct (main_loop _ _ _ _ _ _); try done. injection Hr as -> _. done.
Qed.
End Props.

Section Witnesses.
#[local] Existing Instance ref_ordered_float.
#[local] Existing Instance ref_ordered_float_laws.
#[local] Existing Instance ref_sokoban.
#[local] Existing Instance ref_sokoban_laws.
#[local] Existing Instance ref_packet.
#[local] Existing Instance ref_packet_laws.
#[local] Existing Instance ref_hash.
#[local] Existing Instance ref_view.
#[local] Existing Instance ref_view_laws.
#[local] Existing Instance ref_heap.
#[local] Existing Instance ref_heap_laws.
#[local] Existing Instance ref_que.
#[local] Existing Instance ref_que_laws.
#[local] Existing Instance ref_sys.
#[local] Existing Instance ref_sys_laws.

(** The channels are joined as they were created, and a seed is one more entry. *)
Definition ref_store (_ : consumer (QoSRemainingMeta ())) (seed : Z) (m : list (message_type * string * Z)) :=
  (MetaMessage, "seed"%string, seed) :: m.

Lemma ref_join_quiet m ch p :
  join_ipc (ref_join PacketMessage no_packets m) (ref_join MetaMessage no_metas m)
    (ref_join SignatureMessage no_signatures m) (ref_join PacketMessage new_producer m) Huge = Ret (ch, p) →
  channels_ok (λ _, True) 1 ch.
Proof.
  unfold join_ipc, ref_join. repeat case_decide; try discriminate. intros [= <- <-].
  split; [|apply ref_served; [constructor|simpl; lia]..]. repeat (constructor; [apply ref_safe; constructor|]). constructor.
Qed.

Lemma service_starts_witness :
  ∃ sv lines s', service_main (SIGNERS := 16) (IPS := 16) 4 4 (ref_join PacketMessage no_packets) (ref_join MetaMessage no_metas)
    (ref_join SignatureMessage no_signatures) (ref_join PacketMessage new_producer) ref_store true demo_args
    (Some (new 4)) (Some (new 4)) 2 1 (cli_main ref_create []).2 root_process boot_machine =
    Ret (sv, lines, (MetaMessage, "seed"%string, 1) :: (cli_main ref_create []).2, s') ∧ ids s' = (1000, 100).
Proof.
  destruct (service_starts (SIGNERS := 16) (IPS := 16) 4 4 ref_create (λ m msg name size, (msg, name, size) ∈ m)
    (ref_join PacketMessage no_packets) (ref_join MetaMessage no_metas) (ref_join SignatureMessage no_signatures)
    (ref_join PacketMessage new_producer) ref_store demo_args (new 4) (new 4) 2 1 [] root_process boot_machine 1
    (λ _, True)) as (ch & p & Hjoin & Hrun).
  - intros. apply list_elem_of_here.
  - intros. by apply list_elem_of_further.
  - intros m name size Hc. unfold ref_join. by rewrite !decide_True.
  - intros m name size Hc. unfold ref_join. by rewrite decide_True.
  - intros m name size Hc. unfold ref_join. by rewrite decide_True.
  - intros m ch p Hj. eapply channels_ok_safe, ref_join_quiet, Hj.
  - lia.
  - lia.
  - exact demo_ready.
  - reflexivity.
  - reflexivity.
  - reflexivity.
  - change (checked_drop_privileges root_process) with (@Ok () DropError (), mkProcess 1000 100 false : sys) in Hrun.
    destruct Hrun as (_ & _ & Hends). destruct (Hends (ref_join_quiet _ _ _ Hjoin)) as (sv & _ & E).
    eexists sv, _, _. split; [exact E|reflexivity].
Defined.
End Witnesses.
