(* ===== verification/Screens.v ===== *)
(** The screens of the terminal programs and the programs around them: what is drawn
    ([format!] of the diagrams), the loops that draw it until the key [q], and the
    set-up, of the monitor ([engine-ipc/src/tui.rs]) and of the two demos
    ([ipc-demo/src/main.rs], [std-demo/src/main.rs]).

    Of the terminal library only this is visible: drawing and reading events can fail, and
    events arrive; what happens in each round is an argument ([Round]). *)
From Stdlib Require Import ZArith Lia SpecFloat String.
From stdpp Require Import gmap list strings.
From S2P Require Import Prelude F64 Wire Stats Timer Que Core Text Display Engine Monitor Setup.
Local Open Scope Z_scope.

(** ** The monitor *)
Module TuiScreen.
Import Tui.

(** The width in [{tpu:2.03}] is less than any number takes. *)
Definition diagram (r : Rates) : str :=
  text "
        ┌─────┐                        ┌──────────────┐
        │ TPU ├──────" ++
  format_fixed 3 (tpu r) ++
  text "M/s─────────►│     QOS      │
        └─────┘                        │              │
        ┌─────┐                        │              │
        │ FWD ├──────" ++
  format_fixed 3 (fwd r) ++
  text "M/s─────────►│              │
        └─────┘                        │              │
                                       │              │
                                       │              │ ────> dedup " ++
  format_fixed 3 (dedup r) ++
  text "M/s
                                       │              │ ──> invalid " ++
  format_fixed 3 (invalid r) ++
  text "M/s
                                       │              │
        ┌─────┐◄─────" ++
  format_fixed 3 (sig r) ++
  text "M/s──────────│    total     │ ───> leaked " ++
  format_fixed 3 (leaked r) ++
  text "M/s
        │ SIG │                        │   " ++
  format_fixed 3 (total r) ++
  text "M/s   │
        └─────┘──────" ++
  format_fixed 3 (sigf r) ++
  text "M/s─────────►│              │
           │                           │              │
        " ++
  format_fixed 3 (ss r) ++
  text "M/s                       │              │
           │                           │              │
           │                           │              │
           │                           │              │
           ▼                           │              │
        ┌─────┐──────" ++
  format_fixed 3 (not_sch r) ++
  text "M/s─────────►│              │
        │ SCH │                        │              │
        └─────┘──────" ++
  format_fixed 3 (sch r) ++
  text "M/s─────────►│              │
                                       └──────────────┘

                               Solana QoS
              _______                                   _ 
             |__   __|                                 | |
                | | ___ _ __ ___  _ __   ___  _ __ __ _| |
                | |/ _ \ '_ ` _ \| '_ \ / _ \| '__/ _` | |
                | |  __/ | | | | | |_) | (_) | | | (_| | |
                |_|\___|_| |_| |_| .__/ \___/|_|  \__,_|_|
                                 | |                      
                                 |_|                      
    ".

(** What one round reads: the five counters of the engine and the shared statistics. *)
Definition reading : Type := Z * Z * Z * Z * Z * Stats.
Definition frame (timer : Timer) (x : reading) (w : Machine) : outcome (str * Machine) :=
  let '(tpu_sends, fwd_sends, sigverify_recvs, sigverify_sends, scheduler_sends, qos_stats) := x in
  '(r, w) ← draw timer tpu_sends fwd_sends sigverify_recvs sigverify_sends scheduler_sends qos_stats w;
  Ret (diagram r, w).

(** The statistics are reset first, to start together with the timer. *)
Definition run {E} (rounds : list (reading * Round E)) (shared : abs_state) (w : Machine)
    : outcome (result () E * list str * Machine * abs_state) :=
  let shared := (spec_op shared OpReset).1 in
  w ← memoize_ticks_per_ms_and_invariant_tsc_check w;
  let '(timer, w) := timer_new w in
  '(res, screens, w) ← event_loop (frame timer) rounds w;
  Ret (res, screens, w, shared).

(** [FlowGraph::run]: an error of the loop is a panic, and then the terminal is not
    restored here. *)
Definition FlowGraph_run {E} (install : result () E) (rounds : list (reading * Round E)) (shared : abs_state) (w : Machine)
    : outcome (list str * Machine * abs_state) :=
  match install with
  | Err _ => Panic
  | Ok _ =>
     '(res, screens, w, shared) ← run rounds shared w;
     match res with Ok _ => Ret (screens, w, shared) | Err _ => Panic end
  end.
End TuiScreen.

(** ** The demo of the shared-memory channel *)
Module IpcScreen.
Import IpcDemo.

Definition N : Z := 16384.

Definition diagram (rps wps rbps wbps : f64) : str :=
  text "
             ┌────────────────┐      ┌────────────────┐
             │    Producer    │      │    Consumer    │
             │     " ++
  format_fixed 1 wps ++
  text "M/s    │─────►│     " ++
  format_fixed 1 rps ++
  text "M/s    │
             │    " ++
  format_fixed 1 wbps ++
  text "Gbps   │      │    " ++
  format_fixed 1 rbps ++
  text "Gbps   │
             └────────────────┘      └────────────────┘
    
                                Que
            _______                                   _ 
           |__   __|                                 | |
              | | ___ _ __ ___  _ __   ___  _ __ __ _| |
              | |/ _ \ '_ ` _ \| '_ \ / _ \| '__/ _` | |
              | |  __/ | | | | | |_) | (_) | | | (_| | |
              |_|\___|_| |_| |_| .__/ \___/|_|  \__,_|_|
                               | |                      
                               |_|                                  
                        
                                                    
        ".

(** A round reads [READS] and then [WRITES]. *)
Definition frame (timer : Timer) (x : Z * Z) (w : Machine) : outcome (str * Machine) :=
  let '(reads, writes) := x in
  '(elapsed, w) ← elapsed_ms timer w;
  let '(rps, wps, rbps, wbps) := rates reads writes elapsed in
  Ret (diagram rps wps rbps wbps, w).

Definition run {E} (rounds : list (Z * Z * Round E)) (w : Machine) : outcome (result () E * list str * Machine) :=
  let '(timer, w) := timer_new w in
  event_loop (frame timer) rounds w.

Definition display {E} (install : result () E) (rounds : list (Z * Z * Round E)) (w : Machine) : outcome (list str * Machine) :=
  match install with Err _ => Panic | Ok _ => restore_after (run rounds w) end.

(** The set-up: shared memory, its two ends, privileges; every failure is a panic.  The
    threads and the display start only then. *)
Definition main_setup `{QueOps} `{SysOps} {buffer : Type} (channel_size : Z)
    (open_or_create : string → Z → PageSize → option buffer)
    (initialize_in : buffer → option (producer PacketBytes)) (join : buffer → option (consumer PacketBytes)) (s : sys)
    : outcome (producer PacketBytes * consumer PacketBytes * sys) :=
  b ← unwrap (open_or_create "que_demo"%string channel_size Huge);
  p ← unwrap (initialize_in b);
  c ← unwrap (join b);
  let '(r, s) := checked_drop_privileges s in
  match r with Err _ => Panic | Ok _ => Ret (p, c, s) end.
End IpcScreen.

(** ** The demo of the standard library's channel *)
Module StdScreen.
Import StdDemo.

Definition diagram (rps wps rbps wbps : f64) : str :=
  text "
             ┌────────────────┐      ┌────────────────┐
             │    Producer    │      │    Consumer    │
             │     " ++
  format_fixed 1 wps ++
  text "M/s     │─────►│     " ++
  format_fixed 1 rps ++
  text "M/s     │
             │    " ++
  format_fixed 1 wbps ++
  text "Gbps    │      │    " ++
  format_fixed 1 rbps ++
  text "Gbps    │
             └────────────────┘      └────────────────┘
    
                             std channel
        ".

Definition frame (timer : Timer) (x : Z * Z) (w : Machine) : outcome (str * Machine) :=
  let '(reads, writes) := x in
  '(elapsed, w) ← elapsed_ms timer w;
  let '(rps, wps, rbps, wbps) := rates reads writes elapsed in
  Ret (diagram rps wps rbps wbps, w).

Definition run {E} (rounds : list (Z * Z * Round E)) (w : Machine) : outcome (result () E * list str * Machine) :=
  let '(timer, w) := timer_new w in
  event_loop (frame timer) rounds w.

Definition display {E} (install : result () E) (rounds : list (Z * Z * Round E)) (w : Machine) : outcome (list str * Machine) :=
  match install with Err _ => Panic | Ok _ => restore_after (run rounds w) end.
End StdScreen.

(** ** The programs end when they should *)

(** On a calibrated machine a frame can always be computed. *)
Lemma monitor_frame_runs ticks t0 x w :
  tuned ticks w → returns (TuiScreen.frame (RDTSC t0) x w) (λ o, tuned ticks o.2).
Proof.
  intros Ht. destruct x as [[[[[tpu fwd] recvs] sends] sch] s]. unfold TuiScreen.frame, Tui.draw.
  destruct (elapsed_ms_run ticks w t0 Ht) as (w1 & -> & A1 & _). rewrite !bind_Ret. eexists. split; [done|].
  by eapply tuned_advances.
Qed.

Lemma demo_frame_runs ticks t0 x w :
  tuned ticks w →
  returns (IpcScreen.frame (RDTSC t0) x w) (λ o, tuned ticks o.2) ∧
  returns (StdScreen.frame (RDTSC t0) x w) (λ o, tuned ticks o.2).
Proof.
  intros Ht. destruct x as [reads writes]. unfold IpcScreen.frame, StdScreen.frame.
  destruct (elapsed_ms_run ticks w t0 Ht) as (w1 & -> & A1 & _). rewrite !bind_Ret.
  split; eexists; (split; [done|]); by eapply tuned_advances.
Qed.

(** The monitor.  It asks for a reset of the statistics, sets its timer up, and then
    draws one screen per round.  When [q] is the first thing to happen that ends the loop,
    it returns after the screen of that round; when that is an error of the terminal, it
    panics.  Whatever the counters are, computing a screen never fails. *)
Theorem monitor_runs {E} ticks (pre post : list (TuiScreen.reading * Round E)) x r res shared w w1 :
  memoize_ticks_per_ms_and_invariant_tsc_check w = Ret w1 → tuned ticks w1 →
  Forall (λ y, round_end y.2 = None) pre → round_end r = Some res →
  match res with
  | Ok _ => ∃ screens w2, TuiScreen.FlowGraph_run (Ok () : result () E) (pre ++ (x, r) :: post) shared w =
      Ret (screens, w2, (stats_new, 1)) ∧ length screens = S (length pre)
  | Err _ => TuiScreen.FlowGraph_run (Ok () : result () E) (pre ++ (x, r) :: post) shared w = Panic
  end.
Proof.
  intros Hm Ht Hpre Hr. unfold TuiScreen.FlowGraph_run, TuiScreen.run. cbv zeta. rewrite Hm, bind_Ret.
  destruct (timer_new_run ticks w1 Ht) as (w2 & -> & A2 & _).
  destruct (event_loop_run (TuiScreen.frame (RDTSC (tsc w1 (tsc_reads w1)))) (tuned ticks) pre x r post w2 res)
    as ([[res' screens] w3] & -> & _ & Hres & Hlen); [intros; by apply monitor_frame_runs|by eapply tuned_advances|done|done|].
  cbn in Hres, Hlen. subst res'. rewrite !bind_Ret. destruct res as [[]|e]; [|done].
  exists screens, w3. split; [done|]. unfold round_end in Hr. destruct (rd_draw r); [lia|done].
Qed.

(** The demos likewise. *)
Lemma demos_run {E} ticks (pre post : list (Z * Z * Round E)) x r res w :
  tuned ticks w → Forall (λ y, round_end y.2 = None) pre → round_end r = Some res →
  match res with
  | Ok _ => (∃ screens w2, IpcScreen.display (Ok () : result () E) (pre ++ (x, r) :: post) w = Ret (screens, w2) ∧ length screens = S (length pre)) ∧
            (∃ screens w2, StdScreen.display (Ok () : result () E) (pre ++ (x, r) :: post) w = Ret (screens, w2) ∧ length screens = S (length pre))
  | Err _ => IpcScreen.display (Ok () : result () E) (pre ++ (x, r) :: post) w = Panic ∧
             StdScreen.display (Ok () : result () E) (pre ++ (x, r) :: post) w = Panic
  end.
Proof.
  intros Ht Hpre Hr. unfold IpcScreen.display, StdScreen.display, IpcScreen.run, StdScreen.run, restore_after.
  destruct (timer_new_run ticks w Ht) as (w2 & -> & A2 & _). set (t0 := tsc w (tsc_reads w)).
  destruct (event_loop_run (IpcScreen.frame (RDTSC t0)) (tuned ticks) pre x r post w2 res)
    as ([[res1 screens1] w3] & -> & _ & Hres1 & Hlen1); [intros; by apply demo_frame_runs|by eapply tuned_advances|done|done|].
  destruct (event_loop_run (StdScreen.frame (RDTSC t0)) (tuned ticks) pre x r post w2 res)
    as ([[res2 screens2] w4] & -> & _ & Hres2 & Hlen2); [intros; by apply demo_frame_runs|by eapply tuned_advances|done|done|].
  cbn in *. subst res1 res2. unfold round_end in Hr. destruct res as [[]|e]; [|done].
  destruct (rd_draw r) as [u|]; [|done]. split; do 2 eexists; (split; [done|lia]).
Qed.

(** One screen, then the key. *)
Definition quit_round : Round () := mkRound (Ok ()) (Ok true) (Ok (EventKey (KeyChar 113))).
Definition idle_round : Round () := mkRound (Ok ()) (Ok false) (Err ()).
Definition no_reading : TuiScreen.reading := (0, 0, 0, 0, 0, stats_new).

Lemma monitor_runs_witness :
  ∃ w1 screens w2, memoize_ticks_per_ms_and_invariant_tsc_check demo_tuned = Ret w1 ∧
    TuiScreen.FlowGraph_run (Ok () : result () ()) ([(no_reading, idle_round)] ++ [(no_reading, quit_round)]) abs_init demo_tuned =
      Ret (screens, w2, (stats_new, 1)) ∧ length screens = 2%nat.
Proof.
  destruct (memoize_ticks_per_ms_and_invariant_tsc_check demo_tuned) as [w1| | |] eqn:Hm; try (vm_compute in Hm; discriminate).
  assert (Ht : tuned 10 w1) by exact (tuned_advances _ _ _ (memoize_advances _ _ Hm) demo_tuned_ok).
  destruct (monitor_runs 10 [(no_reading, idle_round)] [] no_reading quit_round (Ok ()) abs_init demo_tuned w1 Hm Ht)
    as (screens & w2 & E & Hl); [by repeat constructor|reflexivity|].
  exists w1, screens, w2. split; [reflexivity|]. split; [exact E|exact Hl].
Defined.
