(* ===== verification/Tests.v ===== *)
(** The unit tests of the repository as programs of the model: each test is the
    translation of a [#[test]] function, an assertion that fails is a panic, and a test
    passes when it returns.

    The tests of the cache ([lru/src/lib.rs]), of the queue ([minmax/src/lib.rs]), of the
    scheduler record ([common/src/remaining_meta.rs]), of the packet hash
    ([internal-common/src/xxhash.rs]) and of the updates in place ([engine/src/agent.rs]). *)
From Stdlib Require Import ZArith Lia String.
From stdpp Require Import gmap list strings.
From S2P Require Import Prelude F64 Lru LruProps MinMax Wire Core Agent AgentProps Wireformat TxPatch Traffic.
Local Open Scope Z_scope.

(** [assert!] and [assert_eq!]. *)
Definition assert (b : bool) : outcome () := if b then Ret () else Panic.
Definition assert_eq {A} `{EqDecision A} (x y : A) : outcome () := assert (bool_decide (x = y)).

(** ** The cache: keys are [i32] *)
Module LruTests.
Section Tests.
Context {V : Type} `{EqDecision V}.
Abbreviation cache := (LRUCache Z V).
Implicit Type c : cache.

(** [assert_eq!(cache.put(k, v), r)], and the same of [get] and [pop]. *)
Definition put_is (N : nat) c (k : Z) (v : V) (r : option (Z * V) * bool) : outcome cache :=
  '(x, c) ← put N c k v;
  _ ← assert_eq x r;
  Ret c.
Definition get_is c (k : Z) (r : option V) : outcome cache :=
  '(x, c) ← get c k;
  _ ← assert_eq x r;
  Ret c.
Definition pop_is c (k : Z) (r : option (Z * V)) : outcome cache :=
  '(x, c) ← pop c k;
  _ ← assert_eq x r;
  Ret c.
End Tests.

Section Cases.
(** The zeroed memory [new_boxed] allocates for a capacity. *)
Context (zeroed : nat → LRUCache Z string) (zeroed_i32 : nat → LRUCache Z Z).
Abbreviation boxed N := (new_boxed N (Some (zeroed N))).

Definition test_insert_and_retrieve : outcome () :=
  cache ← boxed 2%nat;
  cache ← put_is 2 cache 1 "one" (None, false);
  cache ← put_is 2 cache 2 "two" (None, false);
  cache ← get_is cache 1 (Some "one");
  cache ← get_is cache 2 (Some "two");
  Ret ().

Definition test_eviction : outcome () :=
  cache ← boxed 2%nat;
  cache ← put_is 2 cache 1 "one" (None, false);
  cache ← put_is 2 cache 2 "two" (None, false);
  cache ← get_is cache 1 (Some "one");
  cache ← put_is 2 cache 3 "three" (Some (2, "two"), false);
  cache ← get_is cache 1 (Some "one");
  cache ← get_is cache 2 None;
  cache ← get_is cache 3 (Some "three");
  Ret ().

Definition test_update_existing_key : outcome () :=
  cache ← boxed 2%nat;
  cache ← put_is 2 cache 1 "one" (None, false);
  cache ← put_is 2 cache 2 "two" (None, false);
  cache ← put_is 2 cache 1 "uno" (None, true);
  cache ← get_is cache 1 (Some "uno");
  cache ← get_is cache 2 (Some "two");
  Ret ().

Definition test_lru_property : outcome () :=
  cache ← boxed 3%nat;
  cache ← put_is 3 cache 1 "one" (None, false);
  cache ← put_is 3 cache 2 "two" (None, false);
  cache ← put_is 3 cache 3 "three" (None, false);
  '(_, cache) ← get cache 2;
  '(_, cache) ← get cache 1;
  '(_, cache) ← get cache 3;
  cache ← put_is 3 cache 4 "four" (Some (2, "two"), false);
  cache ← get_is cache 1 (Some "one");
  cache ← get_is cache 2 None;
  cache ← get_is cache 3 (Some "three");
  cache ← get_is cache 4 (Some "four");
  Ret ().

Definition test_eviction_edge_case : outcome () :=
  cache ← boxed 1%nat;
  cache ← put_is 1 cache 1 "one" (None, false);
  cache ← put_is 1 cache 2 "two" (Some (1, "one"), false);
  cache ← get_is cache 1 None;
  cache ← get_is cache 2 (Some "two");
  Ret ().

Definition test_empty_cache : outcome () :=
  cache ← boxed 1%nat;
  cache ← get_is cache 1 None;
  Ret ().

Definition test_insert_same_key_multiple_times : outcome () :=
  cache ← boxed 2%nat;
  cache ← put_is 2 cache 1 "one" (None, false);
  cache ← put_is 2 cache 1 "uno" (None, true);
  cache ← get_is cache 1 (Some "uno");
  Ret ().

Definition test_multiple_evictions : outcome () :=
  cache ← boxed 2%nat;
  cache ← put_is 2 cache 1 "one" (None, false);
  cache ← put_is 2 cache 2 "two" (None, false);
  cache ← put_is 2 cache 3 "three" (Some (1, "one"), false);
  cache ← get_is cache 1 None;
  cache ← get_is cache 2 (Some "two");
  cache ← get_is cache 3 (Some "three");
  cache ← put_is 2 cache 4 "four" (Some (2, "two"), false);
  cache ← get_is cache 2 None;
  cache ← get_is cache 3 (Some "three");
  cache ← get_is cache 4 (Some "four");
  Ret ().

(** The two loops [for i in 0..1000]. *)
Fixpoint put_range (N : nat) (cache : LRUCache Z Z) (l : list nat) : outcome (LRUCache Z Z) :=
  match l with
  | [] => Ret cache
  | i :: l =>
     cache ← put_is N cache (Z.of_nat i) (Z.of_nat i) (None, false);
     put_range N cache l
  end.
Fixpoint get_range (cache : LRUCache Z Z) (l : list nat) : outcome (LRUCache Z Z) :=
  match l with
  | [] => Ret cache
  | i :: l =>
     cache ← get_is cache (Z.of_nat i) (Some (Z.of_nat i));
     get_range cache l
  end.

Definition test_large_capacity : outcome () :=
  cache ← new_boxed 1000 (Some (zeroed_i32 1000%nat));
  cache ← put_range 1000 cache (seq 0 1000);
  cache ← get_range cache (seq 0 1000);
  cache ← put_is 1000 cache 1000 1000 (Some (0, 0), false);
  cache ← get_is cache 0 None;
  cache ← get_is cache 1000 (Some 1000);
  Ret ().

Definition test_get_updates_lru_order : outcome () :=
  cache ← boxed 2%nat;
  cache ← put_is 2 cache 1 "one" (None, false);
  cache ← put_is 2 cache 2 "two" (None, false);
  cache ← get_is cache 1 (Some "one");
  cache ← put_is 2 cache 3 "three" (Some (2, "two"), false);
  cache ← get_is cache 1 (Some "one");
  cache ← get_is cache 2 None;
  cache ← get_is cache 3 (Some "three");
  Ret ().

Definition test_no_eviction_on_existing_key_update : outcome () :=
  cache ← boxed 2%nat;
  cache ← put_is 2 cache 1 "one" (None, false);
  cache ← put_is 2 cache 2 "two" (None, false);
  cache ← put_is 2 cache 1 "uno" (None, true);
  cache ← get_is cache 1 (Some "uno");
  cache ← get_is cache 2 (Some "two");
  Ret ().

Definition test_pop : outcome () :=
  cache ← boxed 3%nat;
  '(_, cache) ← put 3 cache 1 "one";
  '(_, cache) ← put 3 cache 2 "two";
  '(_, cache) ← put 3 cache 3 "three";
  cache ← pop_is cache 2 (Some (2, "two"));
  cache ← get_is cache 2 None;
  cache ← get_is cache 1 (Some "one");
  cache ← get_is cache 3 (Some "three");
  cache ← pop_is cache 4 None;
  Ret ().

Definition lru_tests : list (outcome ()) :=
  [test_insert_and_retrieve; test_eviction; test_update_existing_key; test_lru_property;
   test_eviction_edge_case; test_empty_cache; test_insert_same_key_multiple_times; test_multiple_evictions;
   test_large_capacity; test_get_updates_lru_order; test_no_eviction_on_existing_key_update; test_pop].
End Cases.
End LruTests.

(** ** The queue *)
Module MinMaxTests.
Section Tests.
Context `{HeapOps}.
Abbreviation queue := (MinMaxHeap Z).

(** [assert!(heap.push(x).is_none())]. *)
Definition push_none (N : nat) (x : Z) (h : queue) : outcome queue :=
  '(o, h) ← mm_push N x h;
  _ ← assert (bool_decide (o = None));
  Ret h.
(** [assert_eq!(iterator.next(), r)]; the iterator borrows the heap, so dropping it
    leaves the heap as the last [next] did. *)
Definition next_is (h : queue) (r : option Z) : outcome queue :=
  let '(o, h) := pop_desc_next h in
  _ ← assert_eq o r;
  Ret h.

(** How each test fills its heap. *)
Definition fill : outcome queue :=
  let heap := mm_new 4 in
  heap ← push_none 4 3 heap;
  heap ← push_none 4 1 heap;
  push_none 4 2 heap.

Definition max_capacity : outcome () :=
  heap ← fill;
  '(o, heap) ← mm_push 4 4 heap;
  assert_eq o (Some 1).

Definition get_max_values : outcome () :=
  heap ← fill;
  iterator ← next_is heap (Some 3);
  iterator ← next_is iterator (Some 2);
  iterator ← next_is iterator (Some 1);
  Ret ().

Definition drops_after : outcome () :=
  heap ← fill;
  heap ← next_is heap (Some 3);
  heap ← next_is heap (Some 2);
  Ret ().

Definition minmax_tests : list (outcome ()) := [max_capacity; get_max_values; drops_after].
End Tests.
End MinMaxTests.

(** ** The scheduler record, with three types of additional metadata *)
Module MetaTests.
(** [u64] and [u16] as types of their own, with their little-endian bytes. *)
#[global] Instance in_u_dec w x : Decision (in_u w x).
Proof. unfold in_u. apply _. Defined.
Definition uint (w : Z) : Type := dsig (in_u w).
Definition uint_of (n : nat) (x : Z) : uint (8 * Z.of_nat n) :=
  dexist (wrap (8 * Z.of_nat n) x) (wrap_in_u (8 * Z.of_nat n) x ltac:(lia)).

Lemma uint_bytes_round (n : nat) (x : uint (8 * Z.of_nat n)) :
  uint_of n (from_le_bytes (to_le_bytes n (`x))) = x.
Proof.
  apply dsig_eq. simpl. rewrite from_to_le_bytes. pose proof (proj2_dsig x) as Hx.
  assert (Hp : 2 ^ (8 * Z.of_nat n) = 256 ^ Z.of_nat n) by by rewrite Z.pow_mul_r by lia.
  rewrite <- Hp. fold (wrap (8 * Z.of_nat n) (`x)). by rewrite !(wrap_id _ _ Hx).
Qed.

#[global] Instance pod_u64 : Pod (uint 64) := {|
  pod_size := 8; pod_bytes x := to_le_bytes 8 (`x); pod_of_bytes l := uint_of 8 (from_le_bytes l);
  pod_bytes_len x := length_to_le_bytes 8 (`x); pod_round := uint_bytes_round 8 |}.

(** [MyType], packed: ten bytes. *)
Record MyType : Type := mkMyType { foo : uint 64; bar : uint 16 }.
#[global] Instance MyType_eq : EqDecision MyType.
Proof. solve_decision. Defined.
#[global] Instance pod_MyType : Pod MyType.
Proof.
  refine {|
    pod_size := 10;
    pod_bytes a := to_le_bytes 8 (proj1_sig (foo a)) ++ to_le_bytes 2 (proj1_sig (bar a));
    pod_of_bytes l := mkMyType (uint_of 8 (from_le_bytes (take 8 l))) (uint_of 2 (from_le_bytes (drop 8 l)));
  |}.
  - intros a. by rewrite length_app, !length_to_le_bytes.
  - intros [f b]. cbn [foo bar]. rewrite take_app_length', drop_app_length' by by rewrite length_to_le_bytes.
    f_equal; [apply (uint_bytes_round 8)|apply (uint_bytes_round 2)].
Defined.

#[global] Instance remaining_meta_eq {A} `{EqDecision A} : EqDecision (QoSRemainingMeta A).
Proof. solve_decision. Defined.

(** [assert_eq!(&remaining_meta, from_bytes_unchecked(remaining_meta.as_bytes()))]; [pad]
    is what the padding of the record holds. *)
Definition round_trip {A} `{EqDecision A} `{Pod A} (additional : A) (pad : list Z) : outcome () :=
  let remaining_meta := mkRemainingMeta 3 123 additional in
  read ← from_bytes_unchecked (as_bytes remaining_meta pad);
  assert_eq remaining_meta read.

Definition round_trip_several_variants (pad1 pad2 pad3 : list Z) : outcome () :=
  _ ← round_trip () pad1;
  _ ← round_trip (uint_of 8 0x69) pad2;
  round_trip (mkMyType (uint_of 8 0x69) (uint_of 2 0x420)) pad3.
End MetaTests.

(** ** The metadata of a packet *)
Module XxhashTests.
(** [*ptr.add(i)]. *)
Definition read_byte (mem : list Z) (i : nat) : outcome Z := unwrap_unchecked (mem !! i).
(** [from_fn(|i| *ptr.add(i))] for [n] bytes from offset [off]. *)
Fixpoint read_bytes (n off : nat) (mem : list Z) : outcome (list Z) :=
  match n with
  | O => Ret []
  | S n =>
     b ← read_byte mem off;
     l ← read_bytes n (S off) mem;
     Ret (b :: l)
  end.

#[global] Instance ipv4_eq : EqDecision Ipv4Addr.
Proof. solve_decision. Defined.
#[global] Instance ipaddr_eq : EqDecision IpAddr.
Proof. solve_decision. Defined.

Section Tests.
(** [PacketFlags::from_bits] and [PacketFlags::all]. *)
Context (from_bits : Z → option Z) (all_flags : Z).

Definition unpack_packet_meta (mem : list Z) : outcome Meta :=
  size ← read_bytes 8 0 mem;
  a ← read_byte mem 8;
  b ← read_byte mem 9;
  c ← read_byte mem 10;
  d ← read_byte mem 11;
  port ← read_bytes 2 12 mem;
  bits ← read_byte mem 14;
  flags ← unwrap (from_bits bits);
  Ret (mkPacketMeta (from_le_bytes size) (V4 (mkIpv4 a b c d)) (from_le_bytes port) flags).

(** The test on a buffer of [n] bytes. *)
Definition meta_round_trip (n : nat) : outcome () :=
  let meta := mkPacketMeta (from_le_bytes [1; 2; 3; 4; 5; 6; 7; 8]) (V4 (mkIpv4 9 10 11 12))
                           (from_le_bytes [13; 14]) all_flags in
  let meta_bytes := replicate n 0 in
  mem ← write_packet_meta_bytes meta_bytes 0 meta;
  unpacked_meta ← unpack_packet_meta mem;
  _ ← assert_eq (pkt_addr unpacked_meta) (pkt_addr meta);
  _ ← assert_eq (pkt_size unpacked_meta) (pkt_size meta);
  _ ← assert_eq (pkt_flags unpacked_meta) 0;
  assert_eq (pkt_port unpacked_meta) 0.

Definition test_packet_meta_round_trip : outcome () := meta_round_trip 12.
End Tests.
End XxhashTests.

(** ** The updates of the prepared transaction *)
Module AgentTests.
(** [TransactionView::try_new_sanitized], and the [data] of an [Instruction]. *)
Class SanitizedOps `{ViewOps} : Type := try_new_sanitized : list Z → option sanitized_view.
Class SanitizedLaws `{SanitizedOps} : Prop := try_new_sanitized_eq d :
  try_new_sanitized d = match try_new_unsanitized d with Some u => sanitize u | None => None end.
Class InstructionOps `{TxOps} : Type := instruction_data : instruction → list Z.
Class InstructionLaws `{InstructionOps} : Prop := price_instruction_data price :
  instruction_data (set_compute_unit_price price) = price_data price.

(** [iter().position(f)] and [windows(n)]. *)
Definition position {A} (f : A → bool) (l : list A) : option nat := fst <$> list_find f l.
Definition windows (n : nat) (l : list Z) : list (list Z) := (λ i, take n (drop i l)) <$> seq 0 (S (length l) - n).
(** [&buffer[..len]], and a call that gets it as [&mut]. *)
Definition slice_to (len : Z) (buffer : list Z) : outcome (list Z) :=
  if decide (len ≤ Z.of_nat (length buffer)) then Ret (take (Z.to_nat len) buffer) else Panic.
Definition on_slice (len : Z) (f : list Z → outcome (list Z)) (buffer : list Z) : outcome (list Z) :=
  bytes ← slice_to len buffer;
  bytes ← f bytes;
  Ret (bytes ++ drop (Z.to_nat len) buffer).

Section Tests.
Context `{EntropyOps} `{TxOps} `{ViewOps} `{BincodeOps} `{!SanitizedOps} `{!InstructionOps}.

(** [bincode::deserialize(&buffer[..len])], unwrapped, and the view of the same bytes. *)
Definition decoded (len : Z) (buffer : list Z) : outcome Transaction :=
  bytes ← slice_to len buffer;
  unwrap (bincode_deserialize bytes).
Definition viewed (len : Z) (buffer : list Z) : outcome () :=
  bytes ← slice_to len buffer;
  _ ← unwrap (try_new_sanitized bytes);
  Ret ().

Definition update_transaction (e : entropy) : outcome () :=
  '(packet, e) ← null_transfer_transaction_with_compute_unit_price e;
  _ ← assert_eq (pkt_size (pkt_meta packet)) (Z.of_nat PRICE_AND_TRANSFER_TX_TX_LEN);
  let buffer := pkt_buffer packet in
  _ ← assert_eq (position (λ b, bool_decide (b = 115)) buffer) (Some PRICE_AND_TRANSFER_TX_PRICE_U64_OFFSET);
  _ ← assert_eq (position (λ w, bool_decide (w = replicate 32 42)) (windows 32 buffer))
        (Some PRICE_AND_TRANSFER_TX_BLOCKHASH_OFFSET);
  let len := pkt_size (pkt_meta packet) in
  _ ← decoded len buffer;
  _ ← viewed len buffer;
  buffer ← on_slice len (λ bytes, update_compute_unit_price bytes 1) buffer;
  tx ← decoded len buffer;
  ix ← unwrap (tx_instructions tx !! 0%nat);
  id ← unwrap (tx_account_keys tx !! Z.to_nat (ci_program ix));
  _ ← assert_eq id COMPUTE_BUDGET_ID;
  ix ← unwrap (tx_instructions tx !! 0%nat);
  _ ← assert_eq (ci_data ix) (instruction_data (set_compute_unit_price 1));
  _ ← viewed len buffer;
  let '(hash, e) := hash_new_unique e in
  buffer ← on_slice len (λ bytes, update_blockhash bytes hash) buffer;
  tx ← decoded len buffer;
  _ ← assert_eq (tx_blockhash tx) hash;
  _ ← viewed len buffer;
  let '(k, e) := keypair_new e in
  buffer ← on_slice len (λ bytes, update_payer_and_signature bytes k) buffer;
  x ← decoded len buffer;
  ix ← unwrap (tx_instructions x !! 1%nat);
  _ ← assert_eq (ci_accounts ix) [0; 1];
  key ← unwrap (tx_account_keys x !! 0%nat);
  _ ← assert_eq key (kp_pubkey k);
  viewed len buffer.

Definition test_read_price (e : entropy) : outcome () :=
  '(packet, _) ← null_transfer_transaction_with_compute_unit_price e;
  price ← read_price packet;
  _ ← assert_eq price 115;
  buf ← update_compute_unit_price (pkt_buffer packet) 139;
  price ← read_price (set_buffer packet buf);
  assert_eq price 139.
End Tests.
End AgentTests.

(** ** The tests pass *)
Section Facts.
Context `{HeapLaws}.
Implicit Types (h : MinMaxHeap Z) (x : Z) (l : list Z).

Lemma assert_eq_refl {A} `{EqDecision A} (x : A) : assert_eq x x = Ret ().
Proof. unfold assert_eq. by rewrite bool_decide_true. Qed.

Lemma push_none_run (N : nat) x h l :
  mm_contents h ≡ₚ l → (S (length l) < N)%nat →
  ∃ h', MinMaxTests.push_none N x h = Ret h' ∧ mm_contents h' ≡ₚ x :: l.
Proof.
  intros Hl HN. pose proof (Permutation_length Hl) as Hlen.
  destruct (mm_push_run N x h) as (o & h' & Hp & _ & Hc & _ & Hnone & _); [lia|].
  assert (o = None) as -> by (apply Hnone; lia). exists h'.
  unfold MinMaxTests.push_none. rewrite Hp. split; [done|]. simpl in Hc. by rewrite Hc, Hl.
Qed.

Lemma next_is_run x h l :
  mm_contents h ≡ₚ x :: l → Forall (λ y, y ≤ x) l →
  ∃ h', MinMaxTests.next_is h (Some x) = Ret h' ∧ mm_contents h' ≡ₚ l.
Proof.
  intros Hl Hx. unfold MinMaxTests.next_is, pop_desc_next. unfold mm_contents in *.
  pose proof (pop_max_contents (inner h)) as Hmax. destruct (heap_pop_max (inner h)) as [[m|] i].
  - destruct Hmax as [Hc Hle]. assert (m = x) as ->.
    { assert (Hm : m ∈ x :: l) by (rewrite <- Hl, Hc; by left).
      assert (Hx' : x ∈ m :: contents i) by (rewrite <- Hc, Hl; by left).
      apply elem_of_cons in Hm as [->|Hm]; [done|]. apply elem_of_cons in Hx' as [->|Hx']; [done|].
      rewrite Forall_forall in Hx. specialize (Hx m Hm). assert (x ≤ m) by exact (Hle x Hx'). simpl in Hx. lia. }
    exists (mkHeap i). rewrite assert_eq_refl. split; [done|]. simpl.
    apply (Permutation_cons_inv (a := x)). by rewrite <- Hc.
  - destruct Hmax as [Hnil _]. rewrite Hnil in Hl. by apply Permutation_nil_cons in Hl.
Qed.

Lemma fill_run : ∃ h, MinMaxTests.fill = Ret h ∧ mm_contents h ≡ₚ [3; 2; 1].
Proof.
  unfold MinMaxTests.fill.
  destruct (push_none_run 4 3 (mm_new 4) []) as (h1 & -> & H1); [unfold mm_contents; simpl; by rewrite contents_new|simpl; lia|].
  destruct (push_none_run 4 1 h1 [3] H1) as (h2 & Hp2 & H2); [simpl; lia|].
  destruct (push_none_run 4 2 h2 [1; 3] H2) as (h3 & Hp3 & H3); [simpl; lia|].
  exists h3. rewrite bind_Ret, Hp2, bind_Ret. split; [done|]. by rewrite H3, (Permutation_app_comm [2; 1] [3]).
Qed.

Lemma minmax_tests_pass : Forall (λ t, t = Ret ()) MinMaxTests.minmax_tests.
Proof.
  destruct fill_run as (h & Hf & Hc).
  destruct (next_is_run 3 h [2; 1] Hc) as (h1 & Hn1 & H1); [repeat constructor; lia|].
  destruct (next_is_run 2 h1 [1] H1) as (h2 & Hn2 & H2); [repeat constructor; lia|].
  destruct (next_is_run 1 h2 [] H2) as (h3 & Hn3 & _); [constructor|].
  pose proof (Permutation_length Hc) as Hlen. simpl in Hlen.
  destruct (mm_push_run 4 4 h) as (o & h' & Hp & _ & Hc' & Hle & Hnone & _); [lia|].
  repeat apply Forall_cons_2; [..|constructor].
  - unfold MinMaxTests.max_capacity. rewrite Hf, bind_Ret, Hp, bind_Ret.
    destruct o as [e|]; [|exfalso; pose proof (proj1 Hnone eq_refl); lia].
    assert (e = 1) as ->; [|apply assert_eq_refl]. rewrite Hc in Hc'. simpl in Hc'.
    assert (He : e ∈ [4; 3; 2; 1]) by (rewrite <- Hc'; by left).
    assert (H1' : 1 ∈ e :: mm_contents h') by (rewrite Hc'; set_solver).
    apply elem_of_cons in H1' as [->|H1']; [done|].
    assert (e ≤ 1) by exact (Hle e 1 eq_refl H1'). set_unfold in He. lia.
  - unfold MinMaxTests.get_max_values. by rewrite Hf, bind_Ret, Hn1, bind_Ret, Hn2, bind_Ret, Hn3.
  - unfold MinMaxTests.drops_after. by rewrite Hf, bind_Ret, Hn1, bind_Ret, Hn2.
Qed.
End Facts.

Lemma lru_tests_pass (zeroed : nat → LRUCache Z string) (zeroed_i32 : nat → LRUCache Z Z) :
  (∀ N, length (nodes (zeroed N)) = N) → (∀ N, length (nodes (zeroed_i32 N)) = N) →
  Forall (λ t, t = Ret ()) (LruTests.lru_tests zeroed zeroed_i32).
Proof.
  intros Hz Hi. assert (Hn : ∀ N, new_boxed N (Some (zeroed N)) = Ret (new N)) by
    (intros N; by apply new_boxed_new).
  assert (Hn' : new_boxed 1000 (Some (zeroed_i32 1000%nat)) = Ret (new 1000)) by by apply new_boxed_new.
  unfold LruTests.lru_tests, LruTests.test_insert_and_retrieve, LruTests.test_eviction,
    LruTests.test_update_existing_key, LruTests.test_lru_property, LruTests.test_eviction_edge_case,
    LruTests.test_empty_cache, LruTests.test_insert_same_key_multiple_times, LruTests.test_multiple_evictions,
    LruTests.test_large_capacity, LruTests.test_get_updates_lru_order,
    LruTests.test_no_eviction_on_existing_key_update, LruTests.test_pop.
  rewrite !Hn, Hn'. repeat apply Forall_cons_2; [..|constructor]; vm_compute; reflexivity.
Qed.

Lemma round_trip_passes {A} `{EqDecision A} `{Pod A} (x : A) pad :
  (remaining_meta_pad (A := A) ≤ length pad)%nat → MetaTests.round_trip x pad = Ret ().
Proof.
  intros Hp. unfold MetaTests.round_trip.
  destruct (remaining_meta_round_trip (mkRemainingMeta 3 123 x) pad) as [_ ->]; [done..|].
  apply assert_eq_refl.
Qed.

(** The tests of the updates in place. *)
Section AgentFacts.
Context `{PacketOps} `{ViewOps} `{BincodeOps} `{!WireLaws} `{TxOps} `{!TxLaws} `{!CompileLaws}.
Context `{KeyLaws} `{!EntropyOps} `{!EntropyLaws} `{!UniqueLaws}.
Context `{!AgentTests.SanitizedOps} `{!AgentTests.SanitizedLaws} `{!AgentTests.InstructionOps} `{!AgentTests.InstructionLaws}.
Context (Hsize : (PRICE_AND_TRANSFER_TX_TX_LEN < PACKET_DATA_SIZE)%nat).
Implicit Types (t : transfer) (rest : list Z) (e : entropy).
Abbreviation len := (Z.of_nat PRICE_AND_TRANSFER_TX_TX_LEN).

Lemma read_price_passes e : AgentTests.test_read_price e = Ret ().
Proof.
  unfold AgentTests.test_read_price.
  destruct (prepared_carries Hsize e) as (p & e' & from & to & -> & _ & _ & Hc & _). rewrite bind_Ret. cbn beta iota.
  destruct p as [buf m], Hc as [Hok (rest & Hbuf & _) _]. cbn [pkt_buffer] in *. subst buf.
  rewrite wire_read_price, bind_Ret, assert_eq_refl, bind_Ret, patch_price, bind_Ret by done.
  unfold set_buffer. cbn [pkt_meta]. rewrite wire_read_price; [done|]. destruct Hok. by split.
Qed.

Lemma slice_wire t rest : transfer_ok t → AgentTests.slice_to len (wire t ++ rest) = Ret (wire t).
Proof.
  intros Hok. pose proof (wire_length t Hok) as Hl. unfold AgentTests.slice_to.
  rewrite decide_True by (rewrite length_app; lia). by rewrite Nat2Z.id, take_app_length'.
Qed.
Lemma on_slice_wire t t' rest f :
  transfer_ok t → f (wire t) = Ret (wire t') → AgentTests.on_slice len f (wire t ++ rest) = Ret (wire t' ++ rest).
Proof.
  intros Hok Hf. unfold AgentTests.on_slice. rewrite slice_wire, bind_Ret, Hf, bind_Ret by done.
  by rewrite Nat2Z.id, drop_app_length' by by rewrite wire_length.
Qed.
Lemma decoded_wire t rest : transfer_ok t → AgentTests.decoded len (wire t ++ rest) = Ret (transfer_tx t).
Proof.
  intros Hok. unfold AgentTests.decoded. rewrite slice_wire, bind_Ret by done. unfold wire.
  by rewrite deserialize_encode by by apply transfer_tx_ok.
Qed.
Lemma viewed_wire t rest : transfer_ok t → AgentTests.viewed len (wire t ++ rest) = Ret ().
Proof.
  intros Hok. unfold AgentTests.viewed. rewrite slice_wire, bind_Ret by done. destruct (transfer_tx_ok t Hok) as [Hx Hs].
  destruct (view_encode _ Hx Hs) as (u & v & Hu & Hv & _). unfold wire.
  by rewrite AgentTests.try_new_sanitized_eq, Hu, Hv.
Qed.

(** The first element that satisfies the test, and the first window. *)
Lemma position_app {A} (f : A → bool) l x l' :
  Forall (λ y, f y = false) l → f x = true → AgentTests.position f (l ++ x :: l') = Some (length l).
Proof.
  intros Hl Hx. unfold AgentTests.position. induction Hl as [|y l Hy _ IH]; cbn [app list_find].
  - by rewrite decide_True by by apply Is_true_true_2.
  - rewrite decide_False by (rewrite Hy; by intros []).
    destruct (list_find f (l ++ x :: l')) as [[i z]|]; [|done]. cbn in *. by injection IH as ->.
Qed.

Lemma windows_position n b l l' :
  (0 < n)%nat → b ∉ l →
  AgentTests.position (λ w, bool_decide (w = replicate n b)) (AgentTests.windows n (l ++ replicate n b ++ l')) = Some (length l).
Proof.
  intros Hn Hb. unfold AgentTests.windows. rewrite !length_app, length_replicate.
  replace (S (length l + (n + length l')) - n)%nat with (length l + S (length l'))%nat by lia.
  rewrite seq_app, fmap_app. cbn [seq fmap list_fmap Nat.add].
  rewrite position_app; [by rewrite length_fmap, length_seq| |].
  - apply Forall_fmap, Forall_forall. intros i Hi. apply elem_of_seq in Hi. cbn. apply bool_decide_false. intros E.
    apply (f_equal (lookup 0%nat)) in E. rewrite lookup_take_lt, lookup_drop, lookup_app_l, lookup_replicate_2 in E by lia.
    rewrite Nat.add_0_r in E. by apply Hb, (list_elem_of_lookup_2 _ i).
  - apply bool_decide_true. by rewrite drop_app_length, take_app_length' by by rewrite length_replicate.
Qed.

(** Where the prepared transaction has its first 115 and its first 32 times 42. *)
Lemma prepared_positions from to rest :
  let t := mkTransfer (replicate 64 0) from to (replicate 32 42) 115 0 in
  transfer_ok t → Forall (λ b, b ≠ 42 ∧ b ≠ 115) (from ++ to ++ COMPUTE_BUDGET_ID) →
  AgentTests.position (λ b, bool_decide (b = 115)) (wire t ++ rest) = Some PRICE_AND_TRANSFER_TX_PRICE_U64_OFFSET ∧
  AgentTests.position (λ w, bool_decide (w = replicate 32 42)) (AgentTests.windows 32 (wire t ++ rest)) =
    Some PRICE_AND_TRANSFER_TX_BLOCKHASH_OFFSET.
Proof.
  intros t Hok Hkeys. destruct (tk_payer _ Hok) as [Hf _], (tk_to _ Hok) as [Ht _].
  change (length from = 32%nat) in Hf. change (length to = 32%nat) in Ht.
  set (pre := [1] ++ replicate 64 0 ++ [1; 0; 2; 4] ++ from ++ to ++ SYSTEM_PROGRAM_ID ++ COMPUTE_BUDGET_ID).
  assert (Hpre : length pre = 197%nat) by (unfold pre; by rewrite !length_app, Hf, Ht, (proj1 compute_budget_bytes)).
  assert (Hno : Forall (λ b, b ≠ 42 ∧ b ≠ 115) pre).
  { apply Forall_app in Hkeys as [Hk1 [Hk2 Hk3]%Forall_app]. unfold pre.
    repeat apply Forall_app_2; try done; by apply (bool_decide_unpack _). }
  assert (E : wire t ++ rest = pre ++ replicate 32 42 ++ [2; 3; 0; 9; 3; 115] ++
    (replicate 7 0 ++ [2; 2; 0; 1; 12] ++ transfer_data 0 ++ rest)).
  { rewrite wire_eq. unfold pre. cbn [t tr_signature tr_payer tr_to tr_blockhash tr_price tr_lamports].
    change (to_le_bytes 8 115) with ([115] ++ replicate 7 0). rewrite <- !app_assoc. done. }
  split.
  - rewrite E. assert (E' : ∀ l : list Z, pre ++ replicate 32 42 ++ [2; 3; 0; 9; 3; 115] ++ l =
      (pre ++ replicate 32 42 ++ [2; 3; 0; 9; 3]) ++ 115 :: l) by (intros; by rewrite <- !app_assoc).
    rewrite E', position_app; [by rewrite !length_app, Hpre| |done]. apply Forall_app_2.
    + eapply Forall_impl; [exact Hno|]. intros b [_ Hb]. by apply bool_decide_false.
    + by apply (bool_decide_unpack _).
  - rewrite E, windows_position; [by rewrite Hpre|lia|]. intros Hin. rewrite Forall_forall in Hno. by destruct (Hno 42 Hin).
Qed.

Lemma update_transaction_passes e :
  Forall (λ b, b ≠ 42 ∧ b ≠ 115)
    ((pubkey_new_unique e).1 ++ (pubkey_new_unique (pubkey_new_unique e).2).1 ++ COMPUTE_BUDGET_ID) →
  AgentTests.update_transaction e = Ret ().
Proof.
  intros Hkeys. unfold AgentTests.update_transaction.
  destruct (prepared_carries Hsize e) as (p & e1 & from & to & -> & _ & Hsz & Hc & Hfrom & Hto). rewrite bind_Ret. cbn beta iota.
  rewrite <- Hfrom, <- Hto in Hkeys. rewrite Hsz, assert_eq_refl, bind_Ret. cbv zeta.
  destruct Hc as [Hok (rest & -> & _) _]. destruct (prepared_positions _ _ rest Hok Hkeys) as [-> ->].
  rewrite !assert_eq_refl, !bind_Ret, decoded_wire, bind_Ret, viewed_wire, bind_Ret by done.
  set (t := mkTransfer _ _ _ _ _ _) in *. set (t1 := with_price 1 t).
  assert (Hok1 : transfer_ok t1) by (destruct Hok; by split).
  rewrite (on_slice_wire t t1) by (try done; rewrite <- (app_nil_r (wire t)), patch_price by done; by rewrite app_nil_r).
  rewrite bind_Ret, decoded_wire, bind_Ret by done.
  cbn [transfer_tx tx_instructions tx_account_keys lookup list_lookup unwrap ci_program ci_data]. rewrite !bind_Ret.
  cbn [ci_program ci_data]. change (Z.to_nat 3) with 3%nat. cbn [lookup list_lookup unwrap]. rewrite bind_Ret, assert_eq_refl, bind_Ret.
  rewrite AgentTests.price_instruction_data, assert_eq_refl, bind_Ret, viewed_wire, bind_Ret by done.
  pose proof (unique_hash_bytes e1) as Hh. destruct (hash_new_unique e1) as [hash e2]. cbn [fst] in Hh.
  set (t2 := with_blockhash hash t1). assert (Hok2 : transfer_ok t2) by (destruct Hok1; by split).
  rewrite (on_slice_wire t1 t2) by
    (try done; rewrite <- (app_nil_r (wire t1)), patch_blockhash by (done || apply Hh); by rewrite app_nil_r).
  rewrite bind_Ret, decoded_wire, bind_Ret, assert_eq_refl, bind_Ret, viewed_wire, bind_Ret by done.
  destruct (keypair_new e2) as [k e3]. pose proof (pubkey_bytes k) as Hk.
  set (t3 := signed_by k t2). assert (Hok3 : transfer_ok t3).
  { destruct Hok2. split; try done. apply sign_bytes. }
  rewrite (on_slice_wire t2 t3) by (try done; by apply patch_payer_and_signature).
  rewrite bind_Ret, decoded_wire, bind_Ret by done.
  cbn [transfer_tx tx_instructions tx_account_keys lookup list_lookup unwrap ci_accounts]. rewrite bind_Ret, assert_eq_refl, !bind_Ret.
  rewrite assert_eq_refl, bind_Ret. by apply viewed_wire.
Qed.
End AgentFacts.

Lemma meta_test_run (from_bits : Z → option Z) (all_flags : Z) :
  from_bits 0 = Some 0 →
  XxhashTests.test_packet_meta_round_trip from_bits all_flags = UB ∧
  XxhashTests.meta_round_trip from_bits all_flags 15 = Ret ().
Proof.
  intros H0. split; [reflexivity|].
  vm_compute. rewrite H0. reflexivity.
Qed.

(** ** Properties *)
Section Props.
Context `{HeapLaws} `{PacketOps} `{ViewOps} `{BincodeOps} `{!WireLaws} `{TxOps} `{!TxLaws} `{!CompileLaws}.
Context `{KeyLaws} `{!EntropyOps} `{!EntropyLaws} `{!UniqueLaws}.
Context `{!AgentTests.SanitizedOps} `{!AgentTests.SanitizedLaws} `{!AgentTests.InstructionOps} `{!AgentTests.InstructionLaws}.

(** The unit tests of the cache, the queue, the scheduler record and the agents pass,
    for any zeroed memory the caches are made of, any heap that keeps its promises,
    whatever the padding of the records holds, and an SDK that writes and reads the
    documented format.  The test of the updates searches the prepared transaction for the
    bytes 115 and 42, so the keys that are drawn must not contain them.  The test of the
    packet metadata does not pass: it reads fifteen bytes of a buffer of twelve, which is
    undefined behaviour; on a buffer of fifteen it does. *)
Theorem unit_tests_pass (zeroed : nat → LRUCache Z string) (zeroed_i32 : nat → LRUCache Z Z)
    (pad1 pad2 pad3 : list Z) (from_bits : Z → option Z) (all_flags : Z) (e : entropy) :
  (∀ N, length (nodes (zeroed N)) = N) → (∀ N, length (nodes (zeroed_i32 N)) = N) →
  (6 ≤ length pad3)%nat → (PRICE_AND_TRANSFER_TX_TX_LEN < PACKET_DATA_SIZE)%nat → from_bits 0 = Some 0 →
  Forall (λ b, b ≠ 42 ∧ b ≠ 115)
    ((pubkey_new_unique e).1 ++ (pubkey_new_unique (pubkey_new_unique e).2).1 ++ COMPUTE_BUDGET_ID) →
  Forall (λ t, t = Ret ()) (LruTests.lru_tests zeroed zeroed_i32) ∧
  Forall (λ t, t = Ret ()) MinMaxTests.minmax_tests ∧
  MetaTests.round_trip_several_variants pad1 pad2 pad3 = Ret () ∧
  AgentTests.update_transaction e = Ret () ∧
  AgentTests.test_read_price e = Ret () ∧
  XxhashTests.test_packet_meta_round_trip from_bits all_flags = UB ∧
  XxhashTests.meta_round_trip from_bits all_flags 15 = Ret ().
Proof.
  intros Hz Hi Hpad Hsize Hbits Hkeys. split_and!.
  - by apply lru_tests_pass.
  - apply minmax_tests_pass.
  - unfold MetaTests.round_trip_several_variants.
    rewrite !round_trip_passes by first [apply Nat.le_0_l|exact Hpad]. done.
  - exact (update_transaction_passes Hsize e Hkeys).
  - exact (read_price_passes Hsize e).
  - exact (proj1 (meta_test_run from_bits all_flags Hbits)).
  - exact (proj2 (meta_test_run from_bits all_flags Hbits)).
Qed.
End Props.

(** ** Witnesses *)
Section Witnesses.
#[local] Existing Instance ref_heap.
#[local] Existing Instance ref_heap_laws.
#[local] Existing Instance ref_packet.
#[local] Existing Instance ref_wire_view.
#[local] Existing Instance ref_bincode.
#[local] Existing Instance ref_wire_laws.
#[local] Existing Instance ref_keys.
#[local] Existing Instance ref_keys_laws.
#[local] Existing Instance ref_entropy.
#[local] Existing Instance ref_entropy_laws.
#[local] Existing Instance ref_unique_laws.
#[local] Existing Instance ref_tx_wire.
#[local] Existing Instance ref_tx_wire_laws.
#[local] Existing Instance ref_compile_laws.

#[local] Instance ref_sanitized : AgentTests.SanitizedOps := λ d,
  match try_new_unsanitized d with Some u => sanitize u | None => None end.
#[local] Instance ref_sanitized_laws : AgentTests.SanitizedLaws.
Proof. done. Qed.
#[local] Instance ref_instruction_data : AgentTests.InstructionOps := λ i : ref_instruction,
  match i with inl price => price_data price | inr (_, _, lamports) => transfer_data lamports end.
#[local] Instance ref_instruction_laws : AgentTests.InstructionLaws.
Proof. done. Qed.

Lemma unit_tests_pass_witness :
  AgentTests.update_transaction demo_entropy = Ret () ∧ AgentTests.test_read_price demo_entropy = Ret () ∧
  XxhashTests.test_packet_meta_round_trip Some 255 = UB.
Proof.
  pose (z := λ (A : Type) (N : nat), mkLRUCache (K := Z) (V := A) (replicate N None) ∅ [] None None).
  destruct (unit_tests_pass (z string) (z Z) [] [] (replicate 6 0) Some 255 demo_entropy
    (λ N, length_replicate N None) (λ N, length_replicate N None)) as (_ & _ & _ & Hu & Hr & Hm & _);
    [apply Nat.leb_le; reflexivity|apply Nat.ltb_lt; reflexivity|reflexivity|by apply (bool_decide_unpack _)|].
  split; [exact Hu|]. split; [exact Hr|exact Hm].
Defined.
End Witnesses.
