(* ===== verification/Examples.v ===== *)
(** The example programs of the repository, as programs of the model:
    [model/examples/mock.rs] and [simple.rs] (a model with given scores, updated and
    queried), [engine/examples/sample.rs], [rng.rs] and [gen.rs] (prices, random numbers
    and packets of an agent) and [timer/examples/timer.rs].

    What a program prints or writes to its file is its result. *)
From Stdlib Require Import ZArith Lia SpecFloat.
From stdpp Require Import gmap list.
From S2P Require Import Prelude F64 OrdMap RedBlack ScoreTable ScoreTableFacts Model ModelProps Timer Wire Rng Agent AgentProps.
Local Open Scope Z_scope.

(** ** The model *)
Module ModelExamples.
Section Code.
Context `{OrderedFloatOps} `{SokobanOps}.

Definition ip_scores : list (Ip4 * f64) :=
  [(0xdeadbeef, f64_lit 1 10); (0xbeefdead, f64_lit 2 10); (0x0dadbad0, f64_lit 1 10); (0xfabafaba, f64_lit 3 10)].
Definition signer_scores : list (SignerKey * f64) :=
  [(replicate 32 0, f64_lit 1 10); (replicate 32 1, f64_lit 2 10); (replicate 32 2, f64_lit 1 10);
   (replicate 32 3, f64_lit 3 10)].

(** [mock.rs]: a trained model and a batch for it. *)
Definition mock_pretrained_model : IpSignerModel 5 5 := model_new ip_scores signer_scores.
Definition transactions : list QoSTransactionMeta :=
  replicate 5 (new_for_tests 0xdeadbeef (replicate 32 0) 1000 1000) ++
  replicate 5 (new_for_tests 0xdeadbeef (replicate 32 1) 1000 1000).
Definition mock_main : outcome (IpSignerModel 5 5) := update_model transactions 5 5 mock_pretrained_model.

(** [simple.rs]: the lines it prints. *)
Definition queries : list (Ip4 * SignerKey) :=
  [(0xdeadbeef, replicate 32 0); (0xbeefdead, replicate 32 1); (0xdeadbeef, replicate 32 5)].
Definition simple_main : list (f64 * Ip4 * SignerKey) :=
  let model : IpSignerModel 8 8 := model_new ip_scores signer_scores in
  (λ q, (qm_forward model q.1 q.2 (), q.1, q.2)) <$> queries.
End Code.
End ModelExamples.

(** ** The timer; the time the program sleeps is in the readings of the counter *)
Module TimerExample.
Definition timer_main (w : Machine) : outcome Z :=
  w ← memoize_ticks_per_ms_and_invariant_tsc_check w;
  let '(timer, w) := timer_new w in
  '(ms, _) ← elapsed_ms timer w;
  Ret ms.
End TimerExample.

(** ** The agents *)
Module EngineExamples.
Section Code.
Context `{EntropyOps} `{DistOps} `{HashOps} `{ConstHashOps} `{TxOps}.

(** [for _ in 0..n { write(rng.gen::<f32>()) }]. *)
Fixpoint gen_floats (n : nat) (rng : FastxxHashRng) : list f32 :=
  match n with
  | O => []
  | S n => let '(x, rng) := gen_f32 rng in x :: gen_floats n rng
  end.
Definition rng_main : list f32 := gen_floats (Z.to_nat 100000) (rng_new 0x123).

(** [for _ in 0..n { write(signer.sample_cu_price(&mut rng)) }]. *)
Fixpoint sample_prices (n : nat) (s : Signer) (rng : FastxxHashRng) : list Z :=
  match n with
  | O => []
  | S n => let '(x, rng) := sample_cu_price s rng in x :: sample_prices n s rng
  end.
(** The mean price, printed, and the samples, written. *)
Definition sample_main (e : entropy) : outcome (Z * list Z) :=
  '(signer, _) ← signer_new (f32_ln (f32_of_uint 100000000)) (f32_of_uint 5) e;
  Ret (mean_price signer, sample_prices (Z.to_nat 100000) signer (rng_new 0xABC)).

(** [for _ in 0..n { ip.update_transfer_with_priority(&mut packet) }]. *)
Fixpoint replace_packets (n : nat) (ip : Ip) (packet : Packet) (e : entropy) : outcome (Ip * Packet * entropy) :=
  match n with
  | O => Ret (ip, packet, e)
  | S n =>
     '(ip, packet, e) ← update_transfer_with_priority ip packet e;
     replace_packets n ip packet e
  end.
(** The time, printed, and the last packet. *)
Definition gen_main (w : Machine) (e : entropy) : outcome (Z * Packet) :=
  w ← memoize_ticks_per_ms_and_invariant_tsc_check w;
  let ipv4 := [0; 0; 0; 0] in
  let log_mean := f32_ln (f32_of_uint 1000000) in
  let std := f32_of_uint 3 in
  '(ip, e) ← ip_new ipv4 log_mean std e;
  '(packet, e) ← null_transfer_transaction_with_compute_unit_price e;
  let '(timer, w) := timer_new w in
  '(_, packet, _) ← replace_packets (Z.to_nat 1000000) ip packet e;
  '(ms, _) ← elapsed_ms timer w;
  Ret (ms, packet).
End Code.
End EngineExamples.

(** ** Facts *)
Lemma timed_run ticks w :
  tuned ticks w →
  ∃ t w1 w2, timer_new w = (t, w1) ∧
    elapsed_ms t w1 = Ret ((tsc w (S (tsc_reads w)) - tsc w (tsc_reads w)) / ticks, w2).
Proof.
  intros Ht. destruct (timer_new_run _ _ Ht) as (w1 & Hnew & Ha & Hr).
  destruct (elapsed_ms_run ticks w1 (tsc w (tsc_reads w))) as (w2 & He & _); [by eapply tuned_advances|].
  destruct (tuned_tsc _ _ Ht) as [Hu Hm]. rewrite (adv_tsc _ _ Ha), Hr, u64_sub_mono in He by (done || apply Hm; lia).
  eauto.
Qed.

(** The timer example prints the time between its two readings. *)
Theorem timer_example_prints ticks w w1 :
  memoize_ticks_per_ms_and_invariant_tsc_check w = Ret w1 → tuned ticks w1 →
  TimerExample.timer_main w = Ret ((tsc w1 (S (tsc_reads w1)) - tsc w1 (tsc_reads w1)) / ticks).
Proof.
  intros Hm Ht. unfold TimerExample.timer_main. rewrite Hm, bind_Ret.
  destruct (timed_run _ _ Ht) as (t & w2 & w3 & -> & ->). done.
Qed.

Section Engine.
Context `{EntropyLaws} `{DistLaws} `{HashOps} `{ConstHashOps} `{TxLaws}.

Lemma sample_prices_bound n (s : Signer) rng :
  length (EngineExamples.sample_prices n s rng) = n ∧
  Forall (λ x, 0 ≤ x ≤ 1000000000) (EngineExamples.sample_prices n s rng).
Proof.
  revert rng. induction n as [|n IH]; intros rng; cbn [EngineExamples.sample_prices]; [by repeat constructor|].
  pose proof (price_of_bound (mkIp [] s rng false)) as Hb. unfold price_of in Hb. cbn [ip_signer ip_rng] in Hb.
  destruct (sample_cu_price s rng) as [x rng']. destruct (IH rng') as [Hl Hf].
  split; [cbn [length]; by f_equal|by constructor].
Qed.

(** The sampling example writes 100000 prices of at most 1e9. *)
Theorem sample_example_writes e :
  is_Some (lognormal_new (f32_ln (f32_of_uint 100000000)) (f32_of_uint 5)) →
  ∃ mean prices, EngineExamples.sample_main e = Ret (mean, prices) ∧
    length prices = Z.to_nat 100000 ∧ Forall (λ x, 0 ≤ x ≤ 1000000000) prices.
Proof.
  intros [d Hd]. unfold EngineExamples.sample_main, signer_new.
  destruct (keypair_new e) as [k e']. rewrite Hd. cbn [unwrap]. rewrite !bind_Ret.
  do 2 eexists. split; [done|]. apply sample_prices_bound.
Qed.

Lemma replace_packets_run n ip p e :
  (PRICE_AND_TRANSFER_TX_TX_LEN < PACKET_DATA_SIZE)%nat → packet_ok p →
  length (ip_bytes ip) = 4%nat → Forall u8_ok (ip_bytes ip) →
  ∃ ip' p' e', EngineExamples.replace_packets n ip p e = Ret (ip', p', e') ∧ packet_ok p' ∧
    (n = O ∧ p' = p ∨ pkt_addr (pkt_meta p') = V4 (ip_addr ip)).
Proof.
  intros Hlen. revert ip p e.
  induction n as [|n IH]; intros ip p e Hok Hip Hip8; cbn [EngineExamples.replace_packets].
  { exists ip, p, e. auto. }
  pose proof (ok_buffer_len _ Hok) as Hbl. destruct (update_transfer_run ip p e) as [rng' ->]; [lia|].
  destruct (update_transfer_parts ip p e Hlen Hok Hip Hip8) as (Hok' & _). rewrite bind_Ret.
  edestruct (IH (mkIp (ip_bytes ip) (ip_signer ip) rng' (ip_bad ip)) _ (random_array 64 (hash_new_unique e).2).2 Hok')
    as (ip' & p' & e' & -> & Hp & Ha); [done..|].
  exists ip', p', e'. split_and!; [done..|]. right. by destruct Ha as [[_ ->]|Ha].
Qed.

(** The packet generation example makes its million packets and prints the time between
    the two readings of its timer; the last packet is well-formed and has the address of the
    agent. *)
Theorem gen_example_runs ticks w w1 e :
  memoize_ticks_per_ms_and_invariant_tsc_check w = Ret w1 → tuned ticks w1 →
  (PRICE_AND_TRANSFER_TX_TX_LEN < PACKET_DATA_SIZE)%nat →
  is_Some (lognormal_new (f32_ln (f32_of_uint 1000000)) (f32_of_uint 3)) →
  ∃ p, EngineExamples.gen_main w e = Ret ((tsc w1 (S (tsc_reads w1)) - tsc w1 (tsc_reads w1)) / ticks, p) ∧
    packet_ok p ∧ pkt_addr (pkt_meta p) = V4 (mkIpv4 0 0 0 0).
Proof.
  intros Hm Ht Hlen [d Hd]. unfold EngineExamples.gen_main. rewrite Hm, bind_Ret.
  unfold ip_new, ip_make, signer_new. destruct (random_u64 e) as [seed e1], (keypair_new e1) as [k e2].
  rewrite Hd. cbn [unwrap]. rewrite !bind_Ret. cbn beta iota.
  unfold null_transfer_transaction_with_compute_unit_price.
  destruct (pubkey_new_unique e2) as [from e3], (pubkey_new_unique e3) as [to e4].
  destruct (price_and_transfer_packet 115 from to 0 (replicate 32 42)) as (p & -> & Hok & _).
  cbn [unwrap]. rewrite !bind_Ret. cbn beta iota.
  destruct (timed_run _ _ Ht) as (t & w2 & w3 & -> & Hel).
  edestruct (replace_packets_run (Z.to_nat 1000000)) as (ip' & p' & e' & -> & Hp & Ha); [done..| |].
  { repeat constructor; unfold in_u; lia. }
  rewrite bind_Ret, Hel. cbn. exists p'. split_and!; [done..|]. destruct Ha as [[? _]|Ha]; [lia|done].
Qed.
End Engine.

(** ** Properties *)
Section Props.
Context `{OrderedFloatLaws} `{SokobanLaws}.
Import ModelExamples.

Lemma scores_distinct : NoDup ip_scores.*1 ∧ NoDup signer_scores.*1.
Proof. split; apply (bool_decide_unpack _); vm_compute; exact I. Qed.

(** A model of the example scores with room for four sources has these scores. *)
Lemma example_model_wf (NS NI : nat) :
  (4 ≤ capacity NS)%nat → (4 ≤ capacity NI)%nat →
  let m : IpSignerModel NS NI := model_new ip_scores signer_scores in
  model_wf m ∧ (∀ ip, lookup_score ip (ip_score m) = al_get ip ip_scores) ∧
  (∀ k, lookup_score k (signer_score m) = al_get k signer_scores).
Proof.
  intros HS HI m. destruct scores_distinct as [Hi Hs]. split; [by apply model_new_wf|].
  destruct (table_new_wf (MAX := NI) IP_PAD ip_scores Hi) as [_ Hi'].
  destruct (table_new_wf (MAX := NS) SIGNER_PAD signer_scores Hs) as [_ Hs'].
  unfold m, model_new. destruct (table_new SIGNER_PAD signer_scores), (table_new IP_PAD ip_scores). auto.
Qed.

(** A table whose scores are those of a list without repetitions has as many entries. *)
Lemma lookup_length {MAX : nat} pad (sc : rbt MAX Ip4 f64) inv (l : list (Ip4 * f64)) :
  table_wf pad sc inv → (∀ k, lookup_score k sc = al_get k l) → (length (elems sc) ≤ length l)%nat.
Proof.
  intros Hwf Hl. destruct (wf_synced _ _ _ Hwf) as [Hnd _].
  rewrite <- (length_fmap fst (elems sc)), <- (length_fmap fst l). apply submseteq_length, NoDup_submseteq; [done|].
  intros k Hk. destruct (al_get k l) as [v|] eqn:E.
  - apply al_get_elem in E as (k' & Hin & ->%cmp_eq). by apply (list_elem_of_fmap_2 fst _ (k', v)).
  - rewrite <- Hl in E. by apply al_get_None_keys in E.
Qed.

(** The candidates of the ten transactions: one address, with the mean one. *)
Lemma example_candidates :
  length (collect_candidates transactions).2 = 1%nat ∧
  ∀ ip, batch_score (collect_candidates transactions).2 ip = if decide (ip = 0xdeadbeef) then Some f64_one else None.
Proof.
  split; [reflexivity|]. intros ip. unfold batch_score. rewrite (proj1 (batch_candidates transactions ip [])).
  unfold transactions. cbn [replicate app]. case_decide as Hip.
  - subst ip. replace (meta_value <$> _) with (replicate 10 f64_one) by (vm_compute; reflexivity).
    cbn [replicate candidate_of fold_left length]. rewrite !of_add_f64. cbn [count]. unfold candidate_finalize.
    rewrite of_div_f64. vm_compute. reflexivity.
  - rewrite !filter_cons_False by (cbn; congruence). reflexivity.
Qed.

(** The two example programs of the model.  The first trains a model of four
    addresses with ten transactions of the first one, each worth one: it ends without a
    panic, and in the resulting model the score of that address has moved a twentieth of
    the way from 0.1 to one, while each of the other three has moved a twentieth of the way
    to the median.  The second prints three scores: the products of the scores of known
    sources, and for the unknown signer the product with the score of one of the known
    signers. *)
Theorem model_examples :
  (5 ≤ capacity 5)%nat → (4 ≤ capacity 8)%nat →
  (∃ m, mock_main = Ret m ∧ model_wf m ∧
    (length (elems (signer_score m)) ≤ 5)%nat ∧
    ∀ ip, lookup_score ip (ip_score m) =
      (λ s, ema s (if decide (ip = 0xdeadbeef) then f64_one
                   else approximate_median_ip_score mock_pretrained_model)) <$> al_get ip ip_scores) ∧
  (∃ s, s ∈ signer_scores.*2 ∧
    simple_main.*1.*1 = [f64_mul (f64_lit 1 10) (f64_lit 1 10); f64_mul (f64_lit 2 10) (f64_lit 2 10);
                       f64_mul (f64_lit 1 10) s]).
Proof.
  intros H5 H8. split.
  - destruct (example_model_wf 5 5) as (Hwf & Hi & _); [lia|lia|]. fold mock_pretrained_model in *.
    destruct example_candidates as [Hlen Hb].
    pose proof (lookup_length _ _ _ _ (wf_ip _ Hwf) Hi) as Hl. cbn [length ip_scores] in Hl.
    destruct (update_model_run mock_pretrained_model transactions 5 5 Hwf) as (m & Hm & Hwf' & _ & Hls & Hips & _).
    destruct Hips as [_ Hips]; [rewrite Hlen; lia|]. exists m. split_and!; [exact Hm|done|done|].
    intros ip. rewrite Hips by (rewrite Hlen; lia). unfold refreshed_ip_score, updated_score. rewrite Hi, Hb.
    destruct (al_get ip ip_scores) as [s|] eqn:E; [|by rewrite decide_False by (intros ->; discriminate)].
    simpl. by case_decide.
  - destruct (example_model_wf 8 8) as (Hwf & Hi & Hs); [done|done|].
    set (m := model_new ip_scores signer_scores : IpSignerModel 8 8) in *.
    unfold simple_main. fold m. cbn [queries fmap list_fmap fst snd qm_forward ip_signer_qos_model].
    unfold _forward, approximate_median_signer_score. rewrite !get_elems.
    unfold lookup_score in Hi, Hs. rewrite !Hi, !Hs, !of_mul_f64.
    destruct (median_cases _ _ _ (wf_signer _ Hwf)) as [[Hnil _]|(k & s & Hk & ->)].
    { specialize (Hs (replicate 32 0)). rewrite Hnil in Hs. discriminate. }
    exists s. split; [|reflexivity]. unfold lookup_score in Hk. rewrite Hs in Hk.
    apply al_get_elem in Hk as (k' & Hin & _). by apply (list_elem_of_fmap_2 snd _ (k', s)).
Qed.
End Props.

(** ** Witnesses *)
Section Witnesses.
#[local] Existing Instance ref_ordered_float.
#[local] Existing Instance ref_ordered_float_laws.
#[local] Existing Instance ref_sokoban.
#[local] Existing Instance ref_sokoban_laws.

Lemma model_examples_witness :
  ∃ m, ModelExamples.mock_main = Ret m ∧
    lookup_score 0xdeadbeef (ip_score m) = Some (ema (f64_lit 1 10) f64_one).
Proof.
  destruct model_examples as [(m & Hm & _ & _ & Hs) _]; [vm_compute; lia|vm_compute; lia|].
  exists m. split; [exact Hm|]. rewrite Hs. vm_compute. reflexivity.
Defined.
End Witnesses.
